(* ===== verification/_CoqProject ===== *)
-Q . S2P
Prelude.v
Pmm.v
PmmProofs.v
PmmTheorems.v
Mem.v
Lib.v
Vmm.v
VmmInterface.v
VmmProofs.v
VmmSpecs.v
VmmPmm.v
VmmTheorems.v
Mmu.v
MmuTheorems.v
VmmOrder.v
Kmem.v
KmemProofs.v
KmemBlocks.v
KmemSpecs.v
KmemTheorems.v
Sched.v
SchedProofs.v
SchedSpecs.v
SchedTheorems.v
Machine.v
Syscall.v
SyscallTheorems.v
Console.v
ConsoleProofs.v
ConsoleTheorems.v
Interrupts.v
InterruptProofs.v
InterruptSpecs.v
InterruptTheorems.v
Kmain.v
KmainProofs.v
KmainTheorems.v
Layout.v
Toolchain.v
Asm.v
AsmProofs.v
ContextSwitch.v
AsmTheorems.v
KernelCall.v
HostTests.v
