(* ===== verification/Prelude.v ===== *)
(** * MCSOS: a verified model of a teaching kernel

    MCSOS is a small x86_64 kernel in C with assembly stubs.  This library
    models its code function by function and proves what makes each part
    correct.  Names follow the sources; paths are relative to [src/].

    ** The program and the files that model it

    - Physical memory manager ([src/pmm.c], [include/pmm.h]): a bitmap of page
      frames.  [Pmm] has the state record and one definition per function,
      [PmmProofs] its invariant and lemmas, [PmmTheorems] the theorems.
    - Virtual memory manager ([src/vmm.c], [include/vmm.h]): four-level page
      tables in byte memory, reached through the callbacks of a space.  [Mem] is
      the memory, [Vmm] the code (with [invlpg], CR2 and CR3 as processor
      state), [VmmInterface] the class [FrameSource] of what a space's callbacks
      promise, [VmmProofs], [VmmSpecs] and [VmmTheorems] the proofs against that
      class, [VmmPmm] its instance made of the physical memory manager and a
      higher-half direct map.  [Mmu] writes down what the processor does with the
      tables (its page walk, the permissions of all levels combined, and the
      translation cache with [invlpg] and CR3 loads); [MmuTheorems] shows that it
      sees the address space the module promises, and [VmmOrder] that it does so
      also between two stores of a map, recorded one by one.
    - Kernel heap ([kernel/mm/kmem.c], [include/mcsos/kmem.h]): a doubly linked
      list of headers inside the heap.  [Kmem] is the code on byte memory,
      [KmemProofs] the header accesses, [KmemBlocks] and [KmemSpecs] the list of
      blocks the memory represents ([heap_rep]), [KmemTheorems] the theorems.
    - Scheduler and threads ([kernel/sched/mcsos_thread.c],
      [include/mcsos_thread.h], [kernel/arch/x86_64/context_switch.S]): a FIFO of
      thread objects linked through their [next] pointers, in a store addressed
      by pointer, and the register switch.  [Sched], [SchedProofs],
      [SchedSpecs], [SchedTheorems].
    - Memory primitives ([kernel/lib/memory.c]): [Lib].
    - Processor and ports ([kernel/arch/x86_64/include]): [Machine].  Devices are
      a parameter, a function from the history of port accesses to the next
      byte read; code that uses ports runs in the monad [M], whose answer is
      [None] once the processor is in the kernel's halt loop.
    - System calls ([kernel/syscall/syscall.c], [syscall_entry.S],
      [include/mcsos/syscall.h]): [Syscall] and [SyscallTheorems].  The callbacks
      act on the memory and on a parametric rest of the world; the classes
      [SyscallBackend] and [KernelStack] say what the layer asks of them.
    - Console, log and panic ([kernel/core/serial.c], [log.c], [panic.c]):
      [Console]; [ConsoleProofs] reads the history as the UART does and has the
      rules for code that prints; [ConsoleTheorems].
    - Interrupts ([kernel/arch/x86_64/idt.c], [isr.S], [pic.c], [pit.c],
      [kernel/core/trap.c]): [Interrupts]; [InterruptProofs] and
      [InterruptSpecs] read gates, controllers and timer as the hardware does;
      [InterruptTheorems].
    - Boot ([kernel/core/kmain.c]): [Kmain], [KmainProofs], [KmainTheorems].  It
      calls the console, the interrupt setup, the heap and the system-call layer
      and installs the callbacks, which are proved to be a [SyscallBackend].
    - Assembly ([kernel/arch/x86_64/context_switch.S], [isr.S],
      [kernel/syscall/syscall_entry.S]) and struct layouts (the headers): [Layout]
      computes [sizeof] and [offsetof] from the declarations, [Asm] is an
      interpreter with the three files line by line, [AsmProofs] their symbolic
      execution, [ContextSwitch] the switch on thread objects in memory,
      [AsmTheorems] the theorems; [KernelCall] follows [int $0x80] from the
      instruction through gate, assembly, layer and callbacks and back.  They
      connect the register-level functions of [Sched], [Interrupts] and [Syscall]
      to the instructions.
    - Toolchain smoke objects ([smoke/*.c], [tests/toolchain/freestanding_probe.c]):
      [Toolchain].
    - Host tests ([tests/test_*.c]): [HostTests] transcribes them over the modelled
      functions and evaluates them; every assertion holds of the model.

    ** How the code is modelled

    Machine integers are [Z] with the wrap-around written out ([u8] .. [u64],
    [⊕], [⊖], [⊗], [i32], [i64]).  A C function returns an [outcome]: [Ret], or
    [UB] for an access C leaves undefined (null or dangling pointer, index out of
    bounds, unmapped byte, call of a null function pointer), or [OutOfFuel].
    Statics and objects reached through pointers are explicit state.  Loops are
    [loop] with a step function; their fuel is the trip bound of the source loop
    (a size, a page count, 512 entries, 100000 polls) plus one, or, for the walks
    over linked lists, the number of headers or threads that can be distinct.
    The theorems show [Ret], so the fuel is enough wherever they apply; the one
    walk that need not end, over a queue corrupted by a double enqueue, is proved
    to run out of every fuel.

    ** What the theorems show

    - Refinements: the physical memory manager implements a set of free frames;
      the page tables implement a finite map from pages to frames with flags; the
      ready queue implements a FIFO with states; a space on top of the physical
      memory manager implements the same map, and the processor's walk over the
      tables translates every byte address by that map.
    - Machine level: the context-switch routine implements the scheduler's switch
      on thread objects laid out as the compiler does; the gates of the
      descriptor table lead to the assembly stubs and those run as the functions
      that stand for them; the frames the stubs build are the structs the C code
      is compiled against, member by member; which calls from assembly respect the stack alignment of the calling
      convention, and which one does not.
    - Invariants and isolation: counters and bitmap agree; the heap's memory is
      always a well-linked, fully merged tiling of blocks; the page-table code
      writes only tables of its space and frames it has just allocated; the
      translation cache never holds a translation the tables do not have.
    - Functional behaviour on every branch, errors included: initialisation from
      a memory map, map, query and unmap, allocation and release, thread
      preparation, the validity check of the scheduler, the user-range check,
      the user copy, the descriptor table, the trap dispatcher, the interrupt
      controllers, the timer divisor, the memory primitives, and the boot
      sequence as a whole: with its log when no interrupt arrives, and the panic
      a timer interrupt causes at any statement behind the [sti].
    - Round trips: allocate and free, map, query and unmap, saved and restored
      contexts, printed and read numbers, a breakpoint from [int3] to the
      resumed instruction.
    - Safety and progress: the [int 0x80] path returns for every content of the
      user registers; fatal exceptions and panics end in the halt loop with
      interrupts disabled; output never blocks; a queued thread runs after
      finitely many yields; mapping succeeds while frames are left.
    - Where the code departs from what it means to do: rounding in the last page
      of the address space, the double enqueue, the missing gate of the timer
      vector, the truncated timer divisor, the misaligned call of the system-call
      stub, user pages below tables without the user bit.

    ** Not modelled

    - Interrupts inside a C function: a timer interrupt is delivered between any
      two statements of the part of [kmain] that runs with interrupts enabled
      ([kmain_interrupted]), and not between two steps of the functions these
      statements call.  Devices other than the timer raise no interrupt.
    - The machine stack of C code and the caller-saved registers it leaves, which
      are arbitrary in the stubs' theorems.  The encoding of instructions: code
      addresses come from parameters, an origin and a positive length per
      instruction.
    - The Limine header (declarations of a third party, unused), the linker
      script and the build.
    - The accessed and dirty bits the processor sets in page-table entries, and its
      caches of upper-level entries.
    - Helpers no code calls: [cpu_pause], [cpu_breakpoint], [x86_64_read_cs].

    ** This file

    Outcomes, loops with fuel and their total-correctness rule, array accesses,
    machine integers, and the tactics and lemmas every component shares. *)

From Stdlib Require Export ZArith Lia Bool.
From stdpp Require Export base tactics option numbers fin_sets gmap.
From stdpp Require Export list_basics list_relations list_monad list_misc list_numbers list_tactics list.
#[global] Open Scope Z_scope.
#[export] Set Warnings "-clear-no-such-hyp".

Declare Scope mcsos_scope.
Delimit Scope mcsos_scope with mcsos.
#[global] Open Scope mcsos_scope.

(** ** Outcomes of C code

    A C function either returns, or runs into an access the language leaves
    undefined (out of bounds, null or dangling pointer), or does not finish
    within the fuel its loops were given. *)
Inductive outcome (A : Type) : Type :=
| Ret (a : A)
| UB
| OutOfFuel.
Arguments Ret {A} a.
Arguments UB {A}.
Arguments OutOfFuel {A}.

#[global] Instance outcome_eq_dec `{EqDecision A} : EqDecision (outcome A).
Proof. solve_decision. Defined.

Definition obind {A B} (m : outcome A) (f : A → outcome B) : outcome B :=
  match m with Ret a => f a | UB => UB | OutOfFuel => OutOfFuel end.
Arguments obind {A B} !m f /.

Notation "x ← y ; z" := (obind y (λ x, z))
  (at level 20, y at level 100, z at level 200) : mcsos_scope.
Notation "' x ← y ; z" := (obind y (λ x, z))
  (at level 20, x pattern, y at level 100, z at level 200, only parsing) : mcsos_scope.

(** ** Loops

    [loop fuel step s] iterates [step]: [inl s'] continues with the loop state
    [s'], [inr r] leaves the loop with [r] (its condition failed, or the body
    returned from the function). *)
Fixpoint loop {St R : Type} (fuel : nat) (step : St → outcome (St + R)) (s : St) : outcome R :=
  match fuel with
  | O => OutOfFuel
  | S fuel' =>
      r ← step s;
      match r with
      | inl s' => loop fuel' step s'
      | inr x => Ret x
      end
  end.

Arguments loop {St R} fuel step s : simpl never.

(** ** Array accesses of the C sources, undefined out of range *)
Definition rd {A} (l : list A) (i : Z) : outcome A :=
  if i <? 0 then UB
  else match l !! Z.to_nat i with Some x => Ret x | None => UB end.

Definition wr {A} (l : list A) (i : Z) (x : A) : outcome (list A) :=
  if (i <? 0) || (Z.of_nat (length l) <=? i) then UB
  else Ret (<[Z.to_nat i := x]> l).

(** ** Unsigned machine integers: a w-bit value is a [Z] in [0 .. 2^w - 1] *)
Definition u8 (x : Z) : Z := x mod 2 ^ 8.
Definition u16 (x : Z) : Z := x mod 2 ^ 16.
Definition u32 (x : Z) : Z := x mod 2 ^ 32.
Definition u64 (x : Z) : Z := x mod 2 ^ 64.

(** The conversion to a signed w-bit integer (two's complement). *)
Definition to_signed (w x : Z) : Z :=
  let y := x mod 2 ^ w in if y <? 2 ^ (w - 1) then y else y - 2 ^ w.
Definition i32 (x : Z) : Z := to_signed 32 x.
Definition i64 (x : Z) : Z := to_signed 64 x.

(** 64-bit arithmetic of [uint64_t], [uintptr_t] and [size_t]. *)
Definition add64 (a b : Z) : Z := u64 (a + b).
Definition sub64 (a b : Z) : Z := u64 (a - b).
Definition mul64 (a b : Z) : Z := u64 (a * b).
Definition not64 (a : Z) : Z := u64 (Z.lnot a).

Infix "⊕" := add64 (at level 50, left associativity) : mcsos_scope.
Infix "⊖" := sub64 (at level 50, left associativity) : mcsos_scope.
Infix "⊗" := mul64 (at level 40, left associativity) : mcsos_scope.

Definition UINT64_MAX : Z := 18446744073709551615.

(** [in64 x]: [x] is a value of a 64-bit unsigned type. *)
Definition in64 (x : Z) : Prop := 0 ≤ x < 2 ^ 64.

(** ** Tactics *)

(** Linear arithmetic with division and remainder by constants. *)
Ltac mlia := unfold in64 in *; Z.to_euclidean_division_equations; lia.

(** Propositional structure around linear arithmetic. *)
Ltac plia := intuition lia.

(** Split on the boolean test of the first conditional of the goal, leaving
    the decided fact in the context. *)
Ltac if_split :=
  match goal with
  | |- context [if (?a <? ?b) then _ else _] => destruct (Z.ltb_spec a b)
  | |- context [if (?a <=? ?b) then _ else _] => destruct (Z.leb_spec a b)
  | |- context [if (?a =? ?b) then _ else _] => destruct (Z.eqb_spec a b)
  | |- context [if ?b then _ else _] => let E := fresh "E" in destruct b eqn:E
  end.

(** Turn boolean comparisons of the context into propositions. *)
Ltac bool_facts :=
  repeat match goal with
  | H : (_ <? _) = true |- _ => apply Z.ltb_lt in H
  | H : (_ <? _) = false |- _ => apply Z.ltb_ge in H
  | H : (_ <=? _) = true |- _ => apply Z.leb_le in H
  | H : (_ <=? _) = false |- _ => apply Z.leb_gt in H
  | H : (_ =? _) = true |- _ => apply Z.eqb_eq in H
  | H : (_ =? _) = false |- _ => apply Z.eqb_neq in H
  | H : _ || _ = true |- _ => apply orb_true_iff in H
  | H : _ || _ = false |- _ => apply orb_false_iff in H; destruct H
  | H : _ && _ = true |- _ => apply andb_true_iff in H; destruct H
  | H : _ && _ = false |- _ => apply andb_false_iff in H
  | H : negb _ = true |- _ => apply negb_true_iff in H
  | H : negb _ = false |- _ => apply negb_false_iff in H
  end.

(** ** Logic *)

Lemma and_iff_under (A B C : Prop) : (A → (B ↔ C)) → (A ∧ B ↔ A ∧ C).
Proof. tauto. Qed.

(** ** The outcome monad *)

Lemma bind_Ret_inv {A B} (m : outcome A) (f : A → outcome B) b :
  (x ← m; f x) = Ret b → ∃ a, m = Ret a ∧ f a = Ret b.
Proof. destruct m; simpl; naive_solver. Qed.

#[global] Instance Ret_inj A : Inj (=) (=) (@Ret A).
Proof. by intros x y [= ->]. Qed.

(** Peel a successful bind of the context. *)
Ltac bind_inv H :=
  let x := fresh "x" in let Hx := fresh "Hx" in
  apply bind_Ret_inv in H; destruct H as (x & Hx & H).

(** ** Loops *)
Section loop_rules.
Context {St R : Type} (step : St → outcome (St + R)).

Lemma loop_unfold n s :
  loop (S n) step s =
  (r ← step s; match r with inl s' => loop n step s' | inr x => Ret x end).
Proof. done. Qed.

(** Total correctness: an invariant, a measure, and enough fuel. *)
Lemma loop_rule (I : St → Prop) (Q : R → Prop) (m : St → nat) :
  (∀ s, I s → ∃ r, step s = Ret r ∧
     match r with inl s' => I s' ∧ (m s' < m s)%nat | inr x => Q x end) →
  ∀ fuel s, I s → (m s < fuel)%nat → ∃ x, loop fuel step s = Ret x ∧ Q x.
Proof.
  intros Hstep fuel. induction fuel as [|fuel IH]; intros s HI Hm; [lia|].
  rewrite loop_unfold. destruct (Hstep s HI) as (r & -> & Hr). simpl.
  destruct r as [s'|x]; [|eauto].
  destruct Hr as [HI' Hlt]. apply IH; [done|lia].
Qed.

(** Non-termination: an invariant under which the loop never leaves. *)
Lemma loop_diverges (I : St → Prop) :
  (∀ s, I s → ∃ s', step s = Ret (inl s') ∧ I s') →
  ∀ fuel s, I s → loop fuel step s = OutOfFuel.
Proof.
  intros Hstep fuel. induction fuel as [|fuel IH]; intros s HI; [done|].
  rewrite loop_unfold. destruct (Hstep s HI) as (s' & -> & HI'). simpl. auto.
Qed.
End loop_rules.

(** ** Arrays *)

Lemma rd_Ret {A} (l : list A) (i : Z) (x : A) :
  0 ≤ i → l !! Z.to_nat i = Some x → rd l i = Ret x.
Proof. intros Hi Hx. unfold rd. rewrite Hx. if_split; [lia|done]. Qed.

Lemma wr_Ret {A} (l : list A) (i : Z) (x : A) :
  0 ≤ i < Z.of_nat (length l) → wr l i x = Ret (<[Z.to_nat i := x]> l).
Proof.
  intros Hi. unfold wr.
  destruct (Z.ltb_spec i 0), (Z.leb_spec (Z.of_nat (length l)) i); done || lia.
Qed.

(** ** Words *)

Lemma u64_small x : in64 x → u64 x = x.
Proof. intros. unfold u64. by apply Z.mod_small. Qed.

Lemma u64_range x : in64 (u64 x).
Proof. apply Z.mod_pos_bound. lia. Qed.

Lemma u8_range x : 0 ≤ u8 x < 256.
Proof. unfold u8. change (2 ^ 8) with 256. apply Z.mod_pos_bound. lia. Qed.

Lemma add64_small a b : in64 (a + b) → a ⊕ b = a + b.
Proof. apply u64_small. Qed.

Lemma sub64_small a b : in64 (a - b) → a ⊖ b = a - b.
Proof. apply u64_small. Qed.

Lemma mul64_small a b : in64 (a * b) → a ⊗ b = a * b.
Proof. apply u64_small. Qed.

Lemma UINT64_MAX_eq : UINT64_MAX = 2 ^ 64 - 1.
Proof. reflexivity. Qed.

Create Rewrite HintDb words.
#[export] Hint Rewrite u64_small add64_small sub64_small mul64_small
  using (unfold in64 in *; lia) : words.

(** Remove every wrap-around of the goal that linear arithmetic shows cannot happen. *)
Ltac words :=
  repeat match goal with
  | |- context [?a ⊕ ?b] => rewrite (add64_small a b) by (unfold in64; lia)
  | |- context [?a ⊖ ?b] => rewrite (sub64_small a b) by (unfold in64; lia)
  | |- context [?a ⊗ ?b] => rewrite (mul64_small a b) by (unfold in64; lia)
  | |- context [u64 ?a] => rewrite (u64_small a) by (unfold in64; lia)
  end.

(** ** Bits *)

Lemma testbit_in64_high x n : in64 x → 64 ≤ n → Z.testbit x n = false.
Proof.
  intros Hx Hn. rewrite <- (Z.mod_small x (2 ^ 64)) by done.
  apply Z.mod_pow2_bits_high. lia.
Qed.

(** ... and the converse. *)
Lemma small_in64 x : 0 ≤ x → (∀ n, 64 ≤ n → Z.testbit x n = false) → in64 x.
Proof.
  intros H0 Hx. split; [done|].
  destruct (Z.eq_dec x 0) as [->|]; [lia|].
  apply Z.log2_lt_pow2; [lia|].
  destruct (Z.lt_ge_cases (Z.log2 x) 64) as [|Hge]; [done|].
  specialize (Hx _ Hge). rewrite Z.bit_log2 in Hx by lia. done.
Qed.

Lemma testbit_small x w n : 0 ≤ x < 2 ^ w → 0 ≤ w ≤ n → Z.testbit x n = false.
Proof.
  intros Hx Hn. rewrite <- (Z.mod_small x (2 ^ w)) by done.
  apply Z.mod_pow2_bits_high. lia.
Qed.

Lemma testbit_mod_pow2 x w n :
  0 ≤ w → 0 ≤ n → Z.testbit (x mod 2 ^ w) n = (n <? w) && Z.testbit x n.
Proof.
  intros Hw Hn. destruct (Z.ltb_spec n w).
  - rewrite Z.mod_pow2_bits_low by lia. done.
  - rewrite Z.mod_pow2_bits_high by lia. done.
Qed.

Lemma testbit_not64 x n :
  0 ≤ n → Z.testbit (not64 x) n = (n <? 64) && negb (Z.testbit x n).
Proof.
  intros Hn. unfold not64, u64. rewrite testbit_mod_pow2, Z.lnot_spec by lia. done.
Qed.

Lemma testbit_ones k n : 0 ≤ k → 0 ≤ n → Z.testbit (Z.ones k) n = (n <? k).
Proof.
  intros Hk Hn. destruct (Z.ltb_spec n k).
  - by apply Z.ones_spec_low.
  - by apply Z.ones_spec_high.
Qed.

(** Bitwise equality of two values, one bit position [n] at a time. *)
Ltac bits_ext n := apply Z.bits_inj'; intros n ?.

Lemma land_ones_mod x k : 0 ≤ k → Z.land x (Z.ones k) = x mod 2 ^ k.
Proof. apply Z.land_ones. Qed.

(** [x & ~(2^k - 1)] rounds a 64-bit value down to a multiple of [2^k]. *)
Lemma land_not64_ones x k :
  in64 x → 0 ≤ k → Z.land x (not64 (Z.ones k)) = x - x mod 2 ^ k.
Proof.
  intros Hx Hk.
  transitivity (Z.ldiff x (Z.ones k)).
  - bits_ext n. rewrite Z.land_spec, Z.ldiff_spec, testbit_not64 by done.
    destruct (Z.ltb_spec n 64); [done|].
    by rewrite (testbit_in64_high x n) by (done || lia).
  - rewrite Z.ldiff_ones_r, Z.shiftl_mul_pow2, Z.shiftr_div_pow2 by done.
    pose proof (Z.div_mod x (2 ^ k)). lia.
Qed.

(** Signed conversions. *)
Lemma i64_small x : 0 ≤ x < 2 ^ 63 → i64 x = x.
Proof.
  intros Hx. unfold i64, to_signed. rewrite Z.mod_small by lia.
  destruct (Z.ltb_spec x (2 ^ (64 - 1))); [done|lia].
Qed.

Lemma land_pow2 x k : 0 ≤ k → Z.land x (2 ^ k) = if Z.testbit x k then 2 ^ k else 0.
Proof.
  intros Hk. bits_ext n. rewrite Z.land_spec, Z.pow2_bits_eqb by done.
  destruct (Z.eqb_spec k n) as [->|].
  - destruct (Z.testbit x n) eqn:E; rewrite ?Z.pow2_bits_true, ?Z.bits_0 by done; done.
  - rewrite andb_false_r.
    destruct (Z.testbit x k); rewrite ?Z.pow2_bits_false, ?Z.bits_0 by done; done.
Qed.

Lemma sub64_add64 a b c : (a ⊕ b) ⊖ c = u64 (a + b - c).
Proof. unfold sub64, add64, u64. apply Zminus_mod_idemp_l. Qed.
