(* ===== verification/Pmm.v ===== *)
(** * Physical memory manager: the model of [src/pmm.c] and [include/pmm.h]

    One definition per function of the source.  A pointer argument is an
    [option] ([None] is the null pointer); an access outside the bitmap or
    through a null pointer is [UB]; every loop carries its fuel.  The
    [uint8_t *bitmap] of [struct pmm_state] is the only reference to the
    caller's storage while the PMM runs, so the state holds the bytes it
    points to. *)

From S2P Require Import Prelude.

Definition PMM_PAGE_SIZE : Z := 4096.
Definition PMM_INVALID_FRAME : Z := 18446744073709551615.

Definition BOOT_MEM_USABLE : Z := 1.
Definition BOOT_MEM_RESERVED : Z := 2.
Definition BOOT_MEM_BOOTLOADER_RECLAIMABLE : Z := 3.
Definition BOOT_MEM_KERNEL_AND_MODULES : Z := 4.
Definition BOOT_MEM_FRAMEBUFFER : Z := 5.
Definition BOOT_MEM_ACPI_RECLAIMABLE : Z := 6.
Definition BOOT_MEM_ACPI_NVS : Z := 7.
Definition BOOT_MEM_BAD_MEMORY : Z := 8.

Record boot_mem_region : Type := mk_region {
  rg_base : Z;
  rg_length : Z;
  rg_type : Z;
}.

Record pmm_state : Type := mk_pmm {
  bitmap : option (list Z);
  bitmap_bytes : Z;
  max_phys : Z;
  frame_count : Z;
  free_frames : Z;
  used_frames : Z;
  reserved_frames : Z;
  ignored_frames : Z;
  next_hint : Z;
  initialized : bool;
}.

(** Assignments to one field. *)
Definition set_bitmap (p : pmm_state) (v : option (list Z)) : pmm_state :=
  mk_pmm v (bitmap_bytes p) (max_phys p) (frame_count p) (free_frames p)
    (used_frames p) (reserved_frames p) (ignored_frames p) (next_hint p) (initialized p).
Definition set_free_frames (p : pmm_state) (v : Z) : pmm_state :=
  mk_pmm (bitmap p) (bitmap_bytes p) (max_phys p) (frame_count p) v
    (used_frames p) (reserved_frames p) (ignored_frames p) (next_hint p) (initialized p).
Definition set_used_frames (p : pmm_state) (v : Z) : pmm_state :=
  mk_pmm (bitmap p) (bitmap_bytes p) (max_phys p) (frame_count p) (free_frames p)
    v (reserved_frames p) (ignored_frames p) (next_hint p) (initialized p).
Definition set_reserved_frames (p : pmm_state) (v : Z) : pmm_state :=
  mk_pmm (bitmap p) (bitmap_bytes p) (max_phys p) (frame_count p) (free_frames p)
    (used_frames p) v (ignored_frames p) (next_hint p) (initialized p).
Definition set_ignored_frames (p : pmm_state) (v : Z) : pmm_state :=
  mk_pmm (bitmap p) (bitmap_bytes p) (max_phys p) (frame_count p) (free_frames p)
    (used_frames p) (reserved_frames p) v (next_hint p) (initialized p).
Definition set_next_hint (p : pmm_state) (v : Z) : pmm_state :=
  mk_pmm (bitmap p) (bitmap_bytes p) (max_phys p) (frame_count p) (free_frames p)
    (used_frames p) (reserved_frames p) (ignored_frames p) v (initialized p).
Definition set_initialized (p : pmm_state) (v : bool) : pmm_state :=
  mk_pmm (bitmap p) (bitmap_bytes p) (max_phys p) (frame_count p) (free_frames p)
    (used_frames p) (reserved_frames p) (ignored_frames p) (next_hint p) v.

(** ** Arithmetic helpers *)

Definition align_down (value align : Z) : Z := Z.land value (not64 (align ⊖ 1)).

Definition align_up (value align : Z) : Z :=
  Z.land (value ⊕ align ⊖ 1) (not64 (align ⊖ 1)).

Definition checked_add_u64 (a b : Z) : option Z :=
  if UINT64_MAX ⊖ a <? b then None else Some (a ⊕ b).

(** ** The bitmap *)

Definition bitmap_set (bm : list Z) (index : Z) : outcome (list Z) :=
  b ← rd bm (Z.shiftr index 3);
  wr bm (Z.shiftr index 3)
     (u8 (Z.lor b (u8 (u32 (Z.shiftl 1 (Z.land index 7)))))).

Definition bitmap_clear (bm : list Z) (index : Z) : outcome (list Z) :=
  b ← rd bm (Z.shiftr index 3);
  wr bm (Z.shiftr index 3)
     (u8 (Z.land b (u8 (Z.lnot (u8 (u32 (Z.shiftl 1 (Z.land index 7)))))))).

Definition bitmap_test (bm : list Z) (index : Z) : outcome bool :=
  b ← rd bm (Z.shiftr index 3);
  Ret (negb (Z.land b (u8 (u32 (Z.shiftl 1 (Z.land index 7)))) =? 0)).

(** Following the [bitmap] pointer. *)
Definition bitmap_of (p : pmm_state) : outcome (list Z) :=
  match bitmap p with Some bm => Ret bm | None => UB end.

(** ** Marking frames *)

Definition mark_frame_free (pmm : pmm_state) (frame : Z) : outcome pmm_state :=
  if frame_count pmm <=? frame then Ret pmm
  else
    bm ← bitmap_of pmm;
    t ← bitmap_test bm frame;
    if t then
      bm' ← bitmap_clear bm frame;
      let pmm := set_bitmap pmm (Some bm') in
      let pmm := set_free_frames pmm (free_frames pmm ⊕ 1) in
      let pmm := if 0 <? used_frames pmm
                 then set_used_frames pmm (used_frames pmm ⊖ 1) else pmm in
      let pmm := if frame <? next_hint pmm
                 then set_next_hint pmm frame else pmm in
      Ret pmm
    else Ret pmm.

Definition mark_frame_used (pmm : pmm_state) (frame : Z) : outcome pmm_state :=
  if frame_count pmm <=? frame then Ret pmm
  else
    bm ← bitmap_of pmm;
    t ← bitmap_test bm frame;
    if negb t then
      bm' ← bitmap_set bm frame;
      let pmm := set_bitmap pmm (Some bm') in
      let pmm := if 0 <? free_frames pmm
                 then set_free_frames pmm (free_frames pmm ⊖ 1) else pmm in
      let pmm := set_used_frames pmm (used_frames pmm ⊕ 1) in
      Ret pmm
    else Ret pmm.

(** Fuel of the loops over page addresses below [stop]: one iteration per page
    and the final test. *)
Definition page_fuel (stop : Z) : nat := S (S (Z.to_nat (stop / PMM_PAGE_SIZE))).

Definition mark_range_free_step (stop : Z) (s : pmm_state * Z)
    : outcome (pmm_state * Z + pmm_state) :=
  let '(pmm, addr) := s in
  if addr <? stop then
    pmm ← mark_frame_free pmm (addr / PMM_PAGE_SIZE);
    Ret (inl (pmm, addr ⊕ PMM_PAGE_SIZE))
  else Ret (inr pmm).

Definition mark_range_free (pmm : pmm_state) (base length : Z) : outcome pmm_state :=
  if length =? 0 then Ret pmm
  else match checked_add_u64 base length with
  | None => Ret pmm
  | Some end_ =>
    let start := align_up base PMM_PAGE_SIZE in
    let stop := align_down end_ PMM_PAGE_SIZE in
    if stop <=? start then Ret pmm
    else if max_phys pmm <=? start then Ret pmm
    else
      let '(pmm, stop) :=
        if max_phys pmm <? stop then
          let stop := max_phys pmm in
          (set_ignored_frames pmm
             (ignored_frames pmm ⊕ (align_down end_ PMM_PAGE_SIZE ⊖ stop) / PMM_PAGE_SIZE),
           stop)
        else (pmm, stop) in
      loop (page_fuel stop) (mark_range_free_step stop) (pmm, start)
  end.

Definition mark_range_used_step (stop : Z) (s : pmm_state * Z)
    : outcome (pmm_state * Z + pmm_state) :=
  let '(pmm, addr) := s in
  if addr <? stop then
    bm ← bitmap_of pmm;
    t ← bitmap_test bm (addr / PMM_PAGE_SIZE);
    let was_free := negb t in
    pmm ← mark_frame_used pmm (addr / PMM_PAGE_SIZE);
    let pmm := if (was_free : bool)
               then set_reserved_frames pmm (reserved_frames pmm ⊕ 1) else pmm in
    Ret (inl (pmm, addr ⊕ PMM_PAGE_SIZE))
  else Ret (inr pmm).

Definition mark_range_used (pmm : pmm_state) (base length : Z) : outcome pmm_state :=
  if length =? 0 then Ret pmm
  else match checked_add_u64 base length with
  | None => Ret pmm
  | Some end_ =>
    let start := align_down base PMM_PAGE_SIZE in
    let stop := align_up end_ PMM_PAGE_SIZE in
    if stop <=? start then Ret pmm
    else if max_phys pmm <=? start then Ret pmm
    else
      let stop := if max_phys pmm <? stop then max_phys pmm else stop in
      loop (page_fuel stop) (mark_range_used_step stop) (pmm, start)
  end.

(** ** Initialisation *)

Definition zeroed_pmm : pmm_state := mk_pmm None 0 0 0 0 0 0 0 0 false.

Definition pmm_zero_state (pmm : option pmm_state) : option pmm_state :=
  match pmm with None => None | Some _ => Some zeroed_pmm end.

Definition fill_step (required : Z) (s : list Z * Z) : outcome (list Z * Z + list Z) :=
  let '(bm, i) := s in
  if i <? required then
    bm ← wr bm i 255;
    Ret (inl (bm, i ⊕ 1))
  else Ret (inr bm).

(** The two passes over the boot memory map: [body] is applied to the regions
    [select] accepts. *)
Definition region_step (regions : list boot_mem_region) (region_count : Z)
    (select : Z → bool) (body : pmm_state → Z → Z → outcome pmm_state)
    (s : pmm_state * Z) : outcome (pmm_state * Z + pmm_state) :=
  let '(pmm, i) := s in
  if i <? region_count then
    r ← rd regions i;
    pmm ← (if select (rg_type r) then body pmm (rg_base r) (rg_length r) else Ret pmm);
    Ret (inl (pmm, i ⊕ 1))
  else Ret (inr pmm).

Definition pmm_init_from_map (pmm : option pmm_state)
    (regions : option (list boot_mem_region)) (region_count : Z)
    (bitmap_storage : option (list Z)) (bitmap_storage_bytes max_phys_bytes : Z)
    : outcome (bool * option pmm_state) :=
  match pmm, regions, bitmap_storage with
  | Some _, Some regions, Some bitmap_storage =>
    if region_count =? 0 then Ret (false, pmm)
    else if (max_phys_bytes =? 0) || negb (Z.land max_phys_bytes (PMM_PAGE_SIZE ⊖ 1) =? 0)
    then Ret (false, pmm)
    else
      let frame_count := max_phys_bytes / PMM_PAGE_SIZE in
      let required_bitmap_bytes := (frame_count ⊕ 7) / 8 in
      if bitmap_storage_bytes <? required_bitmap_bytes then Ret (false, pmm)
      else
        match pmm_zero_state pmm with
        | None => UB
        | Some z =>
        let pmm := mk_pmm (Some bitmap_storage) required_bitmap_bytes max_phys_bytes frame_count
                     0 frame_count (reserved_frames z) (ignored_frames z) 0 (initialized z) in
        (* [pmm->bitmap] is [bitmap_storage], so the loop fills the bitmap of [pmm]. *)
        bm ← loop (S (S (Z.to_nat required_bitmap_bytes)))
               (fill_step required_bitmap_bytes) (bitmap_storage, 0);
        let pmm := set_bitmap pmm (Some bm) in
        pmm ← loop (S (S (Z.to_nat region_count)))
                (region_step regions region_count
                   (λ ty, ty =? BOOT_MEM_USABLE) mark_range_free) (pmm, 0);
        pmm ← mark_range_used pmm 0 PMM_PAGE_SIZE;
        pmm ← loop (S (S (Z.to_nat region_count)))
                (region_step regions region_count
                   (λ ty, negb (ty =? BOOT_MEM_USABLE)) mark_range_used) (pmm, 0);
        Ret (true, Some (set_initialized pmm true))
        end
  | _, _, _ => Ret (false, pmm)
  end.

(** ** Allocation and release *)

(** The body of both search loops of [pmm_alloc_frame]. *)
Definition alloc_step (limit : pmm_state → Z) (s : pmm_state * Z)
    : outcome (pmm_state * Z + option (Z * pmm_state)) :=
  let '(pmm, frame) := s in
  if frame <? limit pmm then
    bm ← bitmap_of pmm;
    t ← bitmap_test bm frame;
    if negb t then
      pmm ← mark_frame_used pmm frame;
      let pmm := set_next_hint pmm (frame ⊕ 1) in
      Ret (inr (Some (frame ⊗ PMM_PAGE_SIZE, pmm)))
    else Ret (inl (pmm, frame ⊕ 1))
  else Ret (inr None).

Definition pmm_alloc_frame (pmm : option pmm_state) : outcome (Z * option pmm_state) :=
  match pmm with
  | None => Ret (PMM_INVALID_FRAME, pmm)
  | Some p =>
    if negb (initialized p) || (free_frames p =? 0) then Ret (PMM_INVALID_FRAME, pmm)
    else
      r ← loop (S (S (Z.to_nat (frame_count p)))) (alloc_step frame_count) (p, next_hint p);
      match r with
      | Some (a, p') => Ret (a, Some p')
      | None =>
        r ← loop (S (S (Z.to_nat (next_hint p)))) (alloc_step next_hint) (p, 0);
        match r with
        | Some (a, p') => Ret (a, Some p')
        | None => Ret (PMM_INVALID_FRAME, pmm)
        end
      end
  end.

Definition pmm_free_frame (pmm : option pmm_state) (phys_addr : Z)
    : outcome (bool * option pmm_state) :=
  match pmm with
  | None => Ret (false, pmm)
  | Some p =>
    if negb (initialized p) then Ret (false, pmm)
    else if negb (Z.land phys_addr (PMM_PAGE_SIZE ⊖ 1) =? 0)
            || (phys_addr =? 0) || (max_phys p <=? phys_addr) then Ret (false, pmm)
    else
      let frame := phys_addr / PMM_PAGE_SIZE in
      bm ← bitmap_of p;
      t ← bitmap_test bm frame;
      if negb t then Ret (false, pmm)
      else
        p ← mark_frame_free p frame;
        Ret (true, Some p)
  end.

Definition pmm_reserve_range (pmm : option pmm_state) (base length : Z)
    : outcome (bool * option pmm_state) :=
  match pmm with
  | None => Ret (false, pmm)
  | Some p =>
    if negb (initialized p) || (length =? 0) then Ret (false, pmm)
    else
      p ← mark_range_used p base length;
      Ret (true, Some p)
  end.

Definition pmm_is_frame_free (pmm : option pmm_state) (phys_addr : Z) : outcome bool :=
  match pmm with
  | None => Ret false
  | Some p =>
    if negb (initialized p) then Ret false
    else if negb (Z.land phys_addr (PMM_PAGE_SIZE ⊖ 1) =? 0) || (max_phys p <=? phys_addr)
    then Ret false
    else
      bm ← bitmap_of p;
      t ← bitmap_test bm (phys_addr / PMM_PAGE_SIZE);
      Ret (negb t)
  end.

Definition pmm_free_count (pmm : option pmm_state) : Z :=
  match pmm with Some p => free_frames p | None => 0 end.
Definition pmm_used_count (pmm : option pmm_state) : Z :=
  match pmm with Some p => used_frames p | None => 0 end.
Definition pmm_frame_count (pmm : option pmm_state) : Z :=
  match pmm with Some p => frame_count p | None => 0 end.

Arguments pmm_init_from_map : simpl never.
Arguments pmm_alloc_frame : simpl never.
Arguments pmm_free_frame : simpl never.
Arguments pmm_reserve_range : simpl never.
Arguments pmm_is_frame_free : simpl never.
