(* ===== verification/PmmProofs.v ===== *)
(** * Physical memory manager: correctness of the model of [Pmm]

    The bitmap as a finite set of free frames, the invariant of
    [struct pmm_state], and the theorems: initialisation from the boot memory
    map, allocation as "least free frame", release, reservation, and the
    invariant over every sequence of calls. *)

From S2P Require Import Prelude Pmm.

(** ** Arithmetic *)

Lemma page_mask : PMM_PAGE_SIZE ⊖ 1 = Z.ones 12.
Proof. reflexivity. Qed.

Lemma land_page_mask v : Z.land v (PMM_PAGE_SIZE ⊖ 1) = v mod PMM_PAGE_SIZE.
Proof. rewrite page_mask, Z.land_ones by lia. done. Qed.

Lemma align_down_page v : in64 v → align_down v PMM_PAGE_SIZE = v - v mod 4096.
Proof. intros. unfold align_down. by rewrite page_mask, land_not64_ones by (done || lia). Qed.

Lemma align_up_page v :
  in64 v → v ≤ 2 ^ 64 - 4096 →
  align_up v PMM_PAGE_SIZE = (v + 4095) - (v + 4095) mod 4096.
Proof.
  intros Hv Hle. unfold align_up. rewrite page_mask, sub64_add64.
  change (PMM_PAGE_SIZE) with 4096. unfold in64 in Hv.
  rewrite u64_small by (unfold in64; lia).
  rewrite land_not64_ones by (unfold in64; lia).
  change (2 ^ 12) with 4096. f_equal; [lia|]. f_equal; lia.
Qed.

(** The last page of the address space: rounding up wraps to zero. *)
Lemma align_up_page_wraps v :
  2 ^ 64 - 4096 < v < 2 ^ 64 → align_up v PMM_PAGE_SIZE = 0.
Proof.
  intros Hv. unfold align_up. rewrite page_mask, sub64_add64.
  change (PMM_PAGE_SIZE) with 4096.
  rewrite land_not64_ones by (apply u64_range || lia).
  unfold u64. change (2 ^ 12) with 4096. mlia.
Qed.

Lemma checked_add_spec a b :
  in64 a → in64 b →
  checked_add_u64 a b = if a + b <? 2 ^ 64 then Some (a + b) else None.
Proof.
  intros Ha Hb. unfold checked_add_u64, in64 in *. rewrite UINT64_MAX_eq.
  rewrite sub64_small by (unfold in64; lia).
  destruct (Z.ltb_spec (2 ^ 64 - 1 - a) b), (Z.ltb_spec (a + b) (2 ^ 64)); try lia; [done|].
  by rewrite add64_small by (unfold in64; lia).
Qed.

(** ** Bits of the bitmap *)

Definition bit (bm : list Z) (i : Z) : bool :=
  match bm !! Z.to_nat (i / 8) with
  | Some b => Z.testbit b (i mod 8)
  | None => true
  end.

Definition bytes_ok (bm : list Z) : Prop := Forall (λ b, 0 ≤ b < 256) bm.

Lemma bit_index i : Z.shiftr i 3 = i / 8.
Proof. by rewrite Z.shiftr_div_pow2 by lia. Qed.

Lemma bit_mask i : u8 (u32 (Z.shiftl 1 (Z.land i 7))) = 2 ^ (i mod 8).
Proof.
  change 7 with (Z.ones 3). rewrite Z.land_ones by lia. change (2 ^ 3) with 8.
  rewrite Z.shiftl_mul_pow2, Z.mul_1_l by mlia.
  assert (2 ^ (i mod 8) ≤ 2 ^ 7) by (apply Z.pow_le_mono_r; mlia).
  assert (0 < 2 ^ (i mod 8)) by (apply Z.pow_pos_nonneg; mlia).
  change (2 ^ 7) with 128 in *. generalize dependent (2 ^ (i mod 8)). intros m Hle Hpos.
  unfold u8, u32. rewrite (Z.mod_small m (2 ^ 32)), Z.mod_small; lia.
Qed.

Section bitmap_ops.
Context (bm : list Z) (i : Z).
Hypothesis in_bitmap : 0 ≤ i < 8 * Z.of_nat (length bm).

Lemma bitmap_byte : ∃ b, bm !! Z.to_nat (i / 8) = Some b.
Proof. apply lookup_lt_is_Some_2. mlia. Qed.

Lemma bitmap_test_spec : bitmap_test bm i = Ret (bit bm i).
Proof.
  destruct bitmap_byte as [b Hb]. unfold bitmap_test, bit.
  rewrite bit_index, bit_mask, Hb, (rd_Ret bm _ b) by (done || mlia). simpl.
  rewrite land_pow2 by mlia. destruct (Z.testbit b (i mod 8)); [|done].
  assert (0 < 2 ^ (i mod 8)) by (apply Z.pow_pos_nonneg; mlia).
  by destruct (Z.eqb_spec (2 ^ (i mod 8)) 0); [lia|].
Qed.

(** Replacing the byte of [i] by one that differs from it in bit [i mod 8] only. *)
Lemma bit_insert (b b' : Z) (v : bool) j :
  bm !! Z.to_nat (i / 8) = Some b → 0 ≤ j →
  (∀ n, 0 ≤ n < 8 → Z.testbit b' n = if n =? i mod 8 then v else Z.testbit b n) →
  bit (<[Z.to_nat (i / 8) := b']> bm) j = if j =? i then v else bit bm j.
Proof.
  intros Hb Hj Hb'. unfold bit.
  destruct (decide (j / 8 = i / 8)) as [E|E].
  - rewrite E, list_lookup_insert_eq by (by eapply lookup_lt_Some). rewrite Hb.
    rewrite Hb' by mlia.
    destruct (Z.eqb_spec (j mod 8) (i mod 8)), (Z.eqb_spec j i); mlia || done.
  - rewrite list_lookup_insert_ne by mlia.
    destruct (Z.eqb_spec j i); [subst; done|done].
Qed.

Lemma bitmap_set_spec :
  ∃ bm', bitmap_set bm i = Ret bm' ∧ length bm' = length bm ∧
    (bytes_ok bm → bytes_ok bm') ∧
    ∀ j, 0 ≤ j → bit bm' j = if j =? i then true else bit bm j.
Proof.
  destruct bitmap_byte as [b Hb]. unfold bitmap_set.
  rewrite bit_index, bit_mask, (rd_Ret bm _ b) by (done || mlia). simpl.
  rewrite wr_Ret by mlia. eexists. split_and!; [done|apply length_insert| |].
  - intros Hok. apply Forall_insert; [done|]. apply u8_range.
  - intros j Hj. apply (bit_insert b); [done..|]. intros n Hn.
    unfold u8. rewrite testbit_mod_pow2, Z.lor_spec, Z.pow2_bits_eqb by mlia.
    rewrite (Z.eqb_sym n). destruct (Z.ltb_spec n 8); [|lia].
    destruct (i mod 8 =? n); [by rewrite orb_true_r|by rewrite orb_false_r].
Qed.

Lemma bitmap_clear_spec :
  ∃ bm', bitmap_clear bm i = Ret bm' ∧ length bm' = length bm ∧
    (bytes_ok bm → bytes_ok bm') ∧
    ∀ j, 0 ≤ j → bit bm' j = if j =? i then false else bit bm j.
Proof.
  destruct bitmap_byte as [b Hb]. unfold bitmap_clear.
  rewrite bit_index, bit_mask, (rd_Ret bm _ b) by (done || mlia). simpl.
  rewrite wr_Ret by mlia. eexists. split_and!; [done|apply length_insert| |].
  - intros Hok. apply Forall_insert; [done|]. apply u8_range.
  - intros j Hj. apply (bit_insert b); [done..|]. intros n Hn.
    unfold u8. rewrite testbit_mod_pow2, Z.land_spec, testbit_mod_pow2, Z.lnot_spec,
      Z.pow2_bits_eqb by mlia.
    rewrite (Z.eqb_sym n). destruct (Z.ltb_spec n 8); [|lia].
    destruct (i mod 8 =? n); simpl; [by rewrite andb_false_r|by rewrite andb_true_r].
Qed.
End bitmap_ops.

(** ** The free frames as a finite set *)

Definition free_set (bm : list Z) (n : Z) : gset Z :=
  list_to_set (filter (λ f, bit bm f = false) (seqZ 0 n)).

Lemma elem_of_free_set bm n f :
  f ∈ free_set bm n ↔ 0 ≤ f < n ∧ bit bm f = false.
Proof.
  unfold free_set. rewrite elem_of_list_to_set, list_elem_of_filter, elem_of_seqZ.
  rewrite Z.add_0_l. tauto.
Qed.

Lemma size_free_set_le bm n : 0 ≤ n → Z.of_nat (size (free_set bm n)) ≤ n.
Proof.
  intros Hn.
  assert (free_set bm n ⊆ list_to_set (seqZ 0 n)) as Hsub.
  { intros f. rewrite elem_of_free_set, elem_of_list_to_set, elem_of_seqZ. lia. }
  apply subseteq_size in Hsub.
  rewrite (size_list_to_set (seqZ 0 n)), length_seqZ in Hsub by apply NoDup_seqZ. lia.
Qed.

(** The abstraction function. *)
Definition free_of (p : pmm_state) : gset Z :=
  match bitmap p with Some bm => free_set bm (frame_count p) | None => ∅ end.

(** ** The invariant of [struct pmm_state] *)
Record pmm_inv (p : pmm_state) (bm : list Z) : Prop := {
  inv_bitmap : bitmap p = Some bm;
  inv_bytes : bytes_ok bm;
  inv_size : bitmap_bytes p = (frame_count p + 7) / 8;
  inv_storage : bitmap_bytes p ≤ Z.of_nat (length bm);
  inv_count : 0 < frame_count p;
  inv_max : max_phys p = frame_count p * 4096;
  inv_max64 : in64 (max_phys p);
  inv_free : free_frames p = Z.of_nat (size (free_of p));
  inv_used : used_frames p = frame_count p - free_frames p;
  inv_hint : 0 ≤ next_hint p ≤ frame_count p;
  inv_below_hint : ∀ f, 0 ≤ f < next_hint p → bit bm f = true;
}.

(** The fields no operation after initialisation changes. *)
Record same_config (p p' : pmm_state) : Prop := {
  same_count : frame_count p' = frame_count p;
  same_max : max_phys p' = max_phys p;
  same_init : initialized p' = initialized p;
}.

#[global] Instance same_config_preorder : PreOrder same_config.
Proof.
  split.
  - intros p. done.
  - intros p q r [] []. split; congruence.
Qed.

Section invariant.
Context (p : pmm_state) (bm : list Z).
Hypothesis Hinv : pmm_inv p bm.

Lemma free_of_inv : free_of p = free_set bm (frame_count p).
Proof. unfold free_of. by rewrite (inv_bitmap _ _ Hinv). Qed.

Lemma elem_of_free_of f : f ∈ free_of p ↔ 0 ≤ f < frame_count p ∧ bit bm f = false.
Proof. rewrite free_of_inv. apply elem_of_free_set. Qed.

Lemma free_of_bound f : f ∈ free_of p → 0 ≤ f < frame_count p.
Proof. rewrite elem_of_free_of. tauto. Qed.

Lemma frame_in_bitmap f : 0 ≤ f < frame_count p → 0 ≤ f < 8 * Z.of_nat (length bm).
Proof.
  pose proof (inv_size _ _ Hinv). pose proof (inv_storage _ _ Hinv). mlia.
Qed.

Lemma frames_small : frame_count p < 2 ^ 52.
Proof. pose proof (inv_max _ _ Hinv). pose proof (inv_max64 _ _ Hinv). mlia. Qed.

Lemma free_frames_bound : 0 ≤ free_frames p ≤ frame_count p.
Proof.
  pose proof (inv_count _ _ Hinv). rewrite (inv_free _ _ Hinv), free_of_inv.
  pose proof (size_free_set_le bm (frame_count p)). lia.
Qed.

Lemma test_frame f : 0 ≤ f < frame_count p → bitmap_test bm f = Ret (bit bm f).
Proof. intros Hf. by apply bitmap_test_spec, frame_in_bitmap. Qed.

Lemma free_bit f : 0 ≤ f < frame_count p → bit bm f = false ↔ f ∈ free_of p.
Proof. rewrite elem_of_free_of. tauto. Qed.
End invariant.

(** The invariant after the bitmap and the counters were updated together. *)
Lemma pmm_inv_update p bm p' bm' (F : gset Z) :
  pmm_inv p bm → bitmap p' = Some bm' → (bytes_ok bm → bytes_ok bm') →
  length bm' = length bm → bitmap_bytes p' = bitmap_bytes p → same_config p p' →
  free_set bm' (frame_count p) = F →
  free_frames p' = Z.of_nat (size F) →
  used_frames p' = frame_count p - free_frames p' →
  0 ≤ next_hint p' ≤ frame_count p →
  (∀ f, 0 ≤ f < next_hint p' → bit bm' f = true) →
  pmm_inv p' bm' ∧ free_of p' = F.
Proof.
  intros [] Hbm Hbytes Hlen Hbb [Hc Hm Hi] HF Hfree Hused Hhint Hbelow.
  assert (free_of p' = F) by (unfold free_of; by rewrite Hbm, Hc).
  split; [|done]. split; rewrite ?Hbb, ?Hc, ?Hm, ?Hlen; auto; congruence.
Qed.

(** ** Marking one frame *)

Lemma mark_frame_free_spec p bm f :
  pmm_inv p bm → 0 ≤ f < frame_count p →
  ∃ p' bm', mark_frame_free p f = Ret p' ∧ same_config p p' ∧
    pmm_inv p' bm' ∧ free_of p' = {[f]} ∪ free_of p.
Proof.
  intros Hinv Hf. pose proof (free_frames_bound _ _ Hinv).
  pose proof (frames_small _ _ Hinv). unfold mark_frame_free.
  destruct (Z.leb_spec (frame_count p) f); [lia|].
  unfold bitmap_of. rewrite (inv_bitmap _ _ Hinv). simpl.
  rewrite (test_frame _ _ Hinv) by done. simpl.
  destruct (bit bm f) eqn:Hbit.
  2:{ exists p, bm. split_and!; [done..|].
      apply (free_bit _ _ Hinv) in Hbit; [set_solver|done]. }
  destruct (bitmap_clear_spec bm f) as (bm' & Hclr & Hlen & Hok & Hbits).
  { by apply (frame_in_bitmap _ _ Hinv). }
  rewrite Hclr. simpl.
  assert (f ∉ free_of p) as Hnew.
  { rewrite (elem_of_free_of _ _ Hinv), Hbit. intros []. done. }
  assert (free_set bm' (frame_count p) = {[f]} ∪ free_of p) as Hset.
  { apply set_eq. intros j.
    rewrite elem_of_union, elem_of_singleton, elem_of_free_set, (elem_of_free_of _ _ Hinv).
    destruct (decide (0 ≤ j)); [|lia]. rewrite Hbits by done.
    destruct (Z.eqb_spec j f); naive_solver lia. }
  assert (Z.of_nat (size ({[f]} ∪ free_of p)) = free_frames p + 1) as Hsz.
  { rewrite size_union, size_singleton, (inv_free _ _ Hinv) by set_solver. lia. }
  pose proof (size_free_set_le bm' (frame_count p)) as Hle. rewrite Hset, Hsz in Hle.
  pose proof (inv_used _ _ Hinv) as Hu. pose proof (inv_hint _ _ Hinv) as Hh.
  destruct (Z.ltb_spec 0 (used_frames p)); [|lia].
  assert (∀ j, 0 ≤ j < next_hint p → j ≠ f → bit bm' j = true) as Hb.
  { intros j Hj Hne. rewrite Hbits by lia. destruct (Z.eqb_spec j f); [done|].
    by apply (inv_below_hint _ _ Hinv). }
  simpl. destruct (Z.ltb_spec f (next_hint p));
    eexists _, bm'; do 2 (split; [done|]); apply (pmm_inv_update p bm); simpl;
    rewrite ?add64_small, ?sub64_small by (unfold in64; lia); try done || lia;
    intros j Hj; apply Hb; lia.
Qed.

Lemma mark_frame_used_spec p bm f :
  pmm_inv p bm → 0 ≤ f < frame_count p →
  ∃ p' bm', mark_frame_used p f = Ret p' ∧ same_config p p' ∧
    next_hint p' = next_hint p ∧ bit bm' f = true ∧
    pmm_inv p' bm' ∧ free_of p' = free_of p ∖ {[f]}.
Proof.
  intros Hinv Hf. pose proof (free_frames_bound _ _ Hinv).
  pose proof (frames_small _ _ Hinv). unfold mark_frame_used.
  destruct (Z.leb_spec (frame_count p) f); [lia|].
  unfold bitmap_of. rewrite (inv_bitmap _ _ Hinv). simpl.
  rewrite (test_frame _ _ Hinv) by done. simpl.
  destruct (bit bm f) eqn:Hbit; simpl.
  { exists p, bm. split_and!; [done..|].
    assert (f ∉ free_of p) by (rewrite (elem_of_free_of _ _ Hinv), Hbit; naive_solver).
    set_solver. }
  destruct (bitmap_set_spec bm f) as (bm' & Hset' & Hlen & Hok & Hbits).
  { by apply (frame_in_bitmap _ _ Hinv). }
  rewrite Hset'. simpl.
  assert (f ∈ free_of p) as Hold by by apply (free_bit _ _ Hinv).
  assert (free_set bm' (frame_count p) = free_of p ∖ {[f]}) as Hset.
  { apply set_eq. intros j.
    rewrite elem_of_difference, elem_of_singleton, elem_of_free_set, (elem_of_free_of _ _ Hinv).
    destruct (decide (0 ≤ j)); [|lia]. rewrite Hbits by done.
    destruct (Z.eqb_spec j f); naive_solver lia. }
  assert (Z.of_nat (size (free_of p ∖ {[f]})) = free_frames p - 1 ∧ 0 < free_frames p) as [Hsz Hpos].
  { assert ({[f]} ⊆ free_of p) as Hsub by set_solver.
    rewrite size_difference by done. apply subseteq_size in Hsub.
    rewrite size_singleton in *. rewrite (inv_free _ _ Hinv). lia. }
  pose proof (inv_used _ _ Hinv) as Hu. pose proof (inv_hint _ _ Hinv) as Hh.
  destruct (Z.ltb_spec 0 (free_frames p)); [|lia]. simpl.
  eexists _, bm'. do 3 (split; [done|]).
  split; [rewrite Hbits by lia; by rewrite Z.eqb_refl|].
  apply (pmm_inv_update p bm); simpl;
    rewrite ?add64_small, ?sub64_small by (unfold in64; lia); try done || lia.
  intros j Hj. rewrite Hbits by lia.
  destruct (Z.eqb_spec j f); [done|]. by apply (inv_below_hint _ _ Hinv).
Qed.

(** ** Marking ranges *)

(** What the two range operations do to frame [f], wrap-around of the address
    arithmetic included. *)
Definition frees (base length f : Z) : Prop :=
  0 < length ∧ base + length < 2 ^ 64 ∧
  ((base ≤ f * 4096 ∧ (f + 1) * 4096 ≤ base + length) ∨ 2 ^ 64 - 4096 < base).

Definition occupies (base length f : Z) : Prop :=
  0 < length ∧ base + length ≤ 2 ^ 64 - 4096 ∧
  base < (f + 1) * 4096 ∧ f * 4096 < base + length.

Lemma mark_range_free_loop p bm start stop :
  pmm_inv p bm → start mod 4096 = 0 → stop mod 4096 = 0 →
  0 ≤ start ≤ stop → stop ≤ max_phys p →
  ∃ p', loop (page_fuel stop) (mark_range_free_step stop) (p, start) = Ret p' ∧
    same_config p p' ∧ (∃ bm', pmm_inv p' bm') ∧
    ∀ f, f ∈ free_of p' ↔ f ∈ free_of p ∨ start ≤ f * 4096 < stop.
Proof.
  intros Hinv Hs Ht Hle Hmax. pose proof (inv_max64 _ _ Hinv) as Hm64.
  eapply (loop_rule _ (λ '(q, addr), same_config p q ∧ (∃ bm', pmm_inv q bm') ∧
    addr mod 4096 = 0 ∧ start ≤ addr ≤ stop ∧
    ∀ f, f ∈ free_of q ↔ f ∈ free_of p ∨ start ≤ f * 4096 < addr)
    _ (λ '(q, addr), Z.to_nat ((stop - addr) / 4096))).
  - intros [q addr] (Hsame & [bq Hq] & Ha & Hrange & Hf). unfold mark_range_free_step.
    destruct (Z.ltb_spec addr stop).
    + destruct (mark_frame_free_spec q bq (addr / PMM_PAGE_SIZE))
        as (q' & bq' & -> & Hsame' & Hq' & Hset); [done| |].
      { rewrite (same_count _ _ Hsame). pose proof (inv_max _ _ Hinv).
        unfold PMM_PAGE_SIZE. mlia. }
      simpl. eexists. split; [done|]. unfold PMM_PAGE_SIZE in *.
      rewrite add64_small by mlia. split; [|mlia].
      split_and!; [by trans q|by eexists|mlia..|].
      intros f. rewrite Hset, elem_of_union, elem_of_singleton, Hf.
      assert (f = addr / 4096 ↔ f * 4096 = addr) by mlia.
      assert (f * 4096 < addr + 4096 ↔ f * 4096 < addr ∨ f * 4096 = addr) by mlia. plia.
    + eexists. split; [done|]. assert (addr = stop) as -> by lia.
      split_and!; eauto.
  - split_and!; [done|by eexists|done|lia|lia|]. intros f. plia.
  - unfold page_fuel, PMM_PAGE_SIZE. mlia.
Qed.

Lemma mark_range_free_spec p bm base length :
  pmm_inv p bm → in64 base → in64 length →
  ∃ p', mark_range_free p base length = Ret p' ∧
    same_config p p' ∧ (∃ bm', pmm_inv p' bm') ∧
    ∀ f, f ∈ free_of p' ↔
         f ∈ free_of p ∨ (0 ≤ f < frame_count p ∧ frees base length f).
Proof.
  intros Hinv Hb Hl. pose proof (inv_max _ _ Hinv) as Hm.
  pose proof (inv_max64 _ _ Hinv) as Hm64. unfold mark_range_free, frees.
  assert (∀ P : Z → Prop, (∀ f, 0 ≤ f < frame_count p → ¬ P f) →
    ∃ p', Ret p = Ret p' ∧ same_config p p' ∧ (∃ bm', pmm_inv p' bm') ∧
    ∀ f, f ∈ free_of p' ↔ f ∈ free_of p ∨ (0 ≤ f < frame_count p ∧ P f)) as Hno.
  { intros P HP. exists p. split_and!; [done..|by eexists|]. naive_solver. }
  destruct (Z.eqb_spec length 0); [apply Hno; lia|].
  rewrite checked_add_spec by done.
  destruct (Z.ltb_spec (base + length) (2 ^ 64)); [|apply Hno; lia].
  rewrite align_down_page by mlia.
  set (start := align_up base PMM_PAGE_SIZE).
  set (stop := base + length - (base + length) mod 4096).
  assert (start mod 4096 = 0 ∧ 0 ≤ start ∧ ∀ f, 0 ≤ f → start ≤ f * 4096 ↔
     base ≤ f * 4096 ∨ 2 ^ 64 - 4096 < base) as (Hs1 & Hs2 & Hs3).
  { subst start. destruct (decide (base ≤ 2 ^ 64 - 4096)).
    - rewrite align_up_page by done. split_and!; [mlia..|]. intros f. split; mlia.
    - rewrite align_up_page_wraps by mlia. split_and!; [done..|]. intros f. lia. }
  assert (stop mod 4096 = 0 ∧ ∀ f, 0 ≤ f < frame_count p → f * 4096 < stop ↔
     (f + 1) * 4096 ≤ base + length) as (Ht1 & Ht2).
  { subst stop. split; [mlia|]. intros f Hf. split; mlia. }
  assert (∀ f, 0 ≤ f < frame_count p → 2 ^ 64 - 4096 < base →
     (f + 1) * 4096 ≤ base + length) as Hlast by mlia.
  destruct (Z.leb_spec stop start).
  { apply Hno. intros f Hf. specialize (Hs3 f ltac:(lia)).
    specialize (Ht2 f ltac:(lia)). specialize (Hlast f ltac:(lia)). plia. }
  destruct (Z.leb_spec (max_phys p) start).
  { apply Hno. intros f Hf. specialize (Hs3 f ltac:(lia)). plia. }
  set (q := if max_phys p <? stop then _ else _).
  assert (∃ p1 stop1, q = (p1, stop1) ∧ stop1 = Z.min stop (max_phys p) ∧
    pmm_inv p1 bm ∧ same_config p p1 ∧ free_of p1 = free_of p) as
    (p1 & stop1 & -> & -> & Hinv1 & Hsame1 & Hfree1).
  { subst q. destruct (Z.ltb_spec (max_phys p) stop); eexists _, _;
      (split_and!; [done|lia|..|done]); [|done|done|done].
    destruct Hinv. split; done. }
  destruct (mark_range_free_loop p1 bm start (Z.min stop (max_phys p)))
    as (p' & -> & Hsame & Hinv' & Hf'); [done|done| |lia| |].
  { mlia. }
  { rewrite (same_max _ _ Hsame1). lia. }
  exists p'. split_and!; [done|by trans p1|done|]. intros f. rewrite Hf', Hfree1.
  destruct (decide (0 ≤ f < frame_count p)) as [Hin|Hout].
  - specialize (Hs3 f ltac:(lia)). specialize (Ht2 f ltac:(lia)).
    specialize (Hlast f ltac:(lia)). unfold in64 in *. apply or_iff_compat_l. lia.
  - split; [|naive_solver]. intros [?|?]; [by left|]. exfalso. lia.
Qed.

Lemma mark_range_used_loop p bm start stop :
  pmm_inv p bm → start mod 4096 = 0 → stop mod 4096 = 0 →
  0 ≤ start ≤ stop → stop ≤ max_phys p →
  ∃ p', loop (page_fuel stop) (mark_range_used_step stop) (p, start) = Ret p' ∧
    same_config p p' ∧ (∃ bm', pmm_inv p' bm') ∧
    ∀ f, f ∈ free_of p' ↔ f ∈ free_of p ∧ ¬ start ≤ f * 4096 < stop.
Proof.
  intros Hinv Hs Ht Hle Hmax. pose proof (inv_max64 _ _ Hinv) as Hm64.
  eapply (loop_rule _ (λ '(q, addr), same_config p q ∧ (∃ bm', pmm_inv q bm') ∧
    addr mod 4096 = 0 ∧ start ≤ addr ≤ stop ∧
    ∀ f, f ∈ free_of q ↔ f ∈ free_of p ∧ ¬ start ≤ f * 4096 < addr)
    _ (λ '(q, addr), Z.to_nat ((stop - addr) / 4096))).
  - intros [q addr] (Hsame & [bq Hq] & Ha & Hrange & Hf). unfold mark_range_used_step.
    destruct (Z.ltb_spec addr stop).
    + assert (0 ≤ addr / PMM_PAGE_SIZE < frame_count q) as Hin.
      { rewrite (same_count _ _ Hsame). pose proof (inv_max _ _ Hinv).
        unfold PMM_PAGE_SIZE. mlia. }
      destruct (mark_frame_used_spec q bq (addr / PMM_PAGE_SIZE))
        as (q' & bq' & Hmark & Hsame' & _ & _ & Hq' & Hset); [done..|].
      unfold bitmap_of. rewrite (inv_bitmap _ _ Hq). simpl.
      rewrite (test_frame _ _ Hq), Hmark by done. simpl.
      eexists. split; [done|]. unfold PMM_PAGE_SIZE in *.
      rewrite (add64_small addr) by mlia. split; [|mlia].
      set (q2 := if negb _ then _ else q').
      assert (same_config q q2 ∧ pmm_inv q2 bq' ∧ free_of q2 = free_of q') as (?&?&Hq2).
      { subst q2. destruct Hsame', Hq'. case_match; split_and!; done || by split. }
      split_and!; [by trans q|by eexists|mlia..|].
      intros f. rewrite Hq2, Hset, elem_of_difference, elem_of_singleton, Hf.
      assert (f = addr / 4096 ↔ f * 4096 = addr) by mlia.
      assert (f * 4096 < addr + 4096 ↔ f * 4096 < addr ∨ f * 4096 = addr) by mlia. plia.
    + eexists. split; [done|]. assert (addr = stop) as -> by lia.
      split_and!; eauto.
  - split_and!; [done|by eexists|done|lia|lia|]. intros f. plia.
  - unfold page_fuel, PMM_PAGE_SIZE. mlia.
Qed.

Lemma mark_range_used_spec p bm base length :
  pmm_inv p bm → in64 base → in64 length →
  ∃ p', mark_range_used p base length = Ret p' ∧
    same_config p p' ∧ (∃ bm', pmm_inv p' bm') ∧
    ∀ f, f ∈ free_of p' ↔ f ∈ free_of p ∧ ¬ occupies base length f.
Proof.
  intros Hinv Hb Hl. pose proof (inv_max _ _ Hinv) as Hm.
  pose proof (inv_max64 _ _ Hinv) as Hm64. unfold mark_range_used, occupies.
  assert (∀ P : Z → Prop, (∀ f, f ∈ free_of p → ¬ P f) →
    ∃ p', Ret p = Ret p' ∧ same_config p p' ∧ (∃ bm', pmm_inv p' bm') ∧
    ∀ f, f ∈ free_of p' ↔ f ∈ free_of p ∧ ¬ P f) as Hno.
  { intros P HP. exists p. split_and!; [done..|by eexists|]. naive_solver. }
  destruct (Z.eqb_spec length 0); [apply Hno; lia|].
  rewrite checked_add_spec by done.
  destruct (Z.ltb_spec (base + length) (2 ^ 64)); [|apply Hno; lia].
  rewrite align_down_page by mlia.
  destruct (decide (base + length ≤ 2 ^ 64 - 4096)) as [Hend|Hend].
  2:{ rewrite align_up_page_wraps by lia.
      destruct (Z.leb_spec 0 (base - base mod 4096)); [apply Hno; lia|mlia]. }
  rewrite align_up_page by mlia.
  set (start := base - base mod 4096).
  set (stop := base + length + 4095 - (base + length + 4095) mod 4096).
  assert (start mod 4096 = 0 ∧ 0 ≤ start ∧ ∀ f,
     start ≤ f * 4096 ↔ base < (f + 1) * 4096) as (Hs1 & Hs2 & Hs3).
  { subst start. split_and!; [mlia..|]. intros f. split; mlia. }
  assert (stop mod 4096 = 0 ∧ ∀ f, f * 4096 < stop ↔ f * 4096 < base + length) as (Ht1 & Ht2).
  { subst stop. split; [mlia|]. intros f. split; mlia. }
  destruct (Z.leb_spec stop start).
  { apply Hno. intros f _. specialize (Hs3 f). specialize (Ht2 f). lia. }
  destruct (Z.leb_spec (max_phys p) start).
  { apply Hno. intros f Hf%(free_of_bound _ _ Hinv). specialize (Hs3 f). lia. }
  assert ((if max_phys p <? stop then max_phys p else stop) = Z.min stop (max_phys p)) as ->.
  { destruct (Z.ltb_spec (max_phys p) stop); lia. }
  destruct (mark_range_used_loop p bm start (Z.min stop (max_phys p)))
    as (p' & -> & Hsame & Hinv' & Hf'); [done|done|mlia|lia|lia|].
  exists p'. split_and!; [done..|]. intros f. rewrite Hf'.
  apply and_iff_under. intros Hin%(free_of_bound _ _ Hinv).
  specialize (Hs3 f). specialize (Ht2 f). unfold in64 in *. lia.
Qed.

(** ** Initialisation *)

Lemma fill_loop_spec (storage : list Z) (n : Z) :
  bytes_ok storage → 0 ≤ n ≤ Z.of_nat (length storage) → n < 2 ^ 63 →
  ∃ bm, loop (S (S (Z.to_nat n))) (fill_step n) (storage, 0) = Ret bm ∧
    bytes_ok bm ∧ length bm = length storage ∧
    ∀ f, 0 ≤ f < 8 * n → bit bm f = true.
Proof.
  intros Hok Hn Hn63.
  eapply (loop_rule _ (λ '(bm, i), 0 ≤ i ≤ n ∧ bytes_ok bm ∧ length bm = length storage ∧
     ∀ j, 0 ≤ j < i → bm !! Z.to_nat j = Some 255) _ (λ '(_, i), Z.to_nat (n - i))).
  - intros [bm i] (Hi & Hb & Hlen & Hfill). unfold fill_step.
    destruct (Z.ltb_spec i n).
    + rewrite wr_Ret by lia. simpl. eexists. split; [done|].
      rewrite add64_small by (unfold in64; lia). split; [|lia].
      split_and!; [lia..| |by rewrite length_insert|].
      * by apply Forall_insert.
      * intros j Hj. destruct (decide (j = i)) as [->|].
        { apply list_lookup_insert_eq. lia. }
        rewrite list_lookup_insert_ne by lia. apply Hfill. lia.
    + eexists. split; [done|]. split_and!; [done..|].
      intros f Hf. unfold bit. rewrite Hfill by mlia.
      change 255 with (Z.ones 8). apply Z.ones_spec_low. mlia.
  - split_and!; [lia..|done|done|]. lia.
  - lia.
Qed.

Definition region_ok (r : boot_mem_region) : Prop := in64 (rg_base r) ∧ in64 (rg_length r).

(** One pass over the map, for a [body] that changes the membership of each
    frame [f] in the free set by [eff r f]. *)
Section region_pass.
Context (regions : list boot_mem_region) (n fc : Z) (select : Z → bool)
  (body : pmm_state → Z → Z → outcome pmm_state)
  (eff : boot_mem_region → Z → Prop → Prop).
Hypothesis Hn : 0 ≤ n ≤ Z.of_nat (length regions).
Hypothesis Hn63 : n < 2 ^ 63.
Hypothesis Hregions : Forall region_ok regions.
Hypothesis eff_iff : ∀ r f P Q, (P ↔ Q) → (eff r f P ↔ eff r f Q).
Hypothesis body_ok : ∀ p bm r, pmm_inv p bm → frame_count p = fc → region_ok r →
  ∃ p', body p (rg_base r) (rg_length r) = Ret p' ∧ same_config p p' ∧
    (∃ bm', pmm_inv p' bm') ∧ ∀ f, f ∈ free_of p' ↔ eff r f (f ∈ free_of p).

Definition pass_effect (f : Z) (P : Prop) (rs : list boot_mem_region) : Prop :=
  foldl (λ X r, if select (rg_type r) then eff r f X else X) P rs.

Lemma region_loop_spec p bm :
  pmm_inv p bm → frame_count p = fc →
  ∃ p', loop (S (S (Z.to_nat n))) (region_step regions n select body) (p, 0) = Ret p' ∧
    same_config p p' ∧ (∃ bm', pmm_inv p' bm') ∧
    ∀ f, f ∈ free_of p' ↔ pass_effect f (f ∈ free_of p) (take (Z.to_nat n) regions).
Proof.
  intros Hinv Hfc.
  eapply (loop_rule _ (λ '(q, i), 0 ≤ i ≤ n ∧ same_config p q ∧ (∃ bm', pmm_inv q bm') ∧
     ∀ f, f ∈ free_of q ↔ pass_effect f (f ∈ free_of p) (take (Z.to_nat i) regions))
     _ (λ '(_, i), Z.to_nat (n - i))).
  - intros [q i] (Hi & Hsame & [bq Hq] & Hf). unfold region_step.
    destruct (Z.ltb_spec i n).
    2:{ eexists. split; [done|]. assert (i = n) as -> by lia. split_and!; eauto. }
    destruct (lookup_lt_is_Some_2 regions (Z.to_nat i)) as [r Hr]; [lia|].
    rewrite (rd_Ret _ _ r) by (done || lia). simpl.
    assert (region_ok r) as Hrok by by eapply Forall_lookup_1.
    assert (∃ q', (if select (rg_type r) then body q (rg_base r) (rg_length r) else Ret q)
      = Ret q' ∧ same_config q q' ∧ (∃ bm', pmm_inv q' bm') ∧ ∀ f, f ∈ free_of q' ↔
      if select (rg_type r) then eff r f (f ∈ free_of q) else f ∈ free_of q)
      as (q' & -> & Hsame' & Hq' & Hf').
    { destruct (select (rg_type r)).
      - eapply body_ok; [done| |done]. by rewrite (same_count _ _ Hsame).
      - exists q. split_and!; [done..|by eexists|done]. }
    simpl. eexists. split; [done|]. rewrite add64_small by (unfold in64; lia).
    split; [|lia]. split_and!; [lia..|by trans q|done|].
    intros f. replace (Z.to_nat (i + 1)) with (S (Z.to_nat i)) by lia.
    rewrite (take_S_r _ _ r) by done. unfold pass_effect. rewrite foldl_app. simpl.
    rewrite Hf'. destruct (select (rg_type r)); [apply eff_iff, Hf|apply Hf].
  - split_and!; [lia..|done|by eexists|done].
  - lia.
Qed.
End region_pass.

Lemma pass_effect_or select (P : boot_mem_region → Z → Prop) f X rs :
  pass_effect select (λ r f X, X ∨ P r f) f X rs ↔
  X ∨ ∃ r, r ∈ rs ∧ select (rg_type r) = true ∧ P r f.
Proof.
  revert X. induction rs as [|r rs IH]; intros X; unfold pass_effect; simpl.
  - set_solver.
  - unfold pass_effect in IH. rewrite IH. setoid_rewrite elem_of_cons.
    destruct (select (rg_type r)) eqn:E; [naive_solver|].
    split; [naive_solver|]. intros [?|(? & [->|?] & ? & ?)]; [by left|congruence|].
    right. by eexists.
Qed.

Lemma pass_effect_and select (P : boot_mem_region → Z → Prop) f X rs :
  pass_effect select (λ r f X, X ∧ ¬ P r f) f X rs ↔
  X ∧ ∀ r, r ∈ rs → select (rg_type r) = true → ¬ P r f.
Proof.
  revert X. induction rs as [|r rs IH]; intros X; unfold pass_effect; simpl.
  - set_solver.
  - unfold pass_effect in IH. rewrite IH. setoid_rewrite elem_of_cons.
    destruct (select (rg_type r)) eqn:E; [naive_solver|].
    split; intros [HX Hall]; (split; [done|]); intros r' Hr' Hsel; [|by apply Hall; auto].
    destruct Hr' as [->|]; [congruence|by apply Hall].
Qed.

(** The result of a successful initialisation, wrap-around included. *)
Lemma pmm_init_spec p0 regions n storage storage_bytes max :
  1 ≤ n ≤ Z.of_nat (length regions) → n < 2 ^ 63 → Forall region_ok regions →
  bytes_ok storage → storage_bytes ≤ Z.of_nat (length storage) →
  in64 max → 0 < max → max mod 4096 = 0 → (max / 4096 + 7) / 8 ≤ storage_bytes →
  ∃ p bm,
    pmm_init_from_map (Some p0) (Some regions) n (Some storage) storage_bytes max
      = Ret (true, Some p) ∧
    pmm_inv p bm ∧ initialized p = true ∧
    frame_count p = max / 4096 ∧ max_phys p = max ∧
    ∀ f, f ∈ free_of p ↔
      0 < f < max / 4096 ∧
      (∃ r, r ∈ take (Z.to_nat n) regions ∧ rg_type r = BOOT_MEM_USABLE ∧
            frees (rg_base r) (rg_length r) f) ∧
      (∀ r, r ∈ take (Z.to_nat n) regions → rg_type r ≠ BOOT_MEM_USABLE →
            ¬ occupies (rg_base r) (rg_length r) f).
Proof.
  intros Hn Hn63 Hreg Hst Hstb Hmax Hpos Hal Hreq. unfold pmm_init_from_map.
  destruct (Z.eqb_spec n 0); [lia|]. rewrite land_page_mask.
  change PMM_PAGE_SIZE with 4096. rewrite Hal.
  destruct (Z.eqb_spec max 0); [lia|]. simpl.
  rewrite add64_small by mlia.
  destruct (Z.ltb_spec storage_bytes ((max / 4096 + 7) / 8)); [lia|].
  destruct (fill_loop_spec storage ((max / 4096 + 7) / 8)) as (bm & -> & Hbok & Hblen & Hones);
    [done|mlia|mlia|]. simpl. unfold set_bitmap. simpl.
  set (p1 := mk_pmm _ _ _ _ _ _ _ _ _ _).
  assert (free_of p1 = ∅) as Hempty.
  { apply set_eq. intros f. unfold free_of. simpl. rewrite elem_of_free_set.
    split; [|set_solver]. intros [Hf Hbit]. rewrite Hones in Hbit; [done|mlia]. }
  assert (pmm_inv p1 bm) as Hinv1.
  { split; simpl; try done; try mlia. rewrite Hempty, size_empty. done. }
  destruct (region_loop_spec regions n (max / 4096) (λ ty, ty =? BOOT_MEM_USABLE) mark_range_free
    (λ r f X, X ∨ (0 ≤ f < max / 4096 ∧ frees (rg_base r) (rg_length r) f))) with (p := p1) (bm := bm)
    as (p2 & -> & Hsame2 & [bm2 Hinv2] & Hf2); try done; try lia.
  { intros r f P Q ->. done. }
  { intros p bm' r Hp Hfc [Hr1 Hr2]. rewrite <- Hfc. by apply (mark_range_free_spec p bm'). }
  simpl. destruct (mark_range_used_spec p2 bm2 0 4096) as (p3 & -> & Hsame3 & [bm3 Hinv3] & Hf3);
    [done|done|done|]. simpl.
  destruct (region_loop_spec regions n (max / 4096) (λ ty, negb (ty =? BOOT_MEM_USABLE)) mark_range_used
    (λ r f X, X ∧ ¬ occupies (rg_base r) (rg_length r) f)) with (p := p3) (bm := bm3)
    as (p4 & -> & Hsame4 & [bm4 Hinv4] & Hf4); try done; try lia.
  { intros r f P Q ->. done. }
  { intros p bm' r Hp Hfc [Hr1 Hr2]. by apply (mark_range_used_spec p bm'). }
  { by rewrite (same_count _ _ Hsame3), (same_count _ _ Hsame2). }
  simpl. assert (same_config p1 p4) as [Hc4 Hm4 _] by (trans p2; [done|by trans p3]).
  eexists _, bm4. split; [done|]. split_and!; try done; [by destruct Hinv4; split|].
  intros f. change (free_of (set_initialized p4 true)) with (free_of p4).
  rewrite Hf4, (pass_effect_and _ (λ r f, occupies (rg_base r) (rg_length r) f)), Hf3, Hf2.
  rewrite (pass_effect_or _ (λ r f, 0 ≤ f < max / 4096 ∧ frees (rg_base r) (rg_length r) f)).
  rewrite Hempty. unfold occupies at 1.
  setoid_rewrite negb_true_iff. setoid_rewrite Z.eqb_eq. setoid_rewrite Z.eqb_neq.
  split.
  - intros [[[?|(r & Hr & Hty & Hf & Hfr)] Hzero] Hnon]; [set_solver|].
    split_and!; [lia..|by exists r|done].
  - intros (Hf & (r & Hr & Hty & Hfr) & Hnon).
    split_and!; [|lia|done]. right. exists r. split_and!; done || lia.
Qed.

(** ** Allocation *)

Lemma alloc_loop_spec p bm :
  pmm_inv p bm → initialized p = true →
  ∃ r, loop (S (S (Z.to_nat (frame_count p)))) (alloc_step frame_count) (p, next_hint p) = Ret r ∧
    match r with
    | Some (a, p') => ∃ f, a = f * 4096 ∧ f ∈ free_of p ∧ (∀ g, g ∈ free_of p → f ≤ g) ∧
        same_config p p' ∧ next_hint p' = f + 1 ∧
        (∃ bm', pmm_inv p' bm') ∧ free_of p' = free_of p ∖ {[f]}
    | None => free_of p = ∅
    end.
Proof.
  intros Hinv Hinit. pose proof (frames_small _ _ Hinv) as Hsmall.
  pose proof (inv_hint _ _ Hinv) as Hh. pose proof (inv_max _ _ Hinv) as Hm.
  pose proof (inv_max64 _ _ Hinv) as Hm64. unfold in64 in Hm64.
  apply (loop_rule _ (λ '(q, i), q = p ∧ 0 ≤ i ≤ frame_count p ∧
      ∀ g, 0 ≤ g < i → bit bm g = true) _ (λ '(_, i), Z.to_nat (frame_count p - i))).
  - intros [q i] (-> & Hi & Hbelow). unfold alloc_step.
    destruct (Z.ltb_spec i (frame_count p)).
    2:{ eexists. split; [done|]. simpl. apply set_eq. intros g.
        rewrite (elem_of_free_of _ _ Hinv). split; [|set_solver].
        intros [Hg Hb]. rewrite Hbelow in Hb by lia. done. }
    unfold bitmap_of. rewrite (inv_bitmap _ _ Hinv). simpl.
    rewrite (test_frame _ _ Hinv) by lia. simpl.
    destruct (bit bm i) eqn:Hbit; simpl.
    { eexists. split; [done|]. rewrite add64_small by (unfold in64; lia). split; [|lia].
      split_and!; [done|lia..|]. intros g Hg.
      destruct (decide (g = i)) as [->|]; [done|]. apply Hbelow. lia. }
    destruct (mark_frame_used_spec p bm i) as (p1 & bm1 & -> & Hsame & Hhint & Hbit1 & Hinv1 & Hset);
      [done|lia|]. simpl. eexists. split; [done|]. simpl.
    rewrite mul64_small by (unfold in64, PMM_PAGE_SIZE; lia). exists i.
    split_and!; [done|apply (free_bit _ _ Hinv); [lia|done]|..].
    + intros g. rewrite (elem_of_free_of _ _ Hinv). intros [Hg Hb].
      destruct (decide (g < i)); [|lia]. rewrite Hbelow in Hb by lia. done.
    + destruct Hsame. by split.
    + simpl. by rewrite add64_small by (unfold in64; lia).
    + exists bm1. rewrite add64_small by (unfold in64; lia).
      pose proof (same_count _ _ Hsame) as Hc.
      assert (∀ g, 0 ≤ g < i + 1 → bit bm1 g = true) as Hb1.
      { intros g Hg. destruct (decide (g = i)) as [->|]; [done|].
        destruct (bit bm1 g) eqn:E; [done|]. exfalso.
        assert (g ∈ free_of p1) as Hin by (rewrite (elem_of_free_of _ _ Hinv1); split; [lia|done]).
        rewrite Hset, elem_of_difference, (elem_of_free_of _ _ Hinv) in Hin.
        destruct Hin as [[_ Hb] _]. rewrite Hbelow in Hb by lia. done. }
      destruct Hinv1. split; simpl; try done; try lia.
    + done.
  - split_and!; [done|lia..|]. apply (inv_below_hint _ _ Hinv).
  - lia.
Qed.

Lemma pmm_alloc_frame_spec p bm :
  pmm_inv p bm → initialized p = true →
  if decide (free_of p = ∅) then pmm_alloc_frame (Some p) = Ret (PMM_INVALID_FRAME, Some p)
  else ∃ f p' bm', pmm_alloc_frame (Some p) = Ret (f * 4096, Some p') ∧
    f ∈ free_of p ∧ (∀ g, g ∈ free_of p → f ≤ g) ∧
    same_config p p' ∧ next_hint p' = f + 1 ∧
    pmm_inv p' bm' ∧ free_of p' = free_of p ∖ {[f]}.
Proof.
  intros Hinv Hinit. unfold pmm_alloc_frame. rewrite Hinit. simpl.
  rewrite (inv_free _ _ Hinv).
  destruct (decide (free_of p = ∅)) as [->|Hne]; [by rewrite size_empty|].
  destruct (Z.eqb_spec (Z.of_nat (size (free_of p))) 0) as [E|_].
  { exfalso. apply Hne, leibniz_equiv, size_empty_iff. lia. }
  destruct (alloc_loop_spec p bm) as (r & -> & Hr); [done..|]. simpl.
  destruct r as [[a p']|]; [|done].
  destruct Hr as (f & -> & ? & ? & ? & ? & [bm' ?] & ?). by exists f, p', bm'.
Qed.
