(* ===== verification/PmmTheorems.v ===== *)
(** * Physical memory manager: abstract specification and theorems

    The abstract PMM is a finite set of free frame numbers: allocation takes
    the least one, release puts a frame back, reservation removes the frames a
    byte range touches.  The C functions refine it on every sequence of
    calls. *)

From S2P Require Import Prelude Pmm PmmProofs.

(** ** The abstract PMM *)

Definition least (F : gset Z) : option Z :=
  foldr (λ x acc, match acc with None => Some x | Some y => Some (Z.min x y) end)
    None (elements F).

#[global] Instance occupies_dec base length f : Decision (occupies base length f).
Proof. unfold occupies. apply _. Defined.

(** The calls a client makes, and what they return. *)
Inductive pmm_op : Type :=
| Alloc
| Free (phys_addr : Z)
| Reserve (base length : Z)
| IsFree (phys_addr : Z).

Inductive pmm_out : Type :=
| OAddr (a : Z)
| OBool (b : bool).

Definition spec_step (n : Z) (F : gset Z) (op : pmm_op) : pmm_out * gset Z :=
  match op with
  | Alloc =>
      match least F with
      | Some f => (OAddr (f * 4096), F ∖ {[f]})
      | None => (OAddr PMM_INVALID_FRAME, F)
      end
  | Free a =>
      if decide (a mod 4096 = 0 ∧ 0 < a / 4096 < n ∧ a / 4096 ∉ F)
      then (OBool true, {[a / 4096]} ∪ F) else (OBool false, F)
  | Reserve base length =>
      if decide (length = 0) then (OBool false, F)
      else (OBool true, filter (λ f, ¬ occupies base length f) F)
  | IsFree a => (OBool (bool_decide (a mod 4096 = 0 ∧ a / 4096 ∈ F)), F)
  end.

Fixpoint spec_run (n : Z) (F : gset Z) (ops : list pmm_op) : list pmm_out * gset Z :=
  match ops with
  | [] => ([], F)
  | op :: ops =>
      let '(o, F1) := spec_step n F op in
      let '(os, F2) := spec_run n F1 ops in
      (o :: os, F2)
  end.

(** ** The C functions as one interpreter of calls *)

Definition pmm_step (p : option pmm_state) (op : pmm_op)
    : outcome (pmm_out * option pmm_state) :=
  match op with
  | Alloc => '(a, p) ← pmm_alloc_frame p; Ret (OAddr a, p)
  | Free a => '(b, p) ← pmm_free_frame p a; Ret (OBool b, p)
  | Reserve base length => '(b, p) ← pmm_reserve_range p base length; Ret (OBool b, p)
  | IsFree a => b ← pmm_is_frame_free p a; Ret (OBool b, p)
  end.

Fixpoint pmm_run (p : option pmm_state) (ops : list pmm_op)
    : outcome (list pmm_out * option pmm_state) :=
  match ops with
  | [] => Ret ([], p)
  | op :: ops =>
      '(o, p) ← pmm_step p op;
      '(os, p) ← pmm_run p ops;
      Ret (o :: os, p)
  end.

(** Arguments of type [uint64_t]. *)
Definition op_ok (op : pmm_op) : Prop :=
  match op with
  | Alloc => True
  | Free a | IsFree a => in64 a
  | Reserve base length => in64 base ∧ in64 length
  end.

(** The states in which the PMM serves calls. *)
Record pmm_ready (p : pmm_state) : Prop := {
  ready_inv : ∃ bm, pmm_inv p bm;
  ready_init : initialized p = true;
  ready_zero : 0 ∉ free_of p;
}.

(** What init and any number of calls can produce. *)
Inductive pmm_reachable : pmm_state → Prop :=
| reach_init p0 regions n storage storage_bytes max p :
    1 ≤ n ≤ Z.of_nat (length regions) → n < 2 ^ 63 → Forall region_ok regions →
    bytes_ok storage → storage_bytes ≤ Z.of_nat (length storage) → in64 max →
    pmm_init_from_map (Some p0) (Some regions) n (Some storage) storage_bytes max
      = Ret (true, Some p) →
    pmm_reachable p
| reach_step p op o p' :
    pmm_reachable p → op_ok op → pmm_step (Some p) op = Ret (o, Some p') →
    pmm_reachable p'.

(** ** Lemmas *)

Lemma least_None F : least F = None → F = ∅.
Proof.
  unfold least. intros H. apply leibniz_equiv, elements_empty_inv.
  destruct (elements F) as [|x l]; [done|]. simpl in H. by destruct (foldr _ _ _).
Qed.

Lemma least_Some F f :
  least F = Some f → f ∈ F ∧ ∀ g, g ∈ F → f ≤ g.
Proof.
  unfold least. setoid_rewrite <- elem_of_elements. generalize (elements F) as l.
  intros l. revert f. induction l as [|x l IH]; intros f; simpl; [done|].
  destruct (foldr _ _ l) as [y|] eqn:E; intros [= <-].
  - destruct (IH y eq_refl) as [Hin Hmin]. split.
    + destruct (Z.min_spec x y) as [[_ ->]|[_ ->]]; set_solver.
    + intros g [->|Hg]%elem_of_cons; [lia|]. specialize (Hmin g Hg). lia.
  - destruct l as [|z l]; [|simpl in E; by destruct (foldr _ _ l)].
    split; set_solver.
Qed.

Lemma least_unique F f : f ∈ F → (∀ g, g ∈ F → f ≤ g) → least F = Some f.
Proof.
  intros Hin Hmin. destruct (least F) as [g|] eqn:E.
  - apply least_Some in E as [Hg Hg']. f_equal. apply Hmin in Hg. apply Hg' in Hin. lia.
  - apply least_None in E. set_solver.
Qed.

(** Guards shared by [pmm_free_frame] and [pmm_is_frame_free]. *)
Lemma frame_of_addr p bm a :
  pmm_inv p bm → in64 a → a mod 4096 = 0 → a < max_phys p →
  0 ≤ a / 4096 < frame_count p.
Proof. intros Hinv Ha Hal Hlt. rewrite (inv_max _ _ Hinv) in Hlt. mlia. Qed.

Lemma pmm_free_frame_spec p bm a :
  pmm_inv p bm → initialized p = true → in64 a →
  if decide (a mod 4096 = 0 ∧ 0 < a / 4096 < frame_count p ∧ a / 4096 ∉ free_of p)
  then ∃ p' bm', pmm_free_frame (Some p) a = Ret (true, Some p') ∧ same_config p p' ∧
         pmm_inv p' bm' ∧ free_of p' = {[a / 4096]} ∪ free_of p
  else pmm_free_frame (Some p) a = Ret (false, Some p).
Proof.
  intros Hinv Hinit Ha. pose proof (inv_max _ _ Hinv) as Hmax.
  unfold pmm_free_frame. rewrite Hinit, land_page_mask. simpl.
  change PMM_PAGE_SIZE with 4096.
  set (guard := negb _ || _ || _).
  assert (guard = false ↔ a mod 4096 = 0 ∧ 0 < a / 4096 < frame_count p) as Hguard.
  { subst guard. rewrite !orb_false_iff, negb_false_iff, Z.eqb_eq, Z.eqb_neq, Z.leb_gt.
    split; mlia. }
  destruct guard.
  { destruct (decide _) as [(Hal & Hin & _)|]; [|done].
    exfalso. destruct Hguard as [_ Hg]. discriminate Hg. done. }
  destruct Hguard as [Hg _]. specialize (Hg eq_refl) as [Hal Hin].
  unfold bitmap_of. rewrite (inv_bitmap _ _ Hinv). simpl.
  rewrite (test_frame _ _ Hinv) by lia. simpl.
  pose proof (free_bit _ _ Hinv (a / 4096) ltac:(lia)) as Hbit.
  destruct (bit bm (a / 4096)) eqn:E; simpl.
  - rewrite decide_True by (split_and!; [done|lia|lia|naive_solver]).
    destruct (mark_frame_free_spec p bm (a / 4096)) as (p' & bm' & -> & ? & ? & ?);
      [done|lia|]. simpl. by exists p', bm'.
  - rewrite decide_False; [done|]. naive_solver.
Qed.

Lemma pmm_reserve_range_spec p bm base length :
  pmm_inv p bm → initialized p = true → in64 base → in64 length → length ≠ 0 →
  ∃ p' bm', pmm_reserve_range (Some p) base length = Ret (true, Some p') ∧
    same_config p p' ∧ pmm_inv p' bm' ∧
    free_of p' = filter (λ f, ¬ occupies base length f) (free_of p).
Proof.
  intros Hinv Hinit Hb Hl Hne. unfold pmm_reserve_range. rewrite Hinit. simpl.
  destruct (Z.eqb_spec length 0); [done|].
  destruct (mark_range_used_spec p bm base length) as (p' & -> & ? & [bm' ?] & Hf); [done..|].
  simpl. exists p', bm'. split_and!; [done..|].
  apply set_eq. intros f. rewrite Hf, elem_of_filter. tauto.
Qed.

Lemma pmm_is_frame_free_spec p bm a :
  pmm_inv p bm → initialized p = true → in64 a →
  pmm_is_frame_free (Some p) a =
    Ret (bool_decide (a mod 4096 = 0 ∧ a / 4096 ∈ free_of p)).
Proof.
  intros Hinv Hinit Ha. pose proof (inv_max _ _ Hinv) as Hmax.
  unfold pmm_is_frame_free. rewrite Hinit, land_page_mask. simpl.
  change PMM_PAGE_SIZE with 4096.
  destruct (Z.eqb_spec (a mod 4096) 0) as [Hal|Hal]; simpl.
  2:{ rewrite bool_decide_false by tauto. done. }
  destruct (Z.leb_spec (max_phys p) a).
  { rewrite bool_decide_false; [done|]. intros [_ Hin%(free_of_bound _ _ Hinv)]. mlia. }
  unfold bitmap_of. rewrite (inv_bitmap _ _ Hinv). simpl.
  pose proof (frame_of_addr p bm a ltac:(done) Ha Hal ltac:(lia)) as Hin.
  rewrite (test_frame _ _ Hinv) by done. simpl. f_equal.
  pose proof (free_bit _ _ Hinv _ Hin) as Hbit.
  destruct (bit bm (a / 4096)); simpl; symmetry.
  - apply bool_decide_eq_false. naive_solver.
  - apply bool_decide_eq_true. naive_solver.
Qed.

(** Every call refines the abstract step and keeps the PMM ready. *)
Lemma pmm_step_refines p op :
  pmm_ready p → op_ok op →
  ∃ p', pmm_step (Some p) op
          = Ret ((spec_step (frame_count p) (free_of p) op).1, Some p') ∧
    pmm_ready p' ∧ frame_count p' = frame_count p ∧ max_phys p' = max_phys p ∧
    free_of p' = (spec_step (frame_count p) (free_of p) op).2.
Proof.
  intros [[bm Hinv] Hinit Hzero] Hop.
  assert (∀ p', same_config p p' → (∃ bm', pmm_inv p' bm') → 0 ∉ free_of p' → pmm_ready p')
    as Hready.
  { intros p' [] ? ?. split; [done|congruence|done]. }
  destruct op as [|a|base length|a]; simpl in Hop |- *.
  - pose proof (pmm_alloc_frame_spec p bm Hinv Hinit) as H. case_decide as He.
    + rewrite H. simpl. destruct (least (free_of p)) as [f|] eqn:E.
      { apply least_Some in E. set_solver. }
      exists p. split_and!; try done. by apply Hready; eauto.
    + destruct H as (f & p' & bm' & -> & Hin & Hmin & Hsame & _ & Hinv' & Hset). simpl.
      rewrite (least_unique _ f) by done. destruct Hsame as [Hc Hm Hi].
      exists p'. split_and!; try done. apply Hready; [by split|by eexists|set_solver].
  - pose proof (pmm_free_frame_spec p bm a Hinv Hinit Hop) as H. case_decide as Hd.
    + destruct H as (p' & bm' & -> & [Hc Hm Hi] & Hinv' & Hset). simpl.
      exists p'. split_and!; try done. apply Hready; [by split|by eexists|].
      rewrite Hset. destruct Hd as (_ & Hd & _).
      intros [H0%elem_of_singleton|H0]%elem_of_union; [lia|done].
    + rewrite H. simpl. exists p. split_and!; try done. by apply Hready; eauto.
  - case_decide as Hd.
    + subst. unfold pmm_reserve_range. rewrite Hinit. simpl.
      exists p. split_and!; try done. by apply Hready; eauto.
    + destruct Hop as [Hb Hl].
      destruct (pmm_reserve_range_spec p bm base length)
        as (p' & bm' & -> & [Hc Hm Hi] & Hinv' & Hset); [done..|]. simpl.
      exists p'. split_and!; try done. apply Hready; [by split|by eexists|].
      rewrite Hset, elem_of_filter. naive_solver.
  - rewrite (pmm_is_frame_free_spec p bm a) by done. simpl.
    exists p. split_and!; try done. by apply Hready; eauto.
Qed.

Lemma pmm_run_refines p ops :
  pmm_ready p → Forall op_ok ops →
  ∃ p', pmm_run (Some p) ops
          = Ret ((spec_run (frame_count p) (free_of p) ops).1, Some p') ∧
    pmm_ready p' ∧ free_of p' = (spec_run (frame_count p) (free_of p) ops).2.
Proof.
  intros Hready Hops. revert p Hready. induction Hops as [|op ops Hop _ IH]; intros p Hready.
  { by exists p. }
  destruct (pmm_step_refines p op) as (p1 & Hstep & Hready1 & Hc & _ & Hset); [done..|].
  destruct (IH p1 Hready1) as (p2 & Hrun & Hready2 & Hset2).
  simpl. rewrite Hstep. simpl. rewrite Hrun. simpl. rewrite Hc, Hset in *.
  destruct (spec_step _ _ op) as [o F1]. simpl in *.
  destruct (spec_run _ F1 ops) as [os F2]. simpl in *. by exists p2.
Qed.

(** A successful init had acceptable arguments and leaves the PMM ready. *)
Lemma pmm_init_ready p0 regions n storage storage_bytes max p :
  1 ≤ n ≤ Z.of_nat (length regions) → n < 2 ^ 63 → Forall region_ok regions →
  bytes_ok storage → storage_bytes ≤ Z.of_nat (length storage) → in64 max →
  pmm_init_from_map (Some p0) (Some regions) n (Some storage) storage_bytes max
    = Ret (true, Some p) →
  pmm_ready p.
Proof.
  intros Hn Hn63 Hreg Hst Hstb Hmax Hinit.
  assert (0 < max ∧ max mod 4096 = 0 ∧ (max / 4096 + 7) / 8 ≤ storage_bytes) as (Hpos & Hal & Hreq).
  { unfold pmm_init_from_map in Hinit. destruct (Z.eqb_spec n 0); [lia|].
    rewrite land_page_mask in Hinit. change PMM_PAGE_SIZE with 4096 in Hinit.
    rewrite (add64_small (max / 4096)) in Hinit by mlia.
    destruct (Z.eqb_spec max 0), (Z.eqb_spec (max mod 4096) 0),
      (Z.ltb_spec storage_bytes ((max / 4096 + 7) / 8)); simplify_eq/=; mlia. }
  destruct (pmm_init_spec p0 regions n storage storage_bytes max)
    as (p1 & bm & Hinit1 & Hinv & Hi & _ & _ & Hfree); [done..|].
  rewrite Hinit1 in Hinit. simplify_eq. split; [by eexists|done|].
  rewrite Hfree. lia.
Qed.

Lemma pmm_reachable_ready p : pmm_reachable p → pmm_ready p.
Proof.
  induction 1 as [|p op o p' _ IH Hop Hstep]; [by eapply pmm_init_ready|].
  destruct (pmm_step_refines p op) as (p1 & Hstep1 & Hready & _); [done..|].
  rewrite Hstep in Hstep1. by simplify_eq.
Qed.

(** ** Observations of a ready PMM *)
Section observations.
Context (p : pmm_state).
Hypothesis Hp : pmm_ready p.

Lemma is_free_obs a :
  in64 a → pmm_is_frame_free (Some p) a =
    Ret (bool_decide (a mod 4096 = 0 ∧ a / 4096 ∈ free_of p)).
Proof. destruct Hp as [[bm Hinv] Hinit _]. by apply (pmm_is_frame_free_spec p bm). Qed.

Lemma is_free_true a :
  in64 a → pmm_is_frame_free (Some p) a = Ret true ↔ a mod 4096 = 0 ∧ a / 4096 ∈ free_of p.
Proof.
  intros Ha. rewrite is_free_obs by done. by rewrite (inj_iff Ret), bool_decide_eq_true.
Qed.

Lemma counts_obs :
  free_frames p = Z.of_nat (size (free_of p)) ∧
  used_frames p = frame_count p - free_frames p.
Proof. destruct Hp as [[bm Hinv] _ _]. split; by destruct Hinv. Qed.

Lemma free_of_range f : f ∈ free_of p → 0 < f < frame_count p ∧ in64 (f * 4096).
Proof.
  destruct Hp as [[bm Hinv] _ Hzero]. intros Hf.
  pose proof (free_of_bound _ _ Hinv f Hf). pose proof (inv_max _ _ Hinv).
  pose proof (inv_max64 _ _ Hinv). destruct (decide (f = 0)) as [->|]; [done|]. mlia.
Qed.

Lemma max_obs : max_phys p = frame_count p * 4096 ∧ max_phys p < 2 ^ 64 ∧ 0 < frame_count p.
Proof. destruct Hp as [[bm []] _ _]. by destruct inv_max64. Qed.
End observations.

(** ** Regions of the boot memory map *)

(** Frame [f] lies entirely inside [r]. *)
Definition region_covers (r : boot_mem_region) (f : Z) : Prop :=
  rg_base r ≤ f * 4096 ∧ (f + 1) * 4096 ≤ rg_base r + rg_length r.

(** Some byte of frame [f] belongs to [r]. *)
Definition region_touches (r : boot_mem_region) (f : Z) : Prop :=
  0 < rg_length r ∧ rg_base r < (f + 1) * 4096 ∧ f * 4096 < rg_base r + rg_length r.

(** The region ends before the last page of the 64-bit address space. *)
Definition region_sane (r : boot_mem_region) : Prop :=
  region_ok r ∧ rg_base r + rg_length r ≤ 2 ^ 64 - 4096.

Lemma frees_covers r f :
  region_sane r → 0 ≤ f → frees (rg_base r) (rg_length r) f ↔ region_covers r f.
Proof. unfold region_sane, region_ok, frees, region_covers, in64. lia. Qed.

Lemma occupies_touches r f :
  region_sane r → occupies (rg_base r) (rg_length r) f ↔ region_touches r f.
Proof. unfold region_sane, region_ok, occupies, region_touches, in64. lia. Qed.

(** A 16-frame machine: the firmware reports an overlap between a usable and a
    reserved region. *)
Definition demo_regions : list boot_mem_region :=
  [ mk_region 0 0x4000 BOOT_MEM_USABLE;
    mk_region 0x3000 0x1800 BOOT_MEM_RESERVED;
    mk_region 0x8000 0x8000 BOOT_MEM_USABLE;
    mk_region 0xf000 0x1000 BOOT_MEM_KERNEL_AND_MODULES ].

Definition demo_init : outcome (bool * option pmm_state) :=
  pmm_init_from_map (Some zeroed_pmm) (Some demo_regions) 4 (Some [0; 0; 0]) 3 0x10000.

Definition demo_pmm : pmm_state := Eval vm_compute in
  match demo_init with Ret (true, Some p) => p | _ => zeroed_pmm end.

Lemma demo_regions_sane : Forall region_sane demo_regions.
Proof. repeat constructor; done. Qed.

Lemma demo_regions_ok : Forall region_ok demo_regions.
Proof. repeat constructor; done. Qed.

Lemma demo_storage_ok : bytes_ok [0; 0; 0].
Proof. repeat constructor; done. Qed.

Lemma demo_reachable : pmm_reachable demo_pmm.
Proof.
  apply (reach_init zeroed_pmm demo_regions 4 [0; 0; 0] 3 0x10000);
    [done..|apply demo_regions_ok|apply demo_storage_ok|done|done|].
  vm_compute. reflexivity.
Qed.

(** ** Theorems *)

(** C20: pmm_init_from_map on a boot map whose regions stay out of the last page
    of the address space: it succeeds, manages max_phys / 4096 frames, and
    afterwards a frame is free exactly when it is not frame 0, lies entirely
    inside a usable region, and no byte of it belongs to a region of another
    type; the order and overlap of the regions do not matter. *)
Theorem pmm_init_correct p0 regions storage storage_bytes max :
  regions ≠ [] → Z.of_nat (length regions) < 2 ^ 63 → Forall region_sane regions →
  bytes_ok storage → storage_bytes ≤ Z.of_nat (length storage) →
  in64 max → 0 < max → max mod 4096 = 0 → (max / 4096 + 7) / 8 ≤ storage_bytes →
  ∃ p, pmm_init_from_map (Some p0) (Some regions) (Z.of_nat (length regions))
         (Some storage) storage_bytes max = Ret (true, Some p) ∧
    pmm_frame_count (Some p) = max / 4096 ∧
    ∀ f, 0 ≤ f < max / 4096 →
      pmm_is_frame_free (Some p) (f * 4096) = Ret true ↔
        f ≠ 0 ∧
        (∃ r, r ∈ regions ∧ rg_type r = BOOT_MEM_USABLE ∧ region_covers r f) ∧
        (∀ r, r ∈ regions → rg_type r ≠ BOOT_MEM_USABLE → ¬ region_touches r f).
Proof.
  intros Hne Hlen Hsane Hst Hstb Hmax Hpos Hal Hreq.
  assert (Forall region_ok regions) as Hok by (eapply Forall_impl; [exact Hsane|by intros r [Hr _]]).
  rewrite Forall_forall in Hsane.
  destruct (pmm_init_spec p0 regions (Z.of_nat (length regions)) storage storage_bytes max)
    as (p & bm & Hrun & Hinv & Hinit & Hfc & Hm & Hfree); [|done..|].
  { destruct regions; [done|simpl; lia]. }
  exists p. split_and!; [done..|]. intros f Hf.
  rewrite (pmm_is_frame_free_spec p bm) by (done || mlia).
  rewrite (inj_iff Ret), bool_decide_eq_true, Z.div_mul, Hfree by done.
  rewrite Nat2Z.id, firstn_all.
  split.
  - intros (_ & Hf0 & (r & Hr & Hty & Hcov) & Hnon). split_and!; [lia| |].
    + exists r. do 2 (split; [done|]). apply frees_covers; [auto|lia|done].
    + intros r' Hr' Hty'. rewrite <- occupies_touches by auto. auto.
  - intros (Hf0 & (r & Hr & Hty & Hcov) & Hnon). split_and!; [by apply Z_mod_mult|lia..| |].
    + exists r. do 2 (split; [done|]). apply frees_covers; [auto|lia|done].
    + intros r' Hr' Hty'. rewrite occupies_touches by auto. auto.
Qed.

Lemma pmm_init_correct_witness :
  ∃ p, pmm_init_from_map (Some zeroed_pmm) (Some demo_regions)
         (Z.of_nat (length demo_regions)) (Some [0; 0; 0]) 3 0x10000 = Ret (true, Some p) ∧
    pmm_is_frame_free (Some p) (2 * 4096) = Ret true ∧
    pmm_is_frame_free (Some p) (3 * 4096) ≠ Ret true.
Proof.
  destruct (pmm_init_correct zeroed_pmm demo_regions [0; 0; 0] 3 0x10000)
    as (p & Hp & _ & Hfree); [done|done|apply demo_regions_sane|apply demo_storage_ok|done..|].
  exists p. split; [exact Hp|]. clear Hp. split.
  - apply (proj2 (Hfree 2 ltac:(done))). split_and!; [done| |].
    + exists (mk_region 0 0x4000 BOOT_MEM_USABLE). split_and!; [set_solver|done|].
      unfold region_covers. simpl. lia.
    + unfold demo_regions. intros r Hr Hty (? & ? & ?).
      repeat (apply elem_of_cons in Hr as [->|Hr]; [simpl in *; unfold BOOT_MEM_USABLE in *; lia|]).
      by apply elem_of_nil in Hr.
  - intros (_ & _ & H)%(proj1 (Hfree 3 ltac:(done))).
    apply (H (mk_region 0x3000 0x1800 BOOT_MEM_RESERVED)); [set_solver|done|].
    unfold region_touches. simpl. lia.
Defined.

(** pmm_init_from_map accepts its arguments exactly when the map is not
    empty, max_phys_bytes is a nonzero multiple of the page size, and the
    bitmap storage has a bit for every frame; otherwise it returns false and
    leaves the caller's struct untouched.  It never runs into undefined
    behaviour. *)
Theorem pmm_init_accepts p0 regions n storage storage_bytes max :
  0 ≤ n ≤ Z.of_nat (length regions) → n < 2 ^ 63 → Forall region_ok regions →
  bytes_ok storage → storage_bytes ≤ Z.of_nat (length storage) → in64 max →
  if decide (n ≠ 0 ∧ max ≠ 0 ∧ max mod 4096 = 0 ∧ (max / 4096 + 7) / 8 ≤ storage_bytes)
  then ∃ p, pmm_init_from_map (Some p0) (Some regions) n (Some storage) storage_bytes max
              = Ret (true, Some p) ∧ initialized p = true
  else pmm_init_from_map (Some p0) (Some regions) n (Some storage) storage_bytes max
         = Ret (false, Some p0).
Proof.
  intros Hn Hn63 Hreg Hst Hstb Hmax. case_decide as Hd.
  - destruct Hd as (Hn0 & Hm0 & Hal & Hreq).
    destruct (pmm_init_spec p0 regions n storage storage_bytes max)
      as (p & bm & Hrun & _ & Hinit & _); [lia|done..|mlia|done|done|].
    by exists p.
  - unfold pmm_init_from_map. rewrite land_page_mask. change PMM_PAGE_SIZE with 4096.
    rewrite (add64_small (max / 4096)) by mlia.
    destruct (Z.eqb_spec n 0), (Z.eqb_spec max 0), (Z.eqb_spec (max mod 4096) 0),
      (Z.ltb_spec storage_bytes ((max / 4096 + 7) / 8)); try done; exfalso; lia.
Qed.

Lemma pmm_init_accepts_witness :
  pmm_init_from_map (Some demo_pmm) (Some demo_regions) 4 (Some [0; 0; 0]) 1 0x10000
    = Ret (false, Some demo_pmm).
Proof.
  apply (pmm_init_accepts demo_pmm demo_regions 4 [0; 0; 0] 1 0x10000);
    [done|done|apply demo_regions_ok|apply demo_storage_ok|done|done].
Defined.

(** C1: trace refinement.  Any sequence of calls of pmm_alloc_frame,
    pmm_free_frame, pmm_reserve_range and pmm_is_frame_free after a successful
    init runs without undefined behaviour and returns exactly what the abstract
    PMM (the set of free frames, allocation of its least element) returns. *)
Theorem pmm_refines_free_set p ops :
  pmm_reachable p → Forall op_ok ops →
  ∃ p', pmm_run (Some p) ops
          = Ret ((spec_run (frame_count p) (free_of p) ops).1, Some p') ∧
    free_of p' = (spec_run (frame_count p) (free_of p) ops).2.
Proof.
  intros Hp Hops. apply pmm_reachable_ready in Hp.
  destruct (pmm_run_refines p ops) as (p' & ? & _ & ?); [done..|]. by exists p'.
Qed.

Definition demo_ops : list pmm_op :=
  [Alloc; Alloc; IsFree 0x2000; Free 0x1000; Free 0x1000; Free 0x2001; Reserve 0x8fff 2; Alloc; Alloc].

Lemma demo_ops_ok : Forall op_ok demo_ops.
Proof. repeat constructor; done. Qed.

Lemma pmm_refines_free_set_witness :
  ∃ p', pmm_run (Some demo_pmm) demo_ops =
    Ret ([OAddr 0x1000; OAddr 0x2000; OBool false; OBool true; OBool false; OBool false;
          OBool true; OAddr 0x1000; OAddr 0xa000], Some p').
Proof.
  destruct (pmm_refines_free_set demo_pmm demo_ops demo_reachable demo_ops_ok) as (p' & Hrun & _).
  exists p'. rewrite Hrun. vm_compute. reflexivity.
Defined.

(** C33: the invariant of struct pmm_state in every reachable state: the free
    counter is the number of clear bits of the bitmap, free and used add up to
    the frame count, frame 0 is used, the bitmap covers every frame, and no
    frame below next_hint is free. *)
Theorem pmm_invariant p :
  pmm_reachable p →
  ∃ bm, bitmap p = Some bm ∧ frame_count p ≤ 8 * Z.of_nat (length bm) ∧
    free_frames p
      = Z.of_nat (length (filter (λ f, bit bm f = false) (seqZ 0 (frame_count p)))) ∧
    free_frames p + used_frames p = frame_count p ∧
    bit bm 0 = true ∧
    0 ≤ next_hint p ≤ frame_count p ∧ ∀ f, 0 ≤ f < next_hint p → bit bm f = true.
Proof.
  intros [[bm Hinv] Hinit Hzero]%pmm_reachable_ready. exists bm.
  pose proof (inv_count _ _ Hinv). rewrite (elem_of_free_of _ _ Hinv) in Hzero.
  split_and!; [apply (inv_bitmap _ _ Hinv)| | | | |apply (inv_hint _ _ Hinv)..|].
  - pose proof (inv_size _ _ Hinv). pose proof (inv_storage _ _ Hinv). mlia.
  - rewrite (inv_free _ _ Hinv), (free_of_inv _ _ Hinv). unfold free_set.
    rewrite size_list_to_set; [done|]. apply NoDup_filter, NoDup_seqZ.
  - rewrite (inv_used _ _ Hinv). lia.
  - destruct (bit bm 0); [done|]. exfalso. apply Hzero. split; [lia|done].
  - apply (inv_below_hint _ _ Hinv).
Qed.

Lemma pmm_invariant_witness :
  ∃ bm, bitmap demo_pmm = Some bm ∧ bit bm 0 = true ∧
    free_frames demo_pmm + used_frames demo_pmm = frame_count demo_pmm.
Proof.
  destruct (pmm_invariant demo_pmm demo_reachable) as (bm & ? & _ & _ & ? & ? & _).
  by exists bm.
Defined.

(** pmm_alloc_frame in every reachable state.  With no free frame it
    returns PMM_INVALID_FRAME and changes nothing; otherwise it returns, in
    finitely many steps, the page-aligned address of the lowest free frame
    (never frame 0, always below max_phys), marks exactly that frame used and
    moves one frame from the free to the used counter. *)
Theorem pmm_alloc_frame_correct p :
  pmm_reachable p →
  (free_frames p = 0 → pmm_alloc_frame (Some p) = Ret (PMM_INVALID_FRAME, Some p)) ∧
  (free_frames p ≠ 0 → ∃ a p', pmm_alloc_frame (Some p) = Ret (a, Some p') ∧
     a mod PMM_PAGE_SIZE = 0 ∧ 0 < a < max_phys p ∧ a ≠ PMM_INVALID_FRAME ∧
     pmm_is_frame_free (Some p) a = Ret true ∧
     (∀ b, in64 b → b < a → pmm_is_frame_free (Some p) b = Ret false) ∧
     pmm_is_frame_free (Some p') a = Ret false ∧
     (∀ b, in64 b → b ≠ a →
        pmm_is_frame_free (Some p') b = pmm_is_frame_free (Some p) b) ∧
     free_frames p' = free_frames p - 1 ∧ used_frames p' = used_frames p + 1).
Proof.
  intros Hp%pmm_reachable_ready. pose proof Hp as [[bm Hinv] Hinit _].
  destruct (counts_obs p Hp) as [Hc Hu]. destruct (max_obs p Hp) as (Hmax & Hm64 & _).
  pose proof (pmm_alloc_frame_spec p bm Hinv Hinit) as H. case_decide as He; split.
  - intros _. exact H.
  - rewrite Hc, He, size_empty. done.
  - rewrite Hc. intros Hz. exfalso. apply He, leibniz_equiv, size_empty_iff. lia.
  - intros _. destruct H as (f & p' & bm' & Hrun & Hin & Hmin & [Hc' Hm' Hi'] & _ & Hinv' & Hset).
    destruct (free_of_range p Hp f Hin) as [Hf Hf64].
    assert (pmm_ready p') as Hp'.
    { split; [by eexists|congruence|]. rewrite Hset. destruct Hp. set_solver. }
    destruct (counts_obs p' Hp') as [Hcp' Hup'].
    assert (∀ b, in64 b → b mod 4096 = 0 → b / 4096 = f → b = f * 4096) as Haddr
      by (intros; mlia).
    exists (f * 4096), p'. rewrite !is_free_obs by done. rewrite Z.div_mul by done.
    change PMM_PAGE_SIZE with 4096. unfold PMM_INVALID_FRAME.
    split_and!; try done || lia || (by apply Z_mod_mult).
    + f_equal. apply bool_decide_eq_true. split; [by apply Z_mod_mult|done].
    + intros b Hb Hlt. rewrite is_free_obs by done. f_equal. apply bool_decide_eq_false.
      intros [Hal Hb']. apply Hmin in Hb'. mlia.
    + f_equal. apply bool_decide_eq_false. rewrite Hset. set_solver.
    + intros b Hb Hne. rewrite !is_free_obs by done. f_equal. apply bool_decide_ext.
      rewrite Hset, elem_of_difference, elem_of_singleton. apply and_iff_under.
      intros Hal. specialize (Haddr b Hb Hal). tauto.
    + rewrite Hcp', Hc, Hset, size_difference, size_singleton by set_solver.
      assert (size (free_of p) ≠ 0%nat) by (rewrite size_non_empty_iff; set_solver). lia.
    + rewrite Hup', Hu, Hc', Hcp', Hc, Hset, size_difference, size_singleton by set_solver.
      assert (size (free_of p) ≠ 0%nat) by (rewrite size_non_empty_iff; set_solver). lia.
Qed.

Lemma pmm_alloc_frame_correct_witness :
  ∃ a p', pmm_alloc_frame (Some demo_pmm) = Ret (a, Some p') ∧ 0 < a < 0x10000.
Proof.
  destruct (pmm_alloc_frame_correct demo_pmm demo_reachable) as [_ H].
  destruct H as (a & p' & Hrun & _ & Ha & _); [done|]. exists a, p'. by split.
Defined.

(** pmm_free_frame in every reachable state.  It succeeds exactly on the
    page-aligned, nonzero address below max_phys of a frame that is in use, and
    then makes exactly that frame free again and updates both counters; on
    every other address it returns false and changes nothing.  A second free of
    the same address is therefore refused. *)
Theorem pmm_free_frame_correct p a :
  pmm_reachable p → in64 a →
  if decide (a mod PMM_PAGE_SIZE = 0 ∧ 0 < a < max_phys p ∧
             pmm_is_frame_free (Some p) a = Ret false)
  then ∃ p', pmm_free_frame (Some p) a = Ret (true, Some p') ∧
         pmm_is_frame_free (Some p') a = Ret true ∧
         (∀ b, in64 b → b ≠ a →
            pmm_is_frame_free (Some p') b = pmm_is_frame_free (Some p) b) ∧
         free_frames p' = free_frames p + 1 ∧ used_frames p' = used_frames p - 1 ∧
         pmm_free_frame (Some p') a = Ret (false, Some p')
  else pmm_free_frame (Some p) a = Ret (false, Some p).
Proof.
  intros Hp%pmm_reachable_ready Ha. pose proof Hp as [[bm Hinv] Hinit _].
  destruct (max_obs p Hp) as (Hmax & Hm64 & _). change PMM_PAGE_SIZE with 4096.
  pose proof (pmm_free_frame_spec p bm a Hinv Hinit Ha) as H.
  assert ((a mod 4096 = 0 ∧ 0 < a < max_phys p ∧ pmm_is_frame_free (Some p) a = Ret false) ↔
          (a mod 4096 = 0 ∧ 0 < a / 4096 < frame_count p ∧ a / 4096 ∉ free_of p)) as Hiff.
  { rewrite is_free_obs, (inj_iff Ret), bool_decide_eq_false by done.
    apply and_iff_under. intros Hal.
    assert (0 < a < max_phys p ↔ 0 < a / 4096 < frame_count p) by mlia. tauto. }
  rewrite (decide_ext _ _ _ _ Hiff). case_decide as Hd; [|exact H].
  destruct Hd as (Hal & Hrange & Hused).
  destruct H as (p' & bm' & Hrun & [Hc' Hm' Hi'] & Hinv' & Hset).
  assert (pmm_ready p') as Hp'.
  { split; [by eexists|congruence|]. rewrite Hset. destruct Hp as [_ _ Hz].
    rewrite elem_of_union, elem_of_singleton. intros [?|?]; [lia|done]. }
  destruct (counts_obs p Hp) as [Hc Hu]. destruct (counts_obs p' Hp') as [Hcp' Hup'].
  assert (Z.of_nat (size (free_of p')) = Z.of_nat (size (free_of p)) + 1) as Hsz.
  { rewrite Hset, size_union, size_singleton by set_solver. lia. }
  exists p'. split_and!; [done|..|lia|lia|].
  - rewrite is_free_obs by done. f_equal. apply bool_decide_eq_true. set_solver.
  - intros b Hb Hne. rewrite !is_free_obs by done. f_equal. apply bool_decide_ext.
    rewrite Hset, elem_of_union, elem_of_singleton. apply and_iff_under. intros Hbal.
    assert (b / 4096 ≠ a / 4096) by mlia. tauto.
  - pose proof (pmm_free_frame_spec p' bm' a Hinv' ltac:(congruence) Ha) as H2.
    rewrite decide_False in H2; [done|]. rewrite Hset. set_solver.
Qed.

Lemma pmm_free_frame_correct_witness :
  ∃ p', pmm_free_frame (Some demo_pmm) 0x4000 = Ret (true, Some p') ∧
    pmm_free_frame (Some p') 0x4000 = Ret (false, Some p').
Proof.
  pose proof (pmm_free_frame_correct demo_pmm 0x4000 demo_reachable ltac:(done)) as H.
  rewrite decide_True in H by (vm_compute; done).
  destruct H as (p' & H1 & _ & _ & _ & _ & H2). exists p'. by split.
Defined.

(** round trip.  Freeing the address pmm_alloc_frame has just returned
    succeeds, restores the set of free frames and both counters, and the next
    allocation returns the same address again. *)
Theorem pmm_alloc_free_roundtrip p a p1 :
  pmm_reachable p → pmm_alloc_frame (Some p) = Ret (a, Some p1) → a ≠ PMM_INVALID_FRAME →
  ∃ p2 p3, pmm_free_frame (Some p1) a = Ret (true, Some p2) ∧
    free_of p2 = free_of p ∧
    free_frames p2 = free_frames p ∧ used_frames p2 = used_frames p ∧
    pmm_alloc_frame (Some p2) = Ret (a, Some p3).
Proof.
  intros Hp%pmm_reachable_ready Hrun Ha. pose proof Hp as [[bm Hinv] Hinit _].
  pose proof (pmm_alloc_frame_spec p bm Hinv Hinit) as H. case_decide as He.
  { rewrite Hrun in H. by injection H as ->. }
  destruct H as (f & p1' & bm1 & Hrun' & Hin & Hmin & [Hc1 Hm1 Hi1] & _ & Hinv1 & Hset).
  rewrite Hrun in Hrun'. injection Hrun' as -> <-.
  destruct (free_of_range p Hp f Hin) as [Hf Hf64].
  pose proof (pmm_free_frame_spec p1 bm1 (f * 4096) Hinv1 ltac:(congruence) Hf64) as H2.
  rewrite Z.div_mul in H2 by done.
  rewrite decide_True in H2 by (split; [by apply Z_mod_mult|rewrite Hc1; set_solver]).
  destruct H2 as (p2 & bm2 & Hfree & [Hc2 Hm2 Hi2] & Hinv2 & Hset2).
  assert (free_of p2 = free_of p) as Heq.
  { rewrite Hset2, Hset. symmetry. by apply union_difference_singleton_L. }
  pose proof (pmm_alloc_frame_spec p2 bm2 Hinv2 ltac:(congruence)) as H3.
  rewrite decide_False in H3 by by rewrite Heq.
  destruct H3 as (g & p3 & bm3 & Hrun3 & Hing & Hming & _). rewrite Heq in Hing, Hming.
  assert (g = f) as -> by (apply Hmin in Hing; apply Hming in Hin; lia).
  exists p2, p3. split_and!; [done..| | |done].
  - by rewrite (inv_free _ _ Hinv2), (inv_free _ _ Hinv), Heq.
  - rewrite (inv_used _ _ Hinv2), (inv_used _ _ Hinv), (inv_free _ _ Hinv2),
      (inv_free _ _ Hinv), Heq. congruence.
Qed.

Lemma pmm_alloc_free_roundtrip_witness :
  ∃ a p1 p2, pmm_alloc_frame (Some demo_pmm) = Ret (a, Some p1) ∧
    pmm_free_frame (Some p1) a = Ret (true, Some p2) ∧ free_of p2 = free_of demo_pmm.
Proof.
  destruct (pmm_alloc_frame (Some demo_pmm)) as [[a [p1|]]| |] eqn:E; [|vm_compute in E; done..].
  assert (a ≠ PMM_INVALID_FRAME) as Hne by (vm_compute in E; injection E as <- _; done).
  destruct (pmm_alloc_free_roundtrip demo_pmm a p1 demo_reachable E Hne) as (p2 & _ & H1 & H2 & _).
  exists a, p1, p2. split_and!; done.
Defined.

(** pmm_reserve_range on a non-empty range that ends before the last page
    of the address space succeeds, makes every managed frame the range touches
    unavailable, and leaves every other frame as it was. *)
Theorem pmm_reserve_range_correct p base length :
  pmm_reachable p → in64 base → in64 length → length ≠ 0 → base + length ≤ 2 ^ 64 - 4096 →
  ∃ p', pmm_reserve_range (Some p) base length = Ret (true, Some p') ∧
    (∀ f, 0 ≤ f < frame_count p → base < (f + 1) * 4096 → f * 4096 < base + length →
       pmm_is_frame_free (Some p') (f * 4096) = Ret false) ∧
    (∀ f, 0 ≤ f < frame_count p → (f + 1) * 4096 ≤ base ∨ base + length ≤ f * 4096 →
       pmm_is_frame_free (Some p') (f * 4096) = pmm_is_frame_free (Some p) (f * 4096)).
Proof.
  intros Hp%pmm_reachable_ready Hb Hl Hne Hend. pose proof Hp as [[bm Hinv] Hinit _].
  destruct (pmm_reserve_range_spec p bm base length) as (p' & bm' & Hrun & [Hc Hm Hi] & Hinv' & Hset);
    [done..|].
  assert (pmm_ready p') as Hp'.
  { split; [by eexists|congruence|]. rewrite Hset. destruct Hp. set_solver. }
  destruct (max_obs p Hp) as (Hmax & Hm64 & _).
  exists p'. split_and!; [done|..]; intros f Hf.
  - intros H1 H2. rewrite is_free_obs by (done || mlia). f_equal. apply bool_decide_eq_false.
    rewrite Z.div_mul, Hset, elem_of_filter by done.
    unfold occupies. unfold in64 in *. intros [_ [Hn _]]. apply Hn. lia.
  - intros H1. rewrite !is_free_obs by (done || mlia). f_equal. apply bool_decide_ext.
    rewrite Z.div_mul, Hset, elem_of_filter by done. unfold occupies.
    assert (¬ (0 < length ∧ base + length ≤ 2 ^ 64 - 4096 ∧
               base < (f + 1) * 4096 ∧ f * 4096 < base + length)) by lia. tauto.
Qed.

Lemma pmm_reserve_range_correct_witness :
  ∃ p', pmm_reserve_range (Some demo_pmm) 0x8fff 2 = Ret (true, Some p') ∧
    pmm_is_frame_free (Some p') (9 * 4096) = Ret false.
Proof.
  destruct (pmm_reserve_range_correct demo_pmm 0x8fff 2 demo_reachable) as (p' & H1 & H2 & _);
    [done..|]. exists p'. split; [exact H1|]. clear H1. apply H2; done.
Defined.

(** the limit of pmm_reserve_range.  For a range that reaches the last page
    of the 64-bit address space (or wraps around), rounding the end up
    overflows to 0, so the call reports success and reserves nothing. *)
Theorem pmm_reserve_range_last_page p base length :
  initialized p = true → in64 base → in64 length → length ≠ 0 →
  2 ^ 64 - 4096 < base + length →
  pmm_reserve_range (Some p) base length = Ret (true, Some p).
Proof.
  intros Hinit Hb Hl Hne Hend. unfold pmm_reserve_range, mark_range_used. rewrite Hinit. simpl.
  destruct (Z.eqb_spec length 0); [done|]. rewrite checked_add_spec by done.
  destruct (Z.ltb_spec (base + length) (2 ^ 64)); [|done].
  rewrite align_up_page_wraps, align_down_page by (done || lia).
  destruct (Z.leb_spec 0 (base - base mod 4096)); [done|mlia].
Qed.

Lemma pmm_reserve_range_last_page_witness :
  pmm_reserve_range (Some demo_pmm) 0 (2 ^ 64 - 1) = Ret (true, Some demo_pmm).
Proof. apply (pmm_reserve_range_last_page demo_pmm 0 (2 ^ 64 - 1)); done. Defined.

(** C34: a usable region of the given memory map that starts in the last page of the address space,
    after its first byte, and ends before 2^64 contains no frame, but rounding
    its base up wraps to 0: whatever else the memory map says, pmm_init_from_map
    then releases every managed frame but frame 0 and the frames a non-usable
    region of the map takes back. *)
Theorem pmm_init_last_page_frees_all p0 regions n r storage storage_bytes max :
  1 ≤ n ≤ Z.of_nat (length regions) → n < 2 ^ 63 → Forall region_ok regions →
  bytes_ok storage → storage_bytes ≤ Z.of_nat (length storage) →
  in64 max → 0 < max → max mod 4096 = 0 → (max / 4096 + 7) / 8 ≤ storage_bytes →
  r ∈ take (Z.to_nat n) regions → rg_type r = BOOT_MEM_USABLE →
  2 ^ 64 - 4096 < rg_base r → 0 < rg_length r → rg_base r + rg_length r < 2 ^ 64 →
  ∃ p, pmm_init_from_map (Some p0) (Some regions) n (Some storage) storage_bytes max = Ret (true, Some p) ∧
    ∀ f, 0 ≤ f < max / 4096 →
      pmm_is_frame_free (Some p) (f * 4096) = Ret true ↔
      0 < f ∧ ∀ r', r' ∈ take (Z.to_nat n) regions → rg_type r' ≠ BOOT_MEM_USABLE →
                ¬ occupies (rg_base r') (rg_length r') f.
Proof.
  intros Hn Hn63 Hreg Hst Hstb Hmax Hpos Hal Hreq Hr Hu Hb Hl Hend.
  destruct (pmm_init_spec p0 regions n storage storage_bytes max)
    as (p & bm & Hrun & Hinv & Hinit & Hfc & Hm & Hfree); try done.
  exists p. split; [done|]. intros f Hf.
  rewrite (pmm_is_frame_free_spec p bm), (inj_iff Ret), bool_decide_eq_true by (done || mlia).
  rewrite Z_mod_mult, Z.div_mul, Hfree by done.
  assert (∃ r, r ∈ take (Z.to_nat n) regions ∧ rg_type r = BOOT_MEM_USABLE ∧
            frees (rg_base r) (rg_length r) f) by (exists r; unfold frees; split_and!; lia || done).
  split; [tauto|]. intros [? ?]. split_and!; done || lia.
Qed.

(** A reserved page and the region in the last page: every other frame is free. *)
Definition wrapping_map : list boot_mem_region :=
  [mk_region 0x3000 0x1000 BOOT_MEM_RESERVED; mk_region (2 ^ 64 - 16) 8 BOOT_MEM_USABLE].

Lemma pmm_init_last_page_frees_all_witness :
  ∃ p, pmm_init_from_map (Some zeroed_pmm) (Some wrapping_map) 2 (Some [0; 0]) 2 0x10000 = Ret (true, Some p) ∧
    pmm_is_frame_free (Some p) (15 * 4096) = Ret true ∧ pmm_is_frame_free (Some p) (3 * 4096) ≠ Ret true.
Proof.
  destruct (pmm_init_last_page_frees_all zeroed_pmm wrapping_map 2 (mk_region (2 ^ 64 - 16) 8 BOOT_MEM_USABLE)
    [0; 0] 2 0x10000) as (p & H1 & H2);
    [done|done|repeat constructor; done|repeat constructor; done|done|done|done|done|done
    |exact (list_elem_of_lookup_2 wrapping_map 1 _ eq_refl)|done|done|done|done|].
  exists p. split; [exact H1|]. clear H1. split.
  - apply (H2 15); [done|]. split; [done|].
    intros r [->| ->%list_elem_of_singleton]%elem_of_cons; [|done]. unfold occupies. simpl. lia.
  - rewrite (H2 3) by done. intros [_ H].
    apply (H (mk_region 0x3000 0x1000 BOOT_MEM_RESERVED)); [|done|unfold occupies; simpl; lia].
    exact (list_elem_of_lookup_2 wrapping_map 0 _ eq_refl).
Defined.
