(* ===== verification/Mem.v ===== *)
(** * Byte-addressed memory

    The store shared by the components that follow pointers: a finite map from
    byte addresses to bytes.  An access to an unmapped address is [UB]; words
    are little-endian, as on x86_64. *)

From S2P Require Import Prelude.

Abbreviation mem := (gmap Z Z).

Definition load8 (m : mem) (a : Z) : outcome Z :=
  match m !! a with Some b => Ret b | None => UB end.

Definition store8 (m : mem) (a v : Z) : outcome mem :=
  match m !! a with Some _ => Ret (<[a := u8 v]> m) | None => UB end.

Fixpoint load_le (n : nat) (m : mem) (a : Z) : outcome Z :=
  match n with
  | O => Ret 0
  | S n =>
      b ← load8 m a;
      r ← load_le n m (a + 1);
      Ret (b + 256 * r)
  end.

Fixpoint store_le (n : nat) (m : mem) (a v : Z) : outcome mem :=
  match n with
  | O => Ret m
  | S n =>
      m ← store8 m a v;
      store_le n m (a + 1) (v / 256)
  end.

Definition load64 (m : mem) (a : Z) : outcome Z := load_le 8 m a.
Definition store64 (m : mem) (a v : Z) : outcome mem := store_le 8 m a v.
Definition load32 (m : mem) (a : Z) : outcome Z := load_le 4 m a.
Definition store32 (m : mem) (a v : Z) : outcome mem := store_le 4 m a v.

Arguments load64 : simpl never.
Arguments store64 : simpl never.
Arguments load32 : simpl never.
Arguments store32 : simpl never.

(** [a .. a + n - 1] is mapped. *)
Definition mapped (m : mem) (a n : Z) : Prop := ∀ i, a ≤ i < a + n → is_Some (m !! i).

(** Every cell holds a byte. *)
Definition mem_ok (m : mem) : Prop := map_Forall (λ _ b, 0 ≤ b < 256) m.

(** [m'] agrees with [m] outside [a .. a + n - 1]. *)
Definition same_outside (a n : Z) (m m' : mem) : Prop :=
  ∀ i, ¬ (a ≤ i < a + n) → m' !! i = m !! i.

(** The effect of writing [n] bytes at [a]. *)
Record wrote (a n : Z) (m m' : mem) : Prop := {
  wrote_outside : same_outside a n m m';
  wrote_mapped : ∀ b k, mapped m b k → mapped m' b k;
  wrote_ok : mem_ok m → mem_ok m';
}.

(** ** Lemmas *)

Lemma mapped_sub m a n b k : mapped m a n → a ≤ b → b + k ≤ a + n → mapped m b k.
Proof. intros H ? ? i Hi. apply H. lia. Qed.

Lemma same_outside_trans a n m1 m2 m3 :
  same_outside a n m1 m2 → same_outside a n m2 m3 → same_outside a n m1 m3.
Proof. intros H1 H2 i Hi. rewrite H2, H1 by done. done. Qed.

Lemma same_outside_weaken a n b k m m' :
  same_outside a n m m' → b ≤ a → a + n ≤ b + k → same_outside b k m m'.
Proof. intros H ? ? i Hi. apply H. lia. Qed.

Lemma wrote_refl a n m : wrote a n m m.
Proof. split; [intros i _; done|done|done]. Qed.

Lemma wrote_trans a n m1 m2 m3 : wrote a n m1 m2 → wrote a n m2 m3 → wrote a n m1 m3.
Proof. intros [] []. split; eauto using same_outside_trans. Qed.

Lemma wrote_weaken a n b k m m' :
  wrote a n m m' → b ≤ a → a + n ≤ b + k → wrote b k m m'.
Proof. intros [] ? ?. split; eauto using same_outside_weaken. Qed.

Lemma store8_wrote m a v :
  mapped m a 1 → ∃ m', store8 m a v = Ret m' ∧ wrote a 1 m m' ∧ m' !! a = Some (u8 v).
Proof.
  intros Hm. destruct (Hm a) as [b Hb]; [lia|]. unfold store8. rewrite Hb.
  eexists. split_and!; [done| |apply lookup_insert_eq]. split.
  - intros i Hi. apply lookup_insert_ne. lia.
  - intros c k Hc i Hi. rewrite lookup_insert. case_decide; eauto.
  - intros Hok. apply map_Forall_insert_2; [apply u8_range|done].
Qed.

Lemma load_le_ext n m m' a :
  (∀ i, a ≤ i < a + Z.of_nat n → m' !! i = m !! i) → load_le n m' a = load_le n m a.
Proof.
  revert a. induction n as [|n IH]; intros a H; [done|]. simpl.
  unfold load8. rewrite H by lia. rewrite (IH (a + 1)) by (intros; apply H; lia). done.
Qed.

Lemma load_le_Ret n m a :
  mem_ok m → mapped m a (Z.of_nat n) → ∃ v, load_le n m a = Ret v ∧ 0 ≤ v < 256 ^ Z.of_nat n.
Proof.
  intros Hok. revert a. induction n as [|n IH]; intros a Hm; [by exists 0|]. simpl.
  destruct (Hm a) as [b Hb]; [lia|].
  destruct (IH (a + 1)) as (r & Hr & Hrange); [intros i Hi; apply Hm; lia|].
  unfold load8. rewrite Hb. simpl. rewrite Hr. simpl. eexists. split; [done|].
  pose proof (map_Forall_lookup_1 _ _ _ _ Hok Hb) as Hbyte. simpl in Hbyte.
  rewrite Nat2Z.inj_succ, Z.pow_succ_r by lia. lia.
Qed.

Lemma store_le_wrote n m a v :
  mapped m a (Z.of_nat n) →
  ∃ m', store_le n m a v = Ret m' ∧ wrote a (Z.of_nat n) m m' ∧
    load_le n m' a = Ret (v mod 256 ^ Z.of_nat n).
Proof.
  revert m a v. induction n as [|n IH]; intros m a v Hm.
  { exists m. split_and!; [done|apply wrote_refl|]. simpl. by rewrite Z.mod_1_r. }
  destruct (store8_wrote m a v) as (m1 & H1 & W1 & L1); [eapply mapped_sub; [done|lia..]|].
  destruct (IH m1 (a + 1) (v / 256)) as (m2 & H2 & W2 & L2).
  { apply W1. eapply mapped_sub; [done|lia..]. }
  exists m2. simpl. rewrite H1. simpl. rewrite H2. split_and!; [done| |].
  - eapply wrote_trans; eapply wrote_weaken; [exact W1|lia|lia|exact W2|lia|lia].
  - unfold load8. rewrite (wrote_outside _ _ _ _ W2), L1 by lia. simpl. rewrite L2. simpl.
    f_equal. rewrite Nat2Z.inj_succ, Z.pow_succ_r by lia. unfold u8. change (2 ^ 8) with 256.
    rewrite Z.rem_mul_r by lia. done.
Qed.

(** Words. *)
Lemma load64_Ret m a : mem_ok m → mapped m a 8 → ∃ v, load64 m a = Ret v ∧ in64 v.
Proof. intros. by apply (load_le_Ret 8). Qed.

Lemma store64_wrote m a v :
  mapped m a 8 → in64 v →
  ∃ m', store64 m a v = Ret m' ∧ wrote a 8 m m' ∧ load64 m' a = Ret v.
Proof.
  intros Hm Hv. destruct (store_le_wrote 8 m a v Hm) as (m' & ? & ? & HL).
  exists m'. split_and!; [done..|]. unfold load64. rewrite HL. f_equal. by apply Z.mod_small.
Qed.

Lemma store32_wrote m a v :
  mapped m a 4 → 0 ≤ v < 2 ^ 32 →
  ∃ m', store32 m a v = Ret m' ∧ wrote a 4 m m' ∧ load32 m' a = Ret v.
Proof.
  intros Hm Hv. destruct (store_le_wrote 4 m a v Hm) as (m' & ? & ? & HL).
  exists m'. split_and!; [done..|]. unfold load32. rewrite HL. f_equal. by apply Z.mod_small.
Qed.

Lemma load64_outside a n b m m' :
  wrote a n m m' → b + 8 ≤ a ∨ a + n ≤ b → load64 m' b = load64 m b.
Proof. intros W Hd. apply (load_le_ext 8). intros i Hi. apply W. lia. Qed.

Lemma load32_outside a n b m m' :
  wrote a n m m' → b + 4 ≤ a ∨ a + n ≤ b → load32 m' b = load32 m b.
Proof. intros W Hd. apply (load_le_ext 4). intros i Hi. apply W. lia. Qed.

(** The effect of writes confined to the addresses in [P]. *)
Record changed (P : Z → Prop) (m m' : mem) : Prop := {
  ch_outside : ∀ i, ¬ P i → m' !! i = m !! i;
  ch_mapped : ∀ b k, mapped m b k → mapped m' b k;
  ch_ok : mem_ok m → mem_ok m';
}.

Lemma changed_refl P m : changed P m m.
Proof. by split. Qed.

Lemma changed_trans P m1 m2 m3 : changed P m1 m2 → changed P m2 m3 → changed P m1 m3.
Proof.
  intros [] []. split; [|auto..]. intros i Hi. rewrite ch_outside1, ch_outside0 by done. done.
Qed.

Lemma changed_mono (P Q : Z → Prop) m m' : changed P m m' → (∀ i, P i → Q i) → changed Q m m'.
Proof. intros [] HPQ. split; [|auto..]. intros i Hi. apply ch_outside0. naive_solver. Qed.

Lemma wrote_changed (P : Z → Prop) a n m m' :
  wrote a n m m' → (∀ i, a ≤ i < a + n → P i) → changed P m m'.
Proof.
  intros [] HP. split; [|auto..]. intros i Hi. apply wrote_outside0. naive_solver.
Qed.

(** ** Concrete memories *)

(** [n] zero bytes at [a]. *)
Fixpoint zero_bytes (n : nat) (a : Z) : mem :=
  match n with O => ∅ | S n => <[a := 0]> (zero_bytes n (a + 1)) end.
Definition zero_mem (a n : Z) : mem := zero_bytes (Z.to_nat n) a.

Lemma lookup_zero_bytes n a i :
  zero_bytes n a !! i = if decide (a ≤ i < a + Z.of_nat n) then Some 0 else None.
Proof.
  revert a. induction n as [|n IH]; intros a; simpl.
  { case_decide; [lia|done]. }
  rewrite lookup_insert, IH. destruct (decide (a = i)) as [->|]; [by rewrite decide_True by lia|].
  destruct (decide _), (decide _); done || lia.
Qed.

Lemma lookup_zero_mem a n i : a ≤ i < a + n → zero_mem a n !! i = Some 0.
Proof. intros Hi. unfold zero_mem. by rewrite lookup_zero_bytes, decide_True by lia. Qed.

Lemma zero_mem_ok a n : mem_ok (zero_mem a n).
Proof.
  intros i b. unfold zero_mem. rewrite lookup_zero_bytes. case_decide; [intros [= <-]; lia|done].
Qed.

Lemma zero_mem_mapped a n : mapped (zero_mem a n) a n.
Proof. intros i Hi. rewrite lookup_zero_mem by done. eauto. Qed.

Lemma load_zero_mem k a n b :
  a ≤ b → b + Z.of_nat k ≤ a + n → load_le k (zero_mem a n) b = Ret 0.
Proof.
  revert b. induction k as [|k IH]; intros b ? ?; [done|]. simpl. unfold load8.
  rewrite lookup_zero_mem by lia. simpl. by rewrite IH by lia.
Qed.

(** The memory holding the listed cells. *)
Lemma list_to_map_ok (l : list (Z * Z)) :
  Forall (λ c, 0 ≤ c.2 < 256) l → mem_ok (list_to_map l).
Proof.
  intros Hl i b Hb. apply elem_of_list_to_map_2 in Hb.
  rewrite Forall_forall in Hl. exact (Hl _ Hb).
Qed.
