(* ===== verification/Lib.v ===== *)
(** * Memory primitives of the freestanding kernel

    [src/kernel/lib/memory.c]: [memset], [memcpy] and [memmove], loop by loop,
    on the byte memory of [Mem].  The functions return their first argument.
    The lemmas on [copied] are shared with the user copy of the system-call
    layer. *)

From S2P Require Import Prelude Mem.

(** ** [memory.c] *)

Definition fill_step_c (value : Z) (s : mem * Z * Z) : outcome (mem * Z * Z + mem) :=
  let '(m, d, count) := s in
  if negb (negb (count =? 0)) then Ret (inr m)
  else
    m ← store8 m d (u8 value);
    Ret (inl (m, d + 1, count ⊖ 1)).

Definition memset (m : mem) (dest value count : Z) : outcome (Z * mem) :=
  m ← loop (S (Z.to_nat count)) (fill_step_c value) (m, dest, count);
  Ret (dest, m).

(** [while (count-- != 0) *d++ = *s++] *)
Definition copy_up_step (s : mem * Z * Z * Z) : outcome (mem * Z * Z * Z + mem) :=
  let '(m, d, s, count) := s in
  if negb (negb (count =? 0)) then Ret (inr m)
  else
    b ← load8 m s;
    m ← store8 m d b;
    Ret (inl (m, d + 1, s + 1, count ⊖ 1)).

Definition memcpy (m : mem) (dest src count : Z) : outcome (Z * mem) :=
  m ← loop (S (Z.to_nat count)) copy_up_step (m, dest, src, count);
  Ret (dest, m).

(** [while (count-- != 0) *--d = *--s] *)
Definition copy_down_step (s : mem * Z * Z * Z) : outcome (mem * Z * Z * Z + mem) :=
  let '(m, d, s, count) := s in
  if negb (negb (count =? 0)) then Ret (inr m)
  else
    b ← load8 m (s - 1);
    m ← store8 m (d - 1) b;
    Ret (inl (m, d - 1, s - 1, count ⊖ 1)).

Definition memmove (m : mem) (dest src count : Z) : outcome (Z * mem) :=
  if (dest =? src) || (count =? 0) then Ret (dest, m)
  else if dest <? src then
    m ← loop (S (Z.to_nat count)) copy_up_step (m, dest, src, count);
    Ret (dest, m)
  else
    m ← loop (S (Z.to_nat count)) copy_down_step (m, dest + count, src + count, count);
    Ret (dest, m).

(** A placeholder of the source: it does nothing. *)
Definition kernel_memory_init (m : mem) : mem := m.

(** ** Copies in progress

    [copied m m' d s lo hi]: in [m'] the bytes [d + lo .. d + hi - 1] are those
    of [m] at [s + lo .. s + hi - 1]; everything else is as in [m]. *)
Record copied (m m' : mem) (d s lo hi : Z) : Prop := {
  copied_in : ∀ i, lo ≤ i < hi → m' !! (d + i) = m !! (s + i);
  copied_out : ∀ j, ¬ (d + lo ≤ j < d + hi) → m' !! j = m !! j;
}.

Lemma copied_nil m d s k : copied m m d s k k.
Proof. split; [lia|done]. Qed.

Lemma copied_self m d n : copied m m d d 0 n.
Proof. split; done. Qed.

Lemma copied_byte m m' d s lo hi k b :
  mem_ok m → copied m m' d s lo hi → lo ≤ hi → ¬ (d + lo ≤ s + k < d + hi) →
  ¬ (lo ≤ k < hi) → m !! (s + k) = Some b → is_Some (m !! (d + k)) →
  load8 m' (s + k) = Ret b ∧
  ∃ m'', store8 m' (d + k) b = Ret m'' ∧
    (k = hi → copied m m'' d s lo (hi + 1)) ∧ (k = lo - 1 → copied m m'' d s (lo - 1) hi).
Proof.
  intros Hok [Hin Hout] Hlo Hsrc Hk Hb [b' Hb'].
  pose proof (map_Forall_lookup_1 _ _ _ _ Hok Hb) as Hbyte. simpl in Hbyte.
  unfold load8, store8. rewrite Hout, Hb by done. rewrite Hout, Hb' by lia.
  split; [done|]. eexists. split; [done|].
  replace (u8 b) with b by (unfold u8; rewrite Z.mod_small; lia).
  assert (Hl : ∀ j, <[d + k := b]> m' !! j = if decide (d + k = j) then Some b else m' !! j)
    by (intros; apply lookup_insert).
  split; intros ->; split; intros j Hj; rewrite Hl; case_decide; try lia;
    first [ replace j with hi by lia; congruence | replace j with (lo - 1) by lia; congruence
          | apply Hin; lia | apply Hout; lia ].
Qed.

Lemma copied_wrote m m' d s n :
  mem_ok m → mapped m s n → mapped m d n → copied m m' d s 0 n → wrote d n m m'.
Proof.
  intros Hok Hs Hd [Hin Hout].
  assert (HL : ∀ j, d ≤ j < d + n → m' !! j = m !! (s + (j - d))).
  { intros j Hj. rewrite <- Hin by lia. f_equal. lia. }
  split.
  - intros j Hj. apply Hout. lia.
  - intros b k Hm j Hj. destruct (decide (d ≤ j < d + n)) as [Hr|Hr].
    + rewrite HL by done. apply Hs. lia.
    + rewrite Hout by lia. by apply Hm.
  - intros _ j b Hj. destruct (decide (d ≤ j < d + n)) as [Hr|Hr].
    + rewrite HL in Hj by done. exact (map_Forall_lookup_1 _ _ _ _ Hok Hj).
    + rewrite Hout in Hj by lia. exact (map_Forall_lookup_1 _ _ _ _ Hok Hj).
Qed.

(** An ascending copy is right when the destination does not start inside the
    source. *)
Definition copy_up_safe (d s n : Z) : Prop := d ≤ s ∨ s + n ≤ d.

Lemma copy_up_loop m d s n :
  mem_ok m → mapped m s n → mapped m d n → 0 ≤ n < 2 ^ 64 → copy_up_safe d s n →
  ∃ m', loop (S (Z.to_nat n)) copy_up_step (m, d, s, n) = Ret m' ∧ copied m m' d s 0 n.
Proof.
  intros Hok Hs Hd Hn Hsafe.
  apply (loop_rule copy_up_step
    (λ '(m', d', s', c), 0 ≤ c ≤ n ∧ d' = d + (n - c) ∧ s' = s + (n - c) ∧ copied m m' d s 0 (n - c))
    (λ m', copied m m' d s 0 n) (λ '(_, _, _, c), Z.to_nat c)).
  - intros [[[m' d'] s'] c] (Hc & -> & -> & HC). unfold copy_up_step. rewrite negb_involutive.
    if_split; [exists (inr m'); split; [done|]; subst; by rewrite Z.sub_0_r in HC|].
    destruct (Hs (s + (n - c))) as [b Hb]; [lia|].
    destruct (copied_byte m m' d s 0 (n - c) (n - c) b) as (-> & m'' & HS & HC' & _);
      [done|done|lia|destruct Hsafe; lia|lia|done|apply Hd; lia|].
    simpl. rewrite HS. simpl. words. eexists. split; [done|]. split_and!; [lia..| |lia].
    replace (n - (c - 1)) with (n - c + 1) by lia. auto.
  - split_and!; [lia..|]. rewrite Z.sub_diag. apply copied_nil.
  - lia.
Qed.

Lemma copy_down_loop m d s n :
  mem_ok m → mapped m s n → mapped m d n → 0 ≤ n < 2 ^ 64 → s < d →
  ∃ m', loop (S (Z.to_nat n)) copy_down_step (m, d + n, s + n, n) = Ret m' ∧ copied m m' d s 0 n.
Proof.
  intros Hok Hs Hd Hn Hlt.
  apply (loop_rule copy_down_step
    (λ '(m', d', s', c), 0 ≤ c ≤ n ∧ d' = d + c ∧ s' = s + c ∧ copied m m' d s c n)
    (λ m', copied m m' d s 0 n) (λ '(_, _, _, c), Z.to_nat c)).
  - intros [[[m' d'] s'] c] (Hc & -> & -> & HC). unfold copy_down_step. rewrite negb_involutive.
    if_split; [exists (inr m'); split; [done|]; by subst|].
    destruct (Hs (s + (c - 1))) as [b Hb]; [lia|].
    destruct (copied_byte m m' d s c n (c - 1) b) as (HL & m'' & HS & _ & HC');
      [done|done|lia|lia|lia|done|apply Hd; lia|].
    rewrite <- !Z.add_sub_assoc, HL. simpl. rewrite HS. simpl. words.
    eexists. split; [done|]. split_and!; [lia..| |lia]. auto.
  - split_and!; [lia..|]. apply copied_nil.
  - lia.
Qed.

Lemma fill_loop m d v n :
  mapped m d n → 0 ≤ n < 2 ^ 64 →
  ∃ m', loop (S (Z.to_nat n)) (fill_step_c v) (m, d, n) = Ret m' ∧
    wrote d n m m' ∧ ∀ i, 0 ≤ i < n → m' !! (d + i) = Some (u8 v).
Proof.
  intros Hd Hn.
  apply (loop_rule (fill_step_c v)
    (λ '(m', d', c), 0 ≤ c ≤ n ∧ d' = d + (n - c) ∧ wrote d n m m' ∧
       ∀ i, 0 ≤ i < n - c → m' !! (d + i) = Some (u8 v))
    (λ m', wrote d n m m' ∧ ∀ i, 0 ≤ i < n → m' !! (d + i) = Some (u8 v)) (λ '(_, _, c), Z.to_nat c)).
  - intros [[m' d'] c] (Hc & -> & HW & HF). unfold fill_step_c. rewrite negb_involutive.
    if_split; [exists (inr m'); split; [done|]; subst; by rewrite Z.sub_0_r in HF|].
    destruct (store8_wrote m' (d + (n - c)) (u8 v)) as (m'' & -> & HW' & HB).
    { apply HW. eapply mapped_sub; [exact Hd|lia..]. }
    simpl. words. eexists. split; [done|]. split_and!; [lia..| | |lia].
    + eapply wrote_trans; [exact HW|]. eapply wrote_weaken; [exact HW'|lia..].
    + intros i Hi. destruct (decide (i = n - c)) as [->|].
      * rewrite HB. f_equal. apply Z.mod_mod. lia.
      * rewrite (wrote_outside _ _ _ _ HW') by lia. apply HF. lia.
  - split_and!; [lia..|apply wrote_refl|]. intros; lia.
  - lia.
Qed.

(** ** Theorems *)

(** C39: [memmove] copies [count] bytes whatever the overlap of source and
    destination: it returns [dest], every destination byte is the source byte
    of the memory before the call, and no other byte changes.  [memcpy], which
    copies upwards only, does the same unless the destination starts inside the
    source; [memset] fills exactly the [count] bytes with the low byte of its
    value. *)
Theorem memory_functions_correct (m : mem) (dest src count value : Z) :
  mem_ok m → mapped m src count → mapped m dest count → 0 ≤ count < 2 ^ 64 →
  (∃ m', memmove m dest src count = Ret (dest, m') ∧ wrote dest count m m' ∧
     ∀ i, 0 ≤ i < count → m' !! (dest + i) = m !! (src + i)) ∧
  (copy_up_safe dest src count → memcpy m dest src count = memmove m dest src count) ∧
  (∃ m', memset m dest value count = Ret (dest, m') ∧ wrote dest count m m' ∧
     ∀ i, 0 ≤ i < count → m' !! (dest + i) = Some (u8 value)).
Proof.
  intros Hok Hs Hd Hn.
  assert (∃ m', memmove m dest src count = Ret (dest, m') ∧ copied m m' dest src 0 count)
    as (m1 & E1 & C1).
  { unfold memmove. destruct ((dest =? src) || (count =? 0)) eqn:E; bool_facts.
    - exists m. split; [done|]. destruct E as [E|E]; bool_facts; subst; [apply copied_self|apply copied_nil].
    - if_split.
      + destruct (copy_up_loop m dest src count) as (m' & -> & HC); [done..|left; lia|]. by exists m'.
      + destruct (copy_down_loop m dest src count) as (m' & -> & HC); [done..|lia|]. by exists m'. }
  split_and!.
  - exists m1. split; [done|]. split; [by apply (copied_wrote m m1 dest src)|apply C1].
  - intros Hup. destruct (copy_up_loop m dest src count) as (m2 & E2 & C2); [done..|].
    rewrite E1. unfold memcpy. rewrite E2. simpl. do 2 f_equal. apply map_eq. intros j.
    destruct (decide (dest ≤ j < dest + count)) as [Hj|Hj].
    + replace j with (dest + (j - dest)) by lia.
      rewrite (copied_in _ _ _ _ _ _ C1), (copied_in _ _ _ _ _ _ C2) by lia. done.
    + rewrite (copied_out _ _ _ _ _ _ C1), (copied_out _ _ _ _ _ _ C2) by lia. done.
  - destruct (fill_loop m dest value count) as (m' & E & HW & HF); [done..|].
    exists m'. split; [|done]. unfold memset. by rewrite E.
Qed.

Definition demo_bytes : mem := list_to_map [(100, 1); (101, 2); (102, 3); (103, 4); (104, 5)].

Lemma memory_functions_correct_witness :
  ∃ m', memmove demo_bytes 101 100 4 = Ret (101, m') ∧
    wrote 101 4 demo_bytes m' ∧ ∀ i, 0 ≤ i < 4 → m' !! (101 + i) = demo_bytes !! (100 + i).
Proof.
  refine (proj1 (memory_functions_correct demo_bytes 101 100 4 7 _ _ _ _)).
  - by apply list_to_map_ok; repeat constructor.
  - intros i Hi. assert (i = 100 ∨ i = 101 ∨ i = 102 ∨ i = 103) as Hc by lia.
    destruct_or! Hc; subst i; by eexists.
  - intros i Hi. assert (i = 101 ∨ i = 102 ∨ i = 103 ∨ i = 104) as Hc by lia.
    destruct_or! Hc; subst i; by eexists.
  - lia.
Defined.
