(* ===== verification/Vmm.v ===== *)
(** * The virtual memory manager: model

    [src/vmm.c] with [include/vmm.h]: four-level x86_64 page tables reached
    through the callbacks of a [vmm_space].  Pointers are addresses of the byte
    memory of [Mem.v]; [table[index]] is the 64-bit word at
    [table + 8 * index].  The callbacks are the client's code: they are fields
    of the space, act on a context state [C] of their own and on the memory,
    and are constrained only by the interface of [VmmInterface.v]. *)

From S2P Require Import Prelude Mem.

(** ** Constants *)
Definition VMM_PAGE_SIZE : Z := 4096.
Definition VMM_ENTRIES_PER_TABLE : Z := 512.
Definition VMM_INVALID_PHYS : Z := UINT64_MAX.

Definition VMM_PTE_PRESENT : Z := Z.shiftl 1 0.
Definition VMM_PTE_WRITABLE : Z := Z.shiftl 1 1.
Definition VMM_PTE_USER : Z := Z.shiftl 1 2.
Definition VMM_PTE_WRITE_THROUGH : Z := Z.shiftl 1 3.
Definition VMM_PTE_CACHE_DISABLE : Z := Z.shiftl 1 4.
Definition VMM_PTE_ACCESSED : Z := Z.shiftl 1 5.
Definition VMM_PTE_DIRTY : Z := Z.shiftl 1 6.
Definition VMM_PTE_HUGE : Z := Z.shiftl 1 7.
Definition VMM_PTE_GLOBAL : Z := Z.shiftl 1 8.
Definition VMM_PTE_NO_EXECUTE : Z := Z.shiftl 1 63.
Definition VMM_PTE_ADDR_MASK : Z := 0x000FFFFFFFFFF000.

Definition VMM_MAP_OK : Z := 0.
Definition VMM_ERR_INVAL : Z := -1.
Definition VMM_ERR_NOMEM : Z := -2.
Definition VMM_ERR_EXISTS : Z := -3.
Definition VMM_ERR_NOT_FOUND : Z := -4.

(** ** Address arithmetic *)
Definition vmm_is_aligned_4k (value : Z) : bool :=
  Z.land value (VMM_PAGE_SIZE ⊖ 1) =? 0.

Definition vmm_is_canonical (vaddr : Z) : bool :=
  let sign := Z.land (Z.shiftr vaddr 47) 1 in
  let upper := Z.shiftr vaddr 48 in
  if negb (sign =? 0) then upper =? 0xFFFF else upper =? 0.

Definition idx_pml4 (vaddr : Z) : Z := u32 (Z.land (Z.shiftr vaddr 39) 0x1FF).
Definition idx_pdpt (vaddr : Z) : Z := u32 (Z.land (Z.shiftr vaddr 30) 0x1FF).
Definition idx_pd (vaddr : Z) : Z := u32 (Z.land (Z.shiftr vaddr 21) 0x1FF).
Definition idx_pt (vaddr : Z) : Z := u32 (Z.land (Z.shiftr vaddr 12) 0x1FF).

(** ** The processor state the module touches *)
Record cpu : Type := mk_cpu {
  cr2 : Z;
  cr3 : Z;
  (** the addresses given to [invlpg], oldest first *)
  invlpg_log : list Z;
}.

Definition vmm_invalidate_page (cp : cpu) (vaddr : Z) : cpu :=
  mk_cpu (cr2 cp) (cr3 cp) (invlpg_log cp ++ [vaddr]).
Definition vmm_read_cr3 (cp : cpu) : Z := cr3 cp.
Definition vmm_write_cr3 (cp : cpu) (value : Z) : cpu := mk_cpu (cr2 cp) value (invlpg_log cp).
Definition vmm_read_cr2 (cp : cpu) : Z := cr2 cp.

(** ** Tables as arrays of 64-bit words *)
Definition get_entry (m : mem) (table index : Z) : outcome Z := load64 m (table + 8 * index).
Definition set_entry (m : mem) (table index v : Z) : outcome mem :=
  store64 m (table + 8 * index) v.

Definition zero_step (page : Z) (s : mem * Z) : outcome (mem * Z + mem) :=
  let '(m, i) := s in
  if negb (i <? VMM_ENTRIES_PER_TABLE) then Ret (inr m)
  else
    m ← set_entry m page i 0;
    Ret (inl (m, i + 1)).

Definition vmm_zero_page (m : mem) (page : Z) : outcome mem :=
  loop 513 (zero_step page) (m, 0).
Arguments vmm_zero_page : simpl never.

Record vmm_mapping : Type := mk_mapping {
  map_vaddr : Z;
  map_paddr : Z;
  map_flags : Z;
}.

Section vmm.
(** The state the callbacks keep behind their [void *ctx]. *)
Context {C : Type}.

(** The first argument of each callback is the [ctx] pointer it is given. *)
Definition vmm_alloc_frame_fn : Type := Z → C → mem → outcome (Z * C * mem).
Definition vmm_free_frame_fn : Type := Z → C → mem → Z → outcome (C * mem).
Definition vmm_phys_to_virt_fn : Type := Z → C → Z → outcome Z.

Record vmm_space : Type := mk_space {
  root_paddr : Z;
  ctx : Z;
  alloc_frame : option vmm_alloc_frame_fn;
  free_frame : option vmm_free_frame_fn;
  phys_to_virt : option vmm_phys_to_virt_fn;
}.

(** What an operation on a space reads and writes. *)
Record vm : Type := mk_vm {
  vm_ctx : C;
  vm_mem : mem;
  vm_cpu : cpu;
}.

Definition set_mem (w : vm) (m : mem) : vm := mk_vm (vm_ctx w) m (vm_cpu w).

(** The null pointer is 0. *)
Definition table_from_phys (space : option vmm_space) (w : vm) (paddr : Z) : outcome Z :=
  match space with
  | None => Ret 0
  | Some sp =>
      match phys_to_virt sp with
      | None => Ret 0
      | Some p2v =>
          if negb (vmm_is_aligned_4k paddr) then Ret 0
          else p2v (ctx sp) (vm_ctx w) paddr
      end
  end.

(** Returns the return code, the value of [*out] and the new state. *)
Definition get_or_alloc_next_table (sp : vmm_space) (w : vm) (table index out : Z)
  : outcome (Z * Z * vm) :=
  entry ← get_entry (vm_mem w) table index;
  if negb (Z.land entry VMM_PTE_PRESENT =? 0) then
    if negb (Z.land entry VMM_PTE_HUGE =? 0) then Ret (VMM_ERR_EXISTS, out, w)
    else
      next ← table_from_phys (Some sp) w (Z.land entry VMM_PTE_ADDR_MASK);
      if next =? 0 then Ret (VMM_ERR_INVAL, out, w)
      else Ret (VMM_MAP_OK, next, w)
  else
    match alloc_frame sp with
    | None => Ret (VMM_ERR_NOMEM, out, w)
    | Some alloc =>
        ' (new_paddr, c, m) ← alloc (ctx sp) (vm_ctx w) (vm_mem w);
        let w := mk_vm c m (vm_cpu w) in
        if (new_paddr =? VMM_INVALID_PHYS) || negb (vmm_is_aligned_4k new_paddr)
        then Ret (VMM_ERR_NOMEM, out, w)
        else
          new_table ← table_from_phys (Some sp) w new_paddr;
          if new_table =? 0 then
            match free_frame sp with
            | None => Ret (VMM_ERR_INVAL, out, w)
            | Some free =>
                ' (c, m) ← free (ctx sp) (vm_ctx w) (vm_mem w) new_paddr;
                Ret (VMM_ERR_INVAL, out, mk_vm c m (vm_cpu w))
            end
          else
            m ← vmm_zero_page (vm_mem w) new_table;
            m ← set_entry m table index
                  (Z.lor (Z.lor (Z.land new_paddr VMM_PTE_ADDR_MASK) VMM_PTE_PRESENT)
                     VMM_PTE_WRITABLE);
            Ret (VMM_MAP_OK, new_table, set_mem w m)
    end.

(** [space] is the caller's object ([None] for the null pointer). *)
Definition vmm_space_init (space : option vmm_space) (root_paddr ctx : Z)
    (alloc_frame : option vmm_alloc_frame_fn) (free_frame : option vmm_free_frame_fn)
    (phys_to_virt : option vmm_phys_to_virt_fn) : Z * option vmm_space :=
  match space, phys_to_virt with
  | None, _ | _, None => (VMM_ERR_INVAL, space)
  | Some _, Some _ =>
      if negb (vmm_is_aligned_4k root_paddr) then (VMM_ERR_INVAL, space)
      else (VMM_MAP_OK, Some (mk_space root_paddr ctx alloc_frame free_frame phys_to_virt))
  end.

(** The flags a mapping may carry. *)
Definition allowed : Z :=
  Z.lor (Z.lor (Z.lor (Z.lor (Z.lor VMM_PTE_WRITABLE VMM_PTE_USER) VMM_PTE_WRITE_THROUGH)
    VMM_PTE_CACHE_DISABLE) VMM_PTE_GLOBAL) VMM_PTE_NO_EXECUTE.

Definition vmm_map_page (space : option vmm_space) (w : vm) (vaddr paddr flags : Z)
  : outcome (Z * vm) :=
  match space with
  | None => Ret (VMM_ERR_INVAL, w)
  | Some sp =>
      if negb (vmm_is_canonical vaddr) || negb (vmm_is_aligned_4k vaddr)
         || negb (vmm_is_aligned_4k paddr)
      then Ret (VMM_ERR_INVAL, w)
      else
        pml4 ← table_from_phys space w (root_paddr sp);
        if pml4 =? 0 then Ret (VMM_ERR_INVAL, w)
        else
          ' (rc, pdpt, w) ← get_or_alloc_next_table sp w pml4 (idx_pml4 vaddr) 0;
          if negb (rc =? VMM_MAP_OK) then Ret (rc, w)
          else
            ' (rc, pd, w) ← get_or_alloc_next_table sp w pdpt (idx_pdpt vaddr) 0;
            if negb (rc =? VMM_MAP_OK) then Ret (rc, w)
            else
              ' (rc, pt, w) ← get_or_alloc_next_table sp w pd (idx_pd vaddr) 0;
              if negb (rc =? VMM_MAP_OK) then Ret (rc, w)
              else
                let pti := idx_pt vaddr in
                e ← get_entry (vm_mem w) pt pti;
                if negb (Z.land e VMM_PTE_PRESENT =? 0) then Ret (VMM_ERR_EXISTS, w)
                else
                  m ← set_entry (vm_mem w) pt pti
                        (Z.lor (Z.lor (Z.land paddr VMM_PTE_ADDR_MASK) VMM_PTE_PRESENT)
                           (Z.land flags allowed));
                  Ret (VMM_MAP_OK, set_mem w m)
  end.

(** One level of the walk [vmm_query_page] and [vmm_unmap_page] both write out
    three times: read the entry, give up with [VMM_ERR_NOT_FOUND] when it names
    no table, follow it otherwise. *)
Definition next_table (sp : vmm_space) (w : vm) (table index : Z) : outcome (Z + Z) :=
  e ← get_entry (vm_mem w) table index;
  if (Z.land e VMM_PTE_PRESENT =? 0) || negb (Z.land e VMM_PTE_HUGE =? 0)
  then Ret (inl VMM_ERR_NOT_FOUND)
  else
    t ← table_from_phys (Some sp) w (Z.land e VMM_PTE_ADDR_MASK);
    if t =? 0 then Ret (inl VMM_ERR_INVAL) else Ret (inr t).

Definition vmm_query_page (space : option vmm_space) (w : vm) (vaddr : Z)
    (out : option vmm_mapping) : outcome (Z * option vmm_mapping) :=
  match space, out with
  | None, _ | _, None => Ret (VMM_ERR_INVAL, out)
  | Some sp, Some _ =>
      if negb (vmm_is_canonical vaddr) || negb (vmm_is_aligned_4k vaddr)
      then Ret (VMM_ERR_INVAL, out)
      else
        pml4 ← table_from_phys space w (root_paddr sp);
        if pml4 =? 0 then Ret (VMM_ERR_INVAL, out)
        else
          r ← next_table sp w pml4 (idx_pml4 vaddr);
          match r with
          | inl rc => Ret (rc, out)
          | inr pdpt =>
              r ← next_table sp w pdpt (idx_pdpt vaddr);
              match r with
              | inl rc => Ret (rc, out)
              | inr pd =>
                  r ← next_table sp w pd (idx_pd vaddr);
                  match r with
                  | inl rc => Ret (rc, out)
                  | inr pt =>
                      e ← get_entry (vm_mem w) pt (idx_pt vaddr);
                      if Z.land e VMM_PTE_PRESENT =? 0 then Ret (VMM_ERR_NOT_FOUND, out)
                      else
                        Ret (VMM_MAP_OK,
                          Some (mk_mapping vaddr (Z.land e VMM_PTE_ADDR_MASK)
                                  (Z.land e (not64 VMM_PTE_ADDR_MASK))))
                  end
              end
          end
  end.

Definition vmm_unmap_page (space : option vmm_space) (w : vm) (vaddr : Z) : outcome (Z * vm) :=
  match space with
  | None => Ret (VMM_ERR_INVAL, w)
  | Some sp =>
      if negb (vmm_is_canonical vaddr) || negb (vmm_is_aligned_4k vaddr)
      then Ret (VMM_ERR_INVAL, w)
      else
        pml4 ← table_from_phys space w (root_paddr sp);
        if pml4 =? 0 then Ret (VMM_ERR_INVAL, w)
        else
          r ← next_table sp w pml4 (idx_pml4 vaddr);
          match r with
          | inl rc => Ret (rc, w)
          | inr pdpt =>
              r ← next_table sp w pdpt (idx_pdpt vaddr);
              match r with
              | inl rc => Ret (rc, w)
              | inr pd =>
                  r ← next_table sp w pd (idx_pd vaddr);
                  match r with
                  | inl rc => Ret (rc, w)
                  | inr pt =>
                      let pti := idx_pt vaddr in
                      e ← get_entry (vm_mem w) pt pti;
                      if Z.land e VMM_PTE_PRESENT =? 0 then Ret (VMM_ERR_NOT_FOUND, w)
                      else
                        m ← set_entry (vm_mem w) pt pti 0;
                        Ret (VMM_MAP_OK,
                          mk_vm (vm_ctx w) m (vmm_invalidate_page (vm_cpu w) vaddr))
                  end
              end
          end
  end.
End vmm.

Arguments vmm_space C : clear implicits.
Arguments vm C : clear implicits.
Arguments vmm_alloc_frame_fn C : clear implicits.
Arguments vmm_free_frame_fn C : clear implicits.
Arguments vmm_phys_to_virt_fn C : clear implicits.
Arguments get_entry : simpl never.
Arguments set_entry : simpl never.
Arguments table_from_phys : simpl never.
Arguments get_or_alloc_next_table : simpl never.
Arguments next_table : simpl never.
Arguments vmm_map_page : simpl never.
Arguments vmm_query_page : simpl never.
Arguments vmm_unmap_page : simpl never.
