(* ===== verification/VmmInterface.v ===== *)
(** * The virtual memory manager: its frame source and its page-table trees

    [FrameSource] states what [src/vmm.c] relies on from the three callbacks of
    a space; the VMM theorems are proved against it, and [VmmPmm.v]
    discharges it for the physical memory manager.  The rest of the file views
    the tables in memory as a tree: [walk] follows a path of indices, [leaf]
    reads a last-level entry, and [pt_inv] is the well-formedness invariant. *)

From S2P Require Import Prelude Mem Vmm.

(** [m] maps the page-sized window of every frame. *)
Definition frames_mapped (frame_ok : Z → Prop) (p2v : Z → Z) (m : mem) : Prop :=
  ∀ p, frame_ok p → mapped m (p2v p) 4096.

(** ** The interface *)
Class FrameSource {C : Type} (sp : vmm_space C) : Type := {
  (** the frames the direct map covers, and where it puts them *)
  frame_ok : Z → Prop;
  p2v : Z → Z;
  (** the callbacks' own invariant, the frames handed out, and how many are left *)
  fs_inv : C → Prop;
  owned : C → Z → Prop;
  avail : C → nat;

  frame_range : ∀ p, frame_ok p → 0 ≤ p < 2 ^ 52 ∧ p mod 4096 = 0;
  p2v_nonnull : ∀ p, frame_ok p → p2v p ≠ 0;
  p2v_disjoint : ∀ p q, frame_ok p → frame_ok q → p ≠ q →
    p2v p + 4096 ≤ p2v q ∨ p2v q + 4096 ≤ p2v p;
  phys_to_virt_law : ∃ f, phys_to_virt sp = Some f ∧
    ∀ c p, fs_inv c → frame_ok p → f (ctx sp) c p = Ret (p2v p);
  alloc_frame_law : ∃ f, alloc_frame sp = Some f ∧
    ∀ c m, fs_inv c → frames_mapped frame_ok p2v m →
      ∃ p c' m', f (ctx sp) c m = Ret (p, c', m') ∧ fs_inv c' ∧
        ((avail c = 0%nat ∧ p = VMM_INVALID_PHYS ∧ m' = m ∧ avail c' = 0%nat ∧
            ∀ q, owned c' q ↔ owned c q) ∨
         (avail c = S (avail c') ∧ frame_ok p ∧ ¬ owned c p ∧ wrote (p2v p) 4096 m m' ∧
            ∀ q, owned c' q ↔ q = p ∨ owned c q));
}.

(** ** Entries *)
Definition present (e : Z) : bool := negb (Z.land e VMM_PTE_PRESENT =? 0).
Definition huge (e : Z) : bool := negb (Z.land e VMM_PTE_HUGE =? 0).

(** The table a non-leaf entry names. *)
Definition entry_next (e : Z) : option Z :=
  if present e && negb (huge e) then Some (Z.land e VMM_PTE_ADDR_MASK) else None.

(** The entry [vmm_map_page] installs, and the one a new table is linked with. *)
Definition pte_of (paddr flags : Z) : Z :=
  Z.lor (Z.lor (Z.land paddr VMM_PTE_ADDR_MASK) VMM_PTE_PRESENT) (Z.land flags allowed).
Definition table_entry (paddr : Z) : Z :=
  Z.lor (Z.lor (Z.land paddr VMM_PTE_ADDR_MASK) VMM_PTE_PRESENT) VMM_PTE_WRITABLE.

Lemma aligned_4k v : vmm_is_aligned_4k v = (v mod 4096 =? 0).
Proof.
  unfold vmm_is_aligned_4k. change (VMM_PAGE_SIZE ⊖ 1) with (Z.ones 12).
  by rewrite Z.land_ones by lia.
Qed.

Lemma present_testbit e : present e = Z.testbit e 0.
Proof.
  unfold present. change VMM_PTE_PRESENT with (2 ^ 0). rewrite land_pow2 by lia.
  by destruct (Z.testbit e 0).
Qed.

Lemma huge_testbit e : huge e = Z.testbit e 7.
Proof.
  unfold huge. change VMM_PTE_HUGE with (2 ^ 7). rewrite land_pow2 by lia.
  by destruct (Z.testbit e 7).
Qed.

Lemma addr_mask_testbit n : 0 ≤ n →
  Z.testbit VMM_PTE_ADDR_MASK n = (12 <=? n) && (n <? 52).
Proof.
  intros Hn. change VMM_PTE_ADDR_MASK with (Z.shiftl (Z.ones 40) 12).
  destruct (Z.leb_spec 12 n).
  - rewrite Z.shiftl_spec_high, testbit_ones by lia. simpl.
    destruct (Z.ltb_spec (n - 12) 40), (Z.ltb_spec n 52); done || lia.
  - by rewrite Z.shiftl_spec_low by lia.
Qed.

Lemma page_testbit p n : p mod 4096 = 0 → 0 ≤ n < 12 → Z.testbit p n = false.
Proof.
  intros Hp Hn. rewrite <- (Z.mod_pow2_bits_low p 12 n) by lia.
  change (2 ^ 12) with 4096. by rewrite Hp, Z.bits_0.
Qed.

(** Masking keeps a page address below 2^52. *)
Lemma land_addr_mask p : 0 ≤ p < 2 ^ 52 → p mod 4096 = 0 → Z.land p VMM_PTE_ADDR_MASK = p.
Proof.
  intros Hp Ha. bits_ext n. rewrite Z.land_spec, addr_mask_testbit by done.
  destruct (Z.leb_spec 12 n); [|by rewrite page_testbit by (done || lia)].
  destruct (Z.ltb_spec n 52); [by rewrite andb_true_r|].
  by rewrite (testbit_small p 52) by lia.
Qed.

Lemma testbit_allowed n : 0 ≤ n →
  Z.testbit allowed n = ((1 <=? n) && (n <=? 4)) || (n =? 8) || (n =? 63).
Proof.
  intros Hn.
  destruct (Z.ltb_spec n 64) as [H|H].
  - assert (∃ k, n = Z.of_nat k ∧ (k < 64)%nat) as (k & -> & Hk)
      by (exists (Z.to_nat n); lia).
    do 64 (destruct k as [|k]; [reflexivity|]). lia.
  - rewrite (testbit_in64_high allowed) by (done || lia).
    destruct (Z.leb_spec n 4), (Z.eqb_spec n 8), (Z.eqb_spec n 63);
      rewrite ?andb_false_r; done || lia.
Qed.

(** The bits of an installed entry. *)
Lemma pte_of_testbit p f n : 0 ≤ n →
  Z.testbit (pte_of p f) n =
  (Z.testbit p n && ((12 <=? n) && (n <? 52))) || (n =? 0) || (Z.testbit f n && Z.testbit allowed n).
Proof.
  intros Hn. unfold pte_of. rewrite !Z.lor_spec, !Z.land_spec, addr_mask_testbit by done.
  change VMM_PTE_PRESENT with (2 ^ 0). by rewrite Z.pow2_bits_eqb, Z.eqb_sym by lia.
Qed.

Lemma table_entry_pte p : table_entry p = pte_of p VMM_PTE_WRITABLE.
Proof. reflexivity. Qed.

Lemma pte_of_nonneg p f : 0 ≤ pte_of p f.
Proof. unfold pte_of. rewrite !Z.lor_nonneg, !Z.land_nonneg. vm_compute. naive_solver. Qed.

Lemma pte_of_in64 p f : in64 (pte_of p f).
Proof.
  apply small_in64; [apply pte_of_nonneg|]. intros n Hn.
  rewrite pte_of_testbit, (testbit_in64_high allowed) by (done || lia).
  destruct (Z.ltb_spec n 52), (Z.eqb_spec n 0); rewrite ?andb_false_r; done || lia.
Qed.

Lemma pte_of_present p f : present (pte_of p f) = true.
Proof. by rewrite present_testbit, pte_of_testbit, andb_false_r by lia. Qed.

Lemma pte_of_addr p f : 0 ≤ p < 2 ^ 52 → p mod 4096 = 0 → Z.land (pte_of p f) VMM_PTE_ADDR_MASK = p.
Proof.
  intros Hp Ha. rewrite <- (land_addr_mask p) at 2 by done. bits_ext n.
  rewrite !Z.land_spec, pte_of_testbit, addr_mask_testbit, testbit_allowed by done.
  destruct (Z.leb_spec 12 n), (Z.ltb_spec n 52), (Z.eqb_spec n 0), (Z.leb_spec n 4),
    (Z.eqb_spec n 8), (Z.eqb_spec n 63); try lia; rewrite ?andb_true_r, ?andb_false_r, ?orb_false_r;
    done.
Qed.

(** Every flag of a new mapping is one the caller asked for and may ask for. *)
Lemma pte_of_flags p f :
  Z.land (pte_of p f) (not64 VMM_PTE_ADDR_MASK) = Z.lor VMM_PTE_PRESENT (Z.land f allowed).
Proof.
  bits_ext n. change VMM_PTE_PRESENT with (2 ^ 0).
  rewrite Z.land_spec, Z.lor_spec, Z.land_spec, Z.pow2_bits_eqb, pte_of_testbit, testbit_not64,
    addr_mask_testbit, testbit_allowed by lia.
  destruct (Z.testbit f n), (Z.testbit p n), (Z.ltb_spec n 64), (Z.leb_spec 12 n),
    (Z.ltb_spec n 52), (Z.eqb_spec n 0), (Z.eqb_spec 0 n), (Z.leb_spec 1 n), (Z.leb_spec n 4),
    (Z.eqb_spec n 8), (Z.eqb_spec n 63); simpl; done || lia.
Qed.

Lemma table_entry_next p :
  0 ≤ p < 2 ^ 52 → p mod 4096 = 0 → entry_next (table_entry p) = Some p.
Proof.
  intros Hp Ha. unfold entry_next. rewrite table_entry_pte, pte_of_present, pte_of_addr by done.
  by rewrite huge_testbit, pte_of_testbit, andb_false_r by lia.
Qed.

Lemma entry_next_absent e : present e = false → entry_next e = None.
Proof. unfold entry_next. by intros ->. Qed.

(** ** Page tables as trees *)

(** A path: the indices followed from the root, outermost level first. *)
Definition idx_ok (i : Z) : Prop := 0 ≤ i < 512.
Definition path_ok (q : list Z) : Prop := Forall idx_ok q ∧ (length q ≤ 3)%nat.

Lemma path_ok_snoc_inv q i : path_ok (q ++ [i]) → path_ok q ∧ idx_ok i ∧ (length q ≤ 2)%nat.
Proof.
  intros [HF HL]. rewrite Forall_app, Forall_singleton in HF. rewrite length_app in HL.
  simpl in HL. unfold path_ok. split_and!; [tauto|lia|apply HF|lia].
Qed.

Lemma path_ok_snoc q i : path_ok q → idx_ok i → (length q ≤ 2)%nat → path_ok (q ++ [i]).
Proof.
  intros [HF HL] Hi Hq. split; [by rewrite Forall_app, Forall_singleton|].
  rewrite length_app. simpl. lia.
Qed.

Section tree.
Context {C : Type} {sp : vmm_space C} `{FS : !FrameSource sp}.

(** Entry [i] of the table in frame [t]. *)
Definition pt_entry (m : mem) (t i : Z) : Z :=
  match get_entry m (p2v t) i with Ret e => e | _ => 0 end.

Fixpoint walk (m : mem) (t : Z) (q : list Z) : option Z :=
  match q with
  | [] => Some t
  | i :: q =>
      match entry_next (pt_entry m t i) with
      | Some t => walk m t q
      | None => None
      end
  end.

(** The present last-level entry reached by [q] and then [i]. *)
Definition leaf (m : mem) (q : list Z) (i : Z) : option Z :=
  match walk m (root_paddr sp) q with
  | Some t => let e := pt_entry m t i in if present e then Some e else None
  | None => None
  end.

Lemma walk_snoc m t q i :
  walk m t (q ++ [i]) =
  match walk m t q with Some t' => entry_next (pt_entry m t' i) | None => None end.
Proof.
  revert t. induction q as [|j q IH]; intros t; simpl.
  - by destruct (entry_next _).
  - by destruct (entry_next _).
Qed.

Lemma walk_app_None m t q q' : walk m t q = None → walk m t (q ++ q') = None.
Proof.
  revert t. induction q as [|i q IH]; intros t; simpl; [done|].
  destruct (entry_next _); auto.
Qed.

(** The tables are owned frames, each reached by one path. *)
Record pt_inv (w : vm C) : Prop := {
  pi_ctx : fs_inv (vm_ctx w);
  pi_mem : mem_ok (vm_mem w);
  pi_mapped : frames_mapped frame_ok p2v (vm_mem w);
  pi_table : ∀ q t, path_ok q → walk (vm_mem w) (root_paddr sp) q = Some t →
    frame_ok t ∧ owned (vm_ctx w) t;
  pi_inj : ∀ q1 q2 t, path_ok q1 → path_ok q2 →
    walk (vm_mem w) (root_paddr sp) q1 = Some t →
    walk (vm_mem w) (root_paddr sp) q2 = Some t → q1 = q2;
}.

(** The frames that hold the tables of the space. *)
Definition is_table (m : mem) (t : Z) : Prop :=
  ∃ q, path_ok q ∧ walk m (root_paddr sp) q = Some t.

(** Only the tables (those of the resulting tree) are written. *)
Definition only_tables (m m' : mem) : Prop :=
  ∀ a, (∀ t, is_table m' t → ¬ (p2v t ≤ a < p2v t + 4096)) → m' !! a = m !! a.

(** No large page hangs off the upper three levels. *)
Definition no_huge (m : mem) : Prop :=
  ∀ q t i, path_ok q → (length q ≤ 2)%nat → walk m (root_paddr sp) q = Some t → idx_ok i →
    huge (pt_entry m t i) = false.

(** The entries that name a table are written by [get_or_alloc_next_table]:
    writable, not accessible from user mode, executable. *)
Definition table_links (m : mem) : Prop :=
  ∀ q t i, path_ok q → (length q ≤ 2)%nat → walk m (root_paddr sp) q = Some t → idx_ok i →
    present (pt_entry m t i) = true → ∃ n, pt_entry m t i = table_entry n.

(** What every operation of the module keeps: the tree only grows, and nothing
    but the tables is written. *)
Record pt_grows (w w' : vm C) : Prop := {
  pg_inv : pt_inv w';
  pg_walk : ∀ q t, path_ok q → walk (vm_mem w) (root_paddr sp) q = Some t →
    walk (vm_mem w') (root_paddr sp) q = Some t;
  pg_mem : only_tables (vm_mem w) (vm_mem w');
  pg_owned : ∀ t, owned (vm_ctx w) t → owned (vm_ctx w') t;
  pg_huge : no_huge (vm_mem w) → no_huge (vm_mem w');
  pg_links : table_links (vm_mem w) → table_links (vm_mem w');
}.

(** ... and, where no mapping changes, every leaf and the processor state. *)
Record pt_same (w w' : vm C) : Prop := {
  ps_grows : pt_grows w w';
  ps_leaf : ∀ q i, length q = 3%nat → path_ok q → idx_ok i →
    leaf (vm_mem w') q i = leaf (vm_mem w) q i;
  ps_cpu : vm_cpu w' = vm_cpu w;
}.

Lemma pt_grows_refl w : pt_inv w → pt_grows w w.
Proof. by split. Qed.

Lemma pt_same_refl w : pt_inv w → pt_same w w.
Proof. split; [by apply pt_grows_refl|done|done]. Qed.

Lemma pt_grows_trans w1 w2 w3 : pt_grows w1 w2 → pt_grows w2 w3 → pt_grows w1 w3.
Proof.
  intros [? W1 M1 O1 N1 L1] [I3 W2 M2 O2 N2 L2]. split; [done|eauto| |eauto|auto..].
  intros a Ha. rewrite (M2 a), (M1 a); [done| |done].
  intros t (q & Hq & Ht). apply Ha. exists q. eauto.
Qed.

Lemma pt_same_trans w1 w2 w3 : pt_same w1 w2 → pt_same w2 w3 → pt_same w1 w3.
Proof.
  intros [G1 L1 C1] [G2 L2 C2]. split; [by eapply pt_grows_trans| |congruence].
  intros q i ???. by rewrite L2, L1.
Qed.

(** *** Reading entries *)
Lemma table_from_phys_Ret (w : vm C) t :
  fs_inv (vm_ctx w) → frame_ok t → table_from_phys (Some sp) w t = Ret (p2v t).
Proof.
  intros Hc Ht. unfold table_from_phys.
  destruct phys_to_virt_law as (f & -> & Hf). rewrite aligned_4k.
  destruct (frame_range t Ht) as [_ ->]. simpl. by apply Hf.
Qed.

Section inv.
Context (w : vm C) (HI : pt_inv w).

Lemma get_entry_Ret t i :
  frame_ok t → idx_ok i →
  get_entry (vm_mem w) (p2v t) i = Ret (pt_entry (vm_mem w) t i) ∧
  in64 (pt_entry (vm_mem w) t i).
Proof.
  intros Ht Hi. unfold pt_entry, get_entry.
  destruct (load64_Ret (vm_mem w) (p2v t + 8 * i)) as (v & -> & Hv); [apply HI| |done].
  eapply mapped_sub; [by apply HI|unfold idx_ok in *; lia..].
Qed.

Lemma p2v_eqb t : frame_ok t → (p2v t =? 0) = false.
Proof. intros Ht. apply Z.eqb_neq. by apply p2v_nonnull. Qed.

(** The root is a table. *)
Lemma root_ok : frame_ok (root_paddr sp) ∧ owned (vm_ctx w) (root_paddr sp).
Proof. apply (pi_table w HI []); [by split; [|simpl; lia]|done]. Qed.

(** A step of the query and unmap walks. *)
Lemma next_table_spec q t i :
  path_ok q → (length q ≤ 2)%nat → idx_ok i →
  walk (vm_mem w) (root_paddr sp) q = Some t →
  next_table sp w (p2v t) i =
  Ret match walk (vm_mem w) (root_paddr sp) (q ++ [i]) with
      | Some t' => inr (p2v t')
      | None => inl VMM_ERR_NOT_FOUND
      end.
Proof.
  intros Hq Hl Hi Hw. unfold next_table.
  destruct (pi_table w HI q t Hq Hw) as [Ht _].
  destruct (get_entry_Ret t i Ht Hi) as [-> _]. simpl.
  pose proof (walk_snoc (vm_mem w) (root_paddr sp) q i) as Hn. rewrite Hw in Hn.
  rewrite Hn. unfold entry_next in *. fold (huge (pt_entry (vm_mem w) t i)).
  replace (_ =? 0) with (negb (present (pt_entry (vm_mem w) t i)))
    by (unfold present; by rewrite negb_involutive).
  destruct (present _), (huge _); simpl in *; try done.
  destruct (pi_table w HI _ _ (path_ok_snoc q i Hq Hi Hl) Hn) as [Ht' _].
  rewrite table_from_phys_Ret by (done || apply HI). simpl. by rewrite p2v_eqb.
Qed.
End inv.
End tree.
