(* ===== verification/VmmProofs.v ===== *)
(** * The virtual memory manager: operations on the page-table tree

    What writing one entry does to the tree ([link_table] for a new table,
    [leaf_write] for a last-level entry), and the specification of
    [get_or_alloc_next_table] and of the three walks built on it. *)

From S2P Require Import Prelude Mem Vmm VmmInterface.

Lemma zero_loop m0 page :
  mapped m0 page 4096 → ∀ fuel m i,
  0 ≤ i ≤ 512 → (Z.to_nat (512 - i) < fuel)%nat → wrote page 4096 m0 m →
  (∀ j, 0 ≤ j < i → load64 m (page + 8 * j) = Ret 0) →
  ∃ m', loop fuel (zero_step page) (m, i) = Ret m' ∧ wrote page 4096 m0 m' ∧
    ∀ j, 0 ≤ j < 512 → load64 m' (page + 8 * j) = Ret 0.
Proof.
  intros Hm fuel m i Hi Hf HW HZ.
  apply (loop_rule (zero_step page)
    (λ s, 0 ≤ s.2 ≤ 512 ∧ wrote page 4096 m0 s.1 ∧
          ∀ j, 0 ≤ j < s.2 → load64 s.1 (page + 8 * j) = Ret 0)
    (λ m', wrote page 4096 m0 m' ∧ ∀ j, 0 ≤ j < 512 → load64 m' (page + 8 * j) = Ret 0)
    (λ s, Z.to_nat (512 - s.2))); [|simpl; auto|done].
  clear m i Hi Hf HW HZ. intros [m i] (Hi & HW & HZ). simpl in *.
  unfold VMM_ENTRIES_PER_TABLE. destruct (Z.ltb_spec i 512); simpl.
  - unfold set_entry. destruct (store64_wrote m (page + 8 * i) 0) as (m' & -> & W' & L').
    { apply HW. eapply mapped_sub; [done|lia..]. } { done. }
    simpl. eexists. split; [done|]. simpl. split; [split_and!|lia]; [lia..| |].
    + eapply wrote_trans; [done|]. eapply wrote_weaken; [done|lia..].
    + intros j Hj. destruct (Z.eq_dec j i) as [->|]; [done|].
      rewrite (load64_outside _ _ _ _ _ W') by lia. apply HZ. lia.
  - eexists. split; [done|]. split; [done|]. intros j Hj. apply HZ. lia.
Qed.

Lemma vmm_zero_page_spec m page :
  mapped m page 4096 →
  ∃ m', vmm_zero_page m page = Ret m' ∧ wrote page 4096 m m' ∧
    ∀ j, 0 ≤ j < 512 → load64 m' (page + 8 * j) = Ret 0.
Proof.
  intros Hm. apply zero_loop; [done|lia|lia|apply wrote_refl|lia].
Qed.

Section ops.
Context {C : Type} {sp : vmm_space C} `{FS : !FrameSource sp}.

Lemma wrote_frames a n m m' :
  wrote a n m m' → frames_mapped frame_ok p2v m → frames_mapped frame_ok p2v m'.
Proof. intros W Hm p Hp. by apply W, Hm. Qed.

(** ** Entries after a write *)
Lemma pt_entry_set m m' t i v :
  wrote (p2v t + 8 * i) 8 m m' → load64 m' (p2v t + 8 * i) = Ret v → pt_entry m' t i = v.
Proof. intros _ HL. unfold pt_entry, get_entry. by rewrite HL. Qed.

Lemma pt_entry_other m m' t i t' j :
  wrote (p2v t + 8 * i) 8 m m' → frame_ok t → frame_ok t' → idx_ok i → idx_ok j →
  (t', j) ≠ (t, i) → pt_entry m' t' j = pt_entry m t' j.
Proof.
  intros W Ht Ht' Hi Hj Hne. unfold pt_entry, get_entry, idx_ok in *.
  rewrite (load64_outside _ _ _ _ _ W); [done|].
  destruct (Z.eq_dec t t') as [->|Hn].
  - assert (i ≠ j) by congruence. lia.
  - destruct (p2v_disjoint t t' Ht Ht' Hn); lia.
Qed.

Lemma pt_entry_window m m' n t j :
  wrote (p2v n) 4096 m m' → frame_ok n → frame_ok t → n ≠ t → idx_ok j →
  pt_entry m' t j = pt_entry m t j.
Proof.
  intros W Hn Ht Hne Hj. unfold pt_entry, get_entry, idx_ok in *.
  rewrite (load64_outside _ _ _ _ _ W); [done|].
  destruct (p2v_disjoint n t Hn Ht Hne); lia.
Qed.

(** ** Linking a new table below [q] at index [i] *)
Section link.
Context (w w' : vm C) (HI : pt_inv w) (q : list Z) (t i n : Z).
Context (Hq : path_ok q) (Hlen : (length q ≤ 2)%nat) (Hi : idx_ok i).
Context (Hwalk : walk (vm_mem w) (root_paddr sp) q = Some t).
Context (Habs : present (pt_entry (vm_mem w) t i) = false).
Context (Hn : frame_ok n) (Hfresh : ¬ owned (vm_ctx w) n).
Context (Hother : ∀ t' j, frame_ok t' → owned (vm_ctx w) t' → idx_ok j → (t', j) ≠ (t, i) →
           pt_entry (vm_mem w') t' j = pt_entry (vm_mem w) t' j).
Context (Hentry : pt_entry (vm_mem w') t i = table_entry n).
Context (Hzero : ∀ j, idx_ok j → pt_entry (vm_mem w') n j = 0).

Abbreviation root := (root_paddr sp).

Lemma link_next : entry_next (pt_entry (vm_mem w') t i) = Some n.
Proof using All. destruct (frame_range n Hn). by rewrite Hentry, table_entry_next. Qed.

Lemma link_old_walk : walk (vm_mem w) root (q ++ [i]) = None.
Proof using All.
  rewrite walk_snoc, Hwalk. by apply entry_next_absent.
Qed.

Lemma link_walk q' : path_ok q' →
  walk (vm_mem w') root q' =
  if decide (q' = q ++ [i]) then Some n else walk (vm_mem w) root q'.
Proof using All.
  induction q' as [|j q' IH] using rev_ind; intros Hp.
  { case_decide as Hd; [by destruct q|done]. }
  apply path_ok_snoc_inv in Hp as (Hp & Hj & Hl). rewrite !walk_snoc, (IH Hp).
  case_decide as Hd.
  - subst q'. rewrite Hzero, entry_next_absent by done.
    rewrite decide_False; [by rewrite link_old_walk|].
    intros [Hqq _]%app_inj_tail. apply (f_equal length) in Hqq.
    rewrite length_app in Hqq. simpl in Hqq. lia.
  - destruct (walk (vm_mem w) root q') as [t'|] eqn:E.
    + destruct (pi_table w HI q' t' Hp E) as [Hok Hown].
      destruct (decide ((t', j) = (t, i))) as [[= -> ->]|Hne].
      * rewrite (pi_inj w HI q' q t Hp Hq E Hwalk), decide_True by done. apply link_next.
      * rewrite Hother by done. rewrite decide_False; [done|].
        intros [-> ->]%app_inj_tail. congruence.
    + rewrite decide_False; [done|]. intros [-> _]%app_inj_tail. congruence.
Qed.

Lemma link_leaf q' j :
  length q' = 3%nat → path_ok q' → idx_ok j → leaf (vm_mem w') q' j = leaf (vm_mem w) q' j.
Proof using All.
  intros H3 Hp Hj. unfold leaf. rewrite link_walk by done. case_decide as Hd.
  - by rewrite Hd, link_old_walk, Hzero.
  - destruct (walk (vm_mem w) root q') as [t'|] eqn:E; [|done].
    destruct (pi_table w HI q' t' Hp E) as [Hok Hown]. rewrite Hother; [done..|].
    intros [= -> ->]. rewrite (pi_inj w HI q' q t Hp Hq E Hwalk) in H3. lia.
Qed.

Lemma link_huge : no_huge (sp := sp) (vm_mem w) → no_huge (sp := sp) (vm_mem w').
Proof using All.
  intros HN q' t' j Hp Hl. rewrite link_walk by done. case_decide as Hd.
  - intros [= <-] Hj. by rewrite Hzero.
  - intros E Hj. destruct (pi_table w HI q' t' Hp E) as [Hok Hown].
    destruct (decide ((t', j) = (t, i))) as [[= -> ->]|Hne]; [|rewrite Hother by done; eauto].
    pose proof link_next as Hlink. unfold entry_next in Hlink.
    destruct (huge _); [by rewrite andb_false_r in Hlink|done].
Qed.

Lemma link_links : table_links (sp := sp) (vm_mem w) → table_links (sp := sp) (vm_mem w').
Proof using All.
  intros HN q' t' j Hp Hl. rewrite link_walk by done. case_decide as Hd.
  - intros [= <-] Hj. by rewrite Hzero.
  - intros E Hj. destruct (pi_table w HI q' t' Hp E) as [Hok Hown].
    destruct (decide ((t', j) = (t, i))) as [[= -> ->]|Hne]; [by exists n|].
    rewrite Hother by done. eauto.
Qed.

Context (Hctx : fs_inv (vm_ctx w')) (Hmem : mem_ok (vm_mem w')).
Context (Hmap : frames_mapped frame_ok p2v (vm_mem w')).
Context (Hown : ∀ p, owned (vm_ctx w') p ↔ p = n ∨ owned (vm_ctx w) p).

Lemma link_inv : pt_inv w'.
Proof using All.
  split; [done..| |].
  - intros q' t' Hp. rewrite link_walk, Hown by done.
    case_decide; [intros [= <-]; tauto|]. intros E.
    destruct (pi_table w HI q' t' Hp E); tauto.
  - intros q1 q2 t' Hp1 Hp2. rewrite !link_walk by done.
    case_decide; case_decide; intros E1 E2; [congruence| | |by eapply (pi_inj w HI)].
    + destruct (pi_table w HI q2 t' Hp2 E2). congruence.
    + destruct (pi_table w HI q1 t' Hp1 E1). congruence.
Qed.

Lemma link_same :
  (∀ a, ¬ (p2v t ≤ a < p2v t + 4096) → ¬ (p2v n ≤ a < p2v n + 4096) →
     vm_mem w' !! a = vm_mem w !! a) →
  vm_cpu w' = vm_cpu w → pt_same w w'.
Proof using All.
  intros Hframe Hcpu. split; [|apply link_leaf|done].
  assert (Hmono : ∀ q' t', path_ok q' → walk (vm_mem w) root q' = Some t' →
                   walk (vm_mem w') root q' = Some t').
  { intros q' t' Hp E. rewrite link_walk by done. case_decide as Hd; [|done].
    by rewrite Hd, link_old_walk in E. }
  split; [apply link_inv|done| |intros p Hp; apply Hown; tauto|apply link_huge|apply link_links].
  intros a Ha. apply Hframe; apply Ha.
  - exists q. auto.
  - exists (q ++ [i]). split; [by apply path_ok_snoc|].
    by rewrite link_walk, decide_True by auto using path_ok_snoc.
Qed.
End link.

(** ** Writing a last-level entry *)
Section write.
Context (w w' : vm C) (HI : pt_inv w) (q : list Z) (t i v : Z).
Context (Hq : path_ok q) (Hlen : length q = 3%nat) (Hi : idx_ok i).
Context (Hwalk : walk (vm_mem w) (root_paddr sp) q = Some t).
Context (Hctx : vm_ctx w' = vm_ctx w).
Context (Hw : wrote (p2v t + 8 * i) 8 (vm_mem w) (vm_mem w')).
Context (Hv : load64 (vm_mem w') (p2v t + 8 * i) = Ret v).

Lemma write_table : frame_ok t.
Proof using All. by apply (pi_table w HI q). Qed.

(** The entries of the upper levels stay. *)
Lemma write_upper q' t' j :
  path_ok q' → (length q' ≤ 2)%nat → walk (vm_mem w) (root_paddr sp) q' = Some t' → idx_ok j →
  pt_entry (vm_mem w') t' j = pt_entry (vm_mem w) t' j.
Proof using All.
  intros Hp Hl E Hj. destruct (pi_table w HI q' t' Hp E) as [Hok _].
  apply (pt_entry_other _ _ _ _ t' j Hw); [apply write_table|done..|].
  intros [= -> _]. rewrite (pi_inj w HI q' q t Hp Hq E Hwalk) in Hl. lia.
Qed.

Lemma write_walk q' : path_ok q' →
  walk (vm_mem w') (root_paddr sp) q' = walk (vm_mem w) (root_paddr sp) q'.
Proof using All.
  induction q' as [|j q' IH] using rev_ind; intros Hp; [done|].
  apply path_ok_snoc_inv in Hp as (Hp & Hj & Hl). rewrite !walk_snoc, (IH Hp).
  destruct (walk (vm_mem w) (root_paddr sp) q') as [t'|] eqn:E; [|done].
  by rewrite (write_upper q' t' j).
Qed.

Lemma write_leaf q' j :
  length q' = 3%nat → path_ok q' → idx_ok j →
  leaf (vm_mem w') q' j =
  if decide (q' = q ∧ j = i) then (if present v then Some v else None)
  else leaf (vm_mem w) q' j.
Proof using All.
  intros H3 Hp Hj. unfold leaf. rewrite write_walk by done. case_decide as Hd.
  - destruct Hd as [-> ->]. rewrite Hwalk. by rewrite (pt_entry_set _ _ _ _ _ Hw Hv).
  - destruct (walk (vm_mem w) (root_paddr sp) q') as [t'|] eqn:E; [|done].
    destruct (pi_table w HI q' t' Hp E) as [Hok _].
    rewrite (pt_entry_other _ _ _ _ t' j Hw); [done|apply write_table|done..|].
    intros [= -> ->]. apply Hd. split; [by apply (pi_inj w HI q' q t)|done].
Qed.

Lemma write_grows : pt_grows w w'.
Proof using All.
  split.
  - split.
    + rewrite Hctx. apply HI.
    + apply Hw, HI.
    + eapply wrote_frames; [done|apply HI].
    + intros q' t' Hp. rewrite write_walk, Hctx by done. by apply (pi_table w HI).
    + intros q1 q2 t' Hp1 Hp2. rewrite !write_walk by done. by apply (pi_inj w HI).
  - intros q' t' Hp E. by rewrite write_walk.
  - intros a Ha. apply Hw. intros ?. eapply (Ha t); [exists q; by rewrite write_walk|].
    unfold idx_ok in Hi. lia.
  - by rewrite Hctx.
  - intros HN q' t' j Hp Hl E Hj. rewrite write_walk in E by done.
    rewrite (write_upper q' t' j) by done. by eapply HN.
  - intros HN q' t' j Hp Hl E Hj. rewrite write_walk in E by done.
    rewrite (write_upper q' t' j) by done. by eapply HN.
Qed.
End write.

(** ** [get_or_alloc_next_table] *)

(** The frames a further level costs. *)
Definition next_cost (w : vm C) (t i : Z) : nat :=
  if present (pt_entry (vm_mem w) t i) then 0 else 1.

(** The result codes are decided by the entry and by the frames left. *)
Definition next_rc (w : vm C) (t i : Z) : Z :=
  if present (pt_entry (vm_mem w) t i) then
    if huge (pt_entry (vm_mem w) t i) then VMM_ERR_EXISTS else VMM_MAP_OK
  else if decide (avail (vm_ctx w) = 0%nat) then VMM_ERR_NOMEM else VMM_MAP_OK.

(** The two writes that put a fresh frame into service. *)
Lemma zero_link_spec (w : vm C) t i n m1 :
  pt_inv w → frame_ok t → frame_ok n → n ≠ t → idx_ok i →
  wrote (p2v n) 4096 (vm_mem w) m1 →
  ∃ m2 m3, vmm_zero_page m1 (p2v n) = Ret m2 ∧
    set_entry m2 (p2v t) i (table_entry n) = Ret m3 ∧
    mem_ok m3 ∧ frames_mapped frame_ok p2v m3 ∧
    (∀ t' j, frame_ok t' → t' ≠ n → idx_ok j → (t', j) ≠ (t, i) →
       pt_entry m3 t' j = pt_entry (vm_mem w) t' j) ∧
    pt_entry m3 t i = table_entry n ∧
    (∀ j, idx_ok j → pt_entry m3 n j = 0) ∧
    (∀ a, ¬ (p2v t ≤ a < p2v t + 4096) → ¬ (p2v n ≤ a < p2v n + 4096) →
       m3 !! a = vm_mem w !! a).
Proof.
  intros HI Ht Hn Hnt Hi W1.
  assert (M1 : frames_mapped frame_ok p2v m1) by (eapply wrote_frames; [done|apply HI]).
  destruct (vmm_zero_page_spec m1 (p2v n)) as (m2 & H2 & W2 & Z2); [by apply M1|].
  assert (M2 : frames_mapped frame_ok p2v m2) by (eapply wrote_frames; done).
  destruct (store64_wrote m2 (p2v t + 8 * i) (table_entry n)) as (m3 & H3 & W3 & L3).
  { eapply mapped_sub; [exact (M2 t Ht)|unfold idx_ok in Hi; lia..]. }
  { rewrite table_entry_pte. apply pte_of_in64. }
  assert (W12 : wrote (p2v n) 4096 (vm_mem w) m2) by (eapply wrote_trans; done).
  exists m2, m3. split_and!; [done|done| | | | | |].
  - apply W3, W12, HI.
  - by eapply wrote_frames.
  - intros t' j Ht' Hne Hj Hp. rewrite (pt_entry_other m2 m3 t i) by done.
    by apply (pt_entry_window _ _ n).
  - by eapply pt_entry_set.
  - intros j Hj. rewrite (pt_entry_other m2 m3 t i) by (done || congruence).
    unfold pt_entry, get_entry. by rewrite Z2.
  - intros a Ha1 Ha2. rewrite (wrote_outside _ _ _ _ W3), (wrote_outside _ _ _ _ W12);
      unfold idx_ok in Hi; done || lia.
Qed.

Lemma alloc_table_spec w q t i out :
  pt_inv w → path_ok q → (length q ≤ 2)%nat → idx_ok i →
  walk (vm_mem w) (root_paddr sp) q = Some t →
  present (pt_entry (vm_mem w) t i) = false →
  ∃ out' w', get_or_alloc_next_table sp w (p2v t) i out = Ret (next_rc w t i, out', w') ∧
    pt_same w w' ∧ (avail (vm_ctx w') ≤ avail (vm_ctx w) ≤ 1 + avail (vm_ctx w'))%nat ∧
    (next_rc w t i = VMM_MAP_OK →
       (avail (vm_ctx w) = 1 + avail (vm_ctx w'))%nat ∧
       ∃ n, out' = p2v n ∧ walk (vm_mem w') (root_paddr sp) (q ++ [i]) = Some n ∧
         ∀ j, idx_ok j → pt_entry (vm_mem w') n j = 0).
Proof.
  intros HI Hq Hl Hi Hwalk Habs. unfold get_or_alloc_next_table, next_rc. rewrite Habs.
  destruct (pi_table w HI q t Hq Hwalk) as [Ht Hto].
  destruct (get_entry_Ret w HI t i Ht Hi) as [-> _]. simpl.
  fold (present (pt_entry (vm_mem w) t i)). rewrite Habs.
  destruct alloc_frame_law as (f & -> & Hf).
  destruct (Hf (vm_ctx w) (vm_mem w)) as (n & c1 & m1 & -> & Hc1 & Hcase); [apply HI..|].
  simpl. destruct Hcase as [(Ha & -> & -> & Ha' & Ho)|(Ha & Hn & Hfr & W1 & Ho)].
  - rewrite decide_True by done. simpl. do 2 eexists. split; [done|].
    split; [|split; [simpl; lia|done]].
    split; [|done|done]. split; [|done|done|simpl; intros; by apply Ho|done..].
    destruct HI. split; simpl; [done..| |done].
    intros q' t' Hp E. rewrite Ho. eauto.
  - rewrite decide_False by lia. destruct (frame_range n Hn) as [Hr Hal].
    destruct (Z.eqb_spec n VMM_INVALID_PHYS) as [->|_]; [unfold VMM_INVALID_PHYS, UINT64_MAX in *; lia|].
    rewrite aligned_4k, Hal. simpl. rewrite table_from_phys_Ret by done. simpl.
    rewrite p2v_eqb by done.
    assert (Hnt : n ≠ t) by (by intros ->).
    destruct (zero_link_spec w t i n m1) as (m2 & m3 & -> & H3 & Hok & Hm & He & Hl3 & Hz & Hfr3);
      [done..|]. simpl. unfold table_entry in H3. rewrite H3. simpl.
    assert (Ho' : ∀ t' j, frame_ok t' → owned (vm_ctx w) t' → idx_ok j → (t', j) ≠ (t, i) →
              pt_entry m3 t' j = pt_entry (vm_mem w) t' j).
    { intros. apply He; [done| |done..]. by intros ->. }
    assert (HS : pt_same w (mk_vm c1 m3 (vm_cpu w))) by (by eapply (link_same w _ HI q t i n)).
    do 2 eexists. split; [done|]. split; [done|]. split; [simpl; lia|].
    intros _. split; [simpl; lia|].
    exists n. split_and!; [done| |done].
    pose proof (pg_walk _ _ (ps_grows _ _ HS) q t Hq Hwalk) as HW. simpl in *.
    by rewrite walk_snoc, HW, Hl3, table_entry_next.
Qed.

Lemma next_table_ok w q t i out :
  pt_inv w → path_ok q → (length q ≤ 2)%nat → idx_ok i →
  walk (vm_mem w) (root_paddr sp) q = Some t →
  ∃ out' w', get_or_alloc_next_table sp w (p2v t) i out = Ret (next_rc w t i, out', w') ∧
    pt_same w w' ∧
    (avail (vm_ctx w') ≤ avail (vm_ctx w) ≤ 1 + avail (vm_ctx w'))%nat ∧
    (present (pt_entry (vm_mem w) t i) = true → w' = w) ∧
    (next_rc w t i = VMM_MAP_OK →
       (avail (vm_ctx w) = next_cost w t i + avail (vm_ctx w'))%nat ∧
       ∃ n, out' = p2v n ∧ walk (vm_mem w') (root_paddr sp) (q ++ [i]) = Some n ∧
         (present (pt_entry (vm_mem w) t i) = false →
            ∀ j, idx_ok j → pt_entry (vm_mem w') n j = 0)).
Proof.
  intros HI Hq Hl Hi Hwalk. unfold next_cost.
  destruct (present (pt_entry (vm_mem w) t i)) eqn:Hp.
  - unfold get_or_alloc_next_table, next_rc.
    destruct (pi_table w HI q t Hq Hwalk) as [Ht Hto].
    destruct (get_entry_Ret w HI t i Ht Hi) as [-> _]. simpl.
    fold (present (pt_entry (vm_mem w) t i)). fold (huge (pt_entry (vm_mem w) t i)). rewrite Hp.
    destruct (huge (pt_entry (vm_mem w) t i)) eqn:Hh.
    + do 2 eexists. split; [done|]. by split; [apply pt_same_refl|split; [lia|]].
    + pose proof (walk_snoc (vm_mem w) (root_paddr sp) q i) as Hn.
      rewrite Hwalk in Hn. unfold entry_next in Hn. rewrite Hp, Hh in Hn. simpl in Hn.
      destruct (pi_table w HI _ _ (path_ok_snoc q i Hq Hi Hl) Hn) as [Hok _].
      rewrite table_from_phys_Ret by (done || apply HI). simpl. rewrite p2v_eqb by done.
      do 2 eexists. split; [done|]. split; [by apply pt_same_refl|].
      split; [lia|]. split; [done|]. intros _.
      split; [lia|]. by eexists.
  - destruct (alloc_table_spec w q t i out) as (o & w' & HE & HS & HA' & HR); [done..|].
    exists o, w'. split_and!; [done|done|lia|lia|done|]. intros HO. destruct (HR HO) as (HA & n & H1 & H2 & H3).
    split; [done|]. exists n. auto.
Qed.

(** ** The descent of [vmm_map_page], level by level *)
Fixpoint descend (w : vm C) (table : Z) (q : list Z) : outcome (Z * Z * vm C) :=
  match q with
  | [] => Ret (VMM_MAP_OK, table, w)
  | i :: q =>
      ' (rc, next, w) ← get_or_alloc_next_table sp w table i 0;
      if negb (rc =? VMM_MAP_OK) then Ret (rc, next, w) else descend w next q
  end.

(** Its return code: [VMM_ERR_EXISTS] when a huge page is in the way, and
    [VMM_ERR_NOMEM] when the frames left do not cover the missing tables. *)
Fixpoint descend_rc (m : mem) (t : Z) (q : list Z) (a : nat) : Z :=
  match q with
  | [] => VMM_MAP_OK
  | i :: q' =>
      let e := pt_entry m t i in
      if present e then
        if huge e then VMM_ERR_EXISTS
        else descend_rc m (Z.land e VMM_PTE_ADDR_MASK) q' a
      else if decide (a < length q)%nat then VMM_ERR_NOMEM else VMM_MAP_OK
  end.

Lemma descend_rc_zero m n q a :
  Forall idx_ok q → (∀ j, idx_ok j → pt_entry m n j = 0) →
  descend_rc m n q a = if decide (a < length q)%nat then VMM_ERR_NOMEM else VMM_MAP_OK.
Proof.
  intros HF HZ. destruct HF as [|j q Hj _]; simpl; [done|]. by rewrite HZ.
Qed.

Lemma descend_spec q2 : ∀ q1 w t,
  pt_inv w → path_ok (q1 ++ q2) → walk (vm_mem w) (root_paddr sp) q1 = Some t →
  ∃ out w', descend w (p2v t) q2 = Ret (descend_rc (vm_mem w) t q2 (avail (vm_ctx w)), out, w') ∧
    pt_same w w' ∧ (avail (vm_ctx w') ≤ avail (vm_ctx w) ≤ length q2 + avail (vm_ctx w'))%nat ∧
    (walk (vm_mem w) (root_paddr sp) (q1 ++ q2) ≠ None → w' = w) ∧
    (descend_rc (vm_mem w) t q2 (avail (vm_ctx w)) = VMM_MAP_OK →
       ∃ n, out = p2v n ∧ walk (vm_mem w') (root_paddr sp) (q1 ++ q2) = Some n).
Proof.
  induction q2 as [|i q2 IH]; intros q1 w t HI Hp Hw.
  { simpl. do 2 eexists. split; [done|]. split; [by apply pt_same_refl|]. split; [lia|]. split; [done|]. intros _.
    exists t. by rewrite app_nil_r. }
  replace (q1 ++ i :: q2) with ((q1 ++ [i]) ++ q2) in * by (by rewrite <- app_assoc).
  assert (Hp1 : path_ok (q1 ++ [i]) ∧ Forall idx_ok q2).
  { destruct Hp as [HF HL]. rewrite Forall_app in HF. rewrite length_app in HL.
    split; [split; [tauto|lia]|tauto]. }
  destruct Hp1 as [Hp1 Hq2]. apply path_ok_snoc_inv in Hp1 as (Hq1 & Hi & Hl).
  destruct (next_table_ok w q1 t i 0) as (o1 & w1 & E1 & S1 & A1 & P1 & R1); [done..|].
  simpl. rewrite E1. simpl. unfold next_rc, next_cost in *.
  destruct (present (pt_entry (vm_mem w) t i)) eqn:Hpr; [|].
  - destruct (huge (pt_entry (vm_mem w) t i)) eqn:Hh; simpl; [by exists o1, w1; split_and!; [done|done|lia|lia|auto|]|].
    destruct R1 as (_ & n & -> & Hn & _); [done|]. rewrite P1 in * by done.
    replace (Z.land _ _) with n.
    { destruct (IH (q1 ++ [i]) w n) as (o2 & w2 & E2 & S2 & A2 & P2 & R2); [done..|].
      exists o2, w2. split_and!; [done|done|lia|lia|done|done]. }
    rewrite walk_snoc, Hw in Hn. unfold entry_next in Hn. rewrite Hpr, Hh in Hn.
    simpl in Hn. congruence.
  - assert (HN : walk (vm_mem w) (root_paddr sp) ((q1 ++ [i]) ++ q2) = None).
    { apply walk_app_None. by rewrite walk_snoc, Hw, entry_next_absent. }
    destruct (decide (avail (vm_ctx w) = 0%nat)) as [Ha|Ha]; simpl.
    { rewrite decide_True by lia. exists o1, w1. by split_and!; [done|done|lia|lia| |]. }
    destruct R1 as (Hav & n & -> & Hn & Hz); [done|].
    destruct (IH (q1 ++ [i]) w1 n) as (o2 & w2 & E2 & S2 & A2 & P2 & R2); [apply S1|done|done|].
    rewrite E2. rewrite descend_rc_zero in * by auto.
    do 2 eexists. split; [|split; [by eapply pt_same_trans|split; [lia|split; [done|]]]].
    + do 3 f_equal. destruct (decide _), (decide _); done || lia.
    + intros Hrc. apply R2. destruct (decide (_ < S _)%nat), (decide (_ < length _)%nat); done || lia.
Qed.
End ops.
