(* ===== verification/VmmSpecs.v ===== *)
(** * The virtual memory manager: specifications of the operations

    A space is a partial map from pages to last-level entries ([lookup_pte]);
    mapping, unmapping and querying a page are insertion, deletion and lookup
    in that map, with every return code determined by the tree and by the
    frames left. *)

From S2P Require Import Prelude Mem Vmm VmmInterface VmmProofs.

(** ** From addresses to paths *)
Definition va_path (va : Z) : list Z := [idx_pml4 va; idx_pdpt va; idx_pd va].

(** The addresses the operations accept. *)
Definition page_ok (va : Z) : Prop :=
  in64 va ∧ vmm_is_canonical va = true ∧ vmm_is_aligned_4k va = true.

Lemma idx_mod va k : in64 va → 0 ≤ k →
  u32 (Z.land (Z.shiftr va k) 0x1FF) = (va / 2 ^ k) mod 512.
Proof.
  intros Hv Hk. change 0x1FF with (Z.ones 9). rewrite Z.land_ones, Z.shiftr_div_pow2 by lia.
  change (2 ^ 9) with 512. unfold u32. apply Z.mod_small.
  pose proof (Z.mod_pos_bound (va / 2 ^ k) 512). lia.
Qed.

Lemma idx_range va k : idx_ok (u32 (Z.land (Z.shiftr va k) 0x1FF)).
Proof.
  change 0x1FF with (Z.ones 9). rewrite Z.land_ones by lia. unfold u32, idx_ok.
  change (2 ^ 9) with 512. change (2 ^ 32) with 4294967296.
  pose proof (Z.mod_pos_bound (Z.shiftr va k) 512). rewrite Z.mod_small; lia.
Qed.

Lemma va_path_ok va : path_ok (va_path va).
Proof. split; [repeat constructor; apply idx_range|done]. Qed.

Lemma idx_pt_ok va : idx_ok (idx_pt va).
Proof. apply idx_range. Qed.

Lemma page_ok_inv va : page_ok va ↔
  in64 va ∧ va mod 4096 = 0 ∧ (va / 2 ^ 47 = 0 ∨ va / 2 ^ 47 = 2 ^ 17 - 1).
Proof.
  unfold page_ok, vmm_is_canonical. rewrite aligned_4k, Z.eqb_eq. apply and_iff_under. intros H64.
  rewrite (and_comm (_ = true)). apply and_iff_under. intros _.
  assert (0 ≤ va / 2 ^ 47 < 2 ^ 17) as Hx.
  { unfold in64 in H64. split; [apply Z.div_pos; lia|apply Z.div_lt_upper_bound; lia]. }
  change 1 with (Z.ones 1) at 1. rewrite Z.land_ones, !Z.shiftr_div_pow2 by lia.
  replace (va / 2 ^ 48) with (va / 2 ^ 47 / 2) by (rewrite Z.div_div by lia; done).
  change (2 ^ 1) with 2. revert Hx. generalize (va / 2 ^ 47). intros x Hx.
  destruct (Z.eqb_spec (x mod 2) 0); simpl; rewrite Z.eqb_eq; mlia.
Qed.

(** The four indices determine a page address. *)
Lemma page_inj va va' :
  page_ok va → page_ok va' → va_path va' = va_path va → idx_pt va' = idx_pt va → va' = va.
Proof.
  rewrite !page_ok_inv. unfold va_path, idx_pml4, idx_pdpt, idx_pd, idx_pt.
  intros (H & Ha & Hc) (H' & Ha' & Hc') [= E1 E2 E3] E4.
  rewrite !idx_mod in E1, E2, E3, E4 by (done || lia).
  clear - H H' Ha Ha' Hc Hc' E1 E2 E3 E4. mlia.
Qed.

(** ** The operations on a well-formed space *)
Section specs.
Context {C : Type} {sp : vmm_space C} `{FS : !FrameSource sp}.

(** The last-level entry the hardware walk finds for a page. *)
Definition lookup_pte (w : vm C) (va : Z) : option Z :=
  leaf (sp := sp) (vm_mem w) (va_path va) (idx_pt va).

(** The return code of [vmm_map_page] on accepted arguments. *)
Definition map_rc (w : vm C) (va : Z) : Z :=
  let rc := descend_rc (sp := sp) (vm_mem w) (root_paddr sp) (va_path va) (avail (vm_ctx w)) in
  if negb (rc =? VMM_MAP_OK) then rc
  else match lookup_pte w va with Some _ => VMM_ERR_EXISTS | None => VMM_MAP_OK end.

Lemma page_guard va : page_ok va →
  negb (vmm_is_canonical va) || negb (vmm_is_aligned_4k va) = false.
Proof. intros (_ & -> & ->). done. Qed.

Lemma map_page_descend w va pa fl :
  pt_inv (sp := sp) w → page_ok va → vmm_is_aligned_4k pa = true →
  vmm_map_page (Some sp) w va pa fl =
  (' (rc, pt, w) ← descend (sp := sp) w (p2v (root_paddr sp)) (va_path va);
   if negb (rc =? VMM_MAP_OK) then Ret (rc, w)
   else
     e ← get_entry (vm_mem w) pt (idx_pt va);
     if present e then Ret (VMM_ERR_EXISTS, w)
     else
       m ← set_entry (vm_mem w) pt (idx_pt va) (pte_of pa fl);
       Ret (VMM_MAP_OK, set_mem w m)).
Proof.
  intros HI Hva Hpa. destruct (root_ok w HI) as [Hr _].
  unfold vmm_map_page. rewrite (page_guard va Hva), Hpa. simpl.
  rewrite table_from_phys_Ret by (done || apply HI). simpl. rewrite p2v_eqb by done.
  destruct (get_or_alloc_next_table sp w _ _ _) as [[[rc1 t1] w1]| |]; [|done..]. simpl.
  destruct (Z.eqb_spec rc1 VMM_MAP_OK) as [->|Hn1]; simpl.
  2: { destruct (Z.eqb_spec rc1 VMM_MAP_OK); done. }
  destruct (get_or_alloc_next_table sp w1 _ _ _) as [[[rc2 t2] w2]| |]; [|done..]. simpl.
  destruct (Z.eqb_spec rc2 VMM_MAP_OK) as [->|Hn2]; simpl.
  2: { destruct (Z.eqb_spec rc2 VMM_MAP_OK); done. }
  destruct (get_or_alloc_next_table sp w2 _ _ _) as [[[rc3 t3] w3]| |]; [|done..]. simpl.
  destruct (Z.eqb_spec rc3 VMM_MAP_OK) as [->|Hn3]; simpl; [done|].
  destruct (Z.eqb_spec rc3 VMM_MAP_OK); done.
Qed.

#[local] Arguments descend_rc : simpl never.
#[local] Arguments walk : simpl never.

Lemma vmm_map_page_spec w va pa fl :
  pt_inv (sp := sp) w → page_ok va → vmm_is_aligned_4k pa = true →
  ∃ w', vmm_map_page (Some sp) w va pa fl = Ret (map_rc w va, w') ∧
    pt_grows (sp := sp) w w' ∧ vm_cpu w' = vm_cpu w ∧
    (avail (vm_ctx w') ≤ avail (vm_ctx w) ≤ 3 + avail (vm_ctx w'))%nat ∧
    (lookup_pte w va ≠ None → w' = w) ∧
    ∀ q i, length q = 3%nat → path_ok q → idx_ok i →
      leaf (sp := sp) (vm_mem w') q i =
      if decide (map_rc w va = VMM_MAP_OK ∧ q = va_path va ∧ i = idx_pt va)
      then Some (pte_of pa fl) else leaf (sp := sp) (vm_mem w) q i.
Proof.
  intros HI Hva Hpa. rewrite map_page_descend by done.
  destruct (descend_spec (va_path va) [] w (root_paddr sp)) as (o & w1 & -> & S1 & A1 & P1 & R1);
    [done|apply va_path_ok|done|]. simpl. change (length (va_path va)) with 3%nat in A1.
  assert (Hsame : lookup_pte w va ≠ None → w1 = w).
  { intros HL. apply P1. intros E. apply HL. unfold lookup_pte, leaf. simpl in E. by rewrite E. }
  unfold map_rc. set (rc := descend_rc _ _ _ _) in *.
  destruct (Z.eqb_spec rc VMM_MAP_OK) as [Hrc|Hrc]; simpl.
  2: { exists w1. split_and!; [done|apply S1|apply S1|lia|lia|done|]. intros q i ???.
       rewrite decide_False by tauto. by apply S1. }
  destruct (R1 Hrc) as (n & -> & Hn). simpl in Hn.
  assert (I1 : pt_inv (sp := sp) w1) by apply S1.
  destruct (pi_table w1 I1 _ _ (va_path_ok va) Hn) as [Hok _].
  destruct (get_entry_Ret w1 I1 n (idx_pt va) Hok (idx_pt_ok va)) as [-> _]. simpl.
  assert (HL : lookup_pte w va =
    if present (pt_entry (vm_mem w1) n (idx_pt va)) then Some (pt_entry (vm_mem w1) n (idx_pt va))
    else None).
  { unfold lookup_pte. rewrite <- (ps_leaf _ _ S1) by (done || apply va_path_ok || apply idx_pt_ok).
    unfold leaf. by rewrite Hn. }
  rewrite HL. destruct (present (pt_entry (vm_mem w1) n (idx_pt va))) eqn:Hp.
  { exists w1. split_and!; [done|apply S1|apply S1|lia|lia|intros _; apply Hsame; by rewrite HL|]. intros q i ???.
    rewrite decide_False by (intros []; done). by apply S1. }
  destruct (store64_wrote (vm_mem w1) (p2v n + 8 * idx_pt va) (pte_of pa fl)) as (m2 & H2 & W2 & L2).
  { eapply mapped_sub; [exact (pi_mapped w1 I1 n Hok)|pose proof (idx_pt_ok va); unfold idx_ok in *; lia..]. }
  { apply pte_of_in64. }
  unfold set_entry. rewrite H2. simpl. exists (set_mem w1 m2). split_and!; [done| |apply S1|simpl; lia|simpl; lia|congruence|].
  - eapply pt_grows_trans; [apply S1|].
    by eapply (write_grows w1 (set_mem w1 m2) I1 (va_path va) n (idx_pt va)); eauto using va_path_ok, idx_pt_ok.
  - intros q i H3 Hq Hi.
    rewrite (write_leaf w1 (set_mem w1 m2) I1 (va_path va) n (idx_pt va) (pte_of pa fl)),
      pte_of_present, (ps_leaf _ _ S1) by eauto using va_path_ok, idx_pt_ok.
    destruct (decide _), (decide _); tauto.
Qed.

(** The three levels of [vmm_query_page] and [vmm_unmap_page] together. *)
Lemma walk_levels w va {R} (k : Z → outcome R) (r : Z → outcome R) :
  pt_inv (sp := sp) w →
  (r1 ← next_table sp w (p2v (root_paddr sp)) (idx_pml4 va);
   match r1 with
   | inl rc => r rc
   | inr pdpt =>
       r2 ← next_table sp w pdpt (idx_pdpt va);
       match r2 with
       | inl rc => r rc
       | inr pd =>
           r3 ← next_table sp w pd (idx_pd va);
           match r3 with inl rc => r rc | inr pt => k pt end
       end
   end) =
  match walk (vm_mem w) (root_paddr sp) (va_path va) with
  | Some t => k (p2v t)
  | None => r VMM_ERR_NOT_FOUND
  end.
Proof.
  intros HI. destruct (va_path_ok va) as [HF _].
  unfold va_path in HF. rewrite !Forall_cons in HF. destruct HF as (H1 & H2 & H3 & _).
  set (m := vm_mem w). set (root := root_paddr sp).
  assert (Hs : ∀ q i, match walk m root (q ++ [i]) with None => True
                      | Some _ => walk m root q ≠ None end).
  { intros q i. rewrite walk_snoc. destruct (walk m root q); [by destruct (entry_next _)|done]. }
  pose proof (Hs [idx_pml4 va] (idx_pdpt va)) as Hs1.
  pose proof (Hs [idx_pml4 va; idx_pdpt va] (idx_pd va)) as Hs2. simpl in Hs1, Hs2.
  assert (P1 : path_ok [idx_pml4 va]) by (split; [by rewrite Forall_cons|simpl; lia]).
  assert (P2 : path_ok [idx_pml4 va; idx_pdpt va]) by (split; [by rewrite !Forall_cons|simpl; lia]).
  rewrite (next_table_spec w HI [] (root_paddr sp) _) by (done || (by split; [|simpl; lia]) || (simpl; lia)).
  simpl. fold m root. unfold va_path.
  destruct (walk m root [idx_pml4 va]) as [t1|] eqn:E1; simpl.
  2: { destruct (walk m root [idx_pml4 va; idx_pdpt va]); [done|].
       by destruct (walk m root [idx_pml4 va; idx_pdpt va; idx_pd va]). }
  rewrite (next_table_spec w HI [idx_pml4 va] t1) by (done || (simpl; lia)). simpl. fold m root.
  destruct (walk m root [idx_pml4 va; idx_pdpt va]) as [t2|] eqn:E2; simpl.
  2: { by destruct (walk m root [idx_pml4 va; idx_pdpt va; idx_pd va]). }
  rewrite (next_table_spec w HI [idx_pml4 va; idx_pdpt va] t2) by (done || (simpl; lia)). simpl.
  fold m root. by destruct (walk m root [idx_pml4 va; idx_pdpt va; idx_pd va]).
Qed.

Lemma vmm_query_page_spec w va o :
  pt_inv (sp := sp) w → page_ok va →
  vmm_query_page (Some sp) w va (Some o) =
  Ret match lookup_pte w va with
      | Some e => (VMM_MAP_OK, Some (mk_mapping va (Z.land e VMM_PTE_ADDR_MASK)
                                      (Z.land e (not64 VMM_PTE_ADDR_MASK))))
      | None => (VMM_ERR_NOT_FOUND, Some o)
      end.
Proof.
  intros HI Hva. destruct (root_ok w HI) as [Hr _].
  unfold vmm_query_page. rewrite (page_guard va Hva). simpl.
  rewrite table_from_phys_Ret by (done || apply HI). simpl. rewrite p2v_eqb by done.
  rewrite walk_levels by done. unfold lookup_pte, leaf.
  destruct (walk _ _ _) as [t|] eqn:E; [|done].
  destruct (pi_table w HI _ _ (va_path_ok va) E) as [Hok _].
  destruct (get_entry_Ret w HI t (idx_pt va) Hok (idx_pt_ok va)) as [-> _]. simpl.
  unfold present. by destruct (_ =? 0).
Qed.

Lemma vmm_unmap_page_spec w va :
  pt_inv (sp := sp) w → page_ok va →
  ∃ w', vmm_unmap_page (Some sp) w va =
      Ret (match lookup_pte w va with Some _ => VMM_MAP_OK | None => VMM_ERR_NOT_FOUND end, w') ∧
    pt_grows (sp := sp) w w' ∧ vm_ctx w' = vm_ctx w ∧
    vm_cpu w' = match lookup_pte w va with
                | Some _ => vmm_invalidate_page (vm_cpu w) va
                | None => vm_cpu w
                end ∧
    ∀ q i, length q = 3%nat → path_ok q → idx_ok i →
      leaf (sp := sp) (vm_mem w') q i =
      if decide (q = va_path va ∧ i = idx_pt va) then None else leaf (sp := sp) (vm_mem w) q i.
Proof.
  intros HI Hva. destruct (root_ok w HI) as [Hr _].
  unfold vmm_unmap_page. rewrite (page_guard va Hva). simpl.
  rewrite table_from_phys_Ret by (done || apply HI). simpl. rewrite p2v_eqb by done.
  rewrite walk_levels by done. unfold lookup_pte.
  destruct (leaf (vm_mem w) (va_path va) (idx_pt va)) as [e|] eqn:EL.
  2: { exists w. split_and!; [|by apply pt_grows_refl|done|done|].
       - unfold leaf in EL. destruct (walk _ _ _) as [t|] eqn:E; [|done].
         destruct (pi_table w HI _ _ (va_path_ok va) E) as [Hok _].
         destruct (get_entry_Ret w HI t (idx_pt va) Hok (idx_pt_ok va)) as [-> _]. simpl.
         unfold present in EL. by destruct (_ =? 0).
       - intros q i ???. case_decide as Hd; [|done]. by destruct Hd as [-> ->]. }
  unfold leaf in EL. destruct (walk _ _ _) as [t|] eqn:E; [|done].
  destruct (pi_table w HI _ _ (va_path_ok va) E) as [Hok _].
  destruct (get_entry_Ret w HI t (idx_pt va) Hok (idx_pt_ok va)) as [-> _]. simpl.
  unfold present in EL. destruct (_ =? 0); [done|]. simpl.
  destruct (store64_wrote (vm_mem w) (p2v t + 8 * idx_pt va) 0) as (m2 & H2 & W2 & L2); [|done|].
  { eapply mapped_sub; [exact (pi_mapped w HI t Hok)|pose proof (idx_pt_ok va); unfold idx_ok in *; lia..]. }
  unfold set_entry. rewrite H2. simpl.
  set (w2 := mk_vm (vm_ctx w) m2 (vmm_invalidate_page (vm_cpu w) va)). exists w2.
  split_and!; [done| |done..|].
  - by eapply (write_grows w w2 HI (va_path va) t (idx_pt va)); eauto using va_path_ok, idx_pt_ok.
  - intros q i ???.
    by rewrite (write_leaf w w2 HI (va_path va) t (idx_pt va) 0) by eauto using va_path_ok, idx_pt_ok.
Qed.

(** A zeroed root is the empty address space. *)
Lemma empty_space w :
  fs_inv (vm_ctx w) → mem_ok (vm_mem w) → frames_mapped frame_ok p2v (vm_mem w) →
  frame_ok (root_paddr sp) → owned (vm_ctx w) (root_paddr sp) →
  (∀ i, idx_ok i → pt_entry (vm_mem w) (root_paddr sp) i = 0) →
  pt_inv (sp := sp) w ∧ no_huge (sp := sp) (vm_mem w) ∧
  ∀ q i, length q = 3%nat → path_ok q → leaf (sp := sp) (vm_mem w) q i = None.
Proof.
  intros Hc Hm Hf Hr Ho Hz.
  assert (HW : ∀ q, path_ok q → q ≠ [] → walk (vm_mem w) (root_paddr sp) q = None).
  { intros [|i q] [HF _] Hne; [done|]. apply Forall_cons in HF as [Hi _].
    unfold walk. by rewrite Hz. }
  split; [|split].
  - split; [done..| |].
    + intros q t Hq. destruct (decide (q = [])) as [->|]; [by intros [= <-]|by rewrite HW].
    + intros q1 q2 t Hq1 Hq2.
      destruct (decide (q1 = [])) as [->|]; [|by rewrite HW].
      destruct (decide (q2 = [])) as [->|]; [done|by rewrite (HW q2)].
  - intros q t i Hq _ Hw Hi. destruct (decide (q = [])) as [->|]; [|by rewrite HW in Hw].
    injection Hw as <-. by rewrite Hz.
  - intros q i H3 Hq. unfold leaf. rewrite HW; [done..|]. by intros ->.
Qed.
End specs.
