(* ===== verification/VmmPmm.v ===== *)
(** * The physical memory manager as the frame source of the VMM

    A [vmm_space] whose callbacks are [pmm_alloc_frame] and [pmm_free_frame] on
    a PMM state, with tables reached through a direct map at [hhdm]: the
    [FrameSource] laws follow from the PMM's specification. *)

From S2P Require Import Prelude Mem Pmm PmmProofs PmmTheorems Vmm VmmInterface VmmProofs VmmSpecs.

Definition pmm_alloc_cb : vmm_alloc_frame_fn pmm_state := λ _ c m,
  ' (p, c') ← pmm_alloc_frame (Some c);
  match c' with Some c' => Ret (p, c', m) | None => UB end.

Definition pmm_free_cb : vmm_free_frame_fn pmm_state := λ _ c m p,
  ' (_, c') ← pmm_free_frame (Some c) p;
  match c' with Some c' => Ret (c', m) | None => UB end.

Definition hhdm_phys_to_virt (hhdm : Z) : vmm_phys_to_virt_fn pmm_state := λ _ _ p,
  Ret (p ⊕ hhdm).

Definition pmm_space (hhdm root : Z) : vmm_space pmm_state :=
  mk_space root 0 (Some pmm_alloc_cb) (Some pmm_free_cb) (Some (hhdm_phys_to_virt hhdm)).

(** A machine of [n] frames, direct-mapped at [hhdm]. *)
Record direct_map (n hhdm : Z) : Prop := {
  dm_frames : 0 < n ∧ n * 4096 ≤ 2 ^ 52;
  dm_window : 0 < hhdm ∧ hhdm + n * 4096 ≤ 2 ^ 64;
}.

Section instance.
Context (n hhdm root : Z) (HD : direct_map n hhdm).

Definition pmm_frame_ok (p : Z) : Prop := 0 ≤ p < n * 4096 ∧ p mod 4096 = 0.
Definition pmm_fs_inv (c : pmm_state) : Prop := pmm_ready c ∧ frame_count c = n.
Definition pmm_owned (c : pmm_state) (p : Z) : Prop :=
  p mod 4096 = 0 ∧ p / 4096 ∉ free_of c.

Lemma pmm_alloc_law c m :
  pmm_fs_inv c →
  ∃ p c' m', pmm_alloc_cb 0 c m = Ret (p, c', m') ∧ pmm_fs_inv c' ∧
    ((size (free_of c) = 0%nat ∧ p = VMM_INVALID_PHYS ∧ m' = m ∧ size (free_of c') = 0%nat ∧
        ∀ q, pmm_owned c' q ↔ pmm_owned c q) ∨
     (size (free_of c) = S (size (free_of c')) ∧ pmm_frame_ok p ∧ ¬ pmm_owned c p ∧
        wrote (p + hhdm) 4096 m m' ∧ ∀ q, pmm_owned c' q ↔ q = p ∨ pmm_owned c q)).
Proof.
  intros [[[bm Hinv] Hi Hz] Hn]. unfold pmm_alloc_cb.
  pose proof (pmm_alloc_frame_spec c bm Hinv Hi) as Hspec.
  destruct (decide (free_of c = ∅)) as [He|He].
  - rewrite Hspec. simpl. do 3 eexists. split; [done|]. split; [by split; [split; eauto|]|].
    left. rewrite He, size_empty. done.
  - destruct Hspec as (f & c' & bm' & -> & Hf & _ & [] & _ & Hinv' & Hfree). simpl.
    pose proof (free_of_bound c bm Hinv f Hf) as Hb.
    do 3 eexists. split; [done|]. split.
    { split; [|congruence]. split; [eauto|congruence|]. rewrite Hfree. set_solver. }
    right. unfold pmm_owned, pmm_frame_ok. rewrite Hfree, Z.div_mul by lia. split_and!.
    + rewrite size_difference, size_singleton by set_solver.
      assert (size (free_of c) ≠ 0%nat) by (rewrite size_empty_iff; by fold_leibniz). lia.
    + lia.
    + lia.
    + apply Z.mod_mul. lia.
    + tauto.
    + apply wrote_refl.
    + intros q. rewrite not_elem_of_difference, elem_of_singleton.
      assert (q mod 4096 = 0 ∧ q / 4096 = f ↔ q = f * 4096) by mlia. tauto.
Qed.

#[global] Instance pmm_source : FrameSource (pmm_space hhdm root).
Proof using HD.
  refine {| frame_ok := pmm_frame_ok; p2v := λ p, p + hhdm; fs_inv := pmm_fs_inv;
            owned := pmm_owned; avail := λ c, size (free_of c) |}.
  - intros p [Hp Ha]. destruct HD as [[] []]. lia.
  - intros p [Hp Ha]. destruct HD as [[] []]. lia.
  - intros p q [Hp Ha] [Hq Ha'] Hne. mlia.
  - exists (hhdm_phys_to_virt hhdm). split; [done|]. intros c p _ [Hp _].
    destruct HD as [[] []]. unfold hhdm_phys_to_virt.
    by rewrite add64_small by (unfold in64; lia).
  - exists pmm_alloc_cb. split; [done|]. intros c m Hc _. by apply pmm_alloc_law.
Defined.
End instance.

(** ** A concrete machine: 16 frames, the root table in the first free frame *)
Definition demo_hhdm : Z := 0xFFFF800000000000.

Lemma demo_direct_map : direct_map 16 demo_hhdm.
Proof. split; unfold demo_hhdm; lia. Qed.

(** The PMM after the root's frame was taken from it. *)
Definition demo_root : Z := Eval vm_compute in
  match pmm_alloc_frame (Some demo_pmm) with Ret (a, _) => a | _ => 0 end.
Definition demo_pmm_root : pmm_state := Eval vm_compute in
  match pmm_alloc_frame (Some demo_pmm) with Ret (_, Some p) => p | _ => demo_pmm end.

Definition demo_sp : vmm_space pmm_state := pmm_space demo_hhdm demo_root.
Definition demo_vm : vm pmm_state :=
  mk_vm demo_pmm_root (zero_mem demo_hhdm (16 * 4096)) (mk_cpu 0 0 []).
#[global] Instance demo_source : FrameSource demo_sp :=
  pmm_source 16 demo_hhdm demo_root demo_direct_map.

Lemma demo_pmm_root_ready : pmm_ready demo_pmm_root.
Proof.
  apply pmm_reachable_ready.
  apply (reach_step demo_pmm Alloc (OAddr demo_root)); [apply demo_reachable|done|].
  vm_compute. reflexivity.
Qed.

Lemma demo_root_zero i : idx_ok i → pt_entry (sp := demo_sp) (vm_mem demo_vm) demo_root i = 0.
Proof.
  intros Hi. unfold pt_entry, get_entry, load64.
  change (p2v demo_root) with (demo_root + demo_hhdm).
  change (vm_mem demo_vm) with (zero_mem demo_hhdm (16 * 4096)).
  by rewrite load_zero_mem by (unfold demo_root, idx_ok in *; lia).
Qed.

Lemma demo_space : pt_inv (sp := demo_sp) demo_vm ∧ no_huge (sp := demo_sp) (vm_mem demo_vm) ∧
  ∀ q i, length q = 3%nat → path_ok q → leaf (sp := demo_sp) (vm_mem demo_vm) q i = None.
Proof.
  apply empty_space.
  - split; [apply demo_pmm_root_ready|done].
  - apply zero_mem_ok.
  - intros p [Hp Ha]. change (p2v p) with (p + demo_hhdm).
    eapply mapped_sub; [apply zero_mem_mapped|mlia..].
  - split; [unfold demo_sp, pmm_space, demo_root; simpl; lia|done].
  - split; [done|]. by apply (bool_decide_eq_true_1 (demo_root / 4096 ∉ free_of demo_pmm_root)); vm_compute.
  - apply demo_root_zero.
Qed.
