(* ===== verification/VmmTheorems.v ===== *)
(** * The virtual memory manager: theorems

    Stated against any [FrameSource] and instantiated, in the witnesses, at the
    space of [VmmPmm.v] whose frames come from the physical memory manager. *)

From S2P Require Import Prelude Mem Pmm PmmProofs PmmTheorems.
From S2P Require Import Vmm VmmInterface VmmProofs VmmSpecs VmmPmm.

(** ** The abstract address space: pages to last-level entries, and a frame budget *)
Record aspace : Type := mk_aspace { as_pages : gmap Z Z; as_frames : nat }.

Inductive vmm_op : Type :=
| OpMap (va pa fl : Z)
| OpUnmap (va : Z)
| OpQuery (va : Z).

(** The result code and, for a query, the mapping written to [*out]. *)
Definition vmm_out : Type := Z * option vmm_mapping.

Definition op_va (op : vmm_op) : Z :=
  match op with OpMap va _ _ | OpUnmap va | OpQuery va => va end.

(** The guards of the three entry points. *)
Definition op_accepted (op : vmm_op) : Prop :=
  page_ok (op_va op) ∧
  match op with OpMap _ pa _ => vmm_is_aligned_4k pa = true | _ => True end.

(** What a client may rely on.  Only [map_nomem] depends on anything but the
    pages: it can happen only while fewer than three frames are left. *)
Inductive as_step : aspace → vmm_op → vmm_out → aspace → Prop :=
| st_inval s op :
    ¬ op_accepted op → as_step s op (VMM_ERR_INVAL, None) s
| st_map_ok A a a' va pa fl :
    op_accepted (OpMap va pa fl) → A !! va = None → (a' ≤ a ≤ 3 + a')%nat →
    as_step (mk_aspace A a) (OpMap va pa fl) (VMM_MAP_OK, None)
      (mk_aspace (<[va := pte_of pa fl]> A) a')
| st_map_exists A a va pa fl e :
    op_accepted (OpMap va pa fl) → A !! va = Some e →
    as_step (mk_aspace A a) (OpMap va pa fl) (VMM_ERR_EXISTS, None) (mk_aspace A a)
| st_map_nomem A a a' va pa fl :
    op_accepted (OpMap va pa fl) → A !! va = None → (a < 3)%nat → (a' ≤ a)%nat →
    as_step (mk_aspace A a) (OpMap va pa fl) (VMM_ERR_NOMEM, None) (mk_aspace A a')
| st_unmap_ok A a va e :
    op_accepted (OpUnmap va) → A !! va = Some e →
    as_step (mk_aspace A a) (OpUnmap va) (VMM_MAP_OK, None) (mk_aspace (delete va A) a)
| st_unmap_none A a va :
    op_accepted (OpUnmap va) → A !! va = None →
    as_step (mk_aspace A a) (OpUnmap va) (VMM_ERR_NOT_FOUND, None) (mk_aspace A a)
| st_query_ok A a va e :
    op_accepted (OpQuery va) → A !! va = Some e →
    as_step (mk_aspace A a) (OpQuery va)
      (VMM_MAP_OK, Some (mk_mapping va (Z.land e VMM_PTE_ADDR_MASK)
                           (Z.land e (not64 VMM_PTE_ADDR_MASK)))) (mk_aspace A a)
| st_query_none A a va :
    op_accepted (OpQuery va) → A !! va = None →
    as_step (mk_aspace A a) (OpQuery va) (VMM_ERR_NOT_FOUND, None) (mk_aspace A a).

Inductive as_run : aspace → list vmm_op → list vmm_out → aspace → Prop :=
| run_nil s : as_run s [] [] s
| run_cons s op o s1 ops os s2 :
    as_step s op o s1 → as_run s1 ops os s2 → as_run s (op :: ops) (o :: os) s2.

(** ** The implementation, driven by the same operations *)
Section run.
Context {C : Type} (sp : vmm_space C).

Definition vmm_step (w : vm C) (op : vmm_op) : outcome (vmm_out * vm C) :=
  match op with
  | OpMap va pa fl => ' (rc, w) ← vmm_map_page (Some sp) w va pa fl; Ret ((rc, None), w)
  | OpUnmap va => ' (rc, w) ← vmm_unmap_page (Some sp) w va; Ret ((rc, None), w)
  | OpQuery va =>
      ' (rc, out) ← vmm_query_page (Some sp) w va (Some (mk_mapping 0 0 0));
      Ret ((rc, if rc =? VMM_MAP_OK then out else None), w)
  end.

Fixpoint vmm_run (w : vm C) (ops : list vmm_op) : outcome (list vmm_out * vm C) :=
  match ops with
  | [] => Ret ([], w)
  | op :: ops =>
      ' (o, w) ← vmm_step w op;
      ' (os, w) ← vmm_run w ops;
      Ret (o :: os, w)
  end.
End run.

Section lemmas.
Context {C : Type} {sp : vmm_space C} `{FS : !FrameSource sp}.

(** The concrete state represents the abstract one. *)
Record represents (w : vm C) (s : aspace) : Prop := {
  rep_inv : pt_inv (sp := sp) w;
  rep_huge : no_huge (sp := sp) (vm_mem w);
  rep_pages : ∀ va, page_ok va → as_pages s !! va = lookup_pte (sp := sp) w va;
  rep_frames : as_frames s = avail (vm_ctx w);
}.

Lemma descend_rc_cases w q2 : ∀ q1 t,
  pt_inv (sp := sp) w → no_huge (sp := sp) (vm_mem w) → path_ok (q1 ++ q2) →
  walk (vm_mem w) (root_paddr sp) q1 = Some t →
  descend_rc (sp := sp) (vm_mem w) t q2 (avail (vm_ctx w)) = VMM_MAP_OK ∨
  descend_rc (sp := sp) (vm_mem w) t q2 (avail (vm_ctx w)) = VMM_ERR_NOMEM ∧
    (avail (vm_ctx w) < length q2)%nat ∧ walk (vm_mem w) (root_paddr sp) (q1 ++ q2) = None.
Proof.
  induction q2 as [|i q2 IH]; intros q1 t HI HN Hp Hw; [by left|]. simpl.
  assert (Hp1 : path_ok (q1 ++ [i])).
  { destruct Hp as [HF HL]. rewrite Forall_app, Forall_cons in HF. rewrite length_app in HL.
    simpl in HL. split; [rewrite Forall_app, Forall_singleton; tauto|rewrite length_app; simpl; lia]. }
  pose proof (path_ok_snoc_inv _ _ Hp1) as (Hq1 & Hi & Hl).
  pose proof (walk_snoc (vm_mem w) (root_paddr sp) q1 i) as Hn. rewrite Hw in Hn.
  unfold entry_next in Hn. rewrite (HN q1 t i) in * by done.
  replace (q1 ++ i :: q2) with ((q1 ++ [i]) ++ q2) in * by (by rewrite <- app_assoc).
  destruct (present (pt_entry (vm_mem w) t i)); simpl in Hn.
  - destruct (IH (q1 ++ [i]) _ HI HN Hp Hn) as [->|(-> & ? & ?)]; [by left|right].
    split_and!; [done|lia|done].
  - destruct (decide _); [right|by left]. split_and!; [done|done|].
    by apply walk_app_None.
Qed.

Lemma page_ok_dec va : in64 va →
  negb (vmm_is_canonical va) || negb (vmm_is_aligned_4k va) = false ↔ page_ok va.
Proof.
  unfold page_ok. intros H. rewrite orb_false_iff, !negb_false_iff. tauto.
Qed.

(** Refused arguments change nothing. *)
Lemma map_refused w va pa fl :
  in64 va → ¬ op_accepted (OpMap va pa fl) →
  vmm_map_page (Some sp) w va pa fl = Ret (VMM_ERR_INVAL, w).
Proof.
  intros H64 Hn. unfold vmm_map_page.
  destruct (negb (vmm_is_canonical va) || negb (vmm_is_aligned_4k va)) eqn:E; [done|].
  apply page_ok_dec in E; [|done]. unfold op_accepted in Hn. simpl in Hn.
  destruct (vmm_is_aligned_4k pa); [|done]. exfalso. tauto.
Qed.

Lemma unmap_refused w va :
  in64 va → ¬ page_ok va → vmm_unmap_page (Some sp) w va = Ret (VMM_ERR_INVAL, w).
Proof.
  intros H64 Hn. unfold vmm_unmap_page.
  destruct (negb (vmm_is_canonical va) || negb (vmm_is_aligned_4k va)) eqn:E; [done|].
  by apply page_ok_dec in E.
Qed.

Lemma query_refused w va o :
  in64 va → ¬ page_ok va → vmm_query_page (Some sp) w va (Some o) = Ret (VMM_ERR_INVAL, Some o).
Proof.
  intros H64 Hn. unfold vmm_query_page.
  destruct (negb (vmm_is_canonical va) || negb (vmm_is_aligned_4k va)) eqn:E; [done|].
  by apply page_ok_dec in E.
Qed.

(** One page changes, the others keep their entry. *)
Lemma lookup_update w w' va v :
  (∀ q i, length q = 3%nat → path_ok q → idx_ok i →
     leaf (sp := sp) (vm_mem w') q i =
     if decide (q = va_path va ∧ i = idx_pt va) then v else leaf (sp := sp) (vm_mem w) q i) →
  page_ok va → ∀ va', page_ok va' →
  lookup_pte (sp := sp) w' va' = if decide (va' = va) then v else lookup_pte (sp := sp) w va'.
Proof.
  intros HL Hva va' Hva'. unfold lookup_pte. rewrite HL by (done || apply va_path_ok || apply idx_pt_ok).
  destruct (decide (va' = va)) as [->|Hne]; [by rewrite decide_True|].
  rewrite decide_False; [done|]. intros [Hp Hi]. by apply Hne, page_inj.
Qed.

Lemma vmm_map_page_lookup w va pa fl :
  pt_inv (sp := sp) w → page_ok va → vmm_is_aligned_4k pa = true →
  ∃ w', vmm_map_page (Some sp) w va pa fl = Ret (map_rc (sp := sp) w va, w') ∧
    pt_grows (sp := sp) w w' ∧ vm_cpu w' = vm_cpu w ∧
    (avail (vm_ctx w') ≤ avail (vm_ctx w) ≤ 3 + avail (vm_ctx w'))%nat ∧
    (lookup_pte (sp := sp) w va ≠ None → w' = w) ∧
    ∀ va', page_ok va' → lookup_pte (sp := sp) w' va' =
      if decide (map_rc (sp := sp) w va = VMM_MAP_OK ∧ va' = va) then Some (pte_of pa fl)
      else lookup_pte (sp := sp) w va'.
Proof.
  intros HI Hva Hpa.
  destruct (vmm_map_page_spec w va pa fl HI Hva Hpa) as (w' & E & G & Hc & Ha & Hs & HL).
  exists w'. split_and!; [done..|lia|lia|done|]. intros va' Hva'.
  destruct (decide (map_rc (sp := sp) w va = VMM_MAP_OK)) as [Hrc|Hrc].
  - rewrite (lookup_update w w' va (Some (pte_of pa fl))); [|intros q i ???|done..].
    + destruct (decide (va' = va)); [by rewrite decide_True|by rewrite decide_False by tauto].
    + rewrite HL by done. destruct (decide _), (decide _); tauto.
  - rewrite decide_False by tauto. unfold lookup_pte.
    rewrite HL, decide_False by (tauto || apply va_path_ok || apply idx_pt_ok || done). done.
Qed.

Lemma vmm_unmap_page_lookup w va :
  pt_inv (sp := sp) w → page_ok va →
  ∃ w', vmm_unmap_page (Some sp) w va =
      Ret (match lookup_pte (sp := sp) w va with
           | Some _ => VMM_MAP_OK | None => VMM_ERR_NOT_FOUND end, w') ∧
    pt_grows (sp := sp) w w' ∧ vm_ctx w' = vm_ctx w ∧
    vm_cpu w' = match lookup_pte (sp := sp) w va with
                | Some _ => vmm_invalidate_page (vm_cpu w) va
                | None => vm_cpu w
                end ∧
    ∀ va', page_ok va' → lookup_pte (sp := sp) w' va' =
      if decide (va' = va) then None else lookup_pte (sp := sp) w va'.
Proof.
  intros HI Hva. destruct (vmm_unmap_page_spec w va HI Hva) as (w' & E & G & Hc & Hp & HL).
  exists w'. split_and!; [done..|]. by apply lookup_update.
Qed.

(** The return code of a map on a space without large pages. *)
Lemma map_rc_cases w va :
  pt_inv (sp := sp) w → no_huge (sp := sp) (vm_mem w) →
  match lookup_pte (sp := sp) w va with
  | Some _ => map_rc (sp := sp) w va = VMM_ERR_EXISTS
  | None => map_rc (sp := sp) w va = VMM_MAP_OK ∨
            map_rc (sp := sp) w va = VMM_ERR_NOMEM ∧ (avail (vm_ctx w) < 3)%nat
  end.
Proof.
  intros HI HN. unfold map_rc.
  destruct (descend_rc_cases w (va_path va) [] (root_paddr sp) HI HN) as [->|(-> & Ha & Hw)];
    [apply va_path_ok|done| |].
  - destruct (lookup_pte w va); [done|by left].
  - rewrite app_nil_l in Hw. unfold lookup_pte, leaf. rewrite Hw. by right.
Qed.

(** The arguments are accepted or refused. *)
#[global] Instance page_ok_decision va : Decision (page_ok va).
Proof. unfold page_ok, in64. apply _. Qed.
#[global] Instance op_accepted_decision op : Decision (op_accepted op).
Proof. unfold op_accepted. destruct op; apply _. Qed.

Lemma step_map_refines w s va pa fl :
  represents w s → op_accepted (OpMap va pa fl) →
  ∃ o w' s', vmm_step sp w (OpMap va pa fl) = Ret (o, w') ∧
    as_step s (OpMap va pa fl) o s' ∧ represents w' s' ∧ pt_grows (sp := sp) w w'.
Proof.
  intros [HI HN HP HF] Hok. destruct s as [A a]. simpl in HP, HF. subst a. cbn [vmm_step].
  destruct (vmm_map_page_lookup w va pa fl HI (proj1 Hok) (proj2 Hok))
    as (w' & -> & G & _ & Ha & Hs & HL). simpl.
  pose proof (map_rc_cases w va HI HN) as Hrc. rewrite <- HP in Hrc, Hs by apply Hok.
  destruct (A !! va) as [e|] eqn:EA.
  { rewrite Hrc, Hs by done. do 3 eexists. split; [done|]. split; [by eapply st_map_exists|].
    split; [by split|by apply pt_grows_refl]. }
  destruct Hrc as [Hrc|[Hrc ?]]; rewrite Hrc in *.
  - do 3 eexists. split; [done|].
    split; [by apply (st_map_ok A _ (avail (vm_ctx w')))|].
    split; [|done]. split; [apply G|by apply G| |done].
    simpl. intros va' Hva'. rewrite HL, lookup_insert by done.
    destruct (decide (va' = va)) as [->|]; [by rewrite !decide_True|].
    rewrite !decide_False by (done || tauto). by apply HP.
  - do 3 eexists. split; [done|].
    split; [by apply (st_map_nomem A _ (avail (vm_ctx w'))); [..|lia]|].
    split; [|done]. split; [apply G|by apply G| |done]. simpl. intros va' Hva'.
    rewrite HL, decide_False by (done || (intros [? _]; done)). by apply HP.
Qed.

Lemma step_unmap_refines w s va :
  represents w s → page_ok va →
  ∃ o w' s', vmm_step sp w (OpUnmap va) = Ret (o, w') ∧
    as_step s (OpUnmap va) o s' ∧ represents w' s' ∧ pt_grows (sp := sp) w w'.
Proof.
  intros [HI HN HP HF] Hok. destruct s as [A a]. simpl in HP, HF. subst a. cbn [vmm_step].
  destruct (vmm_unmap_page_lookup w va HI Hok) as (w' & -> & G & Hc & _ & HL). simpl.
  rewrite <- HP by done. destruct (A !! va) as [e|] eqn:EA; do 3 eexists; (split; [done|]).
  - split; [by eapply st_unmap_ok|]. split; [|done]. split; [apply G|by apply G| |by rewrite Hc].
    simpl. intros va' Hva'. rewrite HL by done. destruct (decide (va' = va)) as [->|].
    + apply lookup_delete_eq.
    + rewrite lookup_delete_ne by done. by apply HP.
  - split; [by eapply st_unmap_none|]. split; [|done]. split; [apply G|by apply G| |by rewrite Hc].
    simpl. intros va' Hva'. rewrite HL by done. case_decide as Hd; [by subst|by apply HP].
Qed.

Lemma vmm_step_refines w s op :
  represents w s → in64 (op_va op) →
  ∃ o w' s', vmm_step sp w op = Ret (o, w') ∧ as_step s op o s' ∧ represents w' s' ∧ pt_grows (sp := sp) w w'.
Proof.
  intros HR H64. destruct (decide (op_accepted op)) as [Hok|Hno].
  - destruct op as [va pa fl|va|va];
      [by apply step_map_refines|by apply step_unmap_refines, Hok|].
    destruct s as [A a]. destruct Hok as [Hok _]. cbn [vmm_step op_va] in *.
    rewrite vmm_query_page_spec by (apply HR || done). simpl.
    rewrite <- (rep_pages _ _ HR) by done. simpl.
    destruct (A !! va) as [e|] eqn:EA; simpl; do 3 eexists; (split; [done|]);
      (split; [|split; [done|apply pt_grows_refl, HR]]).
    + by apply st_query_ok.
    + by apply st_query_none.
  - exists (VMM_ERR_INVAL, None), w, s. split; [|split; [by apply st_inval|split; [done|apply pt_grows_refl, HR]]].
    destruct op as [va pa fl|va|va]; cbn [vmm_step op_va] in *.
    + by rewrite map_refused.
    + rewrite unmap_refused; [done..|]. intros ?. by apply Hno.
    + rewrite query_refused; [done..|]. intros ?. by apply Hno.
Qed.

Lemma vmm_run_refines w s ops :
  represents w s → Forall (λ op, in64 (op_va op)) ops →
  ∃ os w' s', vmm_run sp w ops = Ret (os, w') ∧ as_run s ops os s' ∧ represents w' s' ∧
    pt_grows (sp := sp) w w'.
Proof.
  intros HR HF. revert w s HR. induction HF as [|op ops Hop _ IH]; intros w s HR; simpl.
  { do 3 eexists. split; [done|]. split; [constructor|]. split; [done|apply pt_grows_refl, HR]. }
  destruct (vmm_step_refines w s op HR Hop) as (o & w1 & s1 & -> & St & R1 & G1). simpl.
  destruct (IH w1 s1 R1) as (os & w2 & s2 & -> & St2 & R2 & G2). simpl.
  do 3 eexists. split; [done|]. split; [by econstructor|]. split; [done|by eapply pt_grows_trans].
Qed.
End lemmas.

(** ** A concrete run *)
Definition demo_va : Z := 0xFFFF800000200000.
Definition demo_va2 : Z := 0x400000.

Lemma demo_va_page : page_ok demo_va.
Proof. by vm_compute. Qed.

Lemma demo_represents : represents (sp := demo_sp) demo_vm (mk_aspace ∅ 8).
Proof.
  destruct demo_space as (HI & HN & HL). split; [exact HI|exact HN| |].
  - intros va Hva. symmetry. apply HL; [done|apply va_path_ok].
  - change (8%nat = size (free_of demo_pmm_root)). by vm_compute.
Qed.

Lemma demo_inv : pt_inv (sp := demo_sp) demo_vm.
Proof. apply demo_space. Qed.

(** ** Theorems *)
Section theorems.
Context {C : Type} {sp : vmm_space C} `{FS : !FrameSource sp}.

(** C2: Any sequence of vmm_map_page, vmm_unmap_page and vmm_query_page calls, with any 64-bit addresses, runs to completion without an invalid access and produces exactly the results the abstract address space allows: a finite map from pages to entries in which map inserts (EXISTS when the page is taken, NOMEM only while fewer than three frames are left), unmap deletes, query looks up, and refused arguments change nothing. *)
Theorem vmm_refines_address_space (w : vm C) (s : aspace) (ops : list vmm_op) :
  represents (sp := sp) w s → Forall (λ op, in64 (op_va op)) ops →
  ∃ os w' s', vmm_run sp w ops = Ret (os, w') ∧ as_run s ops os s' ∧
    represents (sp := sp) w' s'.
Proof.
  intros HR HF. destruct (vmm_run_refines w s ops HR HF) as (os & w' & s' & E & R & R' & _).
  by exists os, w', s'.
Qed.

(** C8: No sequence of calls corrupts memory or the page tables: afterwards every table is a frame owned by this space and reached by exactly one path, tables reached before are still there, and every byte that lies outside the frames holding tables is unchanged. *)
Theorem vmm_run_isolated (w : vm C) (s : aspace) (ops : list vmm_op) (os : list vmm_out) (w' : vm C) :
  represents (sp := sp) w s → Forall (λ op, in64 (op_va op)) ops →
  vmm_run sp w ops = Ret (os, w') →
  (∀ q t, path_ok q → walk (vm_mem w') (root_paddr sp) q = Some t → owned (vm_ctx w') t) ∧
  (∀ q1 q2 t, path_ok q1 → path_ok q2 → walk (vm_mem w') (root_paddr sp) q1 = Some t →
     walk (vm_mem w') (root_paddr sp) q2 = Some t → q1 = q2) ∧
  (∀ q t, path_ok q → walk (vm_mem w) (root_paddr sp) q = Some t →
     walk (vm_mem w') (root_paddr sp) q = Some t) ∧
  (∀ a, (∀ t, is_table (sp := sp) (vm_mem w') t → ¬ (p2v t ≤ a < p2v t + 4096)) →
     vm_mem w' !! a = vm_mem w !! a).
Proof.
  intros HR HF E. destruct (vmm_run_refines w s ops HR HF) as (os' & w2 & s' & E' & _ & R' & G).
  rewrite E in E'. injection E' as <- <-. split_and!.
  - intros q t Hq Ht. by apply (pi_table w' (rep_inv _ _ R') q).
  - apply (rep_inv _ _ R').
  - apply G.
  - apply G.
Qed.

(** On a well-formed space, vmm_map_page of a canonical aligned page and an aligned frame returns a code fixed by the tree and the frames left, and exactly when that code is VMM_MAP_OK the page's entry becomes the frame address, PRESENT and the permitted flags; every other page keeps its entry, also on every failure, and a page that was already mapped leaves the whole state untouched. *)
Theorem vmm_map_page_correct (w : vm C) (va pa fl : Z) :
  pt_inv (sp := sp) w → page_ok va → vmm_is_aligned_4k pa = true →
  ∃ w', vmm_map_page (Some sp) w va pa fl = Ret (map_rc (sp := sp) w va, w') ∧
    pt_inv (sp := sp) w' ∧ vm_cpu w' = vm_cpu w ∧
    (lookup_pte (sp := sp) w va ≠ None → map_rc (sp := sp) w va ≠ VMM_MAP_OK ∧ w' = w) ∧
    ∀ va', page_ok va' → lookup_pte (sp := sp) w' va' =
      if decide (map_rc (sp := sp) w va = VMM_MAP_OK ∧ va' = va) then Some (pte_of pa fl)
      else lookup_pte (sp := sp) w va'.
Proof.
  intros HI Hva Hpa.
  destruct (vmm_map_page_lookup w va pa fl HI Hva Hpa) as (w' & E & G & Hc & _ & Hs & HL).
  exists w'. split_and!; [done|apply G|done| |done]. intros Hm. split; [|by apply Hs].
  unfold map_rc. destruct (Z.eqb_spec (descend_rc (vm_mem w) (root_paddr sp) (va_path va) (avail (vm_ctx w))) VMM_MAP_OK);
    [|done]. by destruct (lookup_pte w va).
Qed.

(** C21: While the frame source still has three frames, mapping an unmapped page of a space without large pages succeeds, and it takes at most three frames. *)
Theorem vmm_map_page_succeeds (w : vm C) (va pa fl : Z) :
  pt_inv (sp := sp) w → no_huge (sp := sp) (vm_mem w) → page_ok va →
  vmm_is_aligned_4k pa = true → lookup_pte (sp := sp) w va = None → (3 ≤ avail (vm_ctx w))%nat →
  ∃ w', vmm_map_page (Some sp) w va pa fl = Ret (VMM_MAP_OK, w') ∧
    lookup_pte (sp := sp) w' va = Some (pte_of pa fl) ∧
    (avail (vm_ctx w) ≤ 3 + avail (vm_ctx w'))%nat.
Proof.
  intros HI HN Hva Hpa Hnone Ha.
  destruct (vmm_map_page_lookup w va pa fl HI Hva Hpa) as (w' & E & G & Hc & Hf & Hs & HL).
  pose proof (map_rc_cases w va HI HN) as Hrc. rewrite Hnone in Hrc.
  destruct Hrc as [Hrc|[_ ?]]; [|lia]. rewrite Hrc in *. exists w'.
  split_and!; [done| |lia]. by rewrite HL, decide_True.
Qed.

(** vmm_unmap_page of a mapped page clears its entry and no other, and executes invlpg exactly for that address; on an unmapped page it returns VMM_ERR_NOT_FOUND and neither the translations nor the TLB are touched; no frame is taken or returned. *)
Theorem vmm_unmap_page_correct (w : vm C) (va : Z) :
  pt_inv (sp := sp) w → page_ok va →
  ∃ w', vmm_unmap_page (Some sp) w va =
      Ret (match lookup_pte (sp := sp) w va with
           | Some _ => VMM_MAP_OK | None => VMM_ERR_NOT_FOUND end, w') ∧
    pt_inv (sp := sp) w' ∧ vm_ctx w' = vm_ctx w ∧
    invlpg_log (vm_cpu w') =
      invlpg_log (vm_cpu w) ++ match lookup_pte (sp := sp) w va with Some _ => [va] | None => [] end ∧
    ∀ va', page_ok va' → lookup_pte (sp := sp) w' va' =
      if decide (va' = va) then None else lookup_pte (sp := sp) w va'.
Proof.
  intros HI Hva. destruct (vmm_unmap_page_lookup w va HI Hva) as (w' & E & G & Hc & Hp & HL).
  exists w'. split_and!; [done|apply G|done| |done]. rewrite Hp.
  destruct (lookup_pte w va); [done|by rewrite app_nil_r].
Qed.

(** vmm_query_page answers what the four-level walk finds: the frame address and flag bits of the page's present last-level entry, VMM_ERR_NOT_FOUND when a level is absent or large, VMM_ERR_INVAL for a null space or result pointer or a non-canonical or misaligned address; the result object is written only on success. *)
Theorem vmm_query_page_correct (w : vm C) (va : Z) (o : vmm_mapping) :
  pt_inv (sp := sp) w → in64 va →
  vmm_query_page (Some sp) w va (Some o) =
    Ret (if vmm_is_canonical va && vmm_is_aligned_4k va then
           match lookup_pte (sp := sp) w va with
           | Some e => (VMM_MAP_OK, Some (mk_mapping va (Z.land e VMM_PTE_ADDR_MASK)
                                            (Z.land e (not64 VMM_PTE_ADDR_MASK))))
           | None => (VMM_ERR_NOT_FOUND, Some o)
           end
         else (VMM_ERR_INVAL, Some o)) ∧
  vmm_query_page (C := C) None w va (Some o) = Ret (VMM_ERR_INVAL, Some o) ∧
  vmm_query_page (Some sp) w va None = Ret (VMM_ERR_INVAL, None).
Proof.
  intros HI H64. split; [|done].
  destruct (vmm_is_canonical va) eqn:E1, (vmm_is_aligned_4k va) eqn:E2; simpl;
    [by apply vmm_query_page_spec|apply query_refused; [done|]; unfold page_ok; rewrite E1, E2; naive_solver..].
Qed.

(** A page mapped by vmm_map_page is read back by vmm_query_page with the frame it was given (frame addresses below 2^52) and exactly PRESENT plus the requested flags that are permitted; unmapping it then makes the query fail again. *)
Theorem vmm_map_query_unmap_roundtrip (w w1 : vm C) (va pa fl : Z) (o : vmm_mapping) :
  pt_inv (sp := sp) w → page_ok va → 0 ≤ pa < 2 ^ 52 → vmm_is_aligned_4k pa = true →
  vmm_map_page (Some sp) w va pa fl = Ret (VMM_MAP_OK, w1) →
  vmm_query_page (Some sp) w1 va (Some o) =
    Ret (VMM_MAP_OK, Some (mk_mapping va pa (Z.lor VMM_PTE_PRESENT (Z.land fl allowed)))) ∧
  ∃ w2, vmm_unmap_page (Some sp) w1 va = Ret (VMM_MAP_OK, w2) ∧
    vmm_query_page (Some sp) w2 va (Some o) = Ret (VMM_ERR_NOT_FOUND, Some o).
Proof.
  intros HI Hva Hpr Hpa E.
  destruct (vmm_map_page_lookup w va pa fl HI Hva Hpa) as (w' & E' & G & _ & _ & _ & HL).
  rewrite E in E'. injection E' as Hrc <-.
  assert (I1 : pt_inv (sp := sp) w1) by apply G.
  assert (L1 : lookup_pte (sp := sp) w1 va = Some (pte_of pa fl)) by (by rewrite HL, decide_True).
  assert (Ha : pa mod 4096 = 0) by (rewrite aligned_4k in Hpa; by apply Z.eqb_eq).
  split.
  - by rewrite (vmm_query_page_spec w1 va o I1 Hva), L1, pte_of_addr, pte_of_flags.
  - destruct (vmm_unmap_page_lookup w1 va I1 Hva) as (w2 & E2 & G2 & _ & _ & HL2).
    rewrite L1 in E2. exists w2. split; [done|].
    by rewrite (vmm_query_page_spec w2 va o), HL2, decide_True by (done || apply G2).
Qed.
End theorems.

(** The PML4, PDPT, PD and PT indices the code extracts determine a canonical page address, so two different pages never share a last-level entry. *)
Theorem vmm_indices_injective (va va' : Z) :
  page_ok va → page_ok va' →
  idx_pml4 va = idx_pml4 va' → idx_pdpt va = idx_pdpt va' →
  idx_pd va = idx_pd va' → idx_pt va = idx_pt va' → va = va'.
Proof.
  intros H H' E1 E2 E3 E4. apply page_inj; [done..| |done]. unfold va_path. congruence.
Qed.

(** The frame pmm_alloc_frame hands out: aligned, in range and no longer free. *)
Lemma pmm_takes_frame p :
  pmm_reachable p → free_of p ≠ ∅ →
  ∃ a p', pmm_alloc_frame (Some p) = Ret (a, Some p') ∧ pmm_ready p' ∧
    frame_count p' = frame_count p ∧ 0 ≤ a < frame_count p * 4096 ∧ a mod 4096 = 0 ∧
    a / 4096 ∉ free_of p'.
Proof.
  intros Hr Hne. pose proof (pmm_reachable_ready p Hr) as Hp. pose proof Hp as [[bm Hinv] Hinit _].
  pose proof (pmm_alloc_frame_spec p bm Hinv Hinit) as H. rewrite decide_False in H by done.
  destruct H as (f & p' & bm' & E & Hin & _ & [Hc _ _] & _ & _ & Hset).
  destruct (free_of_range p Hp f Hin) as [Hf _]. exists (f * 4096), p'.
  rewrite Z.div_mul, Z_mod_mult by done. split_and!; [done| |done|lia..|done|set_solver].
  apply pmm_reachable_ready, (reach_step p Alloc (OAddr (f * 4096))); [done|done|].
  simpl. by rewrite E.
Qed.

(** A cleared page is an address space without pages. *)
Lemma cleared_root_represents n hhdm root (HD : direct_map n hhdm) p m cp :
  pmm_ready p → frame_count p = n → mem_ok m → mapped m hhdm (n * 4096) →
  0 ≤ root < n * 4096 → root mod 4096 = 0 → root / 4096 ∉ free_of p →
  (∀ i, 0 ≤ i < 512 → load64 m (root + hhdm + 8 * i) = Ret 0) →
  represents (sp := pmm_space hhdm root) (FS := pmm_source n hhdm root HD)
    (mk_vm p m cp) (mk_aspace ∅ (size (free_of p))).
Proof.
  intros Hp Hn Hok Hm Hroot Hra Hrf Hz.
  destruct (empty_space (sp := pmm_space hhdm root) (FS := pmm_source n hhdm root HD)
              (mk_vm p m cp)) as (HI & HN & HL).
  - by split.
  - done.
  - intros f [Hf Hfa]. change (p2v f) with (f + hhdm). eapply mapped_sub; [exact Hm|mlia..].
  - done.
  - done.
  - intros i Hi. unfold pt_entry, get_entry. change (p2v (root_paddr (pmm_space hhdm root)))
      with (root + hhdm). by rewrite Hz.
  - split; [exact HI|exact HN| |done]. intros va _. symmetry. apply HL; [done|apply va_path_ok].
Qed.

(** C16: The two memory managers together.  While the physical memory manager has a free frame, a frame taken from it with pmm_alloc_frame and cleared with vmm_zero_page (the way the code clears every new table) is accepted by vmm_space_init as a root and is a valid address space in which no page is mapped; if three more frames are free then mapping any page of it succeeds, and afterwards the frames used for tables are no longer free in the PMM. *)
Theorem vmm_on_pmm (n hhdm : Z) (HD : direct_map n hhdm) (p0 : pmm_state) (m0 : mem) (cp : cpu) :
  pmm_reachable p0 → frame_count p0 = n → mem_ok m0 → mapped m0 hhdm (n * 4096) → free_of p0 ≠ ∅ →
  ∃ root p m, pmm_alloc_frame (Some p0) = Ret (root, Some p) ∧ vmm_zero_page m0 (root + hhdm) = Ret m ∧
    let sp := pmm_space hhdm root in
    let FS := pmm_source n hhdm root HD in
    (∀ s0, vmm_space_init (Some s0) root 0 (Some pmm_alloc_cb) (Some pmm_free_cb)
             (Some (hhdm_phys_to_virt hhdm)) = (VMM_MAP_OK, Some sp)) ∧
    represents (sp := sp) (FS := FS) (mk_vm p m cp) (mk_aspace ∅ (size (free_of p))) ∧
    ∀ va pa fl, (3 ≤ size (free_of p))%nat → page_ok va → vmm_is_aligned_4k pa = true →
      ∃ p' m', vmm_map_page (Some sp) (mk_vm p m cp) va pa fl = Ret (VMM_MAP_OK, mk_vm p' m' cp) ∧
        lookup_pte (sp := sp) (FS := FS) (mk_vm p' m' cp) va = Some (pte_of pa fl) ∧
        ∀ t, is_table (sp := sp) (FS := FS) m' t → t / 4096 ∉ free_of p'.
Proof.
  intros Hr Hn Hok Hm Hne. destruct (pmm_takes_frame p0 Hr Hne) as
    (root & p & Ea & Hp & Hc & Hroot & Hra & Hrf). rewrite Hn in Hc, Hroot.
  destruct (vmm_zero_page_spec m0 (root + hhdm)) as (m & Ez & W & Hz).
  { eapply mapped_sub; [exact Hm|mlia..]. }
  pose proof (cleared_root_represents n hhdm root HD p m cp Hp Hc (wrote_ok _ _ _ _ W Hok)
    (wrote_mapped _ _ _ _ W _ _ Hm) Hroot Hra Hrf Hz) as HR.
  exists root, p, m. split; [exact Ea|]. split; [exact Ez|]. split.
  { intros s0. unfold vmm_space_init. by rewrite aligned_4k, Hra. }
  split; [exact HR|]. intros va pa fl Ha Hva Hpa. destruct HR as [HI HN HP _].
  destruct (vmm_map_page_lookup _ va pa fl HI Hva Hpa) as (w' & E & G & Hcp & _ & _ & HL').
  pose proof (map_rc_cases _ va HI HN) as Hrc. rewrite <- HP in Hrc by done.
  destruct Hrc as [Hrc|[_ Hlt]]; [|change (size (free_of p) < 3)%nat in Hlt; lia].
  destruct w' as [p' m' cp']. simpl in Hcp. subst cp'. rewrite Hrc in *. exists p', m'.
  split; [exact E|]. split; [by rewrite HL', decide_True|].
  intros t (q & Hq & Ht). by destruct (pi_table _ (pg_inv _ _ G) q t Hq Ht) as [_ []].
Qed.

(** ** The theorems at the demonstration machine *)
Definition demo_vmm_ops : list vmm_op :=
  [ OpMap demo_va 0x300000 VMM_PTE_WRITABLE; OpQuery demo_va; OpMap demo_va 0x5000 0;
    OpMap demo_va2 0x7000 VMM_PTE_USER; OpUnmap demo_va; OpQuery demo_va; OpQuery demo_va2;
    OpMap 0x800000000000 0x1000 0 ].

Definition demo_vmm_outs : list vmm_out :=
  [ (VMM_MAP_OK, None); (VMM_MAP_OK, Some (mk_mapping demo_va 0x300000 3));
    (VMM_ERR_EXISTS, None); (VMM_MAP_OK, None); (VMM_MAP_OK, None); (VMM_ERR_NOT_FOUND, None);
    (VMM_MAP_OK, Some (mk_mapping demo_va2 0x7000 5)); (VMM_ERR_INVAL, None) ].

(** The model executes: the scenario of the host test, on PMM frames. *)
Example demo_run_outs :
  match vmm_run demo_sp demo_vm demo_vmm_ops with Ret (os, _) => os = demo_vmm_outs | _ => False end.
Proof. vm_compute. reflexivity. Qed.

Lemma demo_vmm_ops_ok : Forall (λ op, in64 (op_va op)) demo_vmm_ops.
Proof. repeat constructor; by vm_compute. Qed.

Lemma demo_unmapped : lookup_pte (sp := demo_sp) demo_vm demo_va = None.
Proof. apply demo_space; [done|apply va_path_ok]. Qed.

Lemma vmm_refines_address_space_witness :
  ∃ os w' s', vmm_run demo_sp demo_vm demo_vmm_ops = Ret (os, w') ∧
    as_run (mk_aspace ∅ 8) demo_vmm_ops os s' ∧ represents (sp := demo_sp) w' s'.
Proof.
  apply (vmm_refines_address_space (sp := demo_sp)); [apply demo_represents|apply demo_vmm_ops_ok].
Defined.

Lemma vmm_run_isolated_witness :
  ∃ os w', vmm_run demo_sp demo_vm demo_vmm_ops = Ret (os, w') ∧
  ∀ q t, path_ok q → walk (sp := demo_sp) (vm_mem w') demo_root q = Some t →
    owned (sp := demo_sp) (vm_ctx w') t.
Proof.
  destruct (vmm_run_refines _ _ _ demo_represents demo_vmm_ops_ok) as (os & w' & s' & E & _).
  exists os, w'. split; [exact E|].
  apply (vmm_run_isolated (sp := demo_sp) demo_vm (mk_aspace ∅ 8) demo_vmm_ops os w'
           demo_represents demo_vmm_ops_ok E).
Defined.

Lemma vmm_map_page_correct_witness :
  ∃ w', vmm_map_page (Some demo_sp) demo_vm demo_va 0x300000 0 =
          Ret (map_rc (sp := demo_sp) demo_vm demo_va, w') ∧ pt_inv (sp := demo_sp) w'.
Proof.
  destruct (vmm_map_page_correct (sp := demo_sp) demo_vm demo_va 0x300000 0 demo_inv demo_va_page
              eq_refl) as (w' & E & I & _). exists w'. exact (conj E I).
Defined.

Lemma demo_avail : (3 ≤ avail (FrameSource := demo_source) (vm_ctx demo_vm))%nat.
Proof. change (3 ≤ size (free_of demo_pmm_root))%nat. apply Nat.leb_le. by vm_compute. Qed.

Lemma vmm_map_page_succeeds_witness :
  ∃ w', vmm_map_page (Some demo_sp) demo_vm demo_va 0x300000 0 = Ret (VMM_MAP_OK, w').
Proof.
  destruct (vmm_map_page_succeeds (sp := demo_sp) demo_vm demo_va 0x300000 0 demo_inv
    (proj1 (proj2 demo_space)) demo_va_page eq_refl demo_unmapped demo_avail) as (w' & E & _).
  exists w'. exact E.
Defined.

Lemma vmm_unmap_page_correct_witness :
  ∃ w', vmm_unmap_page (Some demo_sp) demo_vm demo_va = Ret (VMM_ERR_NOT_FOUND, w').
Proof.
  destruct (vmm_unmap_page_correct (sp := demo_sp) demo_vm demo_va demo_inv demo_va_page)
    as (w' & E & _). rewrite demo_unmapped in E. exists w'. exact E.
Defined.

Lemma vmm_query_page_correct_witness :
  vmm_query_page (Some demo_sp) demo_vm 0x800000000000 (Some (mk_mapping 0 0 0)) =
    Ret (VMM_ERR_INVAL, Some (mk_mapping 0 0 0)).
Proof.
  apply (vmm_query_page_correct (sp := demo_sp) demo_vm 0x800000000000 (mk_mapping 0 0 0) demo_inv).
  by vm_compute.
Defined.

Lemma vmm_map_query_unmap_roundtrip_witness :
  ∃ w1, vmm_query_page (Some demo_sp) w1 demo_va (Some (mk_mapping 0 0 0)) =
    Ret (VMM_MAP_OK, Some (mk_mapping demo_va 0x300000 3)).
Proof.
  destruct (vmm_map_page_lookup (sp := demo_sp) demo_vm demo_va 0x300000 2 demo_inv demo_va_page
              eq_refl) as (w1 & E & _).
  pose proof (map_rc_cases demo_vm demo_va demo_inv (proj1 (proj2 demo_space))) as Hrc.
  rewrite demo_unmapped in Hrc. pose proof demo_avail as Ha.
  destruct Hrc as [Hrc|[_ ?]]; [|lia]. rewrite Hrc in E. exists w1.
  apply (vmm_map_query_unmap_roundtrip (sp := demo_sp) demo_vm w1 demo_va 0x300000 2
           (mk_mapping 0 0 0) demo_inv demo_va_page); [lia|done|exact E].
Defined.

Lemma vmm_indices_injective_witness : demo_va = 0xFFFF800000200000.
Proof.
  by apply (vmm_indices_injective demo_va 0xFFFF800000200000); [apply demo_va_page|apply demo_va_page|..].
Defined.

Lemma demo_pmm_root_reachable : pmm_reachable demo_pmm_root.
Proof.
  apply (reach_step demo_pmm Alloc (OAddr demo_root)); [apply demo_reachable|done|].
  vm_compute. reflexivity.
Qed.

Lemma vmm_on_pmm_witness :
  ∃ root p m p' m', pmm_alloc_frame (Some demo_pmm) = Ret (root, Some p) ∧
    vmm_zero_page (zero_mem demo_hhdm (16 * 4096)) (root + demo_hhdm) = Ret m ∧
    vmm_map_page (Some (pmm_space demo_hhdm root)) (mk_vm p m (mk_cpu 0 0 [])) demo_va 0x300000 0 =
      Ret (VMM_MAP_OK, mk_vm p' m' (mk_cpu 0 0 [])).
Proof.
  destruct (vmm_on_pmm 16 demo_hhdm demo_direct_map demo_pmm
    (zero_mem demo_hhdm (16 * 4096)) (mk_cpu 0 0 [])) as (root & p & m & Ea & Ez & _ & _ & Hmap).
  - apply demo_reachable.
  - done.
  - apply zero_mem_ok.
  - apply zero_mem_mapped.
  - apply (bool_decide_eq_true_1 (free_of demo_pmm ≠ ∅)). by vm_compute.
  - destruct (Hmap demo_va 0x300000 0) as (p' & m' & E & _).
    + assert (Ea2 : Ret (demo_root, Some demo_pmm_root) = Ret (root, Some p)) by exact Ea.
      injection Ea2 as <- <-. exact demo_avail.
    + apply demo_va_page.
    + done.
    + exists root, p, m, p', m'. exact (conj Ea (conj Ez E)).
Defined.
