(* ===== verification/Mmu.v ===== *)
(** * The processor's view of the page tables

    The tables [src/vmm.c] builds are read by the memory-management unit.  This
    file writes the architecture's four-level walk down ([mmu_walk]: present
    and page-size bits, permissions combined over the levels) together with the
    translation cache ([tlb_step]: entries appear and disappear at the
    processor's discretion, [invlpg] and a CR3 load remove them), and proves
    that the address space the module promises is the one the processor sees.

    The walk is the processor's, not the program's: 52-bit physical addresses,
    EFER.NXE set, CR4.LA57 clear, physical memory read through the direct map.
    The accessed and dirty bits it sets in passing are left out. *)

From stdpp Require Import relations.
From S2P Require Import Prelude Mem Pmm PmmProofs PmmTheorems.
From S2P Require Import Vmm VmmInterface VmmProofs VmmSpecs VmmPmm VmmTheorems.

(** ** Translations *)

(** What the page tables grant: the flags of all levels combined. *)
Record rights : Type := mk_rights {
  r_write : bool;
  r_user : bool;
  r_nx : bool;
}.

Record translation : Type := mk_tr {
  tr_paddr : Z;
  tr_rights : rights;
  tr_global : bool;
}.

Definition full_rights : rights := mk_rights true true false.

Definition entry_rights (e : Z) : rights :=
  mk_rights (Z.testbit e 1) (Z.testbit e 2) (Z.testbit e 63).

(** Writes and user accesses need the permission at every level; one level
    suffices to forbid execution. *)
Definition meet_rights (r s : rights) : rights :=
  mk_rights (r_write r && r_write s) (r_user r && r_user s) (r_nx r || r_nx s).

(** The page of an address. *)
Definition page_of (va : Z) : Z := va - va mod 4096.

(** What a client of the module expects of an entry: its frame and its flags. *)
Definition pte_translation (e off : Z) : translation :=
  mk_tr (Z.land e VMM_PTE_ADDR_MASK + off) (entry_rights e) (Z.testbit e 8).

(** The same with the user permission withdrawn. *)
Definition supervisor_only (tr : translation) : translation :=
  mk_tr (tr_paddr tr) (mk_rights (r_write (tr_rights tr)) false (r_nx (tr_rights tr))) (tr_global tr).

(** Bits 63 to 47 agree. *)
Definition canonical (va : Z) : bool := (va / 2 ^ 47 =? 0) || (va / 2 ^ 47 =? 2 ^ 17 - 1).

(** The abstract address space as a translation of byte addresses. *)
Definition as_translate (s : aspace) (va : Z) : option translation :=
  if canonical va
  then (λ e, pte_translation e (va mod 4096)) <$> as_pages s !! page_of va
  else None.

(** ** Pages and addresses *)
Lemma page_of_page va : page_ok va → page_of va = va.
Proof. rewrite page_ok_inv. unfold page_of. lia. Qed.

Lemma page_of_ok va : in64 va → canonical va = true → page_ok (page_of va).
Proof.
  intros H Hc. rewrite page_ok_inv. unfold canonical, page_of in *.
  rewrite orb_true_iff, !Z.eqb_eq in Hc. mlia.
Qed.

Lemma page_ok_canonical va : page_ok va → canonical va = true.
Proof. rewrite page_ok_inv. unfold canonical. rewrite orb_true_iff, !Z.eqb_eq. tauto. Qed.

Lemma page_offset va off : page_ok va → 0 ≤ off < 4096 →
  in64 (va + off) ∧ canonical (va + off) = true ∧ page_of (va + off) = va ∧
  (va + off) mod 4096 = off.
Proof.
  rewrite page_ok_inv. intros (H & Ha & Hc) Ho. unfold canonical, page_of.
  rewrite orb_true_iff, !Z.eqb_eq. split_and!; mlia.
Qed.

(** The index fields of an address are those of its page. *)
Lemma page_of_index va k : in64 va → 12 ≤ k →
  u32 (Z.land (Z.shiftr (page_of va) k) 0x1FF) = (va / 2 ^ k) mod 512.
Proof.
  intros Hva Hk. rewrite idx_mod by (unfold page_of; mlia || lia). f_equal.
  replace (2 ^ k) with (4096 * 2 ^ (k - 12)) by (rewrite <- (Z.pow_add_r 2 12); [f_equal; lia|lia..]).
  rewrite <- !Z.div_div by lia. f_equal. unfold page_of. mlia.
Qed.

Lemma addr_mask_page e : Z.land e VMM_PTE_ADDR_MASK mod 2 ^ 12 = 0.
Proof.
  bits_ext n. rewrite Z.bits_0. destruct (Z.ltb_spec n 12).
  - rewrite Z.mod_pow2_bits_low, Z.land_spec, addr_mask_testbit by lia.
    destruct (Z.leb_spec 12 n); [lia|]. by rewrite andb_false_r.
  - by rewrite Z.mod_pow2_bits_high by lia.
Qed.

(** A table entry grants everything but user access. *)
Lemma table_entry_rights r n :
  meet_rights r (entry_rights (table_entry n)) = mk_rights (r_write r) false (r_nx r).
Proof.
  unfold meet_rights, entry_rights. rewrite table_entry_pte, !pte_of_testbit by lia. simpl.
  change (Z.testbit VMM_PTE_WRITABLE 1) with true. change (Z.testbit VMM_PTE_WRITABLE 2) with false.
  change (Z.testbit VMM_PTE_WRITABLE 63) with false. change (Z.testbit allowed 1) with true.
  simpl. by rewrite !andb_false_r, !orb_false_r, andb_true_r.
Qed.

(** ** The walk *)
Section mmu.
Context {C : Type} {sp : vmm_space C} `{FS : !FrameSource sp}.

(** [levels] are the positions of the index fields still to be used; a large
    page ends the walk at 2^30 or 2^21 bytes, and the page-size bit is reserved
    in the outermost level. *)
Fixpoint mmu_walk (m : mem) (t va : Z) (levels : list Z) (r : rights) : option translation :=
  match levels with
  | [] => None
  | k :: levels =>
      let e := pt_entry (sp := sp) m t ((va / 2 ^ k) mod 512) in
      if negb (present e) then None
      else
        let r := meet_rights r (entry_rights e) in
        let a := Z.land e VMM_PTE_ADDR_MASK in
        if (k =? 12) || (huge e && ((k =? 30) || (k =? 21)))
        then Some (mk_tr (a - a mod 2 ^ k + va mod 2 ^ k) r (Z.testbit e 8))
        else if huge e then None
        else mmu_walk m a va levels r
  end.

(** The translation of a byte address by the tables CR3 points to. *)
Definition mmu_translate (w : vm C) (va : Z) : option translation :=
  if canonical va
  then mmu_walk (vm_mem w) (Z.land (vmm_read_cr3 (vm_cpu w)) VMM_PTE_ADDR_MASK) va
         [39; 30; 21; 12] full_rights
  else None.

(** A data or instruction access, from user mode or from supervisor mode, with
    CR0.WP set and CR4.SMEP and CR4.SMAP clear; [None] is a page fault. *)
Definition mmu_access (w : vm C) (va : Z) (user write fetch : bool) : option Z :=
  match mmu_translate w va with
  | None => None
  | Some tr =>
      let r := tr_rights tr in
      if implb user (r_user r) && implb write (r_write r) && implb fetch (negb (r_nx r))
      then Some (tr_paddr tr) else None
  end.

(** The space is the one the processor uses, and its tables are the module's. *)
Record active (w : vm C) (s : aspace) : Prop := {
  act_rep : represents (sp := sp) w s;
  act_links : table_links (sp := sp) (vm_mem w);
  act_cr3 : vmm_read_cr3 (vm_cpu w) = root_paddr sp;
}.

(** ** The walk on the module's tables *)
#[local] Arguments walk : simpl never.

Section tables.
Context (w : vm C) (HI : pt_inv (sp := sp) w) (HN : no_huge (sp := sp) (vm_mem w)).
Context (HL : table_links (sp := sp) (vm_mem w)).

(** One of the three upper levels. *)
Lemma mmu_walk_upper q t va k levels r :
  path_ok q → (length q ≤ 2)%nat → walk (vm_mem w) (root_paddr sp) q = Some t → k ≠ 12 →
  mmu_walk (vm_mem w) t va (k :: levels) r =
  match walk (vm_mem w) (root_paddr sp) (q ++ [(va / 2 ^ k) mod 512]) with
  | Some t' => mmu_walk (vm_mem w) t' va levels (mk_rights (r_write r) false (r_nx r))
  | None => None
  end.
Proof using HI HN HL.
  intros Hq Hl Hw Hk. rewrite walk_snoc, Hw. cbn [mmu_walk]. set (i := (va / 2 ^ k) mod 512).
  assert (Hi : idx_ok i) by (apply Z.mod_pos_bound; lia).
  unfold entry_next. rewrite (HN q t i), (proj2 (Z.eqb_neq k 12)) by done. simpl.
  destruct (present (pt_entry (vm_mem w) t i)) eqn:Hp; simpl; [|done].
  destruct (HL q t i) as [n ->]; [done..|]. by rewrite table_entry_rights.
Qed.

(** The last level. *)
Lemma mmu_walk_last t va r :
  mmu_walk (vm_mem w) t va [12] (mk_rights r false false) =
  let e := pt_entry (vm_mem w) t ((va / 2 ^ 12) mod 512) in
  if present e
  then Some (mk_tr (Z.land e VMM_PTE_ADDR_MASK + va mod 4096)
               (mk_rights (r && Z.testbit e 1) false (Z.testbit e 63)) (Z.testbit e 8))
  else None.
Proof.
  cbn [mmu_walk]. set (e := pt_entry _ _ _). change (2 ^ 12) with 4096 at 2.
  rewrite addr_mask_page, Z.sub_0_r. by destruct (present e).
Qed.

Lemma mmu_translate_lookup va :
  vmm_read_cr3 (vm_cpu w) = root_paddr sp → in64 va → canonical va = true →
  mmu_translate w va =
  (λ e, supervisor_only (pte_translation e (va mod 4096))) <$> lookup_pte (sp := sp) w (page_of va).
Proof using HI HN HL.
  intros Hcr Hva Hc. unfold mmu_translate. rewrite Hc, Hcr.
  destruct (root_ok w HI) as [[Hr Ha]%frame_range _]. rewrite land_addr_mask by done.
  unfold lookup_pte, leaf, va_path, idx_pml4, idx_pdpt, idx_pd, idx_pt.
  rewrite !page_of_index by (done || lia).
  set (i1 := (va / 2 ^ 39) mod 512). set (i2 := (va / 2 ^ 30) mod 512).
  set (i3 := (va / 2 ^ 21) mod 512).
  assert (HF : ∀ k, idx_ok ((va / 2 ^ k) mod 512)) by (intros k; apply Z.mod_pos_bound; lia).
  assert (P0 : path_ok []) by (by split; [|simpl; lia]).
  assert (P1 : path_ok ([] ++ [i1])) by (apply path_ok_snoc; [done|apply HF|simpl; lia]).
  assert (P2 : path_ok ([i1] ++ [i2])) by (apply path_ok_snoc; [done|apply HF|simpl; lia]).
  rewrite (mmu_walk_upper [] (root_paddr sp) va 39) by (done || (simpl; lia)). fold i1.
  destruct (walk (vm_mem w) (root_paddr sp) ([] ++ [i1])) as [t1|] eqn:E1; simpl in E1.
  2: { by rewrite (walk_app_None _ _ [i1] [i2; i3]). }
  rewrite (mmu_walk_upper [i1] t1 va 30) by (done || (simpl; lia)). fold i2.
  destruct (walk (vm_mem w) (root_paddr sp) ([i1] ++ [i2])) as [t2|] eqn:E2; simpl in E2.
  2: { by rewrite (walk_app_None _ _ [i1; i2] [i3]). }
  rewrite (mmu_walk_upper [i1; i2] t2 va 21) by (done || (simpl; lia)). fold i3. simpl app.
  destruct (walk (vm_mem w) (root_paddr sp) [i1; i2; i3]) as [t3|]; [|done].
  cbn [r_write r_nx full_rights]. rewrite mmu_walk_last. cbv zeta.
  by destruct (present _).
Qed.
End tables.

(** ** The active space under the operations *)
Lemma active_translate w s va :
  active w s → in64 va → mmu_translate w va = supervisor_only <$> as_translate s va.
Proof.
  intros [HR HL Hcr] Hva. unfold as_translate. destruct (canonical va) eqn:Hc.
  - rewrite (rep_pages _ _ HR), <- option_fmap_compose by (by apply page_of_ok).
    apply mmu_translate_lookup; [apply HR|apply HR|done..].
  - unfold mmu_translate. by rewrite Hc.
Qed.

(** The pages an operation has the processor forget. *)
Definition op_invlpg (op : vmm_op) (rc : Z) : list Z :=
  match op with OpUnmap va => if rc =? VMM_MAP_OK then [va] else [] | _ => [] end.

Definition after_invlpg (cp : cpu) (vs : list Z) : cpu :=
  mk_cpu (cr2 cp) (cr3 cp) (invlpg_log cp ++ vs).

Lemma vmm_step_cpu w op o w' :
  pt_inv (sp := sp) w → in64 (op_va op) → vmm_step sp w op = Ret (o, w') →
  vm_cpu w' = after_invlpg (vm_cpu w) (op_invlpg op (fst o)).
Proof.
  intros HI H64. unfold after_invlpg.
  assert (Hsame : ∀ w1 : vm C, vm_cpu w1 = vm_cpu w →
    vm_cpu w1 = mk_cpu (cr2 (vm_cpu w)) (cr3 (vm_cpu w)) (invlpg_log (vm_cpu w) ++ [])).
  { intros w1 ->. rewrite app_nil_r. by destruct (vm_cpu w). }
  destruct op as [va pa fl|va|va]; cbn [vmm_step op_va op_invlpg] in *.
  - destruct (decide (op_accepted (OpMap va pa fl))) as [[Hp Ha]|Hno].
    + destruct (vmm_map_page_lookup w va pa fl HI Hp Ha) as (w1 & -> & _ & Hc & _).
      intros [= <- <-]. by apply Hsame.
    + rewrite map_refused by done. intros [= <- <-]. by apply Hsame.
  - destruct (decide (page_ok va)) as [Hp|Hno].
    + destruct (vmm_unmap_page_lookup w va HI Hp) as (w1 & -> & _ & _ & Hc & _).
      intros [= <- <-]. destruct (lookup_pte w va); [by rewrite Hc|by apply Hsame].
    + rewrite unmap_refused by done. intros [= <- <-]. by apply Hsame.
  - destruct (vmm_query_page _ _ _ _) as [[rc out]| |]; [|done..]. intros [= <- <-]. by apply Hsame.
Qed.

(** A mapping the operation does not invalidate stays as it is. *)
Lemma as_step_keeps s op o s' va e :
  as_step s op o s' → as_pages s !! va = Some e → va ∉ op_invlpg op (fst o) →
  as_pages s' !! va = Some e.
Proof.
  intros Hst He Hva. destruct Hst; simpl in *; try done.
  - rewrite lookup_insert_ne; [done|]. intros ->; congruence.
  - rewrite lookup_delete_ne; [done|]. by set_solver.
Qed.

Lemma vmm_step_active w s op :
  active w s → in64 (op_va op) →
  ∃ o w' s', vmm_step sp w op = Ret (o, w') ∧ as_step s op o s' ∧ active w' s' ∧
    vm_cpu w' = after_invlpg (vm_cpu w) (op_invlpg op (fst o)).
Proof.
  intros [HR HL Hcr] H64.
  destruct (vmm_step_refines w s op HR H64) as (o & w' & s' & E & St & R' & G).
  assert (Hcpu := vmm_step_cpu w op o w' (rep_inv _ _ HR) H64 E).
  exists o, w', s'. split_and!; [done|done| |done].
  split; [done|by apply G|by rewrite Hcpu].
Qed.

Lemma vmm_run_active w s ops :
  active w s → Forall (λ op, in64 (op_va op)) ops →
  ∃ os w' s', vmm_run sp w ops = Ret (os, w') ∧ as_run s ops os s' ∧ active w' s'.
Proof.
  intros HA HF. revert w s HA. induction HF as [|op ops Hop _ IH]; intros w s HA; simpl.
  { do 3 eexists. split; [done|]. by split; [constructor|]. }
  destruct (vmm_step_active w s op HA Hop) as (o & w1 & s1 & -> & St & A1 & _). simpl.
  destruct (IH w1 s1 A1) as (os & w2 & s2 & -> & St2 & A2). simpl.
  do 3 eexists. split; [done|]. by split; [econstructor|].
Qed.

(** Loading CR3 with the root makes the space the active one. *)
Definition load_cr3 (w : vm C) (value : Z) : vm C :=
  mk_vm (vm_ctx w) (vm_mem w) (vmm_write_cr3 (vm_cpu w) value).

Lemma load_cr3_active w s :
  represents (sp := sp) w s → table_links (sp := sp) (vm_mem w) →
  active (load_cr3 w (root_paddr sp)) s.
Proof. intros [HI HN HP HF] HL. split; [|done|done]. split; [|done..]. by destruct HI. Qed.

(** ** The translation cache *)

(** The machine: what the module sees, and the cached translations by page. *)
Record hw : Type := mk_hw {
  hw_vm : vm C;
  hw_tlb : gmap Z translation;
}.

Definition tlb_invlpg (T : gmap Z translation) (vs : list Z) : gmap Z translation :=
  foldr (λ v, delete (page_of v)) T vs.

(** The addresses given to [invlpg] on the way from [w] to [w']. *)
Definition new_invlpg (w w' : vm C) : list Z :=
  drop (length (invlpg_log (vm_cpu w))) (invlpg_log (vm_cpu w')).

(** The processor may cache the translation of any page at any time, used or
    not, and may drop one; a CR3 load keeps the global ones only; the calls
    remove what they give to [invlpg]. *)
Inductive hw_step : hw → hw → Prop :=
| hw_fill w T va tr :
    page_ok va → mmu_translate w va = Some tr →
    hw_step (mk_hw w T) (mk_hw w (<[va := tr]> T))
| hw_evict w T va :
    hw_step (mk_hw w T) (mk_hw w (delete va T))
| hw_reload w T :
    hw_step (mk_hw w T)
      (mk_hw (load_cr3 w (vmm_read_cr3 (vm_cpu w))) (filter (λ kv, tr_global (snd kv) = true) T))
| hw_call w T op o w' :
    in64 (op_va op) → vmm_step sp w op = Ret (o, w') →
    hw_step (mk_hw w T) (mk_hw w' (tlb_invlpg T (new_invlpg w w'))).

(** Nothing the cache holds differs from the tables. *)
Record hw_inv (h : hw) : Prop := {
  hi_active : ∃ s, active (hw_vm h) s;
  hi_tlb : ∀ va tr, hw_tlb h !! va = Some tr →
    page_ok va ∧ mmu_translate (hw_vm h) va = Some tr;
}.

Lemma tlb_invlpg_lookup T vs va tr :
  tlb_invlpg T vs !! va = Some tr → T !! va = Some tr ∧ va ∉ page_of <$> vs.
Proof.
  induction vs as [|v vs IH]; simpl; [set_solver|].
  rewrite lookup_delete_Some. intros [Hne [? ?]%IH]. set_solver.
Qed.

Lemma tlb_invlpg_empty vs : tlb_invlpg ∅ vs = ∅.
Proof. induction vs as [|v vs IH]; simpl; [done|]. by rewrite IH, delete_empty. Qed.

Lemma new_invlpg_after w w' vs :
  vm_cpu w' = after_invlpg (vm_cpu w) vs → new_invlpg w w' = vs.
Proof. unfold new_invlpg. intros ->. simpl. apply drop_app_length. Qed.

(** A cached page that is not invalidated keeps its translation. *)
Lemma call_translate w s op o w' s' va tr :
  active w s → active w' s' → as_step s op o s' → page_ok va →
  va ∉ op_invlpg op (fst o) → mmu_translate w va = Some tr → mmu_translate w' va = Some tr.
Proof.
  intros HA HA' Hst Hva Hn. assert (H64 : in64 va) by apply Hva.
  rewrite (active_translate w s), (active_translate w' s') by done.
  unfold as_translate. rewrite page_of_page, page_ok_canonical by done.
  destruct (as_pages s !! va) as [e|] eqn:He; [|done].
  by rewrite (as_step_keeps s op o s' va e Hst He Hn).
Qed.

Lemma hw_step_inv h h' : hw_step h h' → hw_inv h → hw_inv h'.
Proof.
  intros Hst [[s HA] HT]. destruct Hst as [w T va tr Hp Htr|w T va|w T|w T op o w' H64 E]; simpl in *.
  - split; [by exists s|]. simpl. intros va' tr'.
    rewrite lookup_insert_Some. intros [[<- <-]|[_ ?]]; auto.
  - split; [by exists s|]. simpl. intros va' tr'. rewrite lookup_delete_Some. intros [_ ?]. auto.
  - assert (Hw : load_cr3 w (vmm_read_cr3 (vm_cpu w)) = w) by (by destruct w as [? ? []]).
    rewrite Hw. split; [by exists s|]. simpl. intros va' tr'.
    rewrite map_lookup_filter_Some. intros [? _]. auto.
  - destruct (vmm_step_active w s op HA H64) as (o' & w2 & s' & E' & Hs & HA' & Hcpu).
    rewrite E in E'. injection E' as <- <-.
    split; [by exists s'|]. simpl. intros va tr.
    rewrite (new_invlpg_after _ _ _ Hcpu). intros [HTv Hn]%tlb_invlpg_lookup.
    destruct (HT va tr HTv) as [Hp Htr]. split; [done|].
    apply (call_translate w s op o w' s'); [done..| |done]. intros Hin. apply Hn.
    rewrite <- (page_of_page va) by done. by apply list_elem_of_fmap_2.
Qed.

Lemma hw_reach_inv h h' : rtc hw_step h h' → hw_inv h → hw_inv h'.
Proof. induction 1; eauto using hw_step_inv. Qed.

Lemma hw_start_inv w0 s0 h : active w0 s0 → rtc hw_step (mk_hw w0 ∅) h → hw_inv h.
Proof.
  intros HA HR. apply (hw_reach_inv _ _ HR). split; [by exists s0|].
  intros va tr HT. simpl in HT. by rewrite lookup_empty in HT.
Qed.

(** A successful map gives the page its translation. *)
Lemma map_translate w s va pa fl w' :
  active w s → op_accepted (OpMap va pa fl) →
  vmm_map_page (Some sp) w va pa fl = Ret (VMM_MAP_OK, w') →
  pt_inv (sp := sp) w' ∧ lookup_pte (sp := sp) w' va = Some (pte_of pa fl) ∧
  ∀ off, 0 ≤ off < 4096 →
    mmu_translate w' (va + off) = Some (supervisor_only (pte_translation (pte_of pa fl) off)).
Proof.
  intros HA [Hp Ha] E.
  destruct (vmm_step_active w s (OpMap va pa fl) HA) as (o & w2 & s' & E' & Hs & HA' & _);
    [exact (proj1 Hp)|]. cbn [vmm_step] in E'. rewrite E in E'. cbn in E'. injection E' as <- <-.
  inversion Hs; subst. assert (HL : as_pages (mk_aspace (<[va:=pte_of pa fl]> A) a') !! va = Some (pte_of pa fl))
    by apply lookup_insert_eq.
  split; [apply HA'|]. split; [by rewrite <- (rep_pages _ _ (act_rep _ _ HA'))|].
  intros off Hoff. destruct (page_offset va off Hp Hoff) as (H64 & Hc & Hpo & Hm).
  rewrite (active_translate w' _ _ HA' H64). unfold as_translate. by rewrite Hc, Hpo, Hm, HL.
Qed.

(** A successful unmap removes the translation. *)
Lemma unmap_translate w s va w' :
  active w s → page_ok va → vmm_unmap_page (Some sp) w va = Ret (VMM_MAP_OK, w') →
  mmu_translate w' va = None.
Proof.
  intros HA Hp E. destruct (vmm_step_active w s (OpUnmap va) HA) as (o & w2 & s' & E' & Hs & HA' & _);
    [exact (proj1 Hp)|]. cbn [vmm_step] in E'. rewrite E in E'. cbn in E'. injection E' as <- <-.
  rewrite (active_translate w' s') by (done || exact (proj1 Hp)). unfold as_translate.
  rewrite page_of_page, page_ok_canonical by done.
  inversion Hs; subst. simpl. by rewrite lookup_delete_eq.
Qed.
End mmu.

Arguments hw C : clear implicits.

(** A zeroed root links no table. *)
Lemma empty_links {C} {sp : vmm_space C} `{FS : !FrameSource sp} (w : vm C) :
  (∀ i, idx_ok i → pt_entry (sp := sp) (vm_mem w) (root_paddr sp) i = 0) →
  table_links (sp := sp) (vm_mem w).
Proof.
  intros Hz q t i [HF _] _ Hw Hi. destruct q as [|j q].
  - injection Hw as <-. by rewrite Hz.
  - apply Forall_cons in HF as [Hj _]. simpl in Hw. by rewrite Hz in Hw.
Qed.
