(* ===== verification/MmuTheorems.v ===== *)
(** * The processor's view of the page tables: theorems

    Stated against any [FrameSource] and instantiated at the space of
    [VmmPmm.v] whose frames come from the physical memory manager. *)

From stdpp Require Import relations.
From S2P Require Import Prelude Mem Pmm PmmProofs PmmTheorems.
From S2P Require Import Vmm VmmInterface VmmProofs VmmSpecs VmmPmm VmmTheorems Mmu.

Section theorems.
Context {C : Type} {sp : vmm_space C} `{FS : !FrameSource sp}.

(** C9: Once CR3 holds the root of a space, any sequence of vmm_map_page, vmm_unmap_page and vmm_query_page calls leaves tables that the processor's four-level walk reads as the abstract address space the same calls produce: for every 64-bit byte address the walk faults exactly where no page is mapped and otherwise finds the frame, the offset and the write, no-execute and global flags given to vmm_map_page, the user permission excepted, which it never grants. *)
Theorem vmm_run_hardware (w : vm C) (s : aspace) (ops : list vmm_op) :
  represents (sp := sp) w s → table_links (sp := sp) (vm_mem w) →
  Forall (λ op, in64 (op_va op)) ops →
  ∃ os w' s', vmm_run sp (load_cr3 w (root_paddr sp)) ops = Ret (os, w') ∧
    as_run s ops os s' ∧
    ∀ va, in64 va → mmu_translate (sp := sp) w' va = supervisor_only <$> as_translate s' va.
Proof.
  intros HR HL HF.
  destruct (vmm_run_active _ s ops (load_cr3_active w s HR HL) HF) as (os & w' & s' & E & Hr & HA).
  exists os, w', s'. split_and!; [done..|]. intros va Hva. by apply active_translate.
Qed.

(** C10: The translation cache never holds a translation the tables do not have: whatever the processor caches or drops between the calls, vmm_map_page only fills entries that were absent, which are not cached, and vmm_unmap_page executes invlpg for the one page it takes away; so when an unmap returns success the page is in neither the tables nor the cache. *)
Theorem tlb_coherent (w0 w : vm C) (s0 : aspace) (T : gmap Z translation) :
  active (sp := sp) w0 s0 → rtc (hw_step (sp := sp)) (mk_hw w0 ∅) (mk_hw w T) →
  (∀ va tr, T !! va = Some tr → mmu_translate (sp := sp) w va = Some tr) ∧
  ∀ va w', page_ok va → vmm_unmap_page (Some sp) w va = Ret (VMM_MAP_OK, w') →
    tlb_invlpg T (new_invlpg w w') !! va = None ∧ mmu_translate (sp := sp) w' va = None.
Proof.
  intros HA HR.
  assert (HH : hw_inv (sp := sp) (mk_hw w T)) by (by apply (hw_start_inv w0 s0)).
  destruct (hi_active _ HH) as [s Hs].
  split; [intros va tr Hva; by apply (hi_tlb _ HH)|]. intros va w' Hp E.
  assert (Hcall : hw_step (sp := sp) (mk_hw w T) (mk_hw w' (tlb_invlpg T (new_invlpg w w')))).
  { apply (hw_call w T (OpUnmap va) (VMM_MAP_OK, None)); [exact (proj1 Hp)|]. cbn [vmm_step]. by rewrite E. }
  destruct (hw_step_inv _ _ Hcall HH) as [_ HT']. simpl in HT'.
  assert (Hnone : mmu_translate (sp := sp) w' va = None) by (by apply (unmap_translate w s)).
  split; [|done]. destruct (_ !! va) as [tr|] eqn:ET; [|done].
  destruct (HT' va tr ET). congruence.
Qed.

(** C32: A page mapped with VMM_PTE_USER is reported as a user page by vmm_query_page, but every access to it from user mode faults, because the tables on the way to it are linked without VMM_PTE_USER; from supervisor mode it reads as the frame it was given. *)
Theorem user_mapping_supervisor_only (w w' : vm C) (s : aspace) (va pa fl off : Z) (o : vmm_mapping)
    (write fetch : bool) :
  active (sp := sp) w s → page_ok va → vmm_is_aligned_4k pa = true → 0 ≤ pa < 2 ^ 52 →
  Z.testbit fl 2 = true → 0 ≤ off < 4096 →
  vmm_map_page (Some sp) w va pa fl = Ret (VMM_MAP_OK, w') →
  (∃ f, vmm_query_page (Some sp) w' va (Some o) = Ret (VMM_MAP_OK, Some (mk_mapping va pa f)) ∧
     Z.land f VMM_PTE_USER = VMM_PTE_USER) ∧
  mmu_access (sp := sp) w' (va + off) true write fetch = None ∧
  mmu_access (sp := sp) w' (va + off) false false false = Some (pa + off).
Proof.
  intros HA Hp Ha Hr Hu Hoff E.
  assert (Hm : pa mod 4096 = 0) by (rewrite aligned_4k in Ha; by apply Z.eqb_eq).
  destruct (map_translate w s va pa fl w' HA (conj Hp Ha) E) as (HI & HL & HT).
  unfold mmu_access. rewrite (vmm_query_page_spec w' va o HI Hp), HL, HT by done.
  unfold pte_translation, supervisor_only. cbn [tr_paddr tr_rights r_write r_user r_nx].
  rewrite pte_of_addr by done. split_and!; [|done|done].
  rewrite pte_of_flags. eexists. split; [done|]. bits_ext n.
  change VMM_PTE_PRESENT with (2 ^ 0). change VMM_PTE_USER with (2 ^ 2).
  rewrite Z.land_spec, Z.lor_spec, Z.land_spec, !Z.pow2_bits_eqb by lia.
  destruct (Z.eqb_spec 2 n) as [<-|]; [by rewrite Hu|apply andb_false_r].
Qed.
End theorems.

(** ** The theorems at the demonstration machine *)
Lemma demo_links : table_links (sp := demo_sp) (vm_mem demo_vm).
Proof. apply empty_links, demo_root_zero. Qed.

Lemma vmm_run_hardware_witness :
  ∃ os w' s', vmm_run demo_sp (load_cr3 demo_vm demo_root) demo_vmm_ops = Ret (os, w') ∧
    as_run (mk_aspace ∅ 8) demo_vmm_ops os s' ∧
    mmu_translate (sp := demo_sp) w' demo_va = supervisor_only <$> as_translate s' demo_va.
Proof.
  destruct (vmm_run_hardware (sp := demo_sp) demo_vm (mk_aspace ∅ 8) demo_vmm_ops demo_represents
    demo_links demo_vmm_ops_ok) as (os & w' & s' & E & R & HT).
  exists os, w', s'. split; [exact E|]. split; [exact R|]. apply HT. exact (proj1 demo_va_page).
Defined.

(** The space is made active, a page is mapped, and its translation is cached. *)
Definition demo_active : vm pmm_state := load_cr3 demo_vm demo_root.

Lemma demo_active_ok : active (sp := demo_sp) demo_active (mk_aspace ∅ 8).
Proof. exact (load_cr3_active demo_vm _ demo_represents demo_links). Qed.

Lemma demo_map_user :
  ∃ w', vmm_map_page (Some demo_sp) demo_active demo_va 0x7000 VMM_PTE_USER = Ret (VMM_MAP_OK, w').
Proof.
  assert (HI : pt_inv (sp := demo_sp) demo_active) by apply demo_active_ok.
  destruct (vmm_map_page_lookup (sp := demo_sp) demo_active demo_va 0x7000 VMM_PTE_USER HI demo_va_page
              eq_refl) as (w' & E & _).
  assert (HN : no_huge (sp := demo_sp) (vm_mem demo_active)) by apply demo_active_ok.
  pose proof (map_rc_cases demo_active demo_va HI HN) as Hrc.
  destruct (act_rep _ _ demo_active_ok) as [_ _ HP HF].
  rewrite <- HP in Hrc by apply demo_va_page. cbn [as_pages] in Hrc. rewrite lookup_empty in Hrc.
  destruct Hrc as [Hrc|[_ Hlt]].
  - rewrite Hrc in E. by exists w'.
  - cbn [as_frames] in HF. rewrite <- HF in Hlt. lia.
Qed.

Lemma user_mapping_supervisor_only_witness :
  ∃ w', vmm_map_page (Some demo_sp) demo_active demo_va 0x7000 VMM_PTE_USER = Ret (VMM_MAP_OK, w') ∧
    mmu_access (sp := demo_sp) w' (demo_va + 5) true false false = None ∧
    mmu_access (sp := demo_sp) w' (demo_va + 5) false false false = Some 0x7005.
Proof.
  destruct demo_map_user as [w' E]. exists w'. split; [exact E|].
  apply (user_mapping_supervisor_only (sp := demo_sp) demo_active w' (mk_aspace ∅ 8) demo_va 0x7000
    VMM_PTE_USER 5 (mk_mapping 0 0 0) false false demo_active_ok demo_va_page); [done|lia|done|lia|exact E].
Defined.

Lemma tlb_coherent_witness :
  ∃ w tr, mmu_translate (sp := demo_sp) w demo_va = Some tr ∧
    rtc (hw_step (sp := demo_sp)) (mk_hw demo_active ∅) (mk_hw w {[demo_va := tr]}).
Proof.
  destruct demo_map_user as [w' E].
  destruct (map_translate demo_active (mk_aspace ∅ 8) demo_va 0x7000 VMM_PTE_USER w' demo_active_ok
    (conj demo_va_page eq_refl) E) as (_ & _ & HT). specialize (HT 0).
  rewrite Z.add_0_r in HT.
  set (tr := supervisor_only (pte_translation (pte_of 0x7000 VMM_PTE_USER) 0)) in HT.
  assert (HR : rtc (hw_step (sp := demo_sp)) (mk_hw demo_active ∅) (mk_hw w' {[demo_va := tr]})).
  { eapply rtc_l; [apply (hw_call demo_active ∅ (OpMap demo_va 0x7000 VMM_PTE_USER) (VMM_MAP_OK, None) w')|].
    - exact (proj1 demo_va_page).
    - cbn [vmm_step]. by rewrite E.
    - replace (tlb_invlpg ∅ _) with (∅ : gmap Z translation); [|symmetry; apply tlb_invlpg_empty].
      apply rtc_once. rewrite <- (insert_empty demo_va tr). apply hw_fill; [apply demo_va_page|].
      apply HT. lia. }
  exists w', tr. split; [|exact HR].
  apply (tlb_coherent (sp := demo_sp) demo_active w' (mk_aspace ∅ 8) {[demo_va := tr]} demo_active_ok HR).
  apply lookup_singleton_eq.
Defined.
