(* ===== verification/VmmOrder.v ===== *)
(** * The virtual memory manager, store by store

    The processor walks the tables whenever it likes, also in the middle of a
    call.  The definitions of this file are those of [Vmm.v] with the memory
    recorded after every store to a table, oldest first, and erase to them
    ([map_page_erase]); so what the processor can see between two stores of
    [vmm_map_page] is a fact about the recorded memories. *)

From S2P Require Import Prelude Mem Pmm PmmProofs PmmTheorems.
From S2P Require Import Vmm VmmInterface VmmProofs VmmSpecs VmmPmm VmmTheorems Mmu MmuTheorems.

(** The memories after the stores made so far. *)
Abbreviation trace := (list mem).

Definition set_entry_tr (m : mem) (tr : trace) (table index v : Z) : outcome (mem * trace) :=
  m ← set_entry m table index v;
  Ret (m, tr ++ [m]).

Definition zero_step_tr (page : Z) (s : mem * trace * Z) : outcome (mem * trace * Z + mem * trace) :=
  let '(m, tr, i) := s in
  if negb (i <? VMM_ENTRIES_PER_TABLE) then Ret (inr (m, tr))
  else
    ' (m, tr) ← set_entry_tr m tr page i 0;
    Ret (inl (m, tr, i + 1)).

Definition zero_page_tr (m : mem) (tr : trace) (page : Z) : outcome (mem * trace) :=
  loop 513 (zero_step_tr page) (m, tr, 0).
Arguments zero_page_tr : simpl never.

Section order.
Context {C : Type}.

Definition next_table_tr (sp : vmm_space C) (w : vm C) (tr : trace) (table index out : Z)
  : outcome (Z * Z * vm C * trace) :=
  entry ← get_entry (vm_mem w) table index;
  if negb (Z.land entry VMM_PTE_PRESENT =? 0) then
    if negb (Z.land entry VMM_PTE_HUGE =? 0) then Ret (VMM_ERR_EXISTS, out, w, tr)
    else
      next ← table_from_phys (Some sp) w (Z.land entry VMM_PTE_ADDR_MASK);
      if next =? 0 then Ret (VMM_ERR_INVAL, out, w, tr)
      else Ret (VMM_MAP_OK, next, w, tr)
  else
    match alloc_frame sp with
    | None => Ret (VMM_ERR_NOMEM, out, w, tr)
    | Some alloc =>
        ' (new_paddr, c, m) ← alloc (ctx sp) (vm_ctx w) (vm_mem w);
        let w := mk_vm c m (vm_cpu w) in
        if (new_paddr =? VMM_INVALID_PHYS) || negb (vmm_is_aligned_4k new_paddr)
        then Ret (VMM_ERR_NOMEM, out, w, tr)
        else
          new_table ← table_from_phys (Some sp) w new_paddr;
          if new_table =? 0 then
            match free_frame sp with
            | None => Ret (VMM_ERR_INVAL, out, w, tr)
            | Some free =>
                ' (c, m) ← free (ctx sp) (vm_ctx w) (vm_mem w) new_paddr;
                Ret (VMM_ERR_INVAL, out, mk_vm c m (vm_cpu w), tr)
            end
          else
            ' (m, tr) ← zero_page_tr (vm_mem w) tr new_table;
            ' (m, tr) ← set_entry_tr m tr table index
                  (Z.lor (Z.lor (Z.land new_paddr VMM_PTE_ADDR_MASK) VMM_PTE_PRESENT)
                     VMM_PTE_WRITABLE);
            Ret (VMM_MAP_OK, new_table, set_mem w m, tr)
    end.

Definition map_page_tr (space : option (vmm_space C)) (w : vm C) (vaddr paddr flags : Z)
  : outcome (Z * vm C * trace) :=
  match space with
  | None => Ret (VMM_ERR_INVAL, w, [])
  | Some sp =>
      if negb (vmm_is_canonical vaddr) || negb (vmm_is_aligned_4k vaddr)
         || negb (vmm_is_aligned_4k paddr)
      then Ret (VMM_ERR_INVAL, w, [])
      else
        pml4 ← table_from_phys space w (root_paddr sp);
        if pml4 =? 0 then Ret (VMM_ERR_INVAL, w, [])
        else
          ' (rc, pdpt, w, tr) ← next_table_tr sp w [] pml4 (idx_pml4 vaddr) 0;
          if negb (rc =? VMM_MAP_OK) then Ret (rc, w, tr)
          else
            ' (rc, pd, w, tr) ← next_table_tr sp w tr pdpt (idx_pdpt vaddr) 0;
            if negb (rc =? VMM_MAP_OK) then Ret (rc, w, tr)
            else
              ' (rc, pt, w, tr) ← next_table_tr sp w tr pd (idx_pd vaddr) 0;
              if negb (rc =? VMM_MAP_OK) then Ret (rc, w, tr)
              else
                let pti := idx_pt vaddr in
                e ← get_entry (vm_mem w) pt pti;
                if negb (Z.land e VMM_PTE_PRESENT =? 0) then Ret (VMM_ERR_EXISTS, w, tr)
                else
                  ' (m, tr) ← set_entry_tr (vm_mem w) tr pt pti
                        (Z.lor (Z.lor (Z.land paddr VMM_PTE_ADDR_MASK) VMM_PTE_PRESENT)
                           (Z.land flags allowed));
                  Ret (VMM_MAP_OK, set_mem w m, tr)
  end.
End order.

Arguments next_table_tr : simpl never.
Arguments map_page_tr : simpl never.

(** ** Erasure *)

(** An outcome without its trace. *)
Definition erase {A} (o : outcome (A * trace)) : outcome A := ' (a, _) ← o; Ret a.

(** Two computations that agree up to the trace agree up to the trace after the
    same continuation. *)
Lemma erase_bind {A B} (o : outcome (A * trace)) (p : outcome A)
    (f : A * trace → outcome (B * trace)) (g : A → outcome B) :
  erase o = p → (∀ a tr, erase (f (a, tr)) = g a) → erase (x ← o; f x) = (a ← p; g a).
Proof. intros <- Hf. destruct o as [[a tr]| |]; [|done..]. apply Hf. Qed.

Lemma erase_bind_pure {A B} (o : outcome A) (f : A → outcome (B * trace)) (g : A → outcome B) :
  (∀ a, erase (f a) = g a) → erase (a ← o; f a) = (a ← o; g a).
Proof. intros Hf. destruct o; [|done..]. apply Hf. Qed.

Lemma set_entry_erase m tr t i v : erase (set_entry_tr m tr t i v) = set_entry m t i v.
Proof. unfold set_entry_tr. by destruct (set_entry m t i v). Qed.

Lemma zero_loop_erase page fuel : ∀ m tr i,
  erase (loop fuel (zero_step_tr page) (m, tr, i)) = loop fuel (zero_step page) (m, i).
Proof.
  induction fuel as [|fuel IH]; intros m tr i; [done|]. rewrite !loop_unfold.
  cbn [zero_step_tr zero_step]. destruct (negb _); [done|]. unfold set_entry_tr.
  destruct (set_entry m page i 0); [|done..]. cbn. apply IH.
Qed.

Lemma zero_page_erase m tr page : erase (zero_page_tr m tr page) = vmm_zero_page m page.
Proof. apply zero_loop_erase. Qed.

Section erase.
Context {C : Type}.

Lemma next_table_erase (sp : vmm_space C) w tr t i out :
  erase (next_table_tr sp w tr t i out) = get_or_alloc_next_table sp w t i out.
Proof.
  unfold next_table_tr, get_or_alloc_next_table. apply erase_bind_pure. intros e.
  destruct (negb _).
  { destruct (negb _); [done|]. apply erase_bind_pure. intros t'. by destruct (_ =? 0). }
  destruct (alloc_frame sp) as [alloc|]; [|done]. apply erase_bind_pure. intros [[n c] m].
  destruct (_ || _); [done|]. apply erase_bind_pure. intros t'. destruct (_ =? 0).
  { destruct (free_frame sp) as [free|]; [|done]. apply erase_bind_pure. by intros [c' m']. }
  apply erase_bind; [apply zero_page_erase|]. intros m' tr'.
  apply erase_bind; [apply set_entry_erase|]. done.
Qed.

Lemma map_page_erase (space : option (vmm_space C)) w va pa fl :
  erase (map_page_tr space w va pa fl) = vmm_map_page space w va pa fl.
Proof.
  unfold map_page_tr, vmm_map_page. destruct space as [sp|]; [|done].
  destruct (_ || _); [done|]. apply erase_bind_pure. intros pml4. destruct (_ =? 0); [done|].
  do 3 (apply erase_bind; [apply next_table_erase|]; intros [[? ?] ?] ?; destruct (negb _); [done|]).
  apply erase_bind_pure. intros e. destruct (negb _); [done|].
  apply erase_bind; [apply set_entry_erase|]. done.
Qed.
End erase.

(** ** What the processor sees *)
Section view.
Context {C : Type} {sp : vmm_space C} `{FS : !FrameSource sp}.

(** The tables of the module, in use by the processor. *)
Record tables (w : vm C) : Prop := {
  tb_inv : pt_inv (sp := sp) w;
  tb_huge : no_huge (sp := sp) (vm_mem w);
  tb_links : table_links (sp := sp) (vm_mem w);
  tb_cr3 : vmm_read_cr3 (vm_cpu w) = root_paddr sp;
}.

Lemma active_tables w s : active (sp := sp) w s → tables w.
Proof. intros [[] ? ?]. by split. Qed.

(** With memory [m] the processor translates as it does in [w]. *)
Definition same_view (w : vm C) (m : mem) : Prop :=
  ∀ va, in64 va → mmu_translate (sp := sp) (set_mem w m) va = mmu_translate (sp := sp) w va.

(** Memories that agree on the entries of the tables are walked alike. *)
Lemma mmu_walk_agree m m' va :
  (∀ q t i, path_ok q → walk m (root_paddr sp) q = Some t → idx_ok i →
     pt_entry (sp := sp) m' t i = pt_entry (sp := sp) m t i) →
  ∀ levels q t r, path_ok q → (length q + length levels ≤ 4)%nat →
    walk m (root_paddr sp) q = Some t →
    mmu_walk (sp := sp) m' t va levels r = mmu_walk (sp := sp) m t va levels r.
Proof.
  intros HE levels. induction levels as [|k levels IH]; intros q t r Hq Hl Hw; [done|].
  cbn [mmu_walk]. set (i := (va / 2 ^ k) mod 512).
  assert (Hi : idx_ok i) by (apply Z.mod_pos_bound; lia).
  rewrite (HE q t i) by done. set (e := pt_entry m t i).
  destruct (present e) eqn:Hp; simpl; [|done]. destruct ((k =? 12) || _); [done|].
  destruct (huge e) eqn:Hh; [done|]. destruct levels as [|k' levels]; [done|]. simpl in Hl.
  apply (IH (q ++ [i])); [apply path_ok_snoc; [done..|lia]|rewrite length_app; simpl; lia|].
  rewrite walk_snoc, Hw. unfold entry_next. fold e. by rewrite Hp, Hh.
Qed.

(** Writes to a frame that is no table yet are not seen. *)
Lemma fresh_view w n m :
  tables w → frame_ok n → ¬ owned (vm_ctx w) n → wrote (p2v n) 4096 (vm_mem w) m → same_view w m.
Proof.
  intros [HI HN HL Hcr] Hn Hfr HW va Hva. unfold mmu_translate. destruct (canonical va); [|done].
  cbn [set_mem vm_mem vm_cpu]. rewrite Hcr.
  destruct (root_ok w HI) as [[Hr Ha]%frame_range _]. rewrite land_addr_mask by done.
  apply (mmu_walk_agree (vm_mem w) m va) with (q := []);
    [|by split; [|simpl; lia]|simpl; lia|done].
  intros q t i Hq Hw Hi. destruct (pi_table w HI q t Hq Hw) as [Hok Hown].
  apply (pt_entry_window _ _ n); [done..| |done]. by intros ->.
Qed.

(** Neither is a change that keeps every last-level entry. *)
Lemma pt_same_tables w w' : tables w → pt_same (sp := sp) w w' → tables w'.
Proof.
  intros [HI HN HL Hcr] [[] _ Hc]. split; [done|auto|auto|by rewrite Hc].
Qed.

Lemma pt_same_view w w' va :
  tables w → pt_same (sp := sp) w w' → in64 va →
  mmu_translate (sp := sp) w' va = mmu_translate (sp := sp) w va.
Proof.
  intros HT HS Hva. assert (HT' := pt_same_tables w w' HT HS).
  destruct (canonical va) eqn:Hc; [|unfold mmu_translate; by rewrite Hc].
  destruct HT as [HI HN HL Hcr], HT' as [HI' HN' HL' Hcr'].
  rewrite (mmu_translate_lookup w HI HN HL va), (mmu_translate_lookup w' HI' HN' HL' va) by done.
  f_equal. apply HS; [done|apply va_path_ok|apply idx_pt_ok].
Qed.

(** ** The stores of a call *)
Lemma set_entry_tr_inv m tr t i v m' tr' :
  set_entry_tr m tr t i v = Ret (m', tr') → set_entry m t i v = Ret m' ∧ tr' = tr ++ [m'].
Proof. unfold set_entry_tr. destruct (set_entry m t i v); [|done..]. by intros [= <- <-]. Qed.

Lemma zero_page_tr_spec m tr page :
  mapped m page 4096 →
  ∃ m' ms, zero_page_tr m tr page = Ret (m', tr ++ ms) ∧ Forall (wrote page 4096 m) ms.
Proof.
  intros Hm.
  assert (∃ r, zero_page_tr m tr page = Ret r ∧ ∃ ms, r.2 = tr ++ ms ∧ Forall (wrote page 4096 m) ms)
    as ([m' tr'] & E & ms & Htr & HF).
  2: { exists m', ms. simpl in Htr. by rewrite E, Htr. }
  apply (loop_rule (zero_step_tr page)
    (λ s, 0 ≤ s.2 ≤ 512 ∧ wrote page 4096 m s.1.1 ∧
          ∃ ms, s.1.2 = tr ++ ms ∧ Forall (wrote page 4096 m) ms)
    _ (λ s, Z.to_nat (512 - s.2))).
  2: { simpl. split_and!; [lia|lia|apply wrote_refl|]. exists []. by rewrite app_nil_r. }
  2: { simpl. lia. }
  intros [[m1 tr1] i] (Hi & HW & ms & Htr & HF). simpl in *. subst tr1. unfold VMM_ENTRIES_PER_TABLE.
  destruct (Z.ltb_spec i 512); simpl; [|by eexists; split; [done|exists ms]].
  unfold set_entry_tr, set_entry.
  destruct (store64_wrote m1 (page + 8 * i) 0) as (m2 & -> & W2 & _).
  { apply HW. eapply mapped_sub; [done|lia..]. } { done. }
  assert (HW2 : wrote page 4096 m m2).
  { eapply wrote_trans; [done|]. eapply wrote_weaken; [done|lia..]. }
  simpl. eexists. split; [done|]. simpl. split; [|lia]. split_and!; [lia|lia|done|].
  exists (ms ++ [m2]). rewrite app_assoc. split; [done|]. by rewrite Forall_app, Forall_singleton.
Qed.

Lemma next_table_tr_stores w tr q t i out rc out' w' tr' :
  tables w → path_ok q → (length q ≤ 2)%nat → idx_ok i →
  walk (vm_mem w) (root_paddr sp) q = Some t →
  next_table_tr sp w tr (p2v t) i out = Ret (rc, out', w', tr') →
  pt_same (sp := sp) w w' →
  ∃ ms, tr' = tr ++ ms ∧ Forall (same_view w) ms.
Proof.
  intros HT Hq Hl Hi Hwalk E HS. assert (HI : pt_inv (sp := sp) w) by apply HT.
  destruct (pi_table w HI q t Hq Hwalk) as [Ht Hto].
  unfold next_table_tr in E. destruct (get_entry_Ret w HI t i Ht Hi) as [Ee _].
  rewrite Ee in E. cbn [obind] in E. clear Ee.
  assert (Hnil : tr' = tr → ∃ ms, tr' = tr ++ ms ∧ Forall (same_view w) ms).
  { intros ->. exists []. by rewrite app_nil_r. }
  destruct (negb _) in E.
  { destruct (negb _) in E; [by apply Hnil; injection E|].
    destruct (table_from_phys _ _ _) as [nx| |] in E; [|done..]. cbn [obind] in E.
    destruct (nx =? 0); apply Hnil; by injection E. }
  destruct alloc_frame_law as (f & Ef & Hf). rewrite Ef in E.
  destruct (Hf (vm_ctx w) (vm_mem w)) as (n & c1 & m1 & Ea & Hc1 & Hcase); [apply HI..|].
  rewrite Ea in E. cbn [obind] in E.
  destruct Hcase as [(_ & -> & _)|(Ha & Hn & Hfr & W1 & Ho)].
  { cbn in E. apply Hnil. by injection E. }
  destruct (_ || _) in E; [apply Hnil; by injection E|].
  rewrite table_from_phys_Ret in E by done. cbn [obind] in E. rewrite p2v_eqb in E by done.
  destruct (zero_page_tr_spec m1 tr (p2v n)) as (m2 & ms & Ez & HF).
  { eapply wrote_frames; [done|apply HI|done]. }
  cbn [vm_mem] in E. rewrite Ez in E. cbn [obind] in E.
  apply bind_Ret_inv in E as ([m3 tr3] & [_ ->]%set_entry_tr_inv & E). injection E as <- <- <- <-.
  exists (ms ++ [m3]). split; [by rewrite app_assoc|].
  rewrite Forall_app, Forall_singleton. split.
  - eapply Forall_impl; [exact HF|]. intros m Hm. apply (fresh_view w n m HT); [done..|].
    by eapply wrote_trans.
  - intros va Hva. exact (pt_same_view w _ va HT HS Hva).
Qed.

(** One call after another: the tables stay, and so does what is seen. *)
Record unseen (w : vm C) (tr : trace) (w' : vm C) (tr' : trace) : Prop := {
  un_tables : tables w';
  un_same : ∀ va, in64 va → mmu_translate (sp := sp) w' va = mmu_translate (sp := sp) w va;
  un_cpu : vm_cpu w' = vm_cpu w;
  un_stores : ∃ ms, tr' = tr ++ ms ∧ Forall (same_view w) ms;
}.

Lemma unseen_trans w1 tr1 w2 tr2 w3 tr3 :
  unseen w1 tr1 w2 tr2 → unseen w2 tr2 w3 tr3 → unseen w1 tr1 w3 tr3.
Proof.
  intros [T2 S2 C2 (ms & -> & F2)] [T3 S3 C3 (ms' & -> & F3)]. split; [done| |congruence|].
  - intros va Hva. by rewrite S3, S2.
  - exists (ms ++ ms'). split; [by rewrite app_assoc|]. rewrite Forall_app. split; [done|].
    eapply Forall_impl; [exact F3|]. intros m Hm va Hva. rewrite <- S2 by done.
    rewrite <- Hm by done. unfold mmu_translate. simpl. by rewrite C2.
Qed.

Lemma erase_inv {A} (o : outcome (A * trace)) a : erase o = Ret a → ∃ tr, o = Ret (a, tr).
Proof. destruct o as [[b tr]| |]; [|done..]. intros [= ->]. by exists tr. Qed.

(** One level of the descent. *)
Lemma next_table_tr_unseen w tr q t i rc out w' tr' :
  tables w → path_ok q → (length q ≤ 2)%nat → idx_ok i →
  walk (vm_mem w) (root_paddr sp) q = Some t →
  next_table_tr sp w tr (p2v t) i 0 = Ret (rc, out, w', tr') →
  unseen w tr w' tr' ∧
  (rc = VMM_MAP_OK → ∃ n, out = p2v n ∧ walk (vm_mem w') (root_paddr sp) (q ++ [i]) = Some n).
Proof.
  intros HT Hq Hl Hi Hw E.
  destruct (next_table_ok w q t i 0 (tb_inv _ HT) Hq Hl Hi Hw) as (o1 & w1 & E1 & HS & _ & _ & HR).
  rewrite <- (next_table_erase sp w tr), E in E1. cbn in E1. injection E1 as -> -> ->.
  split.
  - split; [by eapply pt_same_tables|intros va Hva; by apply pt_same_view|apply HS|].
    by eapply next_table_tr_stores.
  - intros Hrc. destruct (HR Hrc) as (_ & n & -> & Hn & _). eauto.
Qed.

Lemma bind_level {R} w0 tr0 w tr q t i (k : Z * Z * vm C * trace → outcome R) r :
  unseen w0 tr0 w tr → path_ok (q ++ [i]) → walk (vm_mem w) (root_paddr sp) q = Some t →
  (x ← next_table_tr sp w tr (p2v t) i 0; k x) = Ret r →
  ∃ rc out w' tr', k (rc, out, w', tr') = Ret r ∧ unseen w0 tr0 w' tr' ∧
    (rc = VMM_MAP_OK → ∃ n, out = p2v n ∧ walk (vm_mem w') (root_paddr sp) (q ++ [i]) = Some n).
Proof.
  intros U (Hq & Hi & Hl)%path_ok_snoc_inv Hw ([[[rc out] w'] tr'] & E & Hk)%bind_Ret_inv.
  destruct (next_table_tr_unseen w tr q t i rc out w' tr' (un_tables _ _ _ _ U) Hq Hl Hi Hw E)
    as [U' HR].
  exists rc, out, w', tr'. split_and!; [done|by eapply unseen_trans|done].
Qed.

Lemma unseen_refl w : tables w → unseen w [] w [].
Proof. intros HT. split; [done..|]. by exists []. Qed.

(** The whole call: only the last store of a successful one is seen. *)
Lemma map_page_tr_stores w va pa fl rc w' tr :
  tables w → page_ok va → vmm_is_aligned_4k pa = true →
  map_page_tr (Some sp) w va pa fl = Ret (rc, w', tr) →
  ∃ ms, Forall (same_view w) ms ∧ (rc ≠ VMM_MAP_OK ∧ tr = ms ∨ rc = VMM_MAP_OK ∧ tr = ms ++ [vm_mem w']).
Proof.
  intros HT Hva Hpa E. destruct (root_ok w (tb_inv _ HT)) as [Hr _].
  unfold map_page_tr in E. rewrite (page_guard va Hva), Hpa in E. cbn [negb orb] in E.
  rewrite table_from_phys_Ret in E by (done || apply HT). cbn [obind] in E.
  rewrite p2v_eqb in E by done.
  assert (Hdone : ∀ w1 tr1, unseen w [] w1 tr1 → rc ≠ VMM_MAP_OK → tr = tr1 →
    ∃ ms, Forall (same_view w) ms ∧ (rc ≠ VMM_MAP_OK ∧ tr = ms ∨ rc = VMM_MAP_OK ∧ tr = ms ++ [vm_mem w'])).
  { intros w1 tr1 [_ _ _ (ms & -> & HF)] Hrc ->. exists ms. auto. }
  assert (P3 : path_ok ([idx_pml4 va; idx_pdpt va] ++ [idx_pd va])) by apply va_path_ok.
  assert (P2 : path_ok ([idx_pml4 va] ++ [idx_pdpt va])) by (by apply path_ok_snoc_inv in P3 as (? & _)).
  assert (P1 : path_ok ([] ++ [idx_pml4 va])) by (by apply path_ok_snoc_inv in P2 as (? & _)).
  apply (bind_level _ _ _ _ _ _ _ _ _ (unseen_refl w HT) P1 eq_refl) in E
    as (rc1 & o1 & w1 & tr1 & E & U1 & R1).
  destruct (Z.eqb_spec rc1 VMM_MAP_OK) as [->|]; cbn [negb] in E;
    [|injection E as <- <- <-; apply (Hdone _ _ U1); done].
  destruct (R1 eq_refl) as (n1 & -> & W1).
  apply (bind_level _ _ _ _ _ _ _ _ _ U1 P2 W1) in E as (rc2 & o2 & w2 & tr2 & E & U2 & R2).
  destruct (Z.eqb_spec rc2 VMM_MAP_OK) as [->|]; cbn [negb] in E;
    [|injection E as <- <- <-; apply (Hdone _ _ U2); done].
  destruct (R2 eq_refl) as (n2 & -> & W2).
  apply (bind_level _ _ _ _ _ _ _ _ _ U2 P3 W2) in E as (rc3 & o3 & w3 & tr3 & E & U3 & R3).
  destruct (Z.eqb_spec rc3 VMM_MAP_OK) as [->|]; cbn [negb] in E;
    [|injection E as <- <- <-; apply (Hdone _ _ U3); done].
  apply bind_Ret_inv in E as (e & _ & E).
  destruct (negb _) in E; [injection E as <- <- <-; apply (Hdone _ _ U3); done|].
  apply bind_Ret_inv in E as ([m3 tr4] & [_ ->]%set_entry_tr_inv & E). injection E as <- <- <-.
  destruct (un_stores _ _ _ _ U3) as (ms & -> & HF). exists ms. split; [done|]. right. by split.
Qed.

(** What a successful call changes. *)
Lemma map_view w s va pa fl w' va' :
  active (sp := sp) w s → op_accepted (OpMap va pa fl) → in64 va' →
  vmm_map_page (Some sp) w va pa fl = Ret (VMM_MAP_OK, w') →
  vm_cpu w' = vm_cpu w ∧
  (mmu_translate (sp := sp) w' va' = mmu_translate (sp := sp) w va' ∨
   page_of va' = va ∧ mmu_translate (sp := sp) w va' = None).
Proof.
  intros HA Hok Hva E. assert (H64 : in64 va) by exact (proj1 (proj1 Hok)).
  destruct (vmm_step_active w s (OpMap va pa fl) HA H64) as (o & w2 & s' & E' & Hs & HA' & Hc).
  cbn [vmm_step] in E'. rewrite E in E'. cbn in E'. injection E' as <- <-.
  split. { rewrite Hc. unfold after_invlpg. simpl. rewrite app_nil_r. by destruct (vm_cpu w). }
  rewrite (active_translate w s), (active_translate w' s') by done. unfold as_translate.
  destruct (canonical va'); [|by left]. inversion Hs; subst. simpl.
  destruct (decide (page_of va' = va)) as [->|Hne]; [right|left].
  - split; [done|]. by match goal with H : _ !! _ = None |- _ => rewrite H end.
  - by rewrite lookup_insert_ne.
Qed.

(** C11: The order of the stores in vmm_map_page is safe against a processor that walks the tables at any moment: a new table is zeroed before it is linked and linked before the page's entry is written, so after each single store every address translates as before the call, except that the last store of a successful call gives the addresses of the mapped page, which had none, their final translation; that store is the last one made. *)
Theorem vmm_map_page_order (w : vm C) (s : aspace) (va pa fl : Z) :
  active (sp := sp) w s → page_ok va → vmm_is_aligned_4k pa = true →
  ∃ rc w' tr, map_page_tr (Some sp) w va pa fl = Ret (rc, w', tr) ∧
    vmm_map_page (Some sp) w va pa fl = Ret (rc, w') ∧
    (rc = VMM_MAP_OK → last tr = Some (vm_mem w')) ∧
    ∀ m va', m ∈ tr → in64 va' →
      mmu_translate (sp := sp) (set_mem w m) va' = mmu_translate (sp := sp) w va' ∨
      rc = VMM_MAP_OK ∧ page_of va' = va ∧ mmu_translate (sp := sp) w va' = None ∧
      mmu_translate (sp := sp) (set_mem w m) va' = mmu_translate (sp := sp) w' va'.
Proof.
  intros HA Hva Hpa. assert (HT := active_tables w s HA).
  destruct (vmm_map_page_lookup w va pa fl (tb_inv _ HT) Hva Hpa) as (w' & E & _).
  destruct (erase_inv (map_page_tr (Some sp) w va pa fl) (map_rc (sp := sp) w va, w')) as [tr Etr];
    [by rewrite map_page_erase|].
  exists (map_rc (sp := sp) w va), w', tr. split; [done|]. split; [done|].
  destruct (map_page_tr_stores w va pa fl _ w' tr HT Hva Hpa Etr) as (ms & HF & Hcase).
  rewrite Forall_forall in HF.
  destruct Hcase as [[Hrc ->]|[Hrc ->]]; [split; [congruence|intros m va' Hm H64; left; by apply HF]|].
  split; [intros _; apply last_snoc|]. intros m va' Hm H64.
  apply elem_of_app in Hm as [Hm|Hm]; [left; by apply HF|]. apply list_elem_of_singleton in Hm as ->.
  rewrite Hrc in E. destruct (map_view w s va pa fl w' va' HA (conj Hva Hpa) H64 E) as [Hc Hv].
  assert (Hw' : mmu_translate (sp := sp) (set_mem w (vm_mem w')) va' = mmu_translate (sp := sp) w' va')
    by (unfold mmu_translate; simpl; by rewrite Hc).
  rewrite Hw'. destruct Hv as [->|[Hp Hn]]; [by left|right]. exact (conj Hrc (conj Hp (conj Hn eq_refl))).
Qed.
End view.

Lemma vmm_map_page_order_witness :
  ∃ w' tr, map_page_tr (Some demo_sp) demo_active demo_va 0x7000 VMM_PTE_USER =
      Ret (VMM_MAP_OK, w', tr) ∧ last tr = Some (vm_mem w') ∧
    ∀ m, m ∈ tr → mmu_translate (sp := demo_sp) (set_mem demo_active m) demo_va2 =
                  mmu_translate (sp := demo_sp) demo_active demo_va2.
Proof.
  destruct demo_map_user as [w1 E1].
  destruct (vmm_map_page_order (sp := demo_sp) demo_active (mk_aspace ∅ 8) demo_va 0x7000 VMM_PTE_USER
    demo_active_ok demo_va_page eq_refl) as (rc & w' & tr & Etr & E & Hl & HT).
  rewrite E1 in E. injection E as <- <-. exists w1, tr.
  split; [exact Etr|]. split; [exact (Hl eq_refl)|]. intros m Hm.
  assert (H64 : in64 demo_va2) by (unfold in64, demo_va2; lia).
  destruct (HT m demo_va2 Hm H64) as [H|(_ & Hp & _)]; [exact H|].
  assert (Hne : page_of demo_va2 ≠ demo_va) by (by vm_compute). by destruct (Hne Hp).
Defined.
