(* ===== verification/Kmem.v ===== *)
(** * The kernel heap: model

    [kernel/mm/kmem.c] with [include/mcsos/kmem.h]: a first-fit allocator over
    one arena, whose block headers live in the arena itself.  Headers are read
    and written in the byte memory of [Mem.v] at the offsets of
    [struct kmem_block] (48 bytes); pointer arithmetic is exact, [size_t]
    arithmetic is modulo 2^64.  The list walks are given one unit of fuel per
    header that fits into the arena. *)

From S2P Require Import Prelude Mem.

Definition KMEM_ALIGN : Z := 16.
Definition KMEM_MAGIC : Z := 0x4d43534f53484541.
Definition KMEM_MIN_SPLIT : Z := 32.
Definition SIZE_MAX : Z := UINT64_MAX.

(** ** [struct kmem_block] *)
Definition sizeof_block : Z := 48.

Definition get_magic (m : mem) (b : Z) : outcome Z := load64 m b.
Definition get_size (m : mem) (b : Z) : outcome Z := load64 m (b + 8).
Definition get_free (m : mem) (b : Z) : outcome Z := load32 m (b + 16).
Definition get_prev (m : mem) (b : Z) : outcome Z := load64 m (b + 32).
Definition get_next (m : mem) (b : Z) : outcome Z := load64 m (b + 40).
Definition set_magic (m : mem) (b v : Z) : outcome mem := store64 m b v.
Definition set_size (m : mem) (b v : Z) : outcome mem := store64 m (b + 8) v.
Definition set_free (m : mem) (b v : Z) : outcome mem := store32 m (b + 16) v.
Definition set_prev (m : mem) (b v : Z) : outcome mem := store64 m (b + 32) v.
Definition set_next (m : mem) (b v : Z) : outcome mem := store64 m (b + 40) v.

(** The module's static variables. *)
Record kmem : Type := mk_kmem {
  g_heap_base : Z;
  g_heap_end : Z;
  g_head : Z;
  g_initialized : Z;
}.

(** Before the first [kmem_init]: zero-initialised statics. *)
Definition kmem_boot : kmem := mk_kmem 0 0 0 0.

(** A bound on the number of headers the arena can hold. *)
Definition heap_fuel (g : kmem) : nat :=
  S (S (Z.to_nat ((g_heap_end g - g_heap_base g) / sizeof_block))).

Definition kmem_align_up_size (value align : Z) : Z :=
  if align =? 0 then value
  else
    let mask := align ⊖ 1 in
    if negb (Z.land align mask =? 0) then 0
    else if SIZE_MAX ⊖ mask <? value then 0
    else Z.land (value ⊕ mask) (not64 mask).

Definition kmem_align_up_ptr (value align : Z) : Z :=
  let mask := align ⊖ 1 in
  if negb (Z.land align mask =? 0) then 0
  else if UINT64_MAX ⊖ mask <? value then 0
  else Z.land (value ⊕ mask) (not64 mask).

Definition memset_step (value : Z) (s : mem * Z * Z) : outcome (mem * Z * Z + mem) :=
  let '(m, p, bytes) := s in
  if negb (0 <? bytes) then Ret (inr m)
  else
    m ← store8 m p (u8 value);
    Ret (inl (m, p + 1, bytes - 1)).

Definition kmem_memset (m : mem) (dst value bytes : Z) : outcome mem :=
  loop (S (Z.to_nat bytes)) (memset_step value) (m, dst, bytes).

Definition kmem_payload (block : Z) : Z := block + sizeof_block.
Definition kmem_header_from_payload (ptr : Z) : Z := ptr - sizeof_block.

Definition kmem_ptr_in_heap (g : kmem) (ptr : Z) : bool :=
  negb (g_initialized g =? 0) && (g_heap_base g <=? ptr) && (ptr <? g_heap_end g).

Definition kmem_split_if_useful (g : kmem) (m : mem) (block wanted : Z) : outcome mem :=
  let header := kmem_align_up_size sizeof_block KMEM_ALIGN in
  if header =? 0 then Ret m
  else
    size ← get_size m block;
    if size <? wanted ⊕ header ⊕ KMEM_MIN_SPLIT then Ret m
    else
      let new_addr := kmem_align_up_ptr (kmem_payload block + wanted) KMEM_ALIGN in
      if new_addr =? 0 then Ret m
      else if g_heap_end g <=? new_addr + sizeof_block then Ret m
      else
        let consumed := new_addr - kmem_payload block in
        if size <=? consumed ⊕ sizeof_block ⊕ KMEM_MIN_SPLIT then Ret m
        else
          m ← set_magic m new_addr KMEM_MAGIC;
          size ← get_size m block;
          m ← set_size m new_addr (size ⊖ consumed ⊖ sizeof_block);
          m ← set_free m new_addr 1;
          m ← set_prev m new_addr block;
          next ← get_next m block;
          m ← set_next m new_addr next;
          next ← get_next m block;
          m ← (if negb (next =? 0) then set_prev m next new_addr else Ret m);
          m ← set_next m block new_addr;
          set_size m block wanted.

Definition coalesce_step (block : Z) (m : mem) : outcome (mem + mem) :=
  if block =? 0 then Ret (inr m)
  else
    next ← get_next m block;
    if next =? 0 then Ret (inr m)
    else
      free ← get_free m next;
      if free =? 0 then Ret (inr m)
      else
        size ← get_size m block;
        let expected := kmem_align_up_ptr (kmem_payload block + size) KMEM_ALIGN in
        if negb (expected =? next) then Ret (inr m)
        else
          nsize ← get_size m next;
          m ← set_size m block (size ⊕ (sizeof_block ⊕ nsize));
          nnext ← get_next m next;
          m ← set_next m block nnext;
          nnext ← get_next m next;
          m ← (if negb (nnext =? 0) then set_prev m nnext block else Ret m);
          m ← set_magic m next 0;
          m ← set_size m next 0;
          m ← set_prev m next 0;
          m ← set_next m next 0;
          Ret (inl m).

Definition kmem_coalesce_forward (g : kmem) (m : mem) (block : Z) : outcome mem :=
  loop (heap_fuel g) (coalesce_step block) m.

(** The walk of [kmem_validate]: [(prev, cursor, guard, cur)]. *)
Definition validate_step (g : kmem) (m : mem) (s : Z * Z * Z * Z)
  : outcome (Z * Z * Z * Z + Z) :=
  let '(prev, cursor, guard, cur) := s in
  if cur =? 0 then Ret (inr 0)
  else
    let guard := guard ⊕ 1 in
    if 1048576 <? guard then Ret (inr (-3))
    else if negb (cur =? cursor) then Ret (inr (-4))
    else if (cur <? g_heap_base g) || (g_heap_end g <? cur + sizeof_block) then Ret (inr (-5))
    else
      magic ← get_magic m cur;
      if negb (magic =? KMEM_MAGIC) then Ret (inr (-6))
      else
        p ← get_prev m cur;
        if negb (p =? prev) then Ret (inr (-7))
        else
          size ← get_size m cur;
          if u64 (g_heap_end g - kmem_payload cur) <? size then Ret (inr (-8))
          else
            let cursor := kmem_align_up_ptr (kmem_payload cur + size) KMEM_ALIGN in
            if (cursor =? 0) || (g_heap_end g <? cursor) then Ret (inr (-9))
            else
              next ← get_next m cur;
              Ret (inl (cur, cursor, guard, next)).

Definition kmem_validate (g : kmem) (m : mem) : outcome Z :=
  if (g_initialized g =? 0) || (g_heap_base g =? 0) || (g_heap_end g <=? g_heap_base g)
     || (g_head g =? 0)
  then Ret (-1)
  else if negb (g_head g =? g_heap_base g) then Ret (-2)
  else loop (heap_fuel g) (validate_step g m) (0, g_heap_base g, 0, g_head g).

Definition kmem_init (g : kmem) (m : mem) (base bytes : Z) : outcome (Z * kmem * mem) :=
  if (base =? 0) || (bytes <? sizeof_block + KMEM_MIN_SPLIT) then Ret (-1, g, m)
  else
    let start := kmem_align_up_ptr base KMEM_ALIGN in
    if (start =? 0) || (start <? base) then Ret (-2, g, m)
    else
      let lost := start ⊖ base in
      if bytes <=? lost ⊕ sizeof_block ⊕ KMEM_MIN_SPLIT then Ret (-3, g, m)
      else
        let usable := bytes ⊖ lost in
        let usable := Z.land usable (not64 (KMEM_ALIGN - 1)) in
        if usable <=? sizeof_block + KMEM_MIN_SPLIT then Ret (-4, g, m)
        else
          let g_head := start in
          m ← set_magic m g_head KMEM_MAGIC;
          m ← set_size m g_head (usable ⊖ sizeof_block);
          m ← set_free m g_head 1;
          m ← set_prev m g_head 0;
          m ← set_next m g_head 0;
          let g := mk_kmem start (start + usable) g_head 1 in
          rc ← kmem_validate g m;
          Ret (rc, g, m).

Definition kalloc_step (g : kmem) (wanted : Z) (s : mem * Z)
  : outcome (mem * Z + Z * mem) :=
  let '(m, cur) := s in
  if cur =? 0 then Ret (inr (0, m))
  else
    magic ← get_magic m cur;
    if negb (magic =? KMEM_MAGIC) then Ret (inr (0, m))
    else
      free ← get_free m cur;
      size ← get_size m cur;
      if negb (free =? 0) && (wanted <=? size) then
        m ← kmem_split_if_useful g m cur wanted;
        m ← set_free m cur 0;
        Ret (inr (kmem_payload cur, m))
      else
        next ← get_next m cur;
        Ret (inl (m, next)).

(** Returns the pointer (0 for null) and the memory. *)
Definition kmem_alloc (g : kmem) (m : mem) (bytes : Z) : outcome (Z * mem) :=
  if (g_initialized g =? 0) || (bytes =? 0) then Ret (0, m)
  else
    let wanted := kmem_align_up_size bytes KMEM_ALIGN in
    if wanted =? 0 then Ret (0, m)
    else loop (heap_fuel g) (kalloc_step g wanted) (m, g_head g).

Definition kmem_calloc (g : kmem) (m : mem) (count bytes : Z) : outcome (Z * mem) :=
  if negb (count =? 0) && (SIZE_MAX / count <? bytes) then Ret (0, m)
  else
    let total := count ⊗ bytes in
    ' (ptr, m) ← kmem_alloc g m total;
    m ← (if negb (ptr =? 0) then kmem_memset m ptr 0 total else Ret m);
    Ret (ptr, m).

Definition kmem_free_checked (g : kmem) (m : mem) (ptr : Z) : outcome (Z * mem) :=
  if ptr =? 0 then Ret (0, m)
  else if negb (kmem_ptr_in_heap g ptr) then Ret (-1, m)
  else if negb (Z.land ptr (KMEM_ALIGN - 1) =? 0) then Ret (-2, m)
  else
    let block := kmem_header_from_payload ptr in
    if negb (kmem_ptr_in_heap g block) then Ret (-3, m)
    else
      magic ← get_magic m block;
      if negb (magic =? KMEM_MAGIC) then Ret (-3, m)
      else
        free ← get_free m block;
        if negb (free =? 0) then Ret (-4, m)
        else
          m ← set_free m block 1;
          m ← kmem_coalesce_forward g m block;
          prev ← get_prev m block;
          m ← (if negb (prev =? 0) then
                 pfree ← get_free m prev;
                 if negb (pfree =? 0) then kmem_coalesce_forward g m prev else Ret m
               else Ret m);
          rc ← kmem_validate g m;
          Ret (rc, m).

Record kmem_stats : Type := mk_stats {
  total_bytes : Z;
  used_bytes : Z;
  free_bytes : Z;
  block_count : Z;
  free_count : Z;
  largest_free : Z;
}.

Definition stats_step (m : mem) (s : kmem_stats * Z) : outcome (kmem_stats * Z + kmem_stats) :=
  let '(o, cur) := s in
  if cur =? 0 then Ret (inr o)
  else
    free ← get_free m cur;
    size ← get_size m cur;
    let o :=
      if negb (free =? 0) then
        mk_stats (total_bytes o) (used_bytes o) (free_bytes o ⊕ size) (block_count o ⊕ 1)
          (free_count o ⊕ 1) (if largest_free o <? size then size else largest_free o)
      else
        mk_stats (total_bytes o) (used_bytes o ⊕ size) (free_bytes o) (block_count o ⊕ 1)
          (free_count o) (largest_free o) in
    next ← get_next m cur;
    Ret (inl (o, next)).

(** [out] is the caller's object ([None] for the null pointer). *)
Definition kmem_get_stats (g : kmem) (m : mem) (out : option kmem_stats)
  : outcome (option kmem_stats) :=
  match out with
  | None => Ret None
  | Some _ =>
      let o := mk_stats 0 0 0 0 0 0 in
      if g_initialized g =? 0 then Ret (Some o)
      else
        o ← loop (heap_fuel g) (stats_step m)
              (mk_stats (u64 (g_heap_end g - g_heap_base g)) 0 0 0 0 0, g_head g);
        Ret (Some o)
  end.

Arguments kmem_memset : simpl never.
Arguments kmem_split_if_useful : simpl never.
Arguments kmem_coalesce_forward : simpl never.
Arguments kmem_validate : simpl never.
Arguments kmem_init : simpl never.
Arguments kmem_alloc : simpl never.
Arguments kmem_calloc : simpl never.
Arguments kmem_free_checked : simpl never.
Arguments kmem_get_stats : simpl never.
Arguments get_magic : simpl never.
Arguments get_size : simpl never.
Arguments get_free : simpl never.
Arguments get_prev : simpl never.
Arguments get_next : simpl never.
Arguments set_magic : simpl never.
Arguments set_size : simpl never.
Arguments set_free : simpl never.
Arguments set_prev : simpl never.
Arguments set_next : simpl never.
Arguments kmem_payload : simpl never.
Arguments kmem_align_up_ptr : simpl never.
Arguments kmem_align_up_size : simpl never.
