(* ===== verification/KmemProofs.v ===== *)
(** * The kernel heap: headers and block lists

    The arena as a list of blocks ([blk]: payload size and state), laid out one
    after the other; [hdr] and [chain] say that the headers in memory describe
    that list, and the lemmas give the effect of splitting and coalescing. *)

From S2P Require Import Prelude Mem Kmem.

(** ** Alignment *)
Lemma align_mask : KMEM_ALIGN ⊖ 1 = Z.ones 4.
Proof. reflexivity. Qed.

Lemma align_up_ptr_small v :
  0 ≤ v ≤ 2 ^ 64 - 16 → kmem_align_up_ptr v KMEM_ALIGN = v + (- v) mod 16.
Proof.
  intros Hv. unfold kmem_align_up_ptr. rewrite align_mask. simpl.
  change (UINT64_MAX ⊖ Z.ones 4) with (2 ^ 64 - 16).
  destruct (Z.ltb_spec (2 ^ 64 - 16) v); [lia|].
  change (Z.ones 4) with 15 at 1. rewrite add64_small by (unfold in64; lia).
  rewrite land_not64_ones by (unfold in64; lia). change (2 ^ 4) with 16. mlia.
Qed.

Lemma align_up_ptr_big v : 2 ^ 64 - 16 < v → kmem_align_up_ptr v KMEM_ALIGN = 0.
Proof.
  intros Hv. unfold kmem_align_up_ptr. rewrite align_mask. simpl.
  change (UINT64_MAX ⊖ Z.ones 4) with (2 ^ 64 - 16).
  destruct (Z.ltb_spec (2 ^ 64 - 16) v); [done|lia].
Qed.

Lemma align_up_ptr_id v :
  0 ≤ v < 2 ^ 64 → v mod 16 = 0 → kmem_align_up_ptr v KMEM_ALIGN = v.
Proof. intros Hv Ha. rewrite align_up_ptr_small; mlia. Qed.

Lemma align_up_size_spec v :
  in64 v → kmem_align_up_size v KMEM_ALIGN = if decide (v ≤ 2 ^ 64 - 16) then v + (- v) mod 16 else 0.
Proof.
  intros Hv. change (kmem_align_up_size v KMEM_ALIGN) with (kmem_align_up_ptr v KMEM_ALIGN).
  case_decide; [apply align_up_ptr_small|apply align_up_ptr_big]; unfold in64 in *; lia.
Qed.

(** ** Headers *)
Abbreviation blk := (Z * bool)%type.

Definition b2z (b : bool) : Z := if b then 1 else 0.

(** The header at [a] reads as given. *)
Record hdr (m : mem) (a s : Z) (f : bool) (p n : Z) : Prop := {
  h_magic : load64 m a = Ret KMEM_MAGIC;
  h_size : load64 m (a + 8) = Ret s;
  h_free : load32 m (a + 16) = Ret (b2z f);
  h_prev : load64 m (a + 32) = Ret p;
  h_next : load64 m (a + 40) = Ret n;
}.

Definition in_hdr (a x : Z) : Prop := a ≤ x < a + 48.

Lemma hdr_ext m m' a s f p n :
  (∀ x, in_hdr a x → m' !! x = m !! x) → hdr m a s f p n → hdr m' a s f p n.
Proof.
  intros H []. unfold in_hdr, load64, load32 in *.
  split; unfold load64, load32;
    (rewrite (load_le_ext _ m m'); [done|intros; apply H; simpl in *; lia]).
Qed.

Lemma hdr_changed (P : Z → Prop) m m' a s f p n :
  changed P m m' → (∀ x, in_hdr a x → ¬ P x) → hdr m a s f p n → hdr m' a s f p n.
Proof. intros Hc Hd. apply hdr_ext. intros x Hx. apply Hc. by apply Hd. Qed.

(** Reading through earlier writes: peel every write that misses the word. *)
Ltac frame_loads :=
  repeat match goal with
  | L : load64 ?m ?a = Ret _ |- load64 ?m ?a = Ret _ => exact L
  | L : load32 ?m ?a = Ret _ |- load32 ?m ?a = Ret _ => exact L
  | W : wrote ?c ?k ?m ?m' |- load64 ?m' ?b = Ret _ =>
      rewrite (load64_outside c k b m m' W) by lia
  | W : wrote ?c ?k ?m ?m' |- load32 ?m' ?b = Ret _ =>
      rewrite (load32_outside c k b m m' W) by lia
  end.

Section update.
Context (m : mem) (a s : Z) (f : bool) (p n : Z).
Context (H : hdr m a s f p n) (HM : mapped m a 48).

Lemma set_size_hdr v : in64 v →
  ∃ m', set_size m a v = Ret m' ∧ wrote a 48 m m' ∧ hdr m' a v f p n.
Proof using H HM.
  intros Hv. destruct H. destruct (store64_wrote m (a + 8) v) as (m' & E & W & L); [|done|].
  { eapply mapped_sub; [done|lia..]. }
  exists m'. split_and!; [done|eapply wrote_weaken; [done|lia..]|]. split; frame_loads.
Qed.

Lemma set_free_hdr v :
  ∃ m', set_free m a (b2z v) = Ret m' ∧ wrote a 48 m m' ∧ hdr m' a s v p n.
Proof using H HM.
  destruct H. destruct (store32_wrote m (a + 16) (b2z v)) as (m' & E & W & L).
  { eapply mapped_sub; [done|lia..]. } { by destruct v. }
  exists m'. split_and!; [done|eapply wrote_weaken; [done|lia..]|]. split; frame_loads.
Qed.

Lemma set_prev_hdr v : in64 v →
  ∃ m', set_prev m a v = Ret m' ∧ wrote a 48 m m' ∧ hdr m' a s f v n.
Proof using H HM.
  intros Hv. destruct H. destruct (store64_wrote m (a + 32) v) as (m' & E & W & L); [|done|].
  { eapply mapped_sub; [done|lia..]. }
  exists m'. split_and!; [done|eapply wrote_weaken; [done|lia..]|]. split; frame_loads.
Qed.

Lemma set_next_hdr v : in64 v →
  ∃ m', set_next m a v = Ret m' ∧ wrote a 48 m m' ∧ hdr m' a s f p v.
Proof using H HM.
  intros Hv. destruct H. destruct (store64_wrote m (a + 40) v) as (m' & E & W & L); [|done|].
  { eapply mapped_sub; [done|lia..]. }
  exists m'. split_and!; [done|eapply wrote_weaken; [done|lia..]|]. split; frame_loads.
Qed.
End update.

(** Writing a fresh header, and the one [kmem_coalesce_forward] wipes. *)
Lemma new_hdr m a s p n :
  mapped m a 48 → in64 s → in64 p → in64 n →
  ∃ m1 m2 m3 m4 m5, set_magic m a KMEM_MAGIC = Ret m1 ∧ set_size m1 a s = Ret m2 ∧
    set_free m2 a 1 = Ret m3 ∧ set_prev m3 a p = Ret m4 ∧ set_next m4 a n = Ret m5 ∧
    wrote a 48 m m1 ∧ wrote a 48 m m4 ∧ wrote a 48 m m5 ∧ hdr m5 a s true p n.
Proof.
  intros HM Hs Hp Hn.
  assert (HS : ∀ m' c k, wrote a 48 m m' → a ≤ c → c + k ≤ a + 48 → mapped m' c k).
  { intros m' c k W ??. apply W. eapply mapped_sub; [done|lia..]. }
  destruct (store64_wrote m a KMEM_MAGIC) as (m1 & E1 & W1 & L1);
    [by apply HS; [apply wrote_refl|lia..]|done|].
  assert (V1 : wrote a 48 m m1) by (eapply wrote_weaken; [done|lia..]).
  destruct (store64_wrote m1 (a + 8) s) as (m2 & E2 & W2 & L2); [by apply HS; [|lia..]|done|].
  assert (V2 : wrote a 48 m m2) by (eapply wrote_trans; [done|eapply wrote_weaken; [done|lia..]]).
  destruct (store32_wrote m2 (a + 16) 1) as (m3 & E3 & W3 & L3); [by apply HS; [|lia..]|done|].
  assert (V3 : wrote a 48 m m3) by (eapply wrote_trans; [done|eapply wrote_weaken; [done|lia..]]).
  destruct (store64_wrote m3 (a + 32) p) as (m4 & E4 & W4 & L4); [by apply HS; [|lia..]|done|].
  assert (V4 : wrote a 48 m m4) by (eapply wrote_trans; [done|eapply wrote_weaken; [done|lia..]]).
  destruct (store64_wrote m4 (a + 40) n) as (m5 & E5 & W5 & L5); [by apply HS; [|lia..]|done|].
  assert (V5 : wrote a 48 m m5) by (eapply wrote_trans; [done|eapply wrote_weaken; [done|lia..]]).
  exists m1, m2, m3, m4, m5. split_and!; [done..|]. clear V1 V2 V3 V4 V5. split; frame_loads.
Qed.

Lemma wipe_hdr m a s f p n :
  hdr m a s f p n → mapped m a 48 →
  ∃ m1 m2 m3 m4, set_magic m a 0 = Ret m1 ∧ set_size m1 a 0 = Ret m2 ∧
    set_prev m2 a 0 = Ret m3 ∧ set_next m3 a 0 = Ret m4 ∧
    wrote a 48 m m4 ∧ load64 m4 a = Ret 0.
Proof.
  intros _ HM.
  assert (HS : ∀ m' c k, wrote a 48 m m' → a ≤ c → c + k ≤ a + 48 → mapped m' c k).
  { intros m' c k W ??. apply W. eapply mapped_sub; [done|lia..]. }
  destruct (store64_wrote m a 0) as (m1 & E1 & W1 & L1);
    [by apply HS; [apply wrote_refl|lia..]|done|].
  assert (V1 : wrote a 48 m m1) by (eapply wrote_weaken; [done|lia..]).
  destruct (store64_wrote m1 (a + 8) 0) as (m2 & E2 & W2 & L2); [by apply HS; [|lia..]|done|].
  assert (V2 : wrote a 48 m m2) by (eapply wrote_trans; [done|eapply wrote_weaken; [done|lia..]]).
  destruct (store64_wrote m2 (a + 32) 0) as (m3 & E3 & W3 & L3); [by apply HS; [|lia..]|done|].
  assert (V3 : wrote a 48 m m3) by (eapply wrote_trans; [done|eapply wrote_weaken; [done|lia..]]).
  destruct (store64_wrote m3 (a + 40) 0) as (m4 & E4 & W4 & L4); [by apply HS; [|lia..]|done|].
  assert (V4 : wrote a 48 m m4) by (eapply wrote_trans; [done|eapply wrote_weaken; [done|lia..]]).
  exists m1, m2, m3, m4. split_and!; [done..|]. clear V1 V2 V3 V4. frame_loads.
Qed.

(** A header elsewhere survives a write into another header. *)
Lemma hdr_wrote m m' c a s f p n :
  wrote c 48 m m' → a + 48 ≤ c ∨ c + 48 ≤ a → hdr m a s f p n → hdr m' a s f p n.
Proof. intros W Hd. apply hdr_ext. intros x Hx. apply W. unfold in_hdr in Hx. lia. Qed.

(** Where a block may lie. *)
Record blk_at (m : mem) (b s : Z) : Prop := {
  ba_addr : 32 ≤ b;
  ba_align : b mod 16 = 0;
  ba_size : 0 < s;
  ba_smod : s mod 16 = 0;
  ba_end : b + 48 + s < 2 ^ 64;
  ba_mapped : mapped m b (48 + s);
}.

Lemma blk_at_wrote m m' c k b s : wrote c k m m' → blk_at m b s → blk_at m' b s.
Proof. intros W []. split; [done..|]. by apply W. Qed.

(** What follows the block at [b]: nothing, or the next header, adjacent to it. *)
Definition follower (m : mem) (b s n : Z) : Prop :=
  n = 0 ∨ n = b + 48 + s ∧ mapped m n 48 ∧ n + 48 < 2 ^ 64 ∧ ∃ s2 f2 n2, hdr m n s2 f2 b n2.

(** Redirecting the back link of the header at [n], when there is one. *)
Lemma relink m n b c :
  n = 0 ∨ mapped m n 48 ∧ (∃ s f n2, hdr m n s f b n2) → in64 c →
  ∃ m', (if negb (n =? 0) then set_prev m n c else Ret m) = Ret m' ∧
    changed (λ x, n ≠ 0 ∧ in_hdr n x) m m' ∧
    (n ≠ 0 → ∀ s f n2, hdr m n s f b n2 → hdr m' n s f c n2).
Proof.
  intros Hn Hc. destruct (Z.eqb_spec n 0) as [->|Hn0]; simpl.
  { exists m. split_and!; [done|apply changed_refl|done]. }
  destruct Hn as [?|(HM & s & f & n2 & Hh)]; [done|].
  destruct (set_prev_hdr m n s f b n2 Hh HM c Hc) as (m' & -> & W & H').
  exists m'. split_and!; [done|eapply wrote_changed; [done|]; by intros|].
  intros _ s' f' n2' Hh'. destruct Hh, Hh', H'. split; [done|congruence..|done|congruence].
Qed.

(** ** Splitting *)
Definition hdr_zone (b c n x : Z) : Prop := in_hdr b x ∨ in_hdr c x ∨ (n ≠ 0 ∧ in_hdr n x).

Lemma split_noop g m b s p n w :
  hdr m b s true p n → blk_at m b s → 0 < w ≤ s → w mod 16 = 0 → s ≤ w + 80 →
  kmem_split_if_useful g m b w = Ret m.
Proof.
  intros H [] Hw Hm Hs. unfold kmem_split_if_useful.
  change (kmem_align_up_size sizeof_block KMEM_ALIGN) with 48. simpl.
  unfold get_size. rewrite (h_size _ _ _ _ _ _ H). simpl.
  unfold sizeof_block, KMEM_MIN_SPLIT, kmem_payload, sizeof_block.
  words. if_split; [done|].
  rewrite align_up_ptr_id by mlia. replace (b + 48 + w - (b + 48)) with w by lia. words.
  destruct (Z.leb_spec s (w + 48 + 32)); [by repeat if_split|lia].
Qed.

Lemma split_some g m b s p n w :
  hdr m b s true p n → blk_at m b s → follower m b s n → in64 p →
  0 < w → w mod 16 = 0 → w + 80 < s → b + 48 + s ≤ g_heap_end g →
  ∃ m', kmem_split_if_useful g m b w = Ret m' ∧
    changed (hdr_zone b (b + 48 + w) n) m m' ∧
    hdr m' b w true p (b + 48 + w) ∧ hdr m' (b + 48 + w) (s - w - 48) true b n ∧
    (n ≠ 0 → ∀ s2 f2 n2, hdr m n s2 f2 b n2 → hdr m' n s2 f2 (b + 48 + w) n2).
Proof.
  intros H [] Hn Hp Hw Hm Hs He. unfold kmem_split_if_useful.
  change (kmem_align_up_size sizeof_block KMEM_ALIGN) with 48. simpl.
  unfold get_size, get_next. rewrite (h_size _ _ _ _ _ _ H). simpl.
  unfold sizeof_block, KMEM_MIN_SPLIT, kmem_payload, sizeof_block.
  words. destruct (Z.ltb_spec s (w + 48 + 32)); [lia|].
  rewrite align_up_ptr_id by mlia. set (c := b + 48 + w).
  destruct (Z.eqb_spec c 0); [lia|]. destruct (Z.leb_spec (g_heap_end g) (c + 48)); [lia|].
  replace (c - (b + 48)) with w by lia. words.
  destruct (Z.leb_spec s (w + 48 + 32)); [lia|].
  assert (Hn64 : in64 n) by (unfold in64; destruct Hn as [->|(-> & _ & ? & _)]; lia).
  destruct (new_hdr m c (s - w - 48) b n) as (m1 & m2 & m3 & m4 & m5 & -> & E2 & E3 & E4 & E5 & W1 & W4 & W5 & H5).
  { eapply mapped_sub; [exact ba_mapped0|lia..]. } { unfold in64. lia. } { unfold in64. lia. } { done. }
  assert (Hb1 : hdr m1 b s true p n) by (eapply hdr_wrote; [exact W1|lia|done]).
  assert (Hb4 : hdr m4 b s true p n) by (eapply hdr_wrote; [exact W4|lia|done]).
  assert (Hb5 : hdr m5 b s true p n) by (eapply hdr_wrote; [exact W5|lia|done]).
  simpl. rewrite (h_size _ _ _ _ _ _ Hb1). simpl.
  words. rewrite E2. simpl. rewrite E3. simpl. rewrite E4. simpl.
  rewrite (h_next _ _ _ _ _ _ Hb4). simpl. rewrite E5. simpl.
  rewrite (h_next _ _ _ _ _ _ Hb5). simpl.
  destruct (relink m5 n b c) as (m6 & -> & C6 & Hf6); [|unfold in64; lia|].
  { destruct Hn as [?|(? & ? & ? & s2 & f2 & n2 & Hh)]; [by left|right].
    split; [by apply W5|]. exists s2, f2, n2. eapply hdr_wrote; [exact W5|lia|done]. }
  assert (Hd : n = 0 ∨ n = b + 48 + s) by (unfold follower in Hn; tauto).
  assert (Hb6 : hdr m6 b s true p n)
    by (eapply hdr_changed; [exact C6| |done]; unfold in_hdr; intros; lia).
  assert (Hc6 : hdr m6 c (s - w - 48) true b n)
    by (eapply hdr_changed; [exact C6| |done]; unfold in_hdr; intros; lia). simpl.
  assert (M6 : mapped m6 b 48).
  { apply C6, W5. eapply mapped_sub; [exact ba_mapped0|lia..]. }
  destruct (set_next_hdr m6 b s true p n Hb6 M6 c) as (m7 & -> & W7 & Hb7); [unfold in64; lia|]. simpl.
  destruct (set_size_hdr m7 b s true p c Hb7) with (v := w) as (m8 & -> & W8 & Hb8);
    [by apply W7|unfold in64; lia|].
  exists m8. split_and!; [done| |done| |].
  - eapply changed_trans; [eapply wrote_changed; [exact W5|]|eapply changed_trans;
      [eapply changed_mono; [exact C6|]|eapply changed_trans; eapply wrote_changed; [exact W7| |exact W8|]]];
      intros i Hi; unfold hdr_zone, in_hdr in *; tauto.
  - do 2 (eapply hdr_wrote; [eassumption|lia|]). done.
  - intros Hn0 s2 f2 n2 Hh. destruct Hn as [?|(Hna & _)]; [done|].
    do 2 (eapply hdr_wrote; [eassumption|lia|]). apply Hf6; [done|].
    eapply hdr_wrote; [exact W5|lia|done].
Qed.

(** ** Coalescing *)
Lemma coalesce_step_merge m b s f p n s2 n2 :
  hdr m b s f p n → n = b + 48 + s → hdr m n s2 true b n2 →
  blk_at m b s → blk_at m n s2 → follower m n s2 n2 → in64 p →
  ∃ m', coalesce_step b m = Ret (inl m') ∧
    changed (hdr_zone b n n2) m m' ∧ hdr m' b (s + 48 + s2) f p n2 ∧ load64 m' n = Ret 0 ∧
    (n2 ≠ 0 → ∀ s3 f3 n3, hdr m n2 s3 f3 n n3 → hdr m' n2 s3 f3 b n3).
Proof.
  intros Hb Hn Hh [] Bn Hf Hp. unfold coalesce_step.
  destruct (Z.eqb_spec b 0); [lia|]. unfold get_next, get_free, get_size.
  rewrite (h_next _ _ _ _ _ _ Hb). simpl. destruct (Z.eqb_spec n 0); [lia|].
  rewrite (h_free _ _ _ _ _ _ Hh). simpl. rewrite (h_size _ _ _ _ _ _ Hb). simpl.
  unfold kmem_payload, sizeof_block. rewrite align_up_ptr_id by (lia || mlia).
  rewrite <- Hn, Z.eqb_refl. simpl. rewrite (h_size _ _ _ _ _ _ Hh). simpl.
  pose proof (ba_end _ _ _ Bn). pose proof (ba_size _ _ _ Bn). words.
  assert (MB : mapped m b 48) by (eapply mapped_sub; [exact ba_mapped0|lia..]).
  assert (MN : mapped m n 48) by (eapply mapped_sub; [exact (ba_mapped _ _ _ Bn)|lia..]).
  assert (Hn2 : n2 = 0 ∨ n2 = n + 48 + s2) by (unfold follower in Hf; tauto).
  assert (Hn64 : in64 n2) by (unfold in64; destruct Hf as [->|(-> & _ & ? & _)]; lia).
  destruct (set_size_hdr m b s f p n Hb MB (s + (48 + s2))) as (m1 & -> & W1 & Hb1);
    [unfold in64; lia|]. simpl.
  assert (Hh1 : hdr m1 n s2 true b n2) by (eapply hdr_wrote; [exact W1|lia|done]).
  rewrite (h_next _ _ _ _ _ _ Hh1). simpl.
  destruct (set_next_hdr m1 b _ f p n Hb1) with (v := n2) as (m2 & -> & W2 & Hb2);
    [by apply W1|done|]. simpl.
  assert (Hh2 : hdr m2 n s2 true b n2) by (eapply hdr_wrote; [exact W2|lia|done]).
  rewrite (h_next _ _ _ _ _ _ Hh2). simpl.
  assert (W12 : wrote b 48 m m2) by (by eapply wrote_trans).
  destruct (relink m2 n2 n b) as (m3 & -> & C3 & Hf3); [|unfold in64; lia|].
  { destruct Hf as [?|(? & ? & ? & s3 & f3 & n3 & H3)]; [by left|right].
    split; [by apply W12|]. exists s3, f3, n3. eapply hdr_wrote; [exact W12|lia|done]. }
  simpl.
  assert (Hb3 : hdr m3 b (s + (48 + s2)) f p n2)
    by (eapply hdr_changed; [exact C3| |done]; unfold in_hdr; intros; lia).
  assert (Hh3 : hdr m3 n s2 true b n2)
    by (eapply hdr_changed; [exact C3| |done]; unfold in_hdr; intros; lia).
  destruct (wipe_hdr m3 n s2 true b n2 Hh3) as (m4 & m5 & m6 & m7 & -> & E5 & E6 & E7 & W7 & L7).
  { by apply C3, W12. }
  simpl. rewrite E5. simpl. rewrite E6. simpl. rewrite E7. simpl.
  exists m7. split_and!; [done| | |done|].
  - eapply changed_trans; [eapply wrote_changed; [exact W12|]|eapply changed_trans;
      [eapply changed_mono; [exact C3|]|eapply wrote_changed; [exact W7|]]];
      intros i Hi; unfold hdr_zone, in_hdr in *; tauto.
  - replace (s + 48 + s2) with (s + (48 + s2)) by lia. eapply hdr_wrote; [exact W7|lia|done].
  - intros Hn20 s3 f3 n3 H3. eapply hdr_wrote; [exact W7|lia|]. apply Hf3; [done|].
    eapply hdr_wrote; [exact W12|lia|done].
Qed.

Lemma coalesce_step_stop m b s f p n :
  hdr m b s f p n → b ≠ 0 → (n = 0 ∨ ∃ s2 n2, hdr m n s2 false b n2) →
  coalesce_step b m = Ret (inr m).
Proof.
  intros Hb Hb0 Hn. unfold coalesce_step. destruct (Z.eqb_spec b 0); [done|].
  unfold get_next, get_free. rewrite (h_next _ _ _ _ _ _ Hb). simpl.
  destruct (Z.eqb_spec n 0); [done|]. destruct Hn as [?|(s2 & n2 & H2)]; [done|].
  by rewrite (h_free _ _ _ _ _ _ H2).
Qed.
