(* ===== verification/KmemBlocks.v ===== *)
(** * The kernel heap: block lists

    [chain m p a bs z]: starting at address [a], memory holds the headers of the
    blocks [bs], doubly linked; [p] is the back link of the first header and [z]
    the forward link of the last one. *)

From S2P Require Import Prelude Mem Kmem KmemProofs.

Fixpoint end_of (a : Z) (bs : list blk) : Z :=
  match bs with [] => a | (s, _) :: bs => end_of (a + 48 + s) bs end.

Fixpoint last_of (p a : Z) (bs : list blk) : Z :=
  match bs with [] => p | (s, _) :: bs => last_of a (a + 48 + s) bs end.

(** The forward link to the blocks [bs], which start at [a]. *)
Definition link_to (a : Z) (bs : list blk) (z : Z) : Z := match bs with [] => z | _ => a end.

Fixpoint chain (m : mem) (p a : Z) (bs : list blk) (z : Z) : Prop :=
  match bs with
  | [] => True
  | (s, f) :: bs => hdr m a s f p (link_to (a + 48 + s) bs z) ∧ chain m a (a + 48 + s) bs z
  end.

(** The header bytes of the blocks, and the payload bytes of the used ones. *)
Fixpoint in_hdrs (a : Z) (bs : list blk) (x : Z) : Prop :=
  match bs with
  | [] => False
  | (s, _) :: bs => in_hdr a x ∨ in_hdrs (a + 48 + s) bs x
  end.

Fixpoint in_used (a : Z) (bs : list blk) (x : Z) : Prop :=
  match bs with
  | [] => False
  | (s, f) :: bs => (f = false ∧ a + 48 ≤ x < a + 48 + s) ∨ in_used (a + 48 + s) bs x
  end.

Definition blk_ok (b : blk) : Prop := 0 < b.1 ∧ b.1 mod 16 = 0.

(** The arena the blocks fill. *)
Record arena (m : mem) (a : Z) (bs : list blk) : Prop := {
  ar_addr : 32 ≤ a;
  ar_align : a mod 16 = 0;
  ar_blocks : Forall blk_ok bs;
  ar_end : end_of a bs < 2 ^ 64;
  ar_mapped : mapped m a (end_of a bs - a);
}.

(** ** Layout *)
Lemma end_of_app a l1 l2 : end_of a (l1 ++ l2) = end_of (end_of a l1) l2.
Proof. revert a. induction l1 as [|[s f] l1 IH]; intros a; simpl; auto. Qed.

Lemma last_of_app p a l1 l2 :
  last_of p a (l1 ++ l2) = last_of (last_of p a l1) (end_of a l1) l2.
Proof. revert p a. induction l1 as [|[s f] l1 IH]; intros p a; simpl; auto. Qed.

Lemma end_of_len a bs : Forall blk_ok bs → a + 64 * Z.of_nat (length bs) ≤ end_of a bs.
Proof.
  intros HF. revert a. induction HF as [|[s f] bs [Hs Hm] _ IH]; intros a; simpl in *; [lia|].
  specialize (IH (a + 48 + s)). assert (16 ≤ s) by mlia. lia.
Qed.

Lemma end_of_align a bs : Forall blk_ok bs → a mod 16 = 0 → end_of a bs mod 16 = 0.
Proof.
  intros HF. revert a. induction HF as [|[s f] bs [Hs Hm] _ IH]; intros a Ha; simpl in *; [done|].
  apply IH. mlia.
Qed.

Lemma end_of_ge a bs : Forall blk_ok bs → a ≤ end_of a bs.
Proof. intros HF. pose proof (end_of_len a bs HF). lia. Qed.

Lemma in_hdrs_range a bs x : Forall blk_ok bs → in_hdrs a bs x → a ≤ x < end_of a bs.
Proof.
  intros HF. revert a. induction HF as [|[s f] bs [Hs Hm] HF IH]; intros a; simpl in *; [done|].
  unfold in_hdr. pose proof (end_of_ge (a + 48 + s) bs HF). intros [?|Hx%IH]; lia.
Qed.

Lemma in_used_range a bs x : Forall blk_ok bs → in_used a bs x → a ≤ x < end_of a bs.
Proof.
  intros HF. revert a. induction HF as [|[s f] bs [Hs Hm] HF IH]; intros a; simpl in *; [done|].
  pose proof (end_of_ge (a + 48 + s) bs HF). intros [?|Hx%IH]; lia.
Qed.

Lemma in_hdrs_app a l1 l2 x :
  in_hdrs a (l1 ++ l2) x ↔ in_hdrs a l1 x ∨ in_hdrs (end_of a l1) l2 x.
Proof. revert a. induction l1 as [|[s f] l1 IH]; intros a; simpl; [tauto|]. rewrite IH. tauto. Qed.

Lemma in_used_app a l1 l2 x :
  in_used a (l1 ++ l2) x ↔ in_used a l1 x ∨ in_used (end_of a l1) l2 x.
Proof. revert a. induction l1 as [|[s f] l1 IH]; intros a; simpl; [tauto|]. rewrite IH. tauto. Qed.

(** A payload byte is no header byte. *)
Lemma used_not_hdr a bs x : Forall blk_ok bs → in_used a bs x → ¬ in_hdrs a bs x.
Proof.
  intros HF. revert a. induction HF as [|[s f] bs [Hs Hm] HF IH]; intros a; simpl in *; [done|].
  unfold in_hdr. intros [[_ Hx]|Hx] [Hy|Hy]; [lia| | |by eapply IH].
  - apply in_hdrs_range in Hy; [lia|done].
  - apply in_used_range in Hx; [lia|done].
Qed.

Lemma arena_app m a l1 l2 :
  arena m a (l1 ++ l2) → arena m a l1 ∧ arena m (end_of a l1) l2.
Proof.
  intros [Ha Hal HF He HM]. rewrite Forall_app in HF. destruct HF as [F1 F2].
  rewrite end_of_app in He, HM. pose proof (end_of_ge a l1 F1).
  pose proof (end_of_ge (end_of a l1) l2 F2). split; split; try done; try lia.
  - eapply mapped_sub; [exact HM|lia..].
  - by apply end_of_align.
  - eapply mapped_sub; [exact HM|lia..].
Qed.

Lemma arena_blk m a s f r : arena m a ((s, f) :: r) → blk_at m a s.
Proof.
  intros [Ha Hal HF He HM]. apply Forall_cons in HF as [[] HF]. simpl in *.
  pose proof (end_of_ge (a + 48 + s) r HF). split; try done; [lia|].
  eapply mapped_sub; [exact HM|lia..].
Qed.

Lemma arena_tail m a s f r : arena m a ((s, f) :: r) → arena m (a + 48 + s) r.
Proof. apply (arena_app m a [(s, f)] r). Qed.

Lemma arena_changed P m m' a bs : changed P m m' → arena m a bs → arena m' a bs.
Proof. intros Hc []. split; [done..|]. by apply Hc. Qed.

(** Replacing blocks by others of the same extent. *)
Lemma arena_replace m a l1 l2 l2' :
  arena m a (l1 ++ l2) → Forall blk_ok l2' → end_of (end_of a l1) l2' = end_of (end_of a l1) l2 →
  arena m a (l1 ++ l2').
Proof.
  intros [Ha Hal HF He HM] HF' Heq. rewrite Forall_app in HF.
  rewrite end_of_app in He, HM. split; [done..| | |].
  - rewrite Forall_app. tauto.
  - by rewrite end_of_app, Heq.
  - by rewrite end_of_app, Heq.
Qed.

(** ** Chains *)
Lemma chain_app m p a l1 l2 z :
  chain m p a (l1 ++ l2) z ↔
  chain m p a l1 (link_to (end_of a l1) l2 z) ∧ chain m (last_of p a l1) (end_of a l1) l2 z.
Proof.
  revert p a. induction l1 as [|[s f] l1 IH]; intros p a; simpl; [tauto|].
  rewrite IH. replace (link_to (a + 48 + s) (l1 ++ l2) z)
    with (link_to (a + 48 + s) l1 (link_to (end_of (a + 48 + s) l1) l2 z)); [tauto|].
  by destruct l1.
Qed.

Lemma chain_ext m m' p a bs z :
  (∀ x, in_hdrs a bs x → m' !! x = m !! x) → chain m p a bs z → chain m' p a bs z.
Proof.
  revert p a. induction bs as [|[s f] bs IH]; intros p a Hx; simpl; [done|].
  intros [Hh Hc]. split.
  - eapply hdr_ext; [|done]. intros x ?. apply Hx. by left.
  - apply IH; [|done]. intros x ?. apply Hx. by right.
Qed.

Lemma chain_changed (P : Z → Prop) m m' p a bs z :
  changed P m m' → (∀ x, in_hdrs a bs x → ¬ P x) → chain m p a bs z → chain m' p a bs z.
Proof. intros Hc HP. apply chain_ext. intros x Hx. apply Hc. by apply HP. Qed.

Lemma chain_follower m p a s f r :
  chain m p a ((s, f) :: r) 0 → arena m a ((s, f) :: r) →
  follower m a s (link_to (a + 48 + s) r 0).
Proof.
  intros [_ Hc] Ha. destruct r as [|[s2 f2] r]; [by left|right]. destruct Hc as [Hh _].
  pose proof (arena_blk _ _ _ _ _ (arena_tail _ _ _ _ _ Ha)) as B2.
  pose proof (ba_end _ _ _ B2). pose proof (ba_size _ _ _ B2).
  simpl. split_and!; [done|eapply mapped_sub; [exact (ba_mapped _ _ _ B2)|lia..]|lia|]. eauto.
Qed.

(** ** Coalescing forward absorbs the free blocks that follow *)
Fixpoint absorb (s : Z) (l : list blk) : Z * list blk :=
  match l with
  | (s2, true) :: r => absorb (s + 48 + s2) r
  | _ => (s, l)
  end.

Lemma absorb_end a s f l : end_of a (((absorb s l).1, f) :: (absorb s l).2) = end_of a ((s, f) :: l).
Proof.
  revert s. induction l as [|[s2 [|]] l IH]; intros s; simpl; [done| |done].
  specialize (IH (s + 48 + s2)). simpl in IH. rewrite IH. f_equal. lia.
Qed.

Lemma absorb_ok s f l :
  Forall blk_ok ((s, f) :: l) → Forall blk_ok (((absorb s l).1, f) :: (absorb s l).2).
Proof.
  revert s. induction l as [|[s2 [|]] l IH]; intros s HF; simpl; [done| |done].
  apply IH. rewrite !Forall_cons in *. destruct HF as ([] & [] & HF). unfold blk_ok; simpl in *.
  split; [|done]. mlia.
Qed.

Lemma chain_merge m m' p a s f s2 r :
  chain m p a ((s, f) :: (s2, true) :: r) 0 → arena m a ((s, f) :: (s2, true) :: r) →
  changed (hdr_zone a (a + 48 + s) (link_to (a + 48 + s + 48 + s2) r 0)) m m' →
  hdr m' a (s + 48 + s2) f p (link_to (a + 48 + s + 48 + s2) r 0) →
  (link_to (a + 48 + s + 48 + s2) r 0 ≠ 0 → ∀ s3 f3 n3,
     hdr m (link_to (a + 48 + s + 48 + s2) r 0) s3 f3 (a + 48 + s) n3 →
     hdr m' (link_to (a + 48 + s + 48 + s2) r 0) s3 f3 a n3) →
  chain m' p a ((s + 48 + s2, f) :: r) 0.
Proof.
  intros (_ & _ & Hc) Ha C H' Hf. simpl.
  replace (a + 48 + (s + 48 + s2)) with (a + 48 + s + 48 + s2) by lia. split; [done|].
  destruct r as [|[s3 f3] r]; [done|]. simpl in *. destruct Hc as [H3 Hc].
  pose proof (arena_tail _ _ _ _ _ (arena_tail _ _ _ _ _ Ha)) as A3.
  pose proof (arena_blk _ _ _ _ _ (arena_tail _ _ _ _ _ Ha)) as [].
  pose proof (arena_blk _ _ _ _ _ Ha) as []. pose proof (arena_blk _ _ _ _ _ A3) as [].
  split; [apply Hf; [lia|done]|]. eapply chain_changed; [exact C| |done].
  intros x Hx%in_hdrs_range; [|apply (ar_blocks _ _ _ (arena_tail _ _ _ _ _ A3))].
  unfold hdr_zone, in_hdr. lia.
Qed.

Lemma coalesce_loop l : ∀ fuel m p a s f,
  chain m p a ((s, f) :: l) 0 → arena m a ((s, f) :: l) → in64 p → (length l < fuel)%nat →
  ∃ m', loop fuel (coalesce_step a) m = Ret m' ∧
    chain m' p a (((absorb s l).1, f) :: (absorb s l).2) 0 ∧
    changed (in_hdrs a ((s, f) :: l)) m m' ∧
    (∀ s2 r, l = (s2, true) :: r → load64 m' (a + 48 + s) = Ret 0).
Proof.
  induction l as [|[s2 f2] l IH]; intros fuel m p a s f Hc Ha Hp Hfuel;
    (destruct fuel as [|fuel]; [lia|]); rewrite loop_unfold; pose proof (arena_blk _ _ _ _ _ Ha) as Bb.
  { destruct Hc as [Hh _]. rewrite (coalesce_step_stop m a s f p 0 Hh) by (destruct Bb; auto with lia).
    exists m. split_and!; [done|done|apply changed_refl|done]. }
  destruct f2.
  2: { pose proof Hc as (Hh & Hh2 & _).
       rewrite (coalesce_step_stop m a s f p _ Hh); [|destruct Bb; lia|eauto].
       exists m. split_and!; [done|done|apply changed_refl|done]. }
  pose proof Hc as (Hh & Hh2 & _).
  destruct (coalesce_step_merge m a s f p (a + 48 + s) s2 (link_to (a + 48 + s + 48 + s2) l 0))
    as (m1 & -> & C1 & H1 & L1 & F1);
    [done|done|done|done|apply (arena_blk _ _ _ _ _ (arena_tail _ _ _ _ _ Ha))| |done|].
  { eapply chain_follower; [exact (proj2 Hc)|by eapply arena_tail]. }
  simpl.
  assert (Hc1 : chain m1 p a ((s + 48 + s2, f) :: l) 0) by (by eapply chain_merge).
  assert (Ha1 : arena m1 a ((s + 48 + s2, f) :: l)).
  { eapply arena_changed; [exact C1|]. apply (arena_replace m a [] ((s, f) :: (s2, true) :: l)); [done| |].
    - pose proof (ar_blocks _ _ _ Ha) as HF. rewrite !Forall_cons in *.
      destruct HF as ([] & [] & HF). unfold blk_ok; simpl in *. split; [|done]. mlia.
    - simpl. f_equal. lia. }
  destruct (IH fuel m1 p a (s + 48 + s2) f Hc1 Ha1 Hp ltac:(simpl in *; lia)) as (m2 & -> & Hc2 & C2 & _).
  pose proof (ar_blocks _ _ _ Ha) as HF. rewrite !Forall_cons in HF. simpl in HF.
  destruct HF as ([? _] & [? _] & HF). simpl in *.
  replace (a + 48 + (s + 48 + s2)) with (a + 48 + s + 48 + s2) in C2 by lia.
  exists m2. split; [done|]. split; [exact Hc2|]. split.
  - eapply changed_trans; [eapply changed_mono; [exact C1|]|eapply changed_mono; [exact C2|]].
    + unfold hdr_zone. intros x Hx. destruct l as [|[s3 f3] l]; simpl in *; tauto.
    + tauto.
  - intros _ _ _. unfold load64. rewrite (load_le_ext 8 m1 m2); [done|].
    intros x Hx. apply C2. unfold in_hdr. intros [?|?%in_hdrs_range]; [lia|lia|done].
Qed.
