(* ===== verification/KmemSpecs.v ===== *)
(** * The kernel heap: specifications of the operations

    The abstract heap is the list of its blocks.  [alloc_blocks] is first fit,
    [merge] restores the coalesced form after a release; the C operations
    compute them on the list that memory represents ([heap_rep]). *)

From S2P Require Import Prelude Mem Kmem KmemProofs KmemBlocks.

(** ** Abstract operations *)
Definition split_blk (s w : Z) (f : bool) : list blk :=
  if w + 80 <? s then [(w, f); (s - w - 48, true)] else [(s, f)].

(** First fit: the payload address and the new blocks. *)
Fixpoint alloc_blocks (a w : Z) (bs : list blk) : option (Z * list blk) :=
  match bs with
  | [] => None
  | (s, f) :: r =>
      if f && (w <=? s) then Some (a + 48, split_blk s w false ++ r)
      else match alloc_blocks (a + 48 + s) w r with
           | Some (q, r') => Some (q, (s, f) :: r')
           | None => None
           end
  end.

Fixpoint merge (bs : list blk) : list blk :=
  match bs with
  | [] => []
  | (s, f) :: r =>
      match f, merge r with
      | true, (s2, true) :: r' => (s + 48 + s2, true) :: r'
      | _, r' => (s, f) :: r'
      end
  end.

Definition head_free (bs : list blk) : bool :=
  match bs with (_, f) :: _ => f | [] => false end.

(** No two free blocks are adjacent. *)
Fixpoint coalesced (bs : list blk) : Prop :=
  match bs with
  | [] => True
  | (_, f) :: r => f && head_free r = false ∧ coalesced r
  end.

(** The request the allocator rounds to. *)
Definition rounded (bytes : Z) : Z := bytes + (- bytes) mod 16.

(** ** The heap memory represents *)
Record heap_rep (g : kmem) (m : mem) (bs : list blk) : Prop := {
  hr_init : g_initialized g = 1;
  hr_head : g_head g = g_heap_base g;
  hr_end : g_heap_end g = end_of (g_heap_base g) bs;
  hr_ne : bs ≠ [];
  hr_arena : arena m (g_heap_base g) bs;
  hr_mem : mem_ok m;
  hr_chain : chain m 0 (g_heap_base g) bs 0;
  hr_coal : coalesced bs;
}.

(** Bytes of the arena that belong to no used payload. *)
Definition free_zone (a : Z) (bs : list blk) (x : Z) : Prop :=
  a ≤ x < end_of a bs ∧ ¬ in_used a bs x.

(** ** Lemmas on block lists *)
Lemma coalesced_app l1 l2 : coalesced (l1 ++ l2) → coalesced l1 ∧ coalesced l2.
Proof.
  induction l1 as [|[s f] l1 IH]; simpl; [done|]. intros [H [H1 H2]%IH].
  split_and!; [|done|done]. destruct l1 as [|[]]; [apply andb_false_r|done].
Qed.

Lemma merge_coalesced bs : coalesced bs → merge bs = bs.
Proof.
  induction bs as [|[s f] r IH]; simpl; [done|]. intros [H Hr]. rewrite IH by done.
  destruct f; [|done]. destruct r as [|[s2 [|]] r]; done.
Qed.

Lemma absorb_coalesced s l :
  coalesced l → merge ((s, true) :: l) = ((absorb s l).1, true) :: (absorb s l).2.
Proof.
  intros Hl. simpl. rewrite merge_coalesced by done.
  destruct l as [|[s2 [|]] l]; simpl; [done| |done].
  destruct Hl as [Hh _]. destruct l as [|[s3 [|]] l]; done.
Qed.

(** Releasing a block: its left neighbour is free or not. *)
Lemma merge_used_left l1 x : coalesced l1 → head_free (reverse l1) = false →
  merge (l1 ++ x) = l1 ++ merge x.
Proof.
  induction l1 as [|[s f] l1 IH]; simpl; [done|]. intros [Hh Hc]. rewrite reverse_cons. intros Hl.
  assert (Hl1 : head_free (reverse l1) = false ∧ (l1 = [] → f = false)).
  { destruct l1 as [|b l1] using rev_ind; simpl in *; [done|].
    rewrite reverse_snoc in *. split; [done|]. intros E. by destruct l1. }
  destruct Hl1 as [Hl1 Hf]. rewrite IH by done. destruct f; [|done].
  destruct l1 as [|[s2 [|]] l1]; simpl in *; [by specialize (Hf eq_refl)|done|done].
Qed.

Lemma alloc_blocks_end a w bs q bs' :
  alloc_blocks a w bs = Some (q, bs') → end_of a bs' = end_of a bs.
Proof.
  revert a q bs'. induction bs as [|[s f] r IH]; intros a q bs'; simpl; [done|].
  destruct (f && (w <=? s)) eqn:E.
  - intros [= <- <-]. unfold split_blk. destruct (w + 80 <? s); simpl; f_equal; lia.
  - destruct (alloc_blocks (a + 48 + s) w r) as [[q' r']|] eqn:Er; [|done].
    intros [= <- <-]. simpl. by eapply IH.
Qed.

Lemma split_blk_ok s w f : blk_ok (s, f) → 0 < w ≤ s → w mod 16 = 0 → Forall blk_ok (split_blk s w f).
Proof.
  intros [Hs Hm] Hw Hwm. unfold split_blk, blk_ok in *; simpl in *.
  destruct (Z.ltb_spec (w + 80) s); repeat constructor; simpl; lia || mlia.
Qed.

Lemma alloc_blocks_ok a w bs q bs' :
  Forall blk_ok bs → 0 < w → w mod 16 = 0 →
  alloc_blocks a w bs = Some (q, bs') → Forall blk_ok bs'.
Proof.
  intros HF Hw Hm. revert a q bs'. induction HF as [|[s f] r Hb HF IH]; intros a q bs'; simpl; [done|].
  destruct (f && (w <=? s)) eqn:E.
  - intros [= <- <-]. bool_facts. apply Forall_app. split; [|done].
    apply split_blk_ok; [done|lia|done].
  - destruct (alloc_blocks (a + 48 + s) w r) as [[q' r']|] eqn:Er; [|done].
    intros [= <- <-]. constructor; [done|by eapply IH].
Qed.

Lemma alloc_blocks_head a w bs q bs' :
  coalesced bs → alloc_blocks a w bs = Some (q, bs') → head_free bs' = true → head_free bs = true.
Proof.
  destruct bs as [|[s f] r]; simpl; [done|]. intros _. destruct (f && (w <=? s)) eqn:E.
  - intros [= <- <-]. unfold split_blk. destruct (w + 80 <? s); done.
  - destruct (alloc_blocks _ _ _) as [[q' r']|]; [|done]. by intros [= <- <-].
Qed.

Lemma alloc_blocks_coalesced a w bs q bs' :
  coalesced bs → alloc_blocks a w bs = Some (q, bs') → coalesced bs'.
Proof.
  revert a q bs'. induction bs as [|[s f] r IH]; intros a q bs'; simpl; [done|]. intros [Hh Hc].
  destruct (f && (w <=? s)) eqn:E.
  - intros [= <- <-]. bool_facts. subst f. destruct Hh as [?|Hh]; [done|]. unfold split_blk.
    destruct (w + 80 <? s); simpl; rewrite ?Hh; split_and?; done.
  - destruct (alloc_blocks (a + 48 + s) w r) as [[q' r']|] eqn:Er; [|done].
    intros [= <- <-]. simpl. split; [|by eapply IH].
    destruct f; [|done]. simpl in *. destruct (head_free r') eqn:Hr'; [|done].
    rewrite (alloc_blocks_head _ _ _ _ _ Hc Er Hr') in Hh. done.
Qed.

(** ** Memory lemmas *)
Lemma set_free_chain m p a s f r z v :
  chain m p a ((s, f) :: r) z → arena m a ((s, f) :: r) →
  ∃ m', set_free m a (b2z v) = Ret m' ∧ chain m' p a ((s, v) :: r) z ∧ wrote a 48 m m'.
Proof.
  intros [Hh Hc] Ha. pose proof (arena_blk _ _ _ _ _ Ha) as B. pose proof (ba_size _ _ _ B).
  destruct (set_free_hdr m a s f p _ Hh) with (v := v) as (m' & E & W & H').
  { eapply mapped_sub; [exact (ba_mapped _ _ _ B)|lia..]. }
  exists m'. split_and!; [done| |done]. split; [done|]. eapply chain_ext; [|done].
  intros x Hx%in_hdrs_range; [|apply (ar_blocks _ _ _ (arena_tail _ _ _ _ _ Ha))].
  apply W. lia.
Qed.

Lemma split_chain g m p a s r w :
  chain m p a ((s, true) :: r) 0 → arena m a ((s, true) :: r) → in64 p →
  end_of a ((s, true) :: r) ≤ g_heap_end g → 0 < w ≤ s → w mod 16 = 0 →
  ∃ m', kmem_split_if_useful g m a w = Ret m' ∧ chain m' p a (split_blk s w true ++ r) 0 ∧
    changed (λ x, in_hdrs a ((s, true) :: r) x ∨ a ≤ x < a + 48 + s) m m'.
Proof.
  intros Hc Ha Hp He Hw Hm. pose proof (arena_blk _ _ _ _ _ Ha) as B.
  pose proof (arena_tail _ _ _ _ _ Ha) as At. pose proof (end_of_ge (a + 48 + s) r (ar_blocks _ _ _ At)).
  pose proof (ba_addr _ _ _ B).
  unfold split_blk. destruct (Z.ltb_spec (w + 80) s).
  2: { exists m. split; [by eapply split_noop; [apply Hc|..|lia]|].
       split; [done|apply changed_refl]. }
  destruct (split_some g m a s p (link_to (a + 48 + s) r 0) w) as (m' & E & C & Hn1 & Hn2 & Hf);
    [apply Hc|done|by eapply chain_follower|done|lia|done|lia|simpl in *; lia|].
  exists m'. split; [done|]. split.
  - simpl. replace (a + 48 + w + 48 + (s - w - 48)) with (a + 48 + s) by lia.
    split_and!; [done|done|]. destruct r as [|[s2 f2] r]; [done|].
    destruct Hc as (_ & Hh2 & Hc). simpl in *. split; [apply Hf; [lia|done]|].
    eapply chain_changed; [exact C| |done].
    pose proof (ar_blocks _ _ _ At) as HF. rewrite Forall_cons in HF. destruct HF as [[? _] HF].
    intros x Hx%in_hdrs_range; [|done]. unfold hdr_zone, in_hdr. simpl in *. lia.
  - eapply changed_mono; [exact C|]. unfold hdr_zone, in_hdr. intros x Hx.
    destruct r as [|[s2 f2] r]; simpl in *; unfold in_hdr; lia.
Qed.

Lemma free_zone_cons a s f r x :
  0 < s → Forall blk_ok r → free_zone (a + 48 + s) r x → free_zone a ((s, f) :: r) x.
Proof.
  intros Hs HF [Hr Hu]. split; [simpl; lia|]. simpl. intros [?|?]; [lia|done].
Qed.

Lemma hdrs_free_zone a bs x : Forall blk_ok bs → in_hdrs a bs x → free_zone a bs x.
Proof.
  intros HF Hx. split; [by apply in_hdrs_range|]. intros Hu. by eapply used_not_hdr.
Qed.

(** ** First fit in memory *)
Lemma kalloc_found g m p a s r w :
  chain m p a ((s, true) :: r) 0 → arena m a ((s, true) :: r) → in64 p →
  end_of a ((s, true) :: r) ≤ g_heap_end g → 0 < w ≤ s → w mod 16 = 0 →
  ∃ m', kalloc_step g w (m, a) = Ret (inr (a + 48, m')) ∧
    chain m' p a (split_blk s w false ++ r) 0 ∧ changed (free_zone a ((s, true) :: r)) m m'.
Proof.
  intros Hc Ha Hp He Hw Hm. pose proof (arena_blk _ _ _ _ _ Ha) as B.
  pose proof (ar_blocks _ _ _ Ha) as HF. pose proof (ba_addr _ _ _ B). pose proof (ba_size _ _ _ B).
  unfold kalloc_step. destruct (Z.eqb_spec a 0); [lia|]. destruct Hc as [Hh Hc].
  unfold get_magic, get_free. unfold get_size at 1.
  rewrite (h_magic _ _ _ _ _ _ Hh), (h_free _ _ _ _ _ _ Hh), (h_size _ _ _ _ _ _ Hh). simpl.
  destruct (Z.leb_spec w s); [|lia].
  destruct (split_chain g m p a s r w (conj Hh Hc) Ha Hp He Hw Hm) as (m1 & -> & Hc1 & C1).
  simpl. unfold split_blk in *.
  assert (Ha1 : arena m1 a ((if w + 80 <? s then [(w, true); (s - w - 48, true)] else [(s, true)]) ++ r)).
  { eapply arena_changed; [exact C1|]. apply (arena_replace m a [] ((s, true) :: r)); [done| |].
    - apply Forall_app. rewrite Forall_cons in HF. destruct HF as [HF1 HF2]. split; [|done].
      by apply (split_blk_ok s w true).
    - destruct (w + 80 <? s); simpl; f_equal; lia. }
  assert (Hset : ∃ m', set_free m1 a 0 = Ret m' ∧ wrote a 48 m1 m' ∧
    chain m' p a ((if w + 80 <? s then [(w, false); (s - w - 48, true)] else [(s, false)]) ++ r) 0).
  { destruct (w + 80 <? s); cbn [app] in *.
    - destruct (set_free_chain m1 p a w true _ 0 false Hc1 Ha1) as (m' & E & Hc' & W); eauto.
    - destruct (set_free_chain m1 p a s true _ 0 false Hc1 Ha1) as (m' & E & Hc' & W); eauto. }
  destruct Hset as (m2 & -> & W2 & Hc2). simpl. exists m2. split_and!; [done|done|].
  assert (HB : ∀ x, a ≤ x < a + 48 + s → free_zone a ((s, true) :: r) x).
  { intros x Hx. rewrite Forall_cons in HF. destruct HF as [_ HF].
    pose proof (end_of_ge (a + 48 + s) r HF). split; [simpl; lia|]. simpl.
    intros [[? _]|Hu]; [done|]. apply in_used_range in Hu; [lia|done]. }
  eapply changed_trans; [eapply changed_mono; [exact C1|]|eapply wrote_changed; [exact W2|]].
  - intros x [Hx|Hx]; [by apply hdrs_free_zone|auto].
  - intros x Hx. apply HB. lia.
Qed.

Lemma kalloc_loop g w bs : ∀ fuel m p a,
  chain m p a bs 0 → arena m a bs → in64 p → end_of a bs ≤ g_heap_end g →
  0 < w → w mod 16 = 0 → (length bs < fuel)%nat →
  match alloc_blocks a w bs with
  | None => loop fuel (kalloc_step g w) (m, link_to a bs 0) = Ret (0, m)
  | Some (q, bs') =>
      ∃ m', loop fuel (kalloc_step g w) (m, link_to a bs 0) = Ret (q, m') ∧
        chain m' p a bs' 0 ∧ changed (free_zone a bs) m m'
  end.
Proof.
  induction bs as [|[s f] r IH]; intros fuel m p a Hc Ha Hp He Hw Hm Hfuel;
    (destruct fuel as [|fuel]; [lia|]); [done|]. simpl (link_to _ _ _).
  pose proof (arena_blk _ _ _ _ _ Ha) as B. pose proof (ba_addr _ _ _ B). pose proof (ba_size _ _ _ B).
  pose proof (ba_end _ _ _ B). rewrite loop_unfold.
  simpl alloc_blocks. destruct (f && (w <=? s)) eqn:E.
  { bool_facts. subst f. destruct (kalloc_found g m p a s r w) as (m' & -> & Hc' & C'); [done..|lia|done|].
    simpl. eauto. }
  assert (Hstep : kalloc_step g w (m, a) = Ret (inl (m, link_to (a + 48 + s) r 0))).
  { destruct Hc as [Hh _]. unfold kalloc_step. destruct (Z.eqb_spec a 0); [lia|].
    unfold get_magic, get_free, get_size, get_next.
    rewrite (h_magic _ _ _ _ _ _ Hh), (h_free _ _ _ _ _ _ Hh), (h_size _ _ _ _ _ _ Hh). simpl.
    replace (negb (b2z f =? 0)) with f by (by destruct f). rewrite E.
    by rewrite (h_next _ _ _ _ _ _ Hh). }
  rewrite Hstep. simpl obind.
  specialize (IH fuel m a (a + 48 + s) (proj2 Hc) (arena_tail _ _ _ _ _ Ha) ltac:(unfold in64; lia)
    He Hw Hm ltac:(simpl in Hfuel; lia)).
  destruct (alloc_blocks (a + 48 + s) w r) as [[q r']|] eqn:Er; [|done].
  destruct IH as (m' & El & Hc' & C'). exists m'. split; [done|].
  pose proof (ar_blocks _ _ _ Ha) as HF. rewrite Forall_cons in HF. destruct HF as [_ HF].
  split; [|eapply changed_mono; [exact C'|]; intros x Hx; by apply free_zone_cons].
  split; [|done]. destruct Hc as [Hh _].
  replace (link_to (a + 48 + s) r' 0) with (link_to (a + 48 + s) r 0).
  2: { destruct r as [|[s2 f2] r]; [done|]. simpl in Er. destruct (f2 && _).
       - injection Er as <- <-. unfold split_blk. by destruct (_ <? _).
       - destruct (alloc_blocks _ w r) as [[]|]; [|done]. by injection Er as <- <-. }
  eapply hdr_changed; [exact C'| |done]. unfold in_hdr, free_zone. intros x Hx [? _]. lia.
Qed.

(** ** The walk of [kmem_validate] *)
Lemma validate_loop g m bs : ∀ fuel p a guard,
  chain m p a bs 0 → arena m a bs → g_heap_base g ≤ a → end_of a bs = g_heap_end g →
  0 ≤ guard ≤ 1048576 → (length bs < fuel)%nat →
  loop fuel (validate_step g m) (p, a, guard, link_to a bs 0) =
  Ret (if guard + Z.of_nat (length bs) <=? 1048576 then 0 else -3).
Proof.
  induction bs as [|[s f] r IH]; intros fuel p a guard Hc Ha Hb He Hg Hfuel;
    (destruct fuel as [|fuel]; [lia|]); rewrite loop_unfold.
  { simpl. destruct (Z.leb_spec (guard + Z.of_nat 0) 1048576); [done|lia]. }
  pose proof (arena_blk _ _ _ _ _ Ha) as B. pose proof (ba_addr _ _ _ B). pose proof (ba_size _ _ _ B).
  pose proof (ba_end _ _ _ B). pose proof (ba_align _ _ _ B). pose proof (ba_smod _ _ _ B).
  pose proof (ar_blocks _ _ _ Ha) as HF. rewrite Forall_cons in HF. destruct HF as [_ HF].
  pose proof (end_of_ge (a + 48 + s) r HF). simpl in He. destruct Hc as [Hh Hc].
  simpl (link_to a _ 0). unfold validate_step at 1.
  destruct (Z.eqb_spec a 0); [lia|]. words.
  destruct (Z.ltb_spec 1048576 (guard + 1)).
  { simpl length. rewrite (proj2 (Z.leb_gt _ _)) by lia. done. }
  rewrite Z.eqb_refl. simpl.
  destruct (Z.ltb_spec a (g_heap_base g)); [lia|].
  destruct (Z.ltb_spec (g_heap_end g) (a + sizeof_block)); [unfold sizeof_block in *; lia|]. simpl.
  unfold get_magic, get_prev, get_size, get_next.
  rewrite (h_magic _ _ _ _ _ _ Hh). simpl. rewrite (h_prev _ _ _ _ _ _ Hh). simpl.
  rewrite Z.eqb_refl. simpl. rewrite (h_size _ _ _ _ _ _ Hh). simpl.
  unfold kmem_payload, sizeof_block in *. 
  pose proof (ar_end _ _ _ Ha) as Hend. simpl in Hend. words.
  destruct (Z.ltb_spec (g_heap_end g - (a + 48)) s); [lia|].
  rewrite align_up_ptr_id by (lia || mlia).
  destruct (Z.eqb_spec (a + 48 + s) 0); [lia|]. destruct (Z.ltb_spec (g_heap_end g) (a + 48 + s)); [lia|].
  simpl. rewrite (h_next _ _ _ _ _ _ Hh). simpl.
  rewrite IH; [|done|by eapply arena_tail|lia|done|lia|simpl in *; lia].
  simpl length. rewrite Nat2Z.inj_succ. replace (guard + 1 + Z.of_nat (length r))
    with (guard + Z.succ (Z.of_nat (length r))) by lia. done.
Qed.

Section rep.
Context (g : kmem) (m : mem) (bs : list blk) (HR : heap_rep g m bs).

Lemma rep_fuel : (length bs < heap_fuel g)%nat.
Proof using HR.
  pose proof (end_of_len (g_heap_base g) bs (ar_blocks _ _ _ (hr_arena _ _ _ HR))).
  unfold heap_fuel, sizeof_block. rewrite (hr_end _ _ _ HR).
  assert (Z.of_nat (length bs) ≤ (end_of (g_heap_base g) bs - g_heap_base g) / 48)
    by (apply Z.div_le_lower_bound; lia). lia.
Qed.

Lemma rep_link : link_to (g_heap_base g) bs 0 = g_head g.
Proof using HR. destruct HR as [_ -> _ Hne _ _ _ _]. by destruct bs. Qed.

Lemma rep_base : 32 ≤ g_heap_base g < g_heap_end g ∧ g_heap_end g < 2 ^ 64.
Proof using HR.
  destruct HR as [_ _ -> Hne Ha _ _ _]. pose proof (end_of_len (g_heap_base g) bs (ar_blocks _ _ _ Ha)).
  pose proof (ar_addr _ _ _ Ha). pose proof (ar_end _ _ _ Ha).
  destruct bs; [done|]. simpl length in *. lia.
Qed.

Lemma kmem_validate_spec :
  kmem_validate g m = Ret (if Z.of_nat (length bs) <=? 1048576 then 0 else -3).
Proof using HR.
  pose proof rep_base. pose proof rep_fuel. pose proof rep_link as HL. destruct HR.
  unfold kmem_validate. rewrite hr_init0, hr_head0, Z.eqb_refl in *. simpl.
  destruct (Z.eqb_spec (g_heap_base g) 0); [lia|].
  destruct (Z.leb_spec (g_heap_end g) (g_heap_base g)); [lia|]. simpl.
  rewrite <- HL at 2. rewrite (validate_loop g m bs); [done|done|done|lia|done|lia|done].
Qed.

Lemma kmem_alloc_spec bytes :
  0 < bytes ≤ 2 ^ 64 - 16 →
  match alloc_blocks (g_heap_base g) (rounded bytes) bs with
  | None => kmem_alloc g m bytes = Ret (0, m)
  | Some (q, bs') =>
      ∃ m', kmem_alloc g m bytes = Ret (q, m') ∧ heap_rep g m' bs' ∧
        changed (free_zone (g_heap_base g) bs) m m'
  end.
Proof using HR.
  intros Hb. pose proof rep_base. pose proof rep_fuel as Hfuel. pose proof rep_link as HL.
  assert (Hw : 0 < rounded bytes ∧ rounded bytes mod 16 = 0) by (unfold rounded; mlia).
  destruct HR as [Hi Hh He Hne Ha Hm Hc Hco]. unfold kmem_alloc. rewrite Hi. simpl.
  destruct (Z.eqb_spec bytes 0); [lia|].
  rewrite align_up_size_spec, decide_True by (unfold in64; lia). fold (rounded bytes).
  destruct (Z.eqb_spec (rounded bytes) 0); [lia|]. rewrite <- HL.
  pose proof (kalloc_loop g (rounded bytes) bs (heap_fuel g) m 0 (g_heap_base g) Hc Ha
    ltac:(done) ltac:(lia) ltac:(tauto) ltac:(tauto) Hfuel) as Hloop.
  destruct (alloc_blocks _ _ bs) as [[q bs']|] eqn:E; [|done].
  destruct Hloop as (m' & -> & Hc' & C'). exists m'. split_and!; [done| |done].
  pose proof (alloc_blocks_end _ _ _ _ _ E) as Hend. split; try done.
  - congruence.
  - intros ->. simpl in Hend. lia.
  - eapply arena_changed; [exact C'|]. apply (arena_replace m _ [] bs bs'); [done| |done].
    eapply alloc_blocks_ok; [apply Ha|apply Hw|apply Hw|done].
  - by apply C'.
  - by eapply alloc_blocks_coalesced.
Qed.
End rep.

(** ** [merge] *)
Lemma merge_is_coalesced bs : coalesced (merge bs).
Proof.
  induction bs as [|[s f] r IH]; simpl; [done|]. destruct f; [|by split].
  destruct (merge r) as [|[s2 [|]] r']; simpl in *; repeat split; try apply IH; done.
Qed.

Lemma merge_end a bs : end_of a (merge bs) = end_of a bs.
Proof.
  revert a. induction bs as [|[s f] r IH]; intros a; simpl; [done|]. rewrite <- IH.
  destruct f; [|done]. destruct (merge r) as [|[s2 [|]] r']; simpl; [done| |done]. f_equal. lia.
Qed.

Lemma merge_ok bs : Forall blk_ok bs → Forall blk_ok (merge bs).
Proof.
  induction 1 as [|[s f] r Hb HF IH]; simpl; [done|]. destruct f; [|by constructor].
  destruct (merge r) as [|[s2 [|]] r']; [by constructor| |by constructor].
  apply Forall_cons in IH as [[] IH]. destruct Hb. constructor; [|done].
  unfold blk_ok; simpl in *. mlia.
Qed.

Lemma merge_ne bs : bs ≠ [] → merge bs ≠ [].
Proof.
  destruct bs as [|[s f] r]; [done|]. intros _. simpl. destruct f; [|done].
  by destruct (merge r) as [|[s2 [|]] r'].
Qed.

Lemma absorb_stops s l : head_free (absorb s l).2 = false.
Proof. revert s. induction l as [|[s2 [|]] l IH]; intros s; simpl; [done|apply IH|done]. Qed.

Lemma absorb_stop s l : head_free l = false → absorb s l = (s, l).
Proof. by destruct l as [|[s2 [|]] l]. Qed.

Lemma absorb_len s l : (length (absorb s l).2 ≤ length l)%nat.
Proof.
  revert s. induction l as [|[s2 [|]] l IH]; intros s; simpl; [done| |done].
  specialize (IH (s + 48 + s2)). lia.
Qed.

Lemma absorb_hdrs a s f l x :
  in_hdrs a (((absorb s l).1, f) :: (absorb s l).2) x → in_hdrs a ((s, f) :: l) x.
Proof.
  revert s. induction l as [|[s2 [|]] l IH]; intros s; simpl; [done| |done].
  intros Hx. apply (IH (s + 48 + s2)) in Hx. simpl in Hx.
  replace (a + 48 + (s + 48 + s2)) with (a + 48 + s + 48 + s2) in Hx by lia. tauto.
Qed.

(** The two shapes a release leaves. *)
Lemma merge_release l1 s l2 :
  coalesced (l1 ++ (s, false) :: l2) → head_free (reverse l1) = false →
  merge (l1 ++ (s, true) :: l2) = l1 ++ ((absorb s l2).1, true) :: (absorb s l2).2.
Proof.
  intros [H1 [_ H2]]%coalesced_app Hl. rewrite merge_used_left by done.
  by rewrite absorb_coalesced.
Qed.

Lemma merge_release_left l0 sp s l2 :
  coalesced (l0 ++ (sp, true) :: (s, false) :: l2) →
  merge (l0 ++ (sp, true) :: (s, true) :: l2) =
  l0 ++ (sp + 48 + (absorb s l2).1, true) :: (absorb s l2).2.
Proof.
  intros Hc. rewrite merge_used_left.
  - change (merge ((sp, true) :: (s, true) :: l2)) with
      (match merge ((s, true) :: l2) with
       | (s2, true) :: r' => (sp + 48 + s2, true) :: r' | r' => (sp, true) :: r' end).
    apply coalesced_app in Hc as [_ [_ [_ Hc]]]. by rewrite absorb_coalesced.
  - by apply coalesced_app in Hc as [? _].
  - clear - Hc. induction l0 as [|b l0 _] using rev_ind; [done|]. rewrite reverse_snoc.
    rewrite <- app_assoc in Hc. apply coalesced_app in Hc as [_ Hc]. destruct b as [s0 f0].
    simpl in *. destruct Hc as [Hh _]. by destruct f0.
Qed.

(** ** Coalescing inside the arena *)
Lemma last_of_range p a bs :
  Forall blk_ok bs → last_of p a bs = p ∨ a ≤ last_of p a bs < end_of a bs.
Proof.
  intros HF. revert p a. induction HF as [|[s f] r [Hs _] HF IH]; intros p a; simpl; [by left|].
  right. pose proof (end_of_ge (a + 48 + s) r HF). simpl in Hs.
  destruct (IH a (a + 48 + s)) as [->|?]; lia.
Qed.

Lemma coalesce_at g m l1 s f l2 :
  let base := g_heap_base g in
  chain m 0 base (l1 ++ (s, f) :: l2) 0 → arena m base (l1 ++ (s, f) :: l2) →
  (length (l1 ++ (s, f) :: l2) < heap_fuel g)%nat →
  ∃ m', kmem_coalesce_forward g m (end_of base l1) = Ret m' ∧
    chain m' 0 base (l1 ++ ((absorb s l2).1, f) :: (absorb s l2).2) 0 ∧
    arena m' base (l1 ++ ((absorb s l2).1, f) :: (absorb s l2).2) ∧
    changed (in_hdrs base (l1 ++ (s, f) :: l2)) m m' ∧
    (head_free l2 = true → load64 m' (end_of base l1 + 48 + s) = Ret 0).
Proof.
  intros base Hc Ha Hfuel. apply chain_app in Hc as [Hc1 Hc2].
  destruct (arena_app _ _ _ _ Ha) as [Ha1 Ha2].
  destruct (coalesce_loop l2 (heap_fuel g) m (last_of 0 base l1) (end_of base l1) s f Hc2 Ha2)
    as (m' & El & Hc' & C' & Hw).
  { unfold in64. pose proof (ar_end _ _ _ Ha1). pose proof (ar_addr _ _ _ Ha1).
    destruct (last_of_range 0 base l1 (ar_blocks _ _ _ Ha1)) as [->|]; lia. }
  { rewrite length_app in Hfuel. simpl in Hfuel. lia. }
  exists m'. split_and!; [done| | | |].
  - apply chain_app. split; [|done]. eapply chain_changed; [exact C'| |].
    + intros x Hx Hy. apply in_hdrs_range in Hx; [|apply Ha1].
      apply in_hdrs_range in Hy; [lia|apply Ha2].
    + exact Hc1.
  - eapply arena_changed; [exact C'|]. apply (arena_replace m base l1 ((s, f) :: l2)); [done| |].
    + apply absorb_ok, Ha2.
    + apply absorb_end.
  - eapply changed_mono; [exact C'|]. intros x Hx. apply in_hdrs_app. by right.
  - intros Hh. destruct l2 as [|[s2 [|]] l2]; try done. by eapply Hw.
Qed.

Lemma chain_mid m base l1 s f l2 :
  chain m 0 base (l1 ++ (s, f) :: l2) 0 →
  hdr m (end_of base l1) s f (last_of 0 base l1) (link_to (end_of base l1 + 48 + s) l2 0).
Proof. intros [_ [Hh _]]%chain_app. done. Qed.

(** The headers stay put when a block changes state only. *)
Lemma in_hdrs_state a l1 s f f' l2 x :
  in_hdrs a (l1 ++ (s, f) :: l2) x ↔ in_hdrs a (l1 ++ (s, f') :: l2) x.
Proof. rewrite !in_hdrs_app. done. Qed.

(** ** [kmem_free_checked] *)
Section free.
Context (g : kmem) (m : mem) (l1 : list blk) (s : Z) (f : bool) (l2 : list blk).
Abbreviation base := (g_heap_base g).
Abbreviation b := (end_of base l1).
Context (HR : heap_rep g m (l1 ++ (s, f) :: l2)).

Lemma free_geometry :
  32 ≤ base ≤ b ∧ 0 < s ∧ b + 48 + s ≤ g_heap_end g ∧ b mod 16 = 0.
Proof using HR.
  pose proof (rep_base _ _ _ HR). destruct HR as [_ _ -> _ Ha _ _ _].
  destruct (arena_app _ _ _ _ Ha) as [A1 A2]. pose proof (ar_blocks _ _ _ A2) as HF.
  rewrite Forall_cons in HF. destruct HF as [[? _] HF]. simpl in *.
  pose proof (end_of_ge base l1 (ar_blocks _ _ _ A1)).
  pose proof (end_of_ge (b + 48 + s) l2 HF). rewrite end_of_app. simpl.
  pose proof (ar_align _ _ _ A2). pose proof (ar_addr _ _ _ A1). lia.
Qed.

(** Every guard of [kmem_free_checked] lets the payload of a block through. *)
Lemma free_guards :
  kmem_free_checked g m (b + 48) =
  (if f then Ret (-4, m)
   else
     m ← set_free m b 1;
     m ← kmem_coalesce_forward g m b;
     prev ← get_prev m b;
     m ← (if negb (prev =? 0) then
            pfree ← get_free m prev;
            if negb (pfree =? 0) then kmem_coalesce_forward g m prev else Ret m
          else Ret m);
     rc ← kmem_validate g m;
     Ret (rc, m)).
Proof using HR.
  pose proof free_geometry. pose proof (chain_mid _ _ _ _ _ _ (hr_chain _ _ _ HR)) as Hh.
  unfold kmem_free_checked, kmem_ptr_in_heap, kmem_header_from_payload, sizeof_block.
  rewrite (hr_init _ _ _ HR). simpl. replace (b + 48 - 48) with b by lia.
  destruct (Z.eqb_spec (b + 48) 0); [lia|].
  destruct (Z.leb_spec base (b + 48)); [|lia]. destruct (Z.ltb_spec (b + 48) (g_heap_end g)); [|lia].
  simpl. change (KMEM_ALIGN - 1) with (Z.ones 4). rewrite Z.land_ones by lia. change (2 ^ 4) with 16.
  replace ((b + 48) mod 16) with 0 by mlia. simpl.
  destruct (Z.leb_spec base b); [|lia]. destruct (Z.ltb_spec b (g_heap_end g)); [|lia]. simpl.
  unfold get_magic. unfold get_free at 1.
  rewrite (h_magic _ _ _ _ _ _ Hh), (h_free _ _ _ _ _ _ Hh). by destruct f.
Qed.

(** A second release of the same pointer: the block is free, or swallowed. *)
Lemma free_swallowed m' :
  mem_ok m' → load64 m' b = Ret 0 → kmem_free_checked g m' (b + 48) = Ret (-3, m').
Proof using HR.
  intros Hm HL. pose proof free_geometry.
  unfold kmem_free_checked, kmem_ptr_in_heap, kmem_header_from_payload, sizeof_block.
  rewrite (hr_init _ _ _ HR). simpl. replace (b + 48 - 48) with b by lia.
  destruct (Z.eqb_spec (b + 48) 0); [lia|].
  destruct (Z.leb_spec base (b + 48)); [|lia]. destruct (Z.ltb_spec (b + 48) (g_heap_end g)); [|lia].
  simpl. change (KMEM_ALIGN - 1) with (Z.ones 4). rewrite Z.land_ones by lia. change (2 ^ 4) with 16.
  replace ((b + 48) mod 16) with 0 by mlia. simpl.
  destruct (Z.leb_spec base b); [|lia]. destruct (Z.ltb_spec b (g_heap_end g)); [|lia]. simpl.
  unfold get_magic. rewrite HL. done.
Qed.
End free.

(** Marking the block and absorbing what follows it. *)
Lemma release_here g m l1 s l2 :
  heap_rep g m (l1 ++ (s, false) :: l2) →
  ∃ m1 m2, set_free m (end_of (g_heap_base g) l1) 1 = Ret m1 ∧
    kmem_coalesce_forward g m1 (end_of (g_heap_base g) l1) = Ret m2 ∧
    chain m2 0 (g_heap_base g) (l1 ++ ((absorb s l2).1, true) :: (absorb s l2).2) 0 ∧
    arena m2 (g_heap_base g) (l1 ++ ((absorb s l2).1, true) :: (absorb s l2).2) ∧
    changed (in_hdrs (g_heap_base g) (l1 ++ (s, false) :: l2)) m m2.
Proof.
  intros HR. pose proof (rep_fuel _ _ _ HR) as Hfuel.
  destruct HR as [_ _ _ _ Ha _ Hc _]. set (base := g_heap_base g) in *.
  apply chain_app in Hc as [Hc1 Hc2]. destruct (arena_app _ _ _ _ Ha) as [Ha1 Ha2].
  destruct (set_free_chain m _ _ s false l2 0 true Hc2 Ha2) as (m1 & E1 & Hc21 & W1).
  assert (C1 : changed (in_hdrs base (l1 ++ (s, false) :: l2)) m m1).
  { eapply wrote_changed; [exact W1|]. intros x Hx. apply in_hdrs_app. right. by left. }
  assert (Hcm1 : chain m1 0 base (l1 ++ (s, true) :: l2) 0).
  { apply chain_app. split; [|done]. eapply chain_ext; [|exact Hc1].
    intros x Hx%in_hdrs_range; [|apply Ha1]. apply W1. lia. }
  assert (Ham1 : arena m1 base (l1 ++ (s, true) :: l2)).
  { eapply arena_changed; [exact C1|]. apply (arena_replace m base l1 ((s, false) :: l2)); [done| |done].
    pose proof (ar_blocks _ _ _ Ha2) as HF. rewrite Forall_cons in *. done. }
  destruct (coalesce_at g m1 l1 s true l2 Hcm1 Ham1) as (m2 & E2 & Hcm2 & Ham2 & C2 & _).
  { rewrite length_app in *. done. }
  exists m1, m2. split_and!; [done..|]. eapply changed_trans; [exact C1|].
  eapply changed_mono; [exact C2|]. intros x. apply in_hdrs_state.
Qed.

(** A chain that fills the arena of a heap, coalesced, is again a heap. *)
Lemma rep_intro g m bs m' bs' :
  heap_rep g m bs → chain m' 0 (g_heap_base g) bs' 0 → arena m' (g_heap_base g) bs' →
  mem_ok m' → coalesced bs' → bs' ≠ [] → end_of (g_heap_base g) bs' = end_of (g_heap_base g) bs →
  heap_rep g m' bs'.
Proof. intros [] **. split; try done; congruence. Qed.

Lemma head_free_snoc l b : head_free (reverse (l ++ [b])) = b.2.
Proof. rewrite reverse_snoc. by destruct b. Qed.

(** What a successful release leaves in memory. *)
Lemma free_memory g m l1 s l2 :
  heap_rep g m (l1 ++ (s, false) :: l2) →
  ∃ m', heap_rep g m' (merge (l1 ++ (s, true) :: l2)) ∧
    kmem_free_checked g m (end_of (g_heap_base g) l1 + 48) = (rc ← kmem_validate g m'; Ret (rc, m')) ∧
    changed (in_hdrs (g_heap_base g) (l1 ++ (s, false) :: l2)) m m' ∧
    (head_free (reverse l1) = true → load64 m' (end_of (g_heap_base g) l1) = Ret 0).
Proof.
  intros HR. rewrite (free_guards g m l1 s false l2 HR).
  destruct (release_here g m l1 s l2 HR) as (m1 & m2 & -> & E2 & Hc & Ha & C). simpl. rewrite E2. simpl.
  unfold get_prev. rewrite (h_prev _ _ _ _ _ _ (chain_mid _ _ _ _ _ _ Hc)). simpl.
  pose proof (rep_base _ _ _ HR) as Hbase. pose proof (rep_fuel _ _ _ HR) as Hfuel.
  pose proof (hr_coal _ _ _ HR) as Hco.
  assert (Hok : mem_ok m2) by (apply C, HR).
  assert (Hne : merge (l1 ++ (s, true) :: l2) ≠ []) by (apply merge_ne; by destruct l1).
  pose proof (merge_is_coalesced (l1 ++ (s, true) :: l2)) as Hmc.
  destruct (head_free (reverse l1)) eqn:Hhf.
  - induction l1 as [|[sp fp] l0 _] using rev_ind; [done|]. rewrite head_free_snoc in Hhf.
    simpl in Hhf. subst fp. rewrite last_of_app, end_of_app in *. simpl in *.
    rewrite <- !app_assoc in *. simpl in *. rewrite merge_release_left in * by done.
    destruct (arena_app _ _ _ _ (hr_arena _ _ _ HR)) as [A0 _].
    pose proof (end_of_ge (g_heap_base g) l0 (ar_blocks _ _ _ A0)).
    destruct (Z.eqb_spec (end_of (g_heap_base g) l0) 0); [lia|]. simpl.
    unfold get_free. rewrite (h_free _ _ _ _ _ _ (chain_mid _ _ _ _ _ _ Hc)). simpl.
    destruct (coalesce_at g m2 l0 sp true (((absorb s l2).1, true) :: (absorb s l2).2) Hc Ha)
      as (m3 & -> & Hc3 & Ha3 & C3 & L3).
    { rewrite length_app in *. simpl in *. pose proof (absorb_len s l2). lia. }
    simpl in Hc3, Ha3. rewrite absorb_stop in Hc3, Ha3 by apply absorb_stops.
    exists m3. split_and!; [|done| |by intros; apply L3].
    + eapply rep_intro; [exact HR|done|done|by apply C3|done|done|].
      by rewrite <- merge_release_left, merge_end, !end_of_app by done.
    + eapply changed_trans; [exact C|]. eapply changed_mono; [exact C3|].
      intros x. rewrite !in_hdrs_app. simpl. pose proof (absorb_hdrs (end_of (g_heap_base g) l0 + 48 + sp) s true l2 x).
      simpl in *. tauto.
  - exists m2. rewrite (merge_release l1 s l2) in * by done. split_and!; [|  |done|done].
    + eapply rep_intro; [exact HR|done|done|done|done|done|].
      by rewrite <- merge_release, merge_end, !end_of_app by done.
    + induction l1 as [|[sp fp] l0 _] using rev_ind; [done|]. rewrite head_free_snoc in Hhf.
      simpl in Hhf. subst fp. rewrite last_of_app in *. simpl in *. rewrite <- !app_assoc in *.
      unfold get_free. rewrite (h_free _ _ _ _ _ _ (chain_mid _ _ _ _ _ _ Hc)).
      by destruct (negb (end_of (g_heap_base g) l0 =? 0)).
Qed.

(** ** [kmem_get_stats] *)
Fixpoint used_sum (bs : list blk) : Z :=
  match bs with [] => 0 | (s, f) :: r => (if f then 0 else s) + used_sum r end.
Fixpoint free_sum (bs : list blk) : Z :=
  match bs with [] => 0 | (s, f) :: r => (if f then s else 0) + free_sum r end.
Fixpoint free_blocks (bs : list blk) : Z :=
  match bs with [] => 0 | (_, f) :: r => b2z f + free_blocks r end.
Fixpoint max_free (bs : list blk) : Z :=
  match bs with [] => 0 | (s, f) :: r => Z.max (if f then s else 0) (max_free r) end.

Lemma sums_tile a bs :
  used_sum bs + free_sum bs + 48 * Z.of_nat (length bs) = end_of a bs - a.
Proof.
  revert a. induction bs as [|[s f] r IH]; intros a; [simpl; lia|].
  specialize (IH (a + 48 + s)). simpl used_sum. simpl free_sum. simpl end_of. simpl length.
  destruct f; lia.
Qed.

Lemma sums_bounds bs : Forall blk_ok bs →
  0 ≤ used_sum bs ∧ 0 ≤ free_sum bs ∧ 0 ≤ free_blocks bs ≤ Z.of_nat (length bs) ∧
  0 ≤ max_free bs ≤ free_sum bs.
Proof.
  induction 1 as [|[s f] r [Hs _] _ IH]; simpl in *; [lia|]. destruct f; simpl in *; lia.
Qed.

Definition add_stats (o : kmem_stats) (bs : list blk) : kmem_stats :=
  mk_stats (total_bytes o) (used_bytes o + used_sum bs) (free_bytes o + free_sum bs)
    (block_count o + Z.of_nat (length bs)) (free_count o + free_blocks bs)
    (Z.max (largest_free o) (max_free bs)).

Lemma stats_loop m bs : ∀ fuel p a o,
  chain m p a bs 0 → arena m a bs → (length bs < fuel)%nat →
  0 ≤ used_bytes o → used_bytes o + used_sum bs < 2 ^ 64 →
  0 ≤ free_bytes o → free_bytes o + free_sum bs < 2 ^ 64 →
  0 ≤ block_count o → block_count o + Z.of_nat (length bs) < 2 ^ 64 →
  0 ≤ free_count o ≤ block_count o → 0 ≤ largest_free o →
  loop fuel (stats_step m) (o, link_to a bs 0) = Ret (add_stats o bs).
Proof.
  induction bs as [|[s f] r IH]; intros fuel p a o Hc Ha Hfuel Hu Hu' Hf Hf' Hb Hb' Hn Hl;
    (destruct fuel as [|fuel]; [lia|]); rewrite loop_unfold.
  { simpl. unfold add_stats. simpl. destruct o; simpl in *. do 2 f_equal; lia. }
  pose proof (arena_blk _ _ _ _ _ Ha) as B. pose proof (ba_addr _ _ _ B). pose proof (ba_size _ _ _ B).
  pose proof (sums_bounds r (ar_blocks _ _ _ (arena_tail _ _ _ _ _ Ha))).
  destruct Hc as [Hh Hc]. simpl (link_to a _ 0). unfold stats_step at 1.
  destruct (Z.eqb_spec a 0); [lia|]. unfold get_free, get_size, get_next.
  rewrite (h_free _ _ _ _ _ _ Hh), (h_size _ _ _ _ _ _ Hh), (h_next _ _ _ _ _ _ Hh). simpl.
  simpl used_sum in *. simpl free_sum in *. simpl length in *. rewrite Nat2Z.inj_succ in *.
  destruct f; simpl; words.
  - rewrite (IH fuel a); [|done|by eapply arena_tail|lia|simpl; try lia..].
    2: { destruct (_ <? _); lia. }
    unfold add_stats; simpl. do 2 f_equal; [lia..|].
    destruct (Z.ltb_spec (largest_free o) s); lia.
  - rewrite (IH fuel a); [|done|by eapply arena_tail|lia|simpl; lia..].
    unfold add_stats; simpl. do 2 f_equal; lia.
Qed.

Section rep2.
Context (g : kmem) (m : mem) (bs : list blk) (HR : heap_rep g m bs).

Lemma kmem_get_stats_spec o :
  kmem_get_stats g m (Some o) =
  Ret (Some (mk_stats (g_heap_end g - g_heap_base g) (used_sum bs) (free_sum bs)
               (Z.of_nat (length bs)) (free_blocks bs) (max_free bs))).
Proof using HR.
  pose proof (rep_fuel _ _ _ HR). pose proof (rep_base _ _ _ HR). pose proof (rep_link _ _ _ HR) as HL.
  destruct HR as [Hi Hh He Hne Ha Hm Hc Hco].
  pose proof (sums_bounds bs (ar_blocks _ _ _ Ha)). pose proof (sums_tile (g_heap_base g) bs).
  pose proof (end_of_len (g_heap_base g) bs (ar_blocks _ _ _ Ha)).
  unfold kmem_get_stats. rewrite Hi. simpl. words. rewrite <- HL.
  rewrite (stats_loop m bs (heap_fuel g) 0); [|done|done|done|simpl; lia..]. simpl.
  unfold add_stats. simpl. do 3 f_equal; lia.
Qed.

(** Clients may write into the payloads they were given. *)
Lemma rep_payload_write m' :
  changed (in_used (g_heap_base g) bs) m m' → heap_rep g m' bs.
Proof using HR.
  intros C. destruct HR as [Hi Hh He Hne Ha Hm Hc Hco]. split; try done.
  - by eapply arena_changed.
  - by apply C.
  - eapply chain_changed; [exact C| |done]. intros x Hx Hu.
    eapply used_not_hdr; [apply Ha|done..].
Qed.
End rep2.

(** ** [kmem_memset] *)
Lemma kmem_memset_spec m dst v n :
  mapped m dst n → 0 ≤ n →
  ∃ m', kmem_memset m dst v n = Ret m' ∧ wrote dst n m m' ∧
    ∀ i, dst ≤ i < dst + n → m' !! i = Some (u8 v).
Proof.
  intros HM Hn. unfold kmem_memset.
  apply (loop_rule (memset_step v)
    (λ s, let '(m', p, k) := s in 0 ≤ k ∧ p + k = dst + n ∧ dst ≤ p ∧ wrote dst n m m' ∧
            ∀ i, dst ≤ i < p → m' !! i = Some (u8 v))
    (λ m', wrote dst n m m' ∧ ∀ i, dst ≤ i < dst + n → m' !! i = Some (u8 v))
    (λ s, let '(_, _, k) := s in Z.to_nat k)).
  - intros [[m1 p] k] (Hk & Hp & Hd & W & Hi). simpl. destruct (Z.ltb_spec 0 k); simpl.
    + destruct (store8_wrote m1 p (u8 v)) as (m2 & -> & W2 & L2).
      { apply W. eapply mapped_sub; [exact HM|lia..]. }
      simpl. eexists. split; [done|]. simpl. split; [|lia]. split_and!; [lia..| |].
      * eapply wrote_trans; [exact W|]. eapply wrote_weaken; [exact W2|lia..].
      * intros i Hr. destruct (Z.eq_dec i p) as [->|].
        -- rewrite L2. f_equal. unfold u8. by rewrite Zmod_mod.
        -- rewrite (wrote_outside _ _ _ _ W2) by lia. apply Hi. lia.
    + eexists. split; [done|]. split; [done|]. intros i Hr. apply Hi. lia.
  - split_and!; [lia..|apply wrote_refl|lia].
  - simpl. lia.
Qed.

(** ** [kmem_init] *)
Definition init_start (base : Z) : Z := base + (- base) mod 16.
Definition init_usable (base bytes : Z) : Z :=
  let avail := bytes - (- base) mod 16 in avail - avail mod 16.

Lemma kmem_init_spec g m base bytes :
  17 ≤ base → 0 ≤ bytes → base + bytes ≤ 2 ^ 64 - 16 → mem_ok m → mapped m base bytes →
  if decide (80 < init_usable base bytes) then
    ∃ m', kmem_init g m base bytes =
        Ret (0, mk_kmem (init_start base) (init_start base + init_usable base bytes)
               (init_start base) 1, m') ∧
      wrote (init_start base) 48 m m' ∧
      heap_rep (mk_kmem (init_start base) (init_start base + init_usable base bytes)
                  (init_start base) 1) m' [(init_usable base bytes - 48, true)]
  else ∃ rc, kmem_init g m base bytes = Ret (rc, g, m) ∧ rc < 0.
Proof.
  intros Hb Hn He Hok HM. unfold kmem_init.
  rewrite align_up_ptr_small by lia. fold (init_start base).
  assert (Hlost : init_start base ⊖ base = (- base) mod 16).
  { unfold init_start. rewrite sub64_small; [lia|mlia]. }
  assert (Hr : 0 ≤ (- base) mod 16 < 16) by (apply Z.mod_pos_bound; lia).
  assert (Hs : init_start base = base + (- base) mod 16) by done.
  rewrite Hlost. unfold sizeof_block, KMEM_MIN_SPLIT.
  destruct (Z.eqb_spec base 0); [lia|]. simpl orb.
  destruct (Z.ltb_spec bytes (48 + 32)).
  { rewrite decide_False by (unfold init_usable; mlia). by exists (-1). }
  destruct (Z.eqb_spec (init_start base) 0); [lia|]. destruct (Z.ltb_spec (init_start base) base); [lia|].
  simpl orb. cbv iota. words. destruct (Z.leb_spec bytes ((- base) mod 16 + 48 + 32)).
  { rewrite decide_False by (unfold init_usable; mlia). by exists (-3). }
  change (KMEM_ALIGN - 1) with (Z.ones 4). rewrite land_not64_ones by (unfold in64; lia).
  change (2 ^ 4) with 16. fold (init_usable base bytes).
  destruct (Z.leb_spec (init_usable base bytes) (48 + 32)).
  { rewrite decide_False by lia. by exists (-4). }
  rewrite decide_True by lia.
  assert (Hu : init_usable base bytes ≤ bytes - (- base) mod 16 ∧ init_usable base bytes mod 16 = 0)
    by (unfold init_usable; mlia). words.
  set (st := init_start base) in *. set (us := init_usable base bytes) in *.
  assert (Hst : st mod 16 = 0 ∧ 32 ≤ st) by (unfold st, init_start; mlia). destruct Hst as [Hst Hst32].
  destruct (new_hdr m st (us - 48) 0 0) as (m1 & m2 & m3 & m4 & m5 & -> & E2 & E3 & E4 & E5 & _ & _ & W & Hh);
    [eapply mapped_sub; [exact HM|lia..]|unfold in64; lia|done|done|].
  simpl. rewrite E2. simpl. rewrite E3. simpl. rewrite E4. simpl. rewrite E5. simpl.
  assert (HR : heap_rep (mk_kmem st (st + us) st 1) m5 [(us - 48, true)]).
  { split; try done; simpl.
    - lia.
    - split; simpl; [lia|done| |lia|].
      + constructor; [|done]. unfold blk_ok. simpl. mlia.
      + apply W. eapply mapped_sub; [exact HM|lia..].
    - by apply W. }
  rewrite (kmem_validate_spec _ _ _ HR). simpl. eauto.
Qed.
