(* ===== verification/KmemTheorems.v ===== *)
(** * The kernel heap: theorems *)

From S2P Require Import Prelude Mem Kmem KmemProofs KmemBlocks KmemSpecs.

(** Blocks that cannot serve a request of [w] bytes. *)
Definition too_small (w : Z) (b : blk) : Prop := b.2 = true → b.1 < w.

Lemma alloc_blocks_Some a w bs q bs' :
  alloc_blocks a w bs = Some (q, bs') →
  ∃ l1 s l2, bs = l1 ++ (s, true) :: l2 ∧ w ≤ s ∧ q = end_of a l1 + 48 ∧
    bs' = l1 ++ split_blk s w false ++ l2 ∧ Forall (too_small w) l1.
Proof.
  revert a q bs'. induction bs as [|[s f] r IH]; intros a q bs'; simpl; [done|].
  destruct (f && (w <=? s)) eqn:E.
  - intros [= <- <-]. bool_facts. subst f. exists [], s, r. done.
  - destruct (alloc_blocks (a + 48 + s) w r) as [[q' r']|] eqn:Er; [|done]. intros [= <- <-].
    destruct (IH _ _ _ Er) as (l1 & s1 & l2 & -> & Hw & -> & -> & HF).
    exists ((s, f) :: l1), s1, l2. split_and!; [done..|]. constructor; [|done].
    intros Hf. simpl in *. subst f. simpl in E. bool_facts. lia.
Qed.

Lemma alloc_blocks_None a w bs : alloc_blocks a w bs = None → Forall (too_small w) bs.
Proof.
  revert a. induction bs as [|[s f] r IH]; intros a; simpl; [done|].
  destruct (f && (w <=? s)) eqn:E; [done|].
  destruct (alloc_blocks (a + 48 + s) w r) as [[]|] eqn:Er; [done|]. intros _.
  constructor; [|by eapply IH]. intros Hf. simpl in *. subst f. simpl in E. bool_facts. lia.
Qed.

(** The list after an allocation in the block of size [s], by cases on the split. *)
Lemma split_used a s w l2 x :
  Forall blk_ok l2 → 0 < w ≤ s →
  in_used a (split_blk s w false ++ l2) x ↔
  a + 48 ≤ x < a + 48 + (if w + 80 <? s then w else s) ∨ in_used (a + 48 + s) l2 x.
Proof.
  intros HF Hw. unfold split_blk. destruct (Z.ltb_spec (w + 80) s); simpl.
  - replace (a + 48 + w + 48 + (s - w - 48)) with (a + 48 + s) by lia. naive_solver.
  - naive_solver.
Qed.

Lemma rounded_bounds bytes : 0 < bytes → bytes ≤ rounded bytes < bytes + 16 ∧ rounded bytes mod 16 = 0.
Proof. unfold rounded. mlia. Qed.

(** Allocation and release of the same block cancel out. *)
Lemma merge_split l1 s w l2 :
  coalesced (l1 ++ (s, true) :: l2) →
  merge (l1 ++ split_blk s w true ++ l2) = l1 ++ (s, true) :: l2.
Proof.
  intros Hc.
  assert (Hl : head_free (reverse l1) = false).
  { destruct l1 as [|b l1 _] using rev_ind; [done|]. rewrite head_free_snoc.
    rewrite <- app_assoc in Hc. apply coalesced_app in Hc as [_ Hc]. destruct b as [s0 f0].
    simpl in *. destruct Hc as [Hh _]. by destruct f0. }
  rewrite merge_used_left by (done || (apply coalesced_app in Hc; tauto)). f_equal.
  apply coalesced_app in Hc as [_ [Hh Hc]]. unfold split_blk.
  destruct (w + 80 <? s); simpl; rewrite (merge_coalesced l2 Hc);
    destruct l2 as [|[s2 [|]] l2]; try done; simpl; repeat f_equal; lia.
Qed.

(** ** What clients can do with the heap *)

(** [kmem_reach g m bs]: from a successful [kmem_init], by allocations, releases
    of blocks, and writes into the payloads handed out. *)
Inductive kmem_reach : kmem → mem → list blk → Prop :=
| kr_init g0 m0 base bytes g m :
    17 ≤ base → 0 ≤ bytes → base + bytes ≤ 2 ^ 64 - 16 → mem_ok m0 → mapped m0 base bytes →
    kmem_init g0 m0 base bytes = Ret (0, g, m) →
    kmem_reach g m [(init_usable base bytes - 48, true)]
| kr_alloc g m bs bytes ptr m' bs' :
    kmem_reach g m bs → 0 < bytes ≤ 2 ^ 64 - 16 → kmem_alloc g m bytes = Ret (ptr, m') →
    alloc_blocks (g_heap_base g) (rounded bytes) bs = Some (ptr, bs') →
    kmem_reach g m' bs'
| kr_free g m l1 s l2 rc m' :
    kmem_reach g m (l1 ++ (s, false) :: l2) →
    kmem_free_checked g m (end_of (g_heap_base g) l1 + 48) = Ret (rc, m') →
    kmem_reach g m' (merge (l1 ++ (s, true) :: l2))
| kr_write g m bs m' :
    kmem_reach g m bs → changed (in_used (g_heap_base g) bs) m m' → kmem_reach g m' bs.

Lemma kmem_reach_rep g m bs : kmem_reach g m bs → heap_rep g m bs.
Proof.
  induction 1 as [g0 m0 base bytes g m Hb Hn He Hok HM E | g m bs bytes ptr m' bs' _ IH Hb E Ea
    | g m l1 s l2 rc m' _ IH E | g m bs m' _ IH C].
  - pose proof (kmem_init_spec g0 m0 base bytes Hb Hn He Hok HM) as Hs. case_decide.
    + destruct Hs as (m' & E' & _ & HR). rewrite E in E'. by injection E' as -> ->.
    + destruct Hs as (rc & E' & Hrc). rewrite E in E'. injection E' as <- <- <-. lia.
  - pose proof (kmem_alloc_spec g m bs IH bytes Hb) as Hs. rewrite Ea in Hs.
    destruct Hs as (m2 & E' & HR & _). rewrite E in E'. by injection E' as <-.
  - destruct (free_memory g m l1 s l2 IH) as (m2 & HR & E' & _). rewrite E in E'.
    rewrite (kmem_validate_spec _ _ _ HR) in E'. simpl in E'. by injection E' as -> <-.
  - by eapply rep_payload_write.
Qed.

(** ** A concrete arena of 512 bytes at address 4096 *)
Definition arena0 : mem := zero_mem 4096 512.

Lemma arena0_ok : mem_ok arena0.
Proof. apply zero_mem_ok. Qed.

Lemma arena0_mapped : mapped arena0 4096 512.
Proof. apply zero_mem_mapped. Qed.

Definition demo_heap : kmem := mk_kmem 4096 4608 4096 1.
Definition demo_mem : mem :=
  match kmem_init kmem_boot arena0 4096 512 with Ret (_, _, m) => m | _ => ∅ end.

Lemma demo_init_ok : kmem_init kmem_boot arena0 4096 512 = Ret (0, demo_heap, demo_mem).
Proof.
  pose proof (kmem_init_spec kmem_boot arena0 4096 512 ltac:(lia) ltac:(lia) ltac:(lia)
    arena0_ok arena0_mapped) as H. rewrite decide_True in H by done.
  destruct H as (m' & E & _). unfold demo_mem. rewrite E. reflexivity.
Qed.

Lemma demo_reach : kmem_reach demo_heap demo_mem [(464, true)].
Proof.
  apply (kr_init kmem_boot arena0 4096 512);
    [lia..|apply arena0_ok|apply arena0_mapped|apply demo_init_ok].
Qed.

(** The heap after [kmem_alloc(40)]. *)
Definition demo_mem1 : mem :=
  match kmem_alloc demo_heap demo_mem 40 with Ret (_, m) => m | _ => ∅ end.

Lemma demo_alloc_ok : kmem_alloc demo_heap demo_mem 40 = Ret (4144, demo_mem1).
Proof.
  pose proof (kmem_alloc_spec _ _ _ (kmem_reach_rep _ _ _ demo_reach) 40 ltac:(lia)) as H.
  destruct H as (m' & E & _). unfold demo_mem1. rewrite E. reflexivity.
Qed.

Lemma demo_reach1 : kmem_reach demo_heap demo_mem1 [(48, false); (368, true)].
Proof.
  apply (kr_alloc demo_heap demo_mem [(464, true)] 40 4144);
    [apply demo_reach|lia|apply demo_alloc_ok|reflexivity].
Qed.

Lemma demo_rep : heap_rep demo_heap demo_mem [(464, true)].
Proof. apply kmem_reach_rep, demo_reach. Qed.

Lemma demo_rep1 : heap_rep demo_heap demo_mem1 [(48, false); (368, true)].
Proof. apply kmem_reach_rep, demo_reach1. Qed.

(** Which bytes an allocation hands out, and which it leaves alone. *)
Lemma alloc_blocks_used a w bytes bs q bs' :
  Forall blk_ok bs → 0 < bytes ≤ w → alloc_blocks a w bs = Some (q, bs') →
  (∀ x, q ≤ x < q + bytes → in_used a bs' x ∧ ¬ in_used a bs x) ∧
  (∀ x, in_used a bs x → in_used a bs' x) ∧ q + bytes ≤ end_of a bs.
Proof.
  intros HF Hb E. destruct (alloc_blocks_Some _ _ _ _ _ E) as (l1 & s & l2 & -> & Hw & -> & -> & _).
  rewrite Forall_app, Forall_cons in HF. destruct HF as (F1 & [Hs _] & F2). simpl in Hs.
  pose proof (end_of_ge (end_of a l1 + 48 + s) l2 F2). split_and!.
  - intros x Hx. split.
    + rewrite (in_used_app a l1), split_used by (done || lia). right. left.
      destruct (w + 80 <? s); lia.
    + rewrite in_used_app. simpl. intros [Hu|[[? _]|Hu]]; [|done|].
      * apply in_used_range in Hu; [lia|done].
      * apply in_used_range in Hu; [lia|done].
  - intros x. rewrite !(in_used_app a l1), split_used by (done || lia). simpl. naive_solver.
  - rewrite end_of_app. simpl. lia.
Qed.

(** ** Theorems *)

(** C12: kmem_alloc on a well-formed heap is first fit and memory safe: it either returns the 16-byte aligned payload of the first free block that is large enough (split when more than 80 bytes would be left), with the whole request inside the arena and disjoint from every live allocation, whose bytes all keep their values, or it returns null without touching memory because no free block is large enough. *)
Theorem kmem_alloc_correct (g : kmem) (m : mem) (bs : list blk) (bytes : Z) :
  heap_rep g m bs → 0 < bytes ≤ 2 ^ 64 - 16 →
  (∃ l1 s l2 m', bs = l1 ++ (s, true) :: l2 ∧ rounded bytes ≤ s ∧
     Forall (too_small (rounded bytes)) l1 ∧
     let ptr := end_of (g_heap_base g) l1 + 48 in
     let bs' := l1 ++ split_blk s (rounded bytes) false ++ l2 in
     kmem_alloc g m bytes = Ret (ptr, m') ∧ heap_rep g m' bs' ∧
     ptr mod 16 = 0 ∧ g_heap_base g < ptr ∧ ptr + bytes ≤ g_heap_end g ∧
     (∀ x, ptr ≤ x < ptr + bytes → in_used (g_heap_base g) bs' x ∧ ¬ in_used (g_heap_base g) bs x) ∧
     (∀ x, in_used (g_heap_base g) bs x → in_used (g_heap_base g) bs' x ∧ m' !! x = m !! x)) ∨
  (kmem_alloc g m bytes = Ret (0, m) ∧ Forall (too_small (rounded bytes)) bs).
Proof.
  intros HR Hb. pose proof (kmem_alloc_spec g m bs HR bytes Hb) as Hs.
  pose proof (rounded_bounds bytes ltac:(lia)) as Hw.
  destruct (alloc_blocks (g_heap_base g) (rounded bytes) bs) as [[q bs']|] eqn:E; [left|right].
  - destruct Hs as (m' & Ea & HR' & C).
    destruct (alloc_blocks_used _ (rounded bytes) bytes _ _ _ (ar_blocks _ _ _ (hr_arena _ _ _ HR)) ltac:(lia) E)
      as (U1 & U2 & Hend).
    destruct (alloc_blocks_Some _ _ _ _ _ E) as (l1 & s & l2 & Hbs & Hws & Hq & Hbs' & HF).
    pose proof (free_geometry g m l1 s true l2 ltac:(by rewrite <- Hbs)) as Hgeo.
    exists l1, s, l2, m'. simpl. rewrite <- Hbs', <- Hq.
    split_and!; [done..| | | |done|].
    + rewrite Hq. mlia.
    + lia.
    + by rewrite (hr_end _ _ _ HR).
    + intros x Hx. split; [by apply U2|]. apply C. unfold free_zone. tauto.
  - split; [done|]. by eapply alloc_blocks_None.
Qed.

Lemma kmem_alloc_correct_witness :
  kmem_alloc demo_heap demo_mem 40 = Ret (4144, demo_mem1) ∧
  ((∃ l1 s l2 m', [(464, true)] = l1 ++ (s, true) :: l2 ∧
     kmem_alloc demo_heap demo_mem 40 = Ret (end_of 4096 l1 + 48, m')) ∨
   kmem_alloc demo_heap demo_mem 40 = Ret (0, demo_mem)).
Proof.
  split; [apply demo_alloc_ok|].
  destruct (kmem_alloc_correct demo_heap demo_mem [(464, true)] 40 demo_rep ltac:(lia))
    as [(l1 & s & l2 & m' & Hl & _ & _ & E & _)|[E _]]; [left|right; exact E].
  exists l1, s, l2, m'. split; [exact Hl|exact E].
Defined.

(** C13: kmem_free_checked of a live allocation marks its block free and merges it with a free block on either side, leaving the heap well formed with no two adjacent free blocks and every payload byte in memory unchanged; it returns the verdict of kmem_validate, 0 unless the arena holds more than 1048576 blocks. *)
Theorem kmem_free_correct (g : kmem) (m : mem) (l1 : list blk) (s : Z) (l2 : list blk) :
  heap_rep g m (l1 ++ (s, false) :: l2) →
  ∃ m', kmem_free_checked g m (end_of (g_heap_base g) l1 + 48) =
      Ret (if Z.of_nat (length (merge (l1 ++ (s, true) :: l2))) <=? 1048576 then 0 else -3, m') ∧
    heap_rep g m' (merge (l1 ++ (s, true) :: l2)) ∧
    ∀ x, in_used (g_heap_base g) (l1 ++ (s, false) :: l2) x → m' !! x = m !! x.
Proof.
  intros HR. destruct (free_memory g m l1 s l2 HR) as (m' & HR' & E & C & _).
  rewrite (kmem_validate_spec _ _ _ HR') in E. exists m'. split_and!; [done|done|].
  intros x Hx. apply C. eapply used_not_hdr; [|done]. apply (hr_arena _ _ _ HR).
Qed.

Lemma kmem_free_correct_witness :
  ∃ m', kmem_free_checked demo_heap demo_mem1 4144 = Ret (0, m') ∧
    heap_rep demo_heap m' [(464, true)].
Proof.
  destruct (kmem_free_correct demo_heap demo_mem1 [] 48 [(368, true)] demo_rep1) as (m' & E & HR & _).
  exists m'. split; [exact E|exact HR].
Defined.

(** A pointer that was just released cannot be released again: the second kmem_free_checked returns -4 when the block is still a block of its own and -3 when it was merged into its left neighbour, and changes nothing. *)
Theorem kmem_double_free_rejected (g : kmem) (m : mem) (l1 : list blk) (s : Z) (l2 : list blk)
    (rc : Z) (m' : mem) :
  heap_rep g m (l1 ++ (s, false) :: l2) →
  kmem_free_checked g m (end_of (g_heap_base g) l1 + 48) = Ret (rc, m') →
  kmem_free_checked g m' (end_of (g_heap_base g) l1 + 48) =
    Ret (if head_free (reverse l1) then -3 else -4, m').
Proof.
  intros HR E. destruct (free_memory g m l1 s l2 HR) as (m2 & HR' & E' & C & L).
  rewrite E, (kmem_validate_spec _ _ _ HR') in E'. simpl in E'. injection E' as _ <-.
  destruct (head_free (reverse l1)) eqn:Hh.
  - eapply (free_swallowed g m l1 s false l2 HR); [apply C, HR|by apply L].
  - rewrite (merge_release l1 s l2) in HR' by (apply HR || done).
    by rewrite (free_guards g m' l1 _ true _ HR').
Qed.

Lemma kmem_double_free_rejected_witness :
  ∃ rc m', kmem_free_checked demo_heap demo_mem1 4144 = Ret (rc, m') ∧
    kmem_free_checked demo_heap m' 4144 = Ret (-4, m').
Proof.
  destruct (free_memory demo_heap demo_mem1 [] 48 [(368, true)] demo_rep1) as (m' & HR & E & _).
  rewrite (kmem_validate_spec _ _ _ HR) in E.
  exists 0, m'. split; [exact E|].
  exact (kmem_double_free_rejected demo_heap demo_mem1 [] 48 [(368, true)] 0 m' demo_rep1 E).
Defined.

(** C27: kmem_free_checked refuses what is not a live allocation, leaving memory alone: null is accepted as a no-op, a pointer outside the arena gives -1, a misaligned one -2, one without a header magic in front of it -3, and the payload of a free block -4. *)
Theorem kmem_free_rejects (g : kmem) (m : mem) (bs : list blk) (ptr : Z) :
  heap_rep g m bs →
  kmem_free_checked g m 0 = Ret (0, m) ∧
  (ptr ≠ 0 → ¬ (g_heap_base g ≤ ptr < g_heap_end g) → kmem_free_checked g m ptr = Ret (-1, m)) ∧
  (g_heap_base g ≤ ptr < g_heap_end g → ptr mod 16 ≠ 0 → kmem_free_checked g m ptr = Ret (-2, m)) ∧
  (g_heap_base g ≤ ptr < g_heap_end g → ptr mod 16 = 0 →
     (ptr - 48 < g_heap_base g ∨ load64 m (ptr - 48) ≠ Ret KMEM_MAGIC) →
     kmem_free_checked g m ptr = Ret (-3, m)) ∧
  (∀ l1 s l2, bs = l1 ++ (s, true) :: l2 → ptr = end_of (g_heap_base g) l1 + 48 →
     kmem_free_checked g m ptr = Ret (-4, m)).
Proof.
  intros HR. pose proof (rep_base _ _ _ HR) as Hbase. split; [done|].
  assert (HM : (ptr ≠ 0 → ¬ (g_heap_base g ≤ ptr < g_heap_end g) → kmem_ptr_in_heap g ptr = false) ∧
    (∀ p, g_heap_base g ≤ p < g_heap_end g → kmem_ptr_in_heap g p = true) ∧
    Z.land ptr (KMEM_ALIGN - 1) = ptr mod 16).
  { unfold kmem_ptr_in_heap. rewrite (hr_init _ _ _ HR). simpl. split_and!.
    - intros _ Ho. apply andb_false_iff. rewrite Z.leb_gt, Z.ltb_ge. lia.
    - intros p Hp. rewrite andb_true_iff, Z.leb_le, Z.ltb_lt. lia.
    - change (KMEM_ALIGN - 1) with (Z.ones 4). by rewrite Z.land_ones. }
  destruct HM as (Hout & Hin & Hal). split_and!.
  - intros Hn Ho. unfold kmem_free_checked. rewrite Hout by done.
    destruct (Z.eqb_spec ptr 0); done.
  - intros Hi Ha. unfold kmem_free_checked. rewrite Hin, Hal by lia.
    destruct (Z.eqb_spec ptr 0), (Z.eqb_spec (ptr mod 16) 0); done || lia.
  - intros Hi Ha Hm. unfold kmem_free_checked. rewrite Hin, Hal, Ha by lia.
    destruct (Z.eqb_spec ptr 0); [lia|]. simpl. unfold kmem_header_from_payload, sizeof_block.
    destruct (decide (g_heap_base g ≤ ptr - 48)) as [Hge|Hlt].
    + rewrite Hin by lia. simpl. destruct Hm as [?|Hm]; [lia|]. unfold get_magic.
      destruct (load64_Ret m (ptr - 48)) as (v & Hv & _); [apply HR| |].
      { eapply mapped_sub; [exact (ar_mapped _ _ _ (hr_arena _ _ _ HR))|lia|].
        rewrite <- (hr_end _ _ _ HR). lia. }
      rewrite Hv in *. simpl. destruct (Z.eqb_spec v KMEM_MAGIC); [congruence|done].
    + unfold kmem_ptr_in_heap at 1. destruct (Z.leb_spec (g_heap_base g) (ptr - 48)); [lia|].
      by rewrite andb_false_r.
  - intros l1 s l2 -> ->. apply (free_guards g m l1 s true l2 HR).
Qed.

Lemma kmem_free_rejects_witness :
  kmem_free_checked demo_heap demo_mem 100 = Ret (-1, demo_mem) ∧
  kmem_free_checked demo_heap demo_mem 4145 = Ret (-2, demo_mem) ∧
  kmem_free_checked demo_heap demo_mem 4144 = Ret (-4, demo_mem).
Proof.
  destruct (kmem_free_rejects demo_heap demo_mem [(464, true)] 100 demo_rep) as (_ & H1 & _).
  destruct (kmem_free_rejects demo_heap demo_mem [(464, true)] 4145 demo_rep) as (_ & _ & H2 & _).
  destruct (kmem_free_rejects demo_heap demo_mem [(464, true)] 4144 demo_rep) as (_ & _ & _ & _ & H3).
  split_and!.
  - apply H1; simpl; lia.
  - apply H2; [simpl; lia|done].
  - by apply (H3 [] 464 []).
Defined.

(** C7: From a successful kmem_init, every heap reached by allocations, releases and client writes into live payloads is well formed (headers tile the arena, are linked both ways, carry the magic, and no two free blocks are adjacent), and kmem_validate accepts it whenever the arena is at most 64 MiB. *)
Theorem kmem_invariant (g : kmem) (m : mem) (bs : list blk) :
  kmem_reach g m bs →
  heap_rep g m bs ∧ coalesced bs ∧
  (g_heap_end g - g_heap_base g ≤ 64 * 1048576 → kmem_validate g m = Ret 0).
Proof.
  intros H. pose proof (kmem_reach_rep _ _ _ H) as HR. split_and!; [done|apply HR|].
  intros Hs. rewrite (kmem_validate_spec _ _ _ HR). f_equal.
  pose proof (end_of_len (g_heap_base g) bs (ar_blocks _ _ _ (hr_arena _ _ _ HR))) as Hl.
  rewrite <- (hr_end _ _ _ HR) in Hl. by rewrite (proj2 (Z.leb_le _ _)) by lia.
Qed.

Lemma kmem_invariant_witness : kmem_validate demo_heap demo_mem1 = Ret 0.
Proof.
  destruct (kmem_invariant demo_heap demo_mem1 [(48, false); (368, true)] demo_reach1) as (_ & _ & H).
  apply H. simpl. lia.
Defined.

(** Releasing an allocation right after making it restores the block list exactly, so an allocate/free pair leaks and fragments nothing. *)
Theorem kmem_alloc_free_roundtrip (g : kmem) (m : mem) (bs : list blk) (bytes ptr : Z) (m1 : mem) :
  heap_rep g m bs → 0 < bytes ≤ 2 ^ 64 - 16 → ptr ≠ 0 → kmem_alloc g m bytes = Ret (ptr, m1) →
  ∃ rc m2, kmem_free_checked g m1 ptr = Ret (rc, m2) ∧ heap_rep g m2 bs.
Proof.
  intros HR Hb Hp E. pose proof (kmem_alloc_spec g m bs HR bytes Hb) as Hs.
  destruct (alloc_blocks _ _ bs) as [[q bs']|] eqn:Ea; [|congruence].
  destruct Hs as (m' & E' & HR' & _). rewrite E in E'. injection E' as <- <-.
  destruct (alloc_blocks_Some _ _ _ _ _ Ea) as (l1 & s & l2 & -> & Hw & -> & -> & _).
  pose proof (merge_split l1 s (rounded bytes) l2 (hr_coal _ _ _ HR)) as Hm.
  unfold split_blk in *. destruct (rounded bytes + 80 <? s); cbn [app] in *;
    destruct (free_memory g m1 l1 _ _ HR') as (m2 & HR2 & E2 & _);
    rewrite (kmem_validate_spec _ _ _ HR2) in E2; rewrite Hm in HR2; simpl in E2; eauto.
Qed.

Lemma kmem_alloc_free_roundtrip_witness :
  ∃ rc m2, kmem_free_checked demo_heap demo_mem1 4144 = Ret (rc, m2) ∧
    heap_rep demo_heap m2 [(464, true)].
Proof.
  exact (kmem_alloc_free_roundtrip demo_heap demo_mem [(464, true)] 40 4144 demo_mem1 demo_rep
           ltac:(lia) ltac:(lia) demo_alloc_ok).
Defined.

(** kmem_calloc refuses a count times size that overflows 64 bits, and otherwise behaves as kmem_alloc of the product, with every byte of the returned object zero and all live payloads unchanged. *)
Theorem kmem_calloc_correct (g : kmem) (m : mem) (bs : list blk) (count bytes : Z) :
  heap_rep g m bs → 0 < count < 2 ^ 64 → 0 < bytes < 2 ^ 64 →
  (2 ^ 64 ≤ count * bytes → kmem_calloc g m count bytes = Ret (0, m)) ∧
  (count * bytes ≤ 2 ^ 64 - 16 →
   match alloc_blocks (g_heap_base g) (rounded (count * bytes)) bs with
   | None => kmem_calloc g m count bytes = Ret (0, m)
   | Some (ptr, bs') =>
       ∃ m', kmem_calloc g m count bytes = Ret (ptr, m') ∧ heap_rep g m' bs' ∧
         (∀ x, ptr ≤ x < ptr + count * bytes → m' !! x = Some 0) ∧
         (∀ x, in_used (g_heap_base g) bs x → m' !! x = m !! x)
   end).
Proof.
  intros HR Hc Hb.
  assert (Hdiv : (SIZE_MAX / count <? bytes) = (2 ^ 64 <=? count * bytes)).
  { apply Bool.eq_iff_eq_true. rewrite Z.ltb_lt, Z.leb_le. unfold SIZE_MAX. rewrite UINT64_MAX_eq.
    split; intros H.
    - destruct (Z.le_gt_cases (2 ^ 64) (count * bytes)) as [|Hlt]; [done|].
      pose proof (Z.div_le_lower_bound (2 ^ 64 - 1) count bytes ltac:(lia) ltac:(lia)). lia.
    - apply Z.div_lt_upper_bound; lia. }
  unfold kmem_calloc. rewrite Hdiv. destruct (Z.eqb_spec count 0); [lia|]. simpl.
  split; intros Ho.
  { by rewrite (proj2 (Z.leb_le _ _)) by done. }
  rewrite (proj2 (Z.leb_gt _ _)) by lia. assert (Hpos : 0 < count * bytes) by nia.
  rewrite mul64_small by (unfold in64; lia).
  pose proof (kmem_alloc_spec g m bs HR (count * bytes) ltac:(lia)) as Hs.
  destruct (alloc_blocks _ _ bs) as [[q bs']|] eqn:Ea; [|by rewrite Hs].
  destruct Hs as (m1 & -> & HR1 & C1). simpl.
  pose proof (rounded_bounds (count * bytes) Hpos) as Hr.
  destruct (alloc_blocks_used _ (rounded (count * bytes)) (count * bytes) _ _ _
    (ar_blocks _ _ _ (hr_arena _ _ _ HR)) ltac:(lia) Ea) as (U1 & U2 & Hend).
  destruct (alloc_blocks_Some _ _ _ _ _ Ea) as (l1 & s & l2 & Hbs & _ & Hq & _).
  pose proof (free_geometry g m l1 s true l2 ltac:(by rewrite <- Hbs)) as Hgeo.
  destruct (Z.eqb_spec q 0); [lia|]. simpl.
  destruct (kmem_memset_spec m1 q 0 (count * bytes)) as (m2 & -> & W2 & Z2); [|lia|].
  { pose proof (ar_mapped _ _ _ (hr_arena _ _ _ HR1)) as HM. rewrite <- (hr_end _ _ _ HR1) in HM.
    rewrite (hr_end _ _ _ HR) in HM. eapply mapped_sub; [exact HM|lia..]. }
  simpl. exists m2. split_and!; [done| |done|].
  - eapply rep_payload_write; [exact HR1|]. eapply wrote_changed; [exact W2|].
    intros x Hx. by apply U1.
  - intros x Hx. rewrite (wrote_outside _ _ _ _ W2).
    + apply C1. unfold free_zone. tauto.
    + intros Hx'. destruct (U1 x Hx') as [_ Hn]. done.
Qed.

Lemma kmem_calloc_correct_witness :
  kmem_calloc demo_heap demo_mem (2 ^ 63) 2 = Ret (0, demo_mem) ∧
  ∃ m', kmem_calloc demo_heap demo_mem 4 10 = Ret (4144, m') ∧ m' !! 4144 = Some 0.
Proof.
  destruct (kmem_calloc_correct demo_heap demo_mem [(464, true)] (2 ^ 63) 2 demo_rep) as [H1 _]; [lia..|].
  destruct (kmem_calloc_correct demo_heap demo_mem [(464, true)] 4 10 demo_rep) as [_ H2]; [lia..|].
  split; [apply H1; done|]. destruct (H2 ltac:(lia)) as (m' & E & _ & Hz & _).
  exists m'. split; [exact E|apply Hz; simpl; lia].
Defined.

(** kmem_get_stats reports the block list: used and free payload bytes, the numbers of blocks and of free blocks and the largest free block, and these account for the whole arena (used + free + 48 bytes per header = total). *)
Theorem kmem_get_stats_correct (g : kmem) (m : mem) (bs : list blk) (o : kmem_stats) :
  heap_rep g m bs →
  ∃ st, kmem_get_stats g m (Some o) = Ret (Some st) ∧
    total_bytes st = g_heap_end g - g_heap_base g ∧
    used_bytes st = used_sum bs ∧ free_bytes st = free_sum bs ∧
    block_count st = Z.of_nat (length bs) ∧
    free_count st = Z.of_nat (length (filter (λ b, b.2 = true) bs)) ∧
    Forall (λ b, b.2 = true → b.1 ≤ largest_free st) bs ∧
    (largest_free st = 0 ∨ (largest_free st, true) ∈ bs) ∧
    used_bytes st + free_bytes st + 48 * block_count st = total_bytes st.
Proof.
  intros HR. eexists. split; [by apply kmem_get_stats_spec|]. simpl. split_and!; [done..| | | |].
  - clear HR. induction bs as [|[s f] r IH]; [done|]. simpl. rewrite IH, filter_cons. simpl.
    destruct f; simpl; lia.
  - clear HR. induction bs as [|[s f] r IH]; [done|]. constructor; simpl.
    + intros ->. lia.
    + eapply Forall_impl; [exact IH|]. simpl. intros b Hb Hf. specialize (Hb Hf). lia.
  - pose proof (ar_blocks _ _ _ (hr_arena _ _ _ HR)) as HF. clear HR.
    induction HF as [|[s f] r [Hs _] HF IH]; [by left|]. simpl in *. pose proof (sums_bounds r HF).
    destruct f.
    + right. destruct (Z.max_spec s (max_free r)) as [[? ->]|[? ->]].
      * destruct IH as [?|IH]; [lia|]. by right.
      * by left.
    + rewrite Z.max_r by lia. destruct IH as [IH|IH]; [by left|right; by right].
  - rewrite (sums_tile (g_heap_base g)), (hr_end _ _ _ HR). done.
Qed.

Lemma kmem_get_stats_correct_witness :
  ∃ st, kmem_get_stats demo_heap demo_mem1 (Some (mk_stats 9 9 9 9 9 9)) = Ret (Some st) ∧
    used_bytes st = 48 ∧ free_bytes st = 368.
Proof.
  destruct (kmem_get_stats_correct demo_heap demo_mem1 [(48, false); (368, true)]
    (mk_stats 9 9 9 9 9 9) demo_rep1) as (st & E & _ & Hu & Hf & _).
  exists st. split_and!; [exact E|exact Hu|exact Hf].
Defined.

(** kmem_init aligns the arena it is given and either installs one free block spanning it and returns 0, or, when fewer than 81 aligned bytes remain, returns a negative code and leaves the module state and memory unchanged. *)
Theorem kmem_init_correct (g : kmem) (m : mem) (base bytes : Z) :
  17 ≤ base → 0 ≤ bytes → base + bytes ≤ 2 ^ 64 - 16 → mem_ok m → mapped m base bytes →
  (80 < init_usable base bytes ∧ ∃ g' m', kmem_init g m base bytes = Ret (0, g', m') ∧
     base ≤ g_heap_base g' ∧ g_heap_end g' ≤ base + bytes ∧ g_heap_base g' mod 16 = 0 ∧
     heap_rep g' m' [(g_heap_end g' - g_heap_base g' - 48, true)]) ∨
  (init_usable base bytes ≤ 80 ∧ ∃ rc, rc < 0 ∧ kmem_init g m base bytes = Ret (rc, g, m)).
Proof.
  intros Hb Hn He Hok HM. pose proof (kmem_init_spec g m base bytes Hb Hn He Hok HM) as Hs.
  case_decide as Hd; [left|right].
  - destruct Hs as (m' & E & _ & HR). split; [done|]. eexists _, m'. split; [exact E|]. simpl.
    replace (init_start base + init_usable base bytes - init_start base - 48)
      with (init_usable base bytes - 48) by lia.
    split_and!; [| | |done]; unfold init_start, init_usable; mlia.
  - destruct Hs as (rc & E & Hrc). split; [lia|]. by exists rc.
Qed.

Lemma kmem_init_correct_witness :
  ∃ g' m', kmem_init kmem_boot arena0 4096 512 = Ret (0, g', m') ∧
    heap_rep g' m' [(g_heap_end g' - g_heap_base g' - 48, true)].
Proof.
  destruct (kmem_init_correct kmem_boot arena0 4096 512 ltac:(lia) ltac:(lia) ltac:(lia)
    arena0_ok arena0_mapped) as [(_ & g' & m' & E & _ & _ & _ & HR)|[H _]].
  - exists g', m'. split; [exact E|exact HR].
  - exfalso. revert H. vm_compute. congruence.
Defined.
