(* ===== verification/Sched.v ===== *)
(** * The cooperative scheduler: model

    [kernel/sched/mcsos_thread.c] with [include/mcsos_thread.h] and
    [kernel/arch/x86_64/context_switch.S].  Thread objects live in a store
    indexed by their address, so that the intrusive ready queue (the [next]
    fields) can alias; a dereference outside the store is [UB].  The scheduler
    argument is [None] for a null pointer. *)

From S2P Require Import Prelude Mem.

Definition MCSOS_THREAD_MAGIC : Z := 0x4d43534f53544852.
Definition MCSOS_STACK_ALIGN : Z := 16.
Definition MCSOS_MIN_KERNEL_STACK : Z := 4096.

Inductive thread_state : Type :=
| THREAD_NEW | THREAD_READY | THREAD_RUNNING | THREAD_BLOCKED | THREAD_ZOMBIE.

#[global] Instance thread_state_eq_dec : EqDecision thread_state.
Proof. solve_decision. Defined.

Definition MCSOS_SCHED_OK : Z := 0.
Definition MCSOS_SCHED_EINVAL : Z := -1.
Definition MCSOS_SCHED_ESTATE : Z := -2.
Definition MCSOS_SCHED_ESTACK : Z := -3.
Definition MCSOS_SCHED_ECORRUPT : Z := -4.

(** The saved registers; the same record holds the live ones. *)
Record context : Type := mk_context {
  rsp : Z; rbp : Z; rbx : Z; r12 : Z; r13 : Z; r14 : Z; r15 : Z; rip : Z;
}.

Record thread : Type := mk_thread {
  magic : Z;
  id : Z;
  name : Z;
  state : thread_state;
  ctxt : context;
  entry : Z;
  arg : Z;
  stack_base : Z;
  stack_size : Z;
  next : Z;
  switches : Z;
  ticks : Z;
  exit_code : Z;
}.

Record scheduler : Type := mk_sched {
  current : Z;
  idle : Z;
  ready_head : Z;
  ready_tail : Z;
  next_id : Z;
  runnable_count : Z;
  context_switches : Z;
  sched_ticks : Z;
  initialized : Z;
}.

(** Everything the module reads and writes. *)
Record kern : Type := mk_kern {
  threads : gmap Z thread;
  sched : option scheduler;
  regs : context;
  kmemory : mem;
}.

(** ** Field updates *)
Definition set_state (t : thread) (v : thread_state) : thread :=
  mk_thread (magic t) (id t) (name t) v (ctxt t) (entry t) (arg t) (stack_base t)
    (stack_size t) (next t) (switches t) (ticks t) (exit_code t).
Definition set_tnext (t : thread) (v : Z) : thread :=
  mk_thread (magic t) (id t) (name t) (state t) (ctxt t) (entry t) (arg t) (stack_base t)
    (stack_size t) v (switches t) (ticks t) (exit_code t).
Definition set_ctxt (t : thread) (v : context) : thread :=
  mk_thread (magic t) (id t) (name t) (state t) v (entry t) (arg t) (stack_base t)
    (stack_size t) (next t) (switches t) (ticks t) (exit_code t).
Definition inc_switches (t : thread) : thread :=
  mk_thread (magic t) (id t) (name t) (state t) (ctxt t) (entry t) (arg t) (stack_base t)
    (stack_size t) (next t) (switches t ⊕ 1) (ticks t) (exit_code t).
Definition inc_ticks (t : thread) : thread :=
  mk_thread (magic t) (id t) (name t) (state t) (ctxt t) (entry t) (arg t) (stack_base t)
    (stack_size t) (next t) (switches t) (ticks t ⊕ 1) (exit_code t).

Definition set_queue (s : scheduler) (h t n : Z) : scheduler :=
  mk_sched (current s) (idle s) h t (next_id s) n (context_switches s) (sched_ticks s)
    (initialized s).
Definition set_current (s : scheduler) (c : Z) : scheduler :=
  mk_sched c (idle s) (ready_head s) (ready_tail s) (next_id s) (runnable_count s)
    (context_switches s) (sched_ticks s) (initialized s).
Definition inc_context_switches (s : scheduler) : scheduler :=
  mk_sched (current s) (idle s) (ready_head s) (ready_tail s) (next_id s) (runnable_count s)
    (context_switches s ⊕ 1) (sched_ticks s) (initialized s).
Definition inc_sched_ticks (s : scheduler) : scheduler :=
  mk_sched (current s) (idle s) (ready_head s) (ready_tail s) (next_id s) (runnable_count s)
    (context_switches s) (sched_ticks s ⊕ 1) (initialized s).

(** Reading and updating the object behind a pointer. *)
Definition deref (ts : gmap Z thread) (p : Z) : outcome thread :=
  match ts !! p with Some t => Ret t | None => UB end.
Definition modify (ts : gmap Z thread) (p : Z) (f : thread → thread) : outcome (gmap Z thread) :=
  match ts !! p with Some t => Ret (<[p := f t]> ts) | None => UB end.

Definition with_threads (k : kern) (ts : gmap Z thread) : kern :=
  mk_kern ts (sched k) (regs k) (kmemory k).
Definition with_sched (k : kern) (s : scheduler) : kern :=
  mk_kern (threads k) (Some s) (regs k) (kmemory k).

(** ** Helpers *)
Definition align_down_uintptr (value alignment : Z) : Z := Z.land value (not64 (alignment ⊖ 1)).

Definition valid_thread_object (ts : gmap Z thread) (p : Z) : outcome bool :=
  if p =? 0 then Ret false
  else
    t ← deref ts p;
    Ret (magic t =? MCSOS_THREAD_MAGIC).

Definition zero_context : context := mk_context 0 0 0 0 0 0 0 0.

Section sched.
(** Link-time constants: the address of [mcsos_thread_trampoline], of the local
    label [1:] in [mcsos_context_switch], and of the string ["boot"]. *)
Context (trampoline resume_label boot_name : Z).

(** [mcsos_context_switch]: save the callee-saved registers, the stack pointer
    and the resume address; load those of the next context. *)
Definition context_switch (ts : gmap Z thread) (live : context) (old new : Z)
  : outcome (gmap Z thread * context) :=
  ts ← modify ts old (λ t, set_ctxt t
         (mk_context (rsp live) (rbp live) (rbx live) (r12 live) (r13 live) (r14 live) (r15 live)
            resume_label));
  n ← deref ts new;
  Ret (ts, ctxt n).

Definition mcsos_scheduler_init (k : kern) (boot_thread : Z) : outcome (Z * kern) :=
  match sched k with
  | None => Ret (MCSOS_SCHED_EINVAL, k)
  | Some _ =>
      if boot_thread =? 0 then Ret (MCSOS_SCHED_EINVAL, k)
      else
        ts ← modify (threads k) boot_thread (λ t,
               mk_thread MCSOS_THREAD_MAGIC 0 boot_name THREAD_RUNNING zero_context 0 0 0 0 0 0 0 0);
        Ret (MCSOS_SCHED_OK,
             with_sched (with_threads k ts) (mk_sched boot_thread boot_thread 0 0 1 0 0 0 1))
  end.

Definition mcsos_thread_prepare (k : kern) (thr name entry arg stack_base stack_size id : Z)
  : outcome (Z * kern) :=
  if (thr =? 0) || (entry =? 0) || (stack_base =? 0) then Ret (MCSOS_SCHED_EINVAL, k)
  else if stack_size <? MCSOS_MIN_KERNEL_STACK then Ret (MCSOS_SCHED_ESTACK, k)
  else
    let low := stack_base in
    let high := low ⊕ stack_size in
    if high <=? low then Ret (MCSOS_SCHED_ESTACK, k)
    else
      let top := align_down_uintptr high MCSOS_STACK_ALIGN in
      if top <=? low ⊕ 128 then Ret (MCSOS_SCHED_ESTACK, k)
      else
        let top := top ⊖ 8 in
        m ← store64 (kmemory k) top 0;
        ts ← modify (threads k) thr (λ t,
               mk_thread MCSOS_THREAD_MAGIC id name THREAD_NEW
                 (mk_context top 0 0 0 0 0 0 trampoline) entry arg stack_base stack_size 0 0 0 0);
        Ret (MCSOS_SCHED_OK, mk_kern ts (sched k) (regs k) m).

Definition state_enqueueable (s : thread_state) : bool :=
  match s with THREAD_NEW | THREAD_READY | THREAD_BLOCKED => true | _ => false end.

Definition mcsos_sched_enqueue (k : kern) (thr : Z) : outcome (Z * kern) :=
  match sched k with
  | None => Ret (MCSOS_SCHED_EINVAL, k)
  | Some s =>
      if initialized s =? 0 then Ret (MCSOS_SCHED_EINVAL, k)
      else
        v ← valid_thread_object (threads k) thr;
        if negb v then Ret (MCSOS_SCHED_EINVAL, k)
        else
          t ← deref (threads k) thr;
          if negb (state_enqueueable (state t)) then Ret (MCSOS_SCHED_ESTATE, k)
          else
            ts ← modify (threads k) thr (λ t, set_tnext (set_state t THREAD_READY) 0);
            if ready_tail s =? 0 then
              Ret (MCSOS_SCHED_OK,
                   with_sched (with_threads k ts) (set_queue s thr thr (runnable_count s ⊕ 1)))
            else
              ts ← modify ts (ready_tail s) (λ t, set_tnext t thr);
              Ret (MCSOS_SCHED_OK,
                   with_sched (with_threads k ts)
                     (set_queue s (ready_head s) thr (runnable_count s ⊕ 1)))
  end.

(** Returns the picked thread (0 for null). *)
Definition mcsos_sched_pick_next (k : kern) : outcome (Z * kern) :=
  match sched k with
  | None => Ret (0, k)
  | Some s =>
      if initialized s =? 0 then Ret (0, k)
      else
        let thr := ready_head s in
        if thr =? 0 then Ret (idle s, k)
        else
          t ← deref (threads k) thr;
          let head := next t in
          let tail := if head =? 0 then 0 else ready_tail s in
          ts ← modify (threads k) thr (λ t, set_tnext t 0);
          let n := if 0 <? runnable_count s then runnable_count s ⊖ 1 else runnable_count s in
          Ret (thr, with_sched (with_threads k ts) (set_queue s head tail n))
  end.

Definition mcsos_sched_yield (k : kern) : outcome (Z * kern) :=
  match sched k with
  | None => Ret (MCSOS_SCHED_EINVAL, k)
  | Some s =>
      if initialized s =? 0 then Ret (MCSOS_SCHED_EINVAL, k)
      else
        v ← valid_thread_object (threads k) (current s);
        if negb v then Ret (MCSOS_SCHED_EINVAL, k)
        else
          let old_thread := current s in
          ' (next_thread, k) ← mcsos_sched_pick_next k;
          v ← valid_thread_object (threads k) next_thread;
          if negb v then Ret (MCSOS_SCHED_ECORRUPT, k)
          else if next_thread =? old_thread then
            ts ← modify (threads k) old_thread (λ t, set_state t THREAD_RUNNING);
            Ret (MCSOS_SCHED_OK, with_threads k ts)
          else
            o ← deref (threads k) old_thread;
            ' (rc, k) ←
              (if bool_decide (state o = THREAD_RUNNING) && negb (old_thread =? idle s) then
                 ts ← modify (threads k) old_thread (λ t, set_state t THREAD_READY);
                 mcsos_sched_enqueue (with_threads k ts) old_thread
               else Ret (MCSOS_SCHED_OK, k));
            if negb (rc =? MCSOS_SCHED_OK) then Ret (rc, k)
            else
              ts ← modify (threads k) next_thread (λ t, set_state t THREAD_RUNNING);
              ts ← modify ts old_thread inc_switches;
              ts ← modify ts next_thread inc_switches;
              match sched k with
              | None => UB
              | Some s' =>
                  let s' := inc_context_switches (set_current s' next_thread) in
                  ' (ts, live) ← context_switch ts (regs k) old_thread next_thread;
                  Ret (MCSOS_SCHED_OK, mk_kern ts (Some s') live (kmemory k))
              end
  end.

Definition mcsos_sched_tick (k : kern) : outcome (Z * kern) :=
  match sched k with
  | None => Ret (MCSOS_SCHED_EINVAL, k)
  | Some s =>
      if initialized s =? 0 then Ret (MCSOS_SCHED_EINVAL, k)
      else
        v ← valid_thread_object (threads k) (current s);
        if negb v then Ret (MCSOS_SCHED_EINVAL, k)
        else
          ts ← modify (threads k) (current s) inc_ticks;
          Ret (MCSOS_SCHED_OK, with_sched (with_threads k ts) (inc_sched_ticks s))
  end.

Definition mcsos_thread_block_current (k : kern) : outcome (Z * kern) :=
  match sched k with
  | None => Ret (MCSOS_SCHED_EINVAL, k)
  | Some s =>
      if initialized s =? 0 then Ret (MCSOS_SCHED_EINVAL, k)
      else
        v ← valid_thread_object (threads k) (current s);
        if negb v then Ret (MCSOS_SCHED_EINVAL, k)
        else if current s =? idle s then Ret (MCSOS_SCHED_ESTATE, k)
        else
          ts ← modify (threads k) (current s) (λ t, set_state t THREAD_BLOCKED);
          mcsos_sched_yield (with_threads k ts)
  end.

Definition mcsos_thread_mark_ready (k : kern) (thr : Z) : outcome (Z * kern) :=
  v ← valid_thread_object (threads k) thr;
  if negb v then Ret (MCSOS_SCHED_EINVAL, k)
  else
    t ← deref (threads k) thr;
    if negb (bool_decide (state t = THREAD_BLOCKED)) then Ret (MCSOS_SCHED_ESTATE, k)
    else mcsos_sched_enqueue k thr.

Definition count_step (ts : gmap Z thread) (s : Z * Z) : outcome (Z * Z + Z) :=
  let '(count, cursor) := s in
  if cursor =? 0 then Ret (inr count)
  else
    t ← deref ts cursor;
    Ret (inl (count ⊕ 1, next t)).

(** The C loop has no bound of its own; the fuel is a parameter. *)
Definition mcsos_sched_ready_count (fuel : nat) (k : kern) : outcome Z :=
  match sched k with
  | None => Ret 0
  | Some s =>
      if initialized s =? 0 then Ret 0
      else loop fuel (count_step (threads k)) (0, ready_head s)
  end.

(** The walk of [mcsos_sched_validate]: [inl rc] when it fails, [(count, last)]
    at the end of the queue. *)
Definition qvalidate_step (ts : gmap Z thread) (s : scheduler) (st : Z * Z * Z)
  : outcome (Z * Z * Z + (Z + Z * Z)) :=
  let '(count, cursor, last) := st in
  if cursor =? 0 then Ret (inr (inr (count, last)))
  else
    v ← valid_thread_object ts cursor;
    if negb v then Ret (inr (inl MCSOS_SCHED_ECORRUPT))
    else
      t ← deref ts cursor;
      if negb (bool_decide (state t = THREAD_READY)) then Ret (inr (inl MCSOS_SCHED_ECORRUPT))
      else if cursor =? current s then Ret (inr (inl MCSOS_SCHED_ECORRUPT))
      else
        let last := cursor in
        let cursor := next t in
        let count := count ⊕ 1 in
        if runnable_count s ⊕ 1 <? count then Ret (inr (inl MCSOS_SCHED_ECORRUPT))
        else Ret (inl (count, cursor, last)).

(** The walk stops after [runnable_count + 2] steps at the latest. *)
Definition mcsos_sched_validate (k : kern) : outcome Z :=
  match sched k with
  | None => Ret MCSOS_SCHED_EINVAL
  | Some s =>
      if initialized s =? 0 then Ret MCSOS_SCHED_EINVAL
      else
        v ← valid_thread_object (threads k) (current s);
        if negb v then Ret MCSOS_SCHED_EINVAL
        else
          r ← loop (Z.to_nat (runnable_count s) + 4) (qvalidate_step (threads k) s)
                (0, ready_head s, 0);
          match r with
          | inl rc => Ret rc
          | inr (count, last) =>
              if negb (last =? ready_tail s) then Ret MCSOS_SCHED_ECORRUPT
              else if negb (count =? runnable_count s) then Ret MCSOS_SCHED_ECORRUPT
              else Ret MCSOS_SCHED_OK
          end
  end.
End sched.

Arguments mcsos_sched_enqueue : simpl never.
Arguments mcsos_sched_pick_next : simpl never.
Arguments mcsos_sched_yield : simpl never.
Arguments mcsos_sched_validate : simpl never.
Arguments mcsos_sched_ready_count : simpl never.
Arguments mcsos_thread_prepare : simpl never.
Arguments context_switch : simpl never.
