(* ===== verification/SchedProofs.v ===== *)
(** * The cooperative scheduler: the ready queue

    [qlist] reads the intrusive list from its head; [queue_inv] is the queue
    invariant (nodes are distinct READY threads, the tail pointer and the
    counter agree with the list), kept by enqueue and pick. *)

From S2P Require Import Prelude Mem Sched.

Abbreviation store := (gmap Z thread).

(** A thread object whose magic is set. *)
Definition valid (t : thread) : Prop := magic t = MCSOS_THREAD_MAGIC.

Fixpoint qlist (ts : store) (h : Z) (q : list Z) : Prop :=
  match q with
  | [] => h = 0
  | p :: r => h = p ∧ p ≠ 0 ∧ ∃ t, ts !! p = Some t ∧ qlist ts (next t) r
  end.

Definition tail_of (q : list Z) : Z := default 0 (last q).

Definition ready_at (ts : store) (p : Z) : Prop :=
  ∃ t, ts !! p = Some t ∧ valid t ∧ state t = THREAD_READY.

Record queue_inv (ts : store) (s : scheduler) (q : list Z) : Prop := {
  qi_init : initialized s ≠ 0;
  qi_list : qlist ts (ready_head s) q;
  qi_tail : ready_tail s = tail_of q;
  qi_nodup : NoDup q;
  qi_ready : Forall (ready_at ts) q;
  qi_count : runnable_count s = Z.of_nat (length q);
  qi_size : Z.of_nat (size ts) < 2 ^ 64 - 1;
}.

(** The states of the valid threads. *)
Definition states_of (ts : store) : gmap Z thread_state :=
  omap (λ t, if bool_decide (valid t) then Some (state t) else None) ts.

#[global] Instance valid_dec t : Decision (valid t).
Proof. unfold valid. apply _. Defined.

(** ** The store *)
Lemma states_of_lookup ts p t : ts !! p = Some t → valid t → states_of ts !! p = Some (state t).
Proof.
  intros Hp Hv. unfold states_of. rewrite lookup_omap, Hp. simpl. by rewrite bool_decide_eq_true_2.
Qed.

Lemma states_of_insert ts p t :
  valid t → states_of (<[p := t]> ts) = <[p := state t]> (states_of ts).
Proof.
  intros Hv. unfold states_of. apply omap_insert_Some. by rewrite bool_decide_eq_true_2.
Qed.

Lemma states_of_keep ts p t t' :
  ts !! p = Some t → valid t → valid t' → state t' = state t →
  states_of (<[p := t']> ts) = states_of ts.
Proof.
  intros Hp Hv Hv' Hs. rewrite states_of_insert, Hs by done. apply insert_id.
  by apply states_of_lookup.
Qed.

Lemma modify_Ret ts p t f : ts !! p = Some t → modify ts p f = Ret (<[p := f t]> ts).
Proof. intros Hp. unfold modify. by rewrite Hp. Qed.

Lemma valid_object ts p t :
  ts !! p = Some t → p ≠ 0 → valid_thread_object ts p = Ret (bool_decide (valid t)).
Proof.
  intros Hp Hn. unfold valid_thread_object, deref. rewrite (proj2 (Z.eqb_neq p 0)), Hp by done.
  simpl. f_equal. unfold valid. apply Bool.eq_iff_eq_true. by rewrite Z.eqb_eq, bool_decide_eq_true.
Qed.

Lemma size_modify (ts : store) p (t t' : thread) : ts !! p = Some t → size (<[p := t']> ts) = size ts.
Proof. intros Hp. by rewrite map_size_insert_Some by eauto. Qed.

(** ** Lists in the store *)
Lemma qlist_insert ts h q p t t' :
  qlist ts h q → ts !! p = Some t → (p ∈ q → next t' = next t) → qlist (<[p := t']> ts) h q.
Proof.
  intros Hq Hp. revert h Hq. induction q as [|a q IH]; intros h; simpl; [done|].
  intros (-> & Ha & ta & Hta & Hq) Hn. split_and!; [done..|].
  destruct (decide (p = a)) as [->|Hne].
  - exists t'. rewrite lookup_insert_eq. split; [done|]. rewrite Hn by constructor.
    rewrite Hta in Hp. injection Hp as ->. apply IH; [done|]. intros ?. apply Hn. by constructor.
  - exists ta. rewrite lookup_insert_ne by done. split; [done|]. apply IH; [done|].
    intros ?. apply Hn. by constructor.
Qed.

Lemma qlist_nonzero ts h q p : qlist ts h q → p ∈ q → p ≠ 0.
Proof.
  revert h. induction q as [|a q IH]; intros h; simpl; [by intros _ ?%elem_of_nil|].
  intros (-> & Ha & t & _ & Hq) [->|Hp]%elem_of_cons; eauto.
Qed.

Lemma tail_of_snoc q p : tail_of (q ++ [p]) = p.
Proof. unfold tail_of. by rewrite last_snoc. Qed.

Lemma tail_of_zero ts h q : qlist ts h q → tail_of q = 0 ↔ q = [].
Proof.
  intros Hq. split; [|by intros ->]. intros Ht. destruct q as [|p q _] using rev_ind; [done|].
  rewrite tail_of_snoc in Ht. exfalso. eapply (qlist_nonzero ts h (q ++ [p]) p); set_solver.
Qed.

Lemma qlist_snoc ts h q l tl p t :
  qlist ts h (q ++ [l]) → ts !! l = Some tl → ts !! p = Some t → next t = 0 → p ≠ 0 →
  p ≠ l → l ∉ q → qlist (<[l := set_tnext tl p]> ts) h (q ++ [l; p]).
Proof.
  intros Hq Hl Hp Hn Hp0 Hpl. revert h Hq. induction q as [|a q IH]; intros h; simpl.
  - intros (-> & Hl0 & t1 & Ht1 & _) _. split_and!; [done..|].
    eexists. rewrite lookup_insert_eq. split; [done|]. simpl. split_and!; [done..|].
    exists t. by rewrite lookup_insert_ne.
  - intros (-> & Ha & ta & Hta & Hq) Hnot. split_and!; [done..|].
    exists ta. rewrite lookup_insert_ne by set_solver. split; [done|]. apply IH; set_solver.
Qed.

Lemma ready_insert ts p t' q :
  Forall (ready_at ts) q → (p ∈ q → valid t' ∧ state t' = THREAD_READY) →
  Forall (ready_at (<[p := t']> ts)) q.
Proof.
  rewrite !Forall_forall. intros HF Hp x Hx. destruct (decide (p = x)) as [->|Hne].
  - exists t'. rewrite lookup_insert_eq. destruct (Hp Hx). done.
  - destruct (HF x Hx) as (t & Ht & ?). exists t. by rewrite lookup_insert_ne.
Qed.

(** Updates that leave the links of queued threads alone. *)
Lemma queue_inv_insert ts s q p t t' :
  queue_inv ts s q → ts !! p = Some t →
  (p ∈ q → next t' = next t ∧ valid t' ∧ state t' = THREAD_READY) →
  queue_inv (<[p := t']> ts) s q.
Proof.
  intros [] Hp Hq. split; try done.
  - eapply qlist_insert; [done..|]. intros Hin. by apply Hq.
  - apply ready_insert; [done|]. intros Hin. by apply Hq.
  - by erewrite size_modify.
Qed.

(** The scheduler fields outside the queue do not matter. *)
Lemma queue_inv_sched ts s s' q :
  queue_inv ts s q → initialized s' = initialized s → ready_head s' = ready_head s →
  ready_tail s' = ready_tail s → runnable_count s' = runnable_count s → queue_inv ts s' q.
Proof. intros [] E1 E2 E3 E4. split; rewrite ?E1, ?E2, ?E3, ?E4; done. Qed.

(** The queue is no longer than the store is large. *)
Lemma queue_len ts s q p t :
  queue_inv ts s q → ts !! p = Some t → p ∉ q → Z.of_nat (length q) + 1 ≤ Z.of_nat (size ts).
Proof.
  intros [] Hp Hnot.
  assert (Hsub : list_to_set (p :: q) ⊆@{gset Z} dom ts).
  { intros x. rewrite elem_of_list_to_set, elem_of_cons, elem_of_dom. intros [->|Hx]; [eauto|].
    rewrite Forall_forall in qi_ready0. destruct (qi_ready0 x Hx) as (t' & Ht' & _). eauto. }
  apply subseteq_size in Hsub. rewrite size_list_to_set, size_dom in Hsub by (by constructor).
  simpl in Hsub. lia.
Qed.

(** ** Enqueue and pick *)
Lemma enqueue_spec k s q p t :
  sched k = Some s → queue_inv (threads k) s q → p ≠ 0 → threads k !! p = Some t → valid t →
  state_enqueueable (state t) = true → p ∉ q →
  ∃ ts, mcsos_sched_enqueue k p =
      Ret (MCSOS_SCHED_OK, with_sched (with_threads k ts)
             (set_queue s (if decide (q = []) then p else ready_head s) p (runnable_count s ⊕ 1))) ∧
    queue_inv ts (set_queue s (if decide (q = []) then p else ready_head s) p (runnable_count s ⊕ 1))
      (q ++ [p]) ∧
    states_of ts = <[p := THREAD_READY]> (states_of (threads k)) ∧
    ∀ x, ctxt <$> ts !! x = ctxt <$> threads k !! x.
Proof.
  intros Hs HQ Hp0 Hp Hv He Hnot. pose proof (queue_len _ _ _ _ _ HQ Hp Hnot) as Hlen.
  unfold mcsos_sched_enqueue. rewrite Hs. pose proof HQ as HQ'. destruct HQ'.
  rewrite (proj2 (Z.eqb_neq _ _)) by done.
  rewrite (valid_object _ _ _ Hp Hp0), bool_decide_eq_true_2 by done. simpl.
  unfold deref. rewrite Hp. simpl. rewrite He. simpl. rewrite (modify_Ret _ _ _ _ Hp). simpl.
  set (t1 := set_tnext (set_state t THREAD_READY) 0). set (ts1 := <[p := t1]> (threads k)).
  assert (Hv1 : valid t1) by done.
  assert (Hst1 : states_of ts1 = <[p := THREAD_READY]> (states_of (threads k))).
  { unfold ts1. by rewrite states_of_insert. }
  assert (Hcx1 : ∀ x, ctxt <$> ts1 !! x = ctxt <$> threads k !! x).
  { intros x. unfold ts1. destruct (decide (p = x)) as [->|]; [rewrite lookup_insert_eq, Hp|
      rewrite lookup_insert_ne by done]; done. }
  destruct (Z.eqb_spec (ready_tail s) 0) as [Ht|Ht].
  - assert (q = []) as -> by (rewrite qi_tail0 in Ht; by apply (tail_of_zero _ _ _ qi_list0)).
    exists ts1. split_and!; [done| |done|done]. split; simpl; try done.
    + split_and!; [done..|]. exists t1. unfold ts1. by rewrite lookup_insert_eq.
    + by apply NoDup_singleton.
    + apply Forall_singleton. exists t1. unfold ts1. by rewrite lookup_insert_eq.
    + rewrite qi_count0. simpl. by words.
    + unfold ts1. by erewrite size_modify.
  - destruct q as [|l q0 _] using rev_ind; [by rewrite qi_tail0 in Ht|].
    rewrite decide_False by (by destruct q0). rewrite qi_tail0, tail_of_snoc.
    rewrite Forall_app, Forall_singleton in qi_ready0. destruct qi_ready0 as [_ (tl & Htl & Hvl & Hsl)].
    assert (Hpl : p ≠ l) by set_solver.
    assert (Htl1 : ts1 !! l = Some tl) by (unfold ts1; by rewrite lookup_insert_ne).
    rewrite (modify_Ret _ _ _ _ Htl1). simpl. exists (<[l := set_tnext tl p]> ts1).
    assert (HQ1 : queue_inv ts1 s (q0 ++ [l])) by (by apply (queue_inv_insert _ _ _ _ t)).
    split_and!; [done| | |].
    + destruct HQ1. split; simpl; try done.
      * rewrite <- app_assoc. simpl. eapply qlist_snoc; [done|done|unfold ts1; by rewrite lookup_insert_eq|done..|].
        apply NoDup_app in qi_nodup1 as (_ & Hd & _). intros Hin. apply (Hd l Hin). set_solver.
      * by rewrite tail_of_snoc.
      * apply NoDup_app. split_and!; [done| |by apply NoDup_singleton]. set_solver.
      * apply Forall_app. split.
        -- apply ready_insert; [done|]. by intros _.
        -- apply Forall_singleton. exists t1. rewrite lookup_insert_ne by done.
           unfold ts1. by rewrite lookup_insert_eq.
      * rewrite qi_count0. rewrite !length_app in *. simpl length in *. words. lia.
      * by erewrite size_modify.
    + by rewrite (states_of_keep ts1 l tl).
    + intros x. rewrite <- Hcx1. destruct (decide (l = x)) as [->|]; [by rewrite lookup_insert_eq, Htl1|].
      by rewrite lookup_insert_ne.
Qed.

Lemma pick_next_spec k s p q :
  sched k = Some s → queue_inv (threads k) s (p :: q) →
  ∃ ts t h tl, mcsos_sched_pick_next k =
      Ret (p, with_sched (with_threads k ts) (set_queue s h tl (runnable_count s - 1))) ∧
    queue_inv ts (set_queue s h tl (runnable_count s - 1)) q ∧
    threads k !! p = Some t ∧ p ≠ 0 ∧ valid t ∧ ts = <[p := set_tnext t 0]> (threads k).
Proof.
  intros Hs HQ. unfold mcsos_sched_pick_next. rewrite Hs. pose proof HQ as HQ'. destruct HQ'.
  rewrite (proj2 (Z.eqb_neq _ _)) by done.
  destruct qi_list0 as (-> & Hp0 & t & Hp & Hq). rewrite (proj2 (Z.eqb_neq p 0)) by done.
  unfold deref. rewrite Hp. simpl. rewrite (modify_Ret _ _ _ _ Hp). simpl.
  apply NoDup_cons in qi_nodup0 as [Hnot Hnd]. apply Forall_cons in qi_ready0 as [(t' & Ht' & Hv & Hst) Hr].
  rewrite Ht' in Hp. injection Hp as ->.
  rewrite qi_count0. destruct (Z.ltb_spec 0 (Z.of_nat (length (p :: q)))); [|simpl in *; lia].
  assert (Hlen : Z.of_nat (length (p :: q)) ≤ Z.of_nat (size (threads k))).
  { assert (Hsub : list_to_set (p :: q) ⊆@{gset Z} dom (threads k)).
    { intros x. rewrite elem_of_list_to_set, elem_of_cons, elem_of_dom. intros [->|Hx]; [eauto|].
      rewrite Forall_forall in Hr. destruct (Hr x Hx) as (tx & Htx & _). eauto. }
    apply subseteq_size in Hsub. rewrite size_list_to_set, size_dom in Hsub by (by constructor). lia. }
  rewrite sub64_small by (unfold in64; simpl length in *; lia).
  do 4 eexists. split; [done|]. split; [|done]. split; simpl; try done.
  - eapply qlist_insert; [done..|]. by intros ?.
  - rewrite qi_tail0. destruct q as [|q1 q]; [by rewrite Hq|].
    destruct Hq as (-> & Hq1 & _). by rewrite (proj2 (Z.eqb_neq q1 0)).
  - apply ready_insert; [done|]. by intros ?.
  - simpl length. lia.
  - by erewrite size_modify.
Qed.

Lemma pick_next_empty k s :
  sched k = Some s → queue_inv (threads k) s [] → mcsos_sched_pick_next k = Ret (idle s, k).
Proof.
  intros Hs []. unfold mcsos_sched_pick_next. rewrite Hs, (proj2 (Z.eqb_neq _ _)) by done.
  simpl in qi_list0. by rewrite qi_list0.
Qed.

(** ** The second half of [mcsos_sched_yield] *)
Section yield.
Context (resume_label : Z).

Definition yield_rest (idl : Z) (k : kern) (old_thread next_thread : Z) : outcome (Z * kern) :=
  o ← deref (threads k) old_thread;
  ' (rc, k) ←
    (if bool_decide (state o = THREAD_RUNNING) && negb (old_thread =? idl) then
       ts ← modify (threads k) old_thread (λ t, set_state t THREAD_READY);
       mcsos_sched_enqueue (with_threads k ts) old_thread
     else Ret (MCSOS_SCHED_OK, k));
  if negb (rc =? MCSOS_SCHED_OK) then Ret (rc, k)
  else
    ts ← modify (threads k) next_thread (λ t, set_state t THREAD_RUNNING);
    ts ← modify ts old_thread inc_switches;
    ts ← modify ts next_thread inc_switches;
    match sched k with
    | None => UB
    | Some s' =>
        let s' := inc_context_switches (set_current s' next_thread) in
        ' (ts, live) ← context_switch resume_label ts (regs k) old_thread next_thread;
        Ret (MCSOS_SCHED_OK, mk_kern ts (Some s') live (kmemory k))
    end.

Lemma yield_unfold k s :
  sched k = Some s →
  mcsos_sched_yield resume_label k =
  (if initialized s =? 0 then Ret (MCSOS_SCHED_EINVAL, k)
   else
     v ← valid_thread_object (threads k) (current s);
     if negb v then Ret (MCSOS_SCHED_EINVAL, k)
     else
       ' (n, k) ← mcsos_sched_pick_next k;
       v ← valid_thread_object (threads k) n;
       if negb v then Ret (MCSOS_SCHED_ECORRUPT, k)
       else if n =? current s then
         ts ← modify (threads k) (current s) (λ t, set_state t THREAD_RUNNING);
         Ret (MCSOS_SCHED_OK, with_threads k ts)
       else yield_rest (idle s) k (current s) n).
Proof. intros Hs. unfold mcsos_sched_yield. by rewrite Hs. Qed.

(** The registers saved for the thread that gives up the processor. *)
Definition saved (live : context) : context :=
  mk_context (rsp live) (rbp live) (rbx live) (r12 live) (r13 live) (r14 live) (r15 live)
    resume_label.

Definition requeue (st : thread_state) (cur idl : Z) : bool :=
  bool_decide (st = THREAD_RUNNING) && negb (cur =? idl).

(** After the hand-over: [n] runs, [old] is queued again when it should be. *)
Record handed_over (k : kern) (k' : kern) (s' : scheduler) (q' : list Z) (old n idl : Z)
    (st : thread_state) : Prop := {
  ho_sched : sched k' = Some s';
  ho_queue : queue_inv (threads k') s' q';
  ho_current : current s' = n;
  ho_idle : idle s' = idl;
  ho_states : states_of (threads k') =
    <[n := THREAD_RUNNING]> (if requeue st old idl then <[old := THREAD_READY]> (states_of (threads k))
                             else states_of (threads k));
  ho_regs : Some (regs k') = ctxt <$> threads k !! n;
  ho_ctxt : ∀ x, ctxt <$> threads k' !! x =
    if decide (x = old) then Some (saved (regs k)) else ctxt <$> threads k !! x;
}.

(** The bookkeeping after the queue is settled. *)
Lemma switch_books k s q old n idl to tn :
  sched k = Some s → queue_inv (threads k) s q → idle s = idl →
  threads k !! old = Some to → valid to → threads k !! n = Some tn → valid tn →
  n ≠ old → n ∉ q →
  ∃ k' s',
    (ts ← modify (threads k) n (λ t, set_state t THREAD_RUNNING);
     ts ← modify ts old inc_switches;
     ts ← modify ts n inc_switches;
     match sched k with
     | None => UB
     | Some s' =>
         let s' := inc_context_switches (set_current s' n) in
         ' (ts, live) ← context_switch resume_label ts (regs k) old n;
         Ret (MCSOS_SCHED_OK, mk_kern ts (Some s') live (kmemory k))
     end) = Ret (MCSOS_SCHED_OK, k') ∧
    sched k' = Some s' ∧ queue_inv (threads k') s' q ∧ current s' = n ∧ idle s' = idl ∧
    states_of (threads k') = <[n := THREAD_RUNNING]> (states_of (threads k)) ∧
    regs k' = ctxt tn ∧
    ∀ x, ctxt <$> threads k' !! x =
      if decide (x = old) then Some (saved (regs k)) else ctxt <$> threads k !! x.
Proof.
  intros Hs HQ Hid Ho Hvo Hn Hvn Hne Hnq.
  rewrite (modify_Ret _ _ _ _ Hn). simpl. rewrite (modify_Ret _ old to) by (by rewrite lookup_insert_ne).
  simpl. rewrite (modify_Ret _ n (set_state tn THREAD_RUNNING))
    by (by rewrite lookup_insert_ne, lookup_insert_eq). simpl.
  rewrite Hs. unfold context_switch.
  rewrite (modify_Ret _ old (inc_switches to)) by (by rewrite lookup_insert_ne, lookup_insert_eq).
  simpl. unfold deref. rewrite lookup_insert_ne, lookup_insert_eq by done. simpl.
  assert (HQ1 : ∀ ts' p t t', queue_inv ts' s q → ts' !! p = Some t →
    next t' = next t → valid t' → (p ∈ q → state t' = THREAD_READY) → queue_inv (<[p := t']> ts') s q).
  { intros. eapply queue_inv_insert; [done|done|]. auto. }
  assert (Hoq : old ∈ q → state to = THREAD_READY).
  { intros Hin. destruct HQ. rewrite Forall_forall in qi_ready0.
    destruct (qi_ready0 old Hin) as (t & Ht & _ & ?). congruence. }
  do 2 eexists. split; [done|]. split; [done|]. split_and!; [|done|done| |done|].
  - simpl. apply (queue_inv_sched _ s); [|done..].
    eapply HQ1; [|by rewrite lookup_insert_ne, lookup_insert_eq|done|done|done].
    eapply HQ1; [|by rewrite lookup_insert_ne, lookup_insert_eq|done|done|done].
    eapply HQ1; [|by rewrite lookup_insert_ne|done|done|done].
    by eapply HQ1.
  - simpl. rewrite (states_of_keep _ old (inc_switches to));
      [|by rewrite lookup_insert_ne, lookup_insert_eq|done..].
    rewrite (states_of_keep _ n (set_state tn THREAD_RUNNING));
      [|by rewrite lookup_insert_ne, lookup_insert_eq|done..].
    rewrite (states_of_keep _ old to); [|by rewrite lookup_insert_ne|done..].
    by rewrite states_of_insert.
  - intros x. simpl. destruct (decide (x = old)) as [->|Hx]; [by rewrite lookup_insert_eq|].
    rewrite lookup_insert_ne by done. destruct (decide (x = n)) as [->|Hxn].
    + by rewrite lookup_insert_eq, Hn.
    + by rewrite !lookup_insert_ne by done.
Qed.

Lemma yield_rest_spec k s q old n to tn :
  sched k = Some s → queue_inv (threads k) s q → old ≠ 0 →
  threads k !! old = Some to → valid to → state to = THREAD_RUNNING ∨ state to = THREAD_BLOCKED →
  threads k !! n = Some tn → valid tn → n ≠ old → n ∉ q →
  ∃ k' s', yield_rest (idle s) k old n = Ret (MCSOS_SCHED_OK, k') ∧
    handed_over k k' s' (q ++ if requeue (state to) old (idle s) then [old] else []) old n
      (idle s) (state to).
Proof.
  intros Hs HQ Ho0 Ho Hvo Hst Hn Hvn Hne Hnq. unfold yield_rest, deref. rewrite Ho. simpl.
  fold (requeue (state to) old (idle s)).
  assert (Hoq : old ∉ q).
  { intros Hin. destruct HQ. rewrite Forall_forall in qi_ready0.
    destruct (qi_ready0 old Hin) as (t & Ht & _ & ?). rewrite Ho in Ht. injection Ht as <-.
    destruct Hst; congruence. }
  destruct (requeue (state to) old (idle s)) eqn:Hrq.
  - rewrite (modify_Ret _ _ _ _ Ho). simpl.
    set (k1 := with_threads k (<[old := set_state to THREAD_READY]> (threads k))).
    destruct (enqueue_spec k1 s q old (set_state to THREAD_READY)) as (ts & -> & HQ2 & Hst2 & Hc2);
      [done|by eapply queue_inv_insert|done|by apply lookup_insert_eq|done..|]. simpl.
    set (s2 := set_queue s _ _ _) in *. set (k2 := with_sched (with_threads k1 ts) s2).
    assert (Hv2 : ∀ x tx, threads k !! x = Some tx → valid tx →
      ∃ t2, ts !! x = Some t2 ∧ valid t2 ∧ ctxt t2 = ctxt tx).
    { intros x tx Hx Hvx.
      assert (Hsx : is_Some (states_of ts !! x)).
      { rewrite Hst2. apply lookup_insert_is_Some'. right. simpl. rewrite states_of_insert by done.
        apply lookup_insert_is_Some'. right. rewrite (states_of_lookup _ _ _ Hx Hvx). eauto. }
      specialize (Hc2 x). simpl in Hc2. unfold states_of in Hsx. rewrite lookup_omap in Hsx.
      destruct (ts !! x) as [t2|] eqn:E2; [|by destruct Hsx]. simpl in Hsx. exists t2.
      case_bool_decide; [|by destruct Hsx]. split_and!; [done..|].
      destruct (decide (old = x)) as [->|Hox].
      - rewrite lookup_insert_eq in Hc2. rewrite Ho in Hx. injection Hx as <-. simpl in Hc2. congruence.
      - rewrite lookup_insert_ne, Hx in Hc2 by done. simpl in Hc2. congruence. }
    destruct (Hv2 old to Ho Hvo) as (to2 & Ho2 & Hvo2 & _).
    destruct (Hv2 n tn Hn Hvn) as (tn2 & Hn2 & Hvn2 & Hcn2).
    destruct (switch_books k2 s2 (q ++ [old]) old n (idle s) to2 tn2) as
      (k' & s' & E & H1 & H2 & H3 & H4 & H5 & H6 & H7); [done..|set_solver|].
    simpl in E. rewrite E. exists k', s'. split; [done|]. split; try done.
    + rewrite H5. simpl. rewrite Hst2. simpl. rewrite states_of_insert by done. simpl.
      by rewrite insert_insert_eq, Hrq.
    + by rewrite H6, Hcn2, Hn.
    + intros x. rewrite H7. destruct (decide (x = old)); [done|]. simpl. rewrite Hc2. simpl.
      by rewrite lookup_insert_ne.
  - simpl. destruct (switch_books k s q old n (idle s) to tn) as
      (k' & s' & E & H1 & H2 & H3 & H4 & H5 & H6 & H7); [done..|].
    simpl in E. rewrite E. exists k', s'. split; [done|]. rewrite app_nil_r. split; try done.
    + by rewrite H5, Hrq.
    + by rewrite H6, Hn.
Qed.
End yield.
