(* ===== verification/SchedSpecs.v ===== *)
(** * The cooperative scheduler: specifications of the operations *)

From S2P Require Import Prelude Mem Sched SchedProofs.

(** ** Queue membership and states *)
Lemma states_of_inv ts p st :
  states_of ts !! p = Some st → ∃ t, ts !! p = Some t ∧ valid t ∧ state t = st.
Proof.
  unfold states_of. rewrite lookup_omap. destruct (ts !! p) as [t|] eqn:E; [|done]. simpl.
  case_bool_decide; [|done]. intros [= <-]. eauto.
Qed.

Lemma queued_ready ts s q p : queue_inv ts s q → p ∈ q → states_of ts !! p = Some THREAD_READY.
Proof.
  intros HQ Hp. pose proof (qi_ready _ _ _ HQ) as HF. rewrite Forall_forall in HF.
  destruct (HF p Hp) as (t & Ht & Hv & Hs).
  by rewrite (states_of_lookup _ _ _ Ht Hv), Hs.
Qed.

Lemma not_queued ts s q p st :
  queue_inv ts s q → states_of ts !! p = Some st → st ≠ THREAD_READY → p ∉ q.
Proof. intros HQ Hp Hst Hin. rewrite (queued_ready _ _ _ _ HQ Hin) in Hp. congruence. Qed.

(** ** Yield *)
Section specs.
Context (resume_label : Z).

Lemma handed_over_ext k k0 k' s' q' old n idl st :
  handed_over resume_label k k' s' q' old n idl st →
  states_of (threads k) = states_of (threads k0) →
  (∀ x, ctxt <$> threads k !! x = ctxt <$> threads k0 !! x) → regs k = regs k0 →
  handed_over resume_label k0 k' s' q' old n idl st.
Proof.
  intros [] Hst Hc Hr. split; try done.
  - by rewrite <- Hst.
  - by rewrite <- Hc.
  - intros x. by rewrite <- Hc, <- Hr.
Qed.

(** Who runs next, and the queue it leaves. *)
Definition next_runner (idl : Z) (q : list Z) : Z := default idl (head q).
Definition next_queue (st : thread_state) (cur idl : Z) (q : list Z) : list Z :=
  tail q ++ (if requeue st cur idl then [cur] else []).

Context (k : kern) (s : scheduler) (q : list Z) (st : thread_state).
Context (Hs : sched k = Some s) (HQ : queue_inv (threads k) s q).
Context (Hc0 : current s ≠ 0) (Hc : states_of (threads k) !! current s = Some st).
Context (Hi0 : idle s ≠ 0) (Hi : states_of (threads k) !! idle s = Some THREAD_RUNNING).

Lemma yield_idle :
  q = [] → current s = idle s →
  ∃ ts, mcsos_sched_yield resume_label k = Ret (MCSOS_SCHED_OK, with_threads k ts) ∧
    queue_inv ts s [] ∧ states_of ts = states_of (threads k) ∧
    ∀ x, ctxt <$> ts !! x = ctxt <$> threads k !! x.
Proof using All.
  intros Eq Eci. subst q. rewrite (yield_unfold resume_label k s Hs).
  destruct (states_of_inv _ _ _ Hc) as (t & Ht & Hv & Hst).
  rewrite (proj2 (Z.eqb_neq _ _)) by apply HQ.
  rewrite (valid_object _ _ _ Ht Hc0), bool_decide_eq_true_2 by done. simpl.
  rewrite (pick_next_empty k s Hs HQ). simpl. rewrite <- Eci.
  rewrite (valid_object _ _ _ Ht Hc0), bool_decide_eq_true_2 by done. simpl.
  rewrite Z.eqb_refl, (modify_Ret _ _ _ _ Ht). simpl. eexists. split; [done|]. split_and!.
  - by eapply queue_inv_insert; [done..|intros ?%elem_of_nil].
  - apply (states_of_keep _ _ t); [done..|]. simpl. rewrite <- Eci, Hc in Hi. congruence.
  - intros x. destruct (decide (current s = x)) as [<-|]; [by rewrite lookup_insert_eq, Ht|].
    by rewrite lookup_insert_ne.
Qed.

Lemma yield_switch :
  st = THREAD_RUNNING ∨ st = THREAD_BLOCKED →
  ¬ (q = [] ∧ current s = idle s) →
  ∃ k' s', mcsos_sched_yield resume_label k = Ret (MCSOS_SCHED_OK, k') ∧
    handed_over resume_label k k' s' (next_queue st (current s) (idle s) q) (current s)
      (next_runner (idle s) q) (idle s) st.
Proof using All.
  intros Hst Hne. rewrite (yield_unfold resume_label k s Hs).
  destruct (states_of_inv _ _ _ Hc) as (t & Ht & Hv & <-).
  rewrite (proj2 (Z.eqb_neq _ _)) by apply HQ.
  rewrite (valid_object _ _ _ Ht Hc0), bool_decide_eq_true_2 by done. simpl.
  assert (Hcq : current s ∉ q) by (eapply not_queued; [done..|destruct Hst; congruence]).
  destruct q as [|p r].
  - rewrite (pick_next_empty k s Hs HQ). simpl.
    destruct (states_of_inv _ _ _ Hi) as (ti & Hti & Hvi & Hsi).
    rewrite (valid_object _ _ _ Hti Hi0), bool_decide_eq_true_2 by done. simpl.
    rewrite (proj2 (Z.eqb_neq _ _)) by (intros E; apply Hne; auto).
    destruct (yield_rest_spec resume_label k s [] (current s) (idle s) t ti) as (k' & s' & E & H);
      [done..|intros E; apply Hne; auto|apply not_elem_of_nil|].
    rewrite E. eauto.
  - destruct (pick_next_spec k s p r Hs HQ) as (ts & tp & h & tl & -> & HQ1 & Hp & Hp0 & Hvp & Hts).
    simpl.
    assert (Hpc : p ≠ current s) by set_solver.
    assert (Hp1 : ts !! p = Some (set_tnext tp 0)) by (subst ts; by rewrite lookup_insert_eq).
    assert (Hc1 : ts !! current s = Some t) by (subst ts; by rewrite lookup_insert_ne).
    rewrite (valid_object _ _ _ Hp1 Hp0), bool_decide_eq_true_2 by done. simpl.
    rewrite (proj2 (Z.eqb_neq _ _)) by done.
    set (k1 := with_sched (with_threads k ts) _). set (s1 := set_queue s h tl _) in *.
    destruct (yield_rest_spec resume_label k1 s1 r (current s) p t (set_tnext tp 0)) as (k' & s' & E & H);
      [done..| |].
    { pose proof (qi_nodup _ _ _ HQ) as Hnd. by apply NoDup_cons in Hnd as [? _]. }
    change (idle s1) with (idle s) in E, H. rewrite E. exists k', s'. split; [done|].
    eapply handed_over_ext; [exact H| | |done]; simpl.
    + subst ts. by apply (states_of_keep _ _ tp).
    + intros x. subst ts. destruct (decide (p = x)) as [<-|]; [by rewrite lookup_insert_eq, Hp|].
      by rewrite lookup_insert_ne.
Qed.
End specs.

(** ** Validate *)
Lemma qvalidate_loop ts s q : ∀ fuel count last h,
  qlist ts h q → Forall (ready_at ts) q → current s ∉ q →
  0 ≤ count → count + Z.of_nat (length q) ≤ runnable_count s + 1 → runnable_count s + 1 < 2 ^ 64 →
  (length q < fuel)%nat →
  loop fuel (qvalidate_step ts s) (count, h, last) =
  Ret (inr (count + Z.of_nat (length q), default last (list.last q))).
Proof.
  induction q as [|p q IH]; intros fuel count last h Hq HF Hcur Hc0 Hcl Hr Hfuel;
    (destruct fuel as [|fuel]; [lia|]); rewrite loop_unfold.
  { simpl in Hq. subst h. simpl. do 3 f_equal. simpl. lia. }
  destruct Hq as (-> & Hp0 & t & Ht & Hq). apply Forall_cons in HF as [(t' & Ht' & Hv & Hst) HF].
  rewrite Ht in Ht'. injection Ht' as <-. apply not_elem_of_cons in Hcur as [Hpc Hcur].
  unfold qvalidate_step at 1. rewrite (proj2 (Z.eqb_neq p 0)) by done.
  rewrite (valid_object _ _ _ Ht Hp0), bool_decide_eq_true_2 by done. simpl.
  unfold deref. rewrite Ht. simpl. rewrite bool_decide_eq_true_2 by done. simpl.
  rewrite (proj2 (Z.eqb_neq p (current s))) by congruence. simpl length in *.
  words. destruct (Z.ltb_spec (runnable_count s + 1) (count + 1)); [lia|]. simpl.
  rewrite IH; [|done..|lia|lia|lia|lia]. do 3 f_equal; [lia|].
  rewrite list.last_cons. by destruct (list.last q).
Qed.

Lemma validate_spec k s q st :
  sched k = Some s → queue_inv (threads k) s q → current s ≠ 0 →
  states_of (threads k) !! current s = Some st → st ≠ THREAD_READY →
  mcsos_sched_validate k = Ret MCSOS_SCHED_OK.
Proof.
  intros Hs HQ Hc0 Hc Hst. unfold mcsos_sched_validate. rewrite Hs.
  destruct (states_of_inv _ _ _ Hc) as (t & Ht & Hv & Hst').
  pose proof (not_queued _ _ _ _ _ HQ Hc Hst) as Hnot.
  pose proof (queue_len _ _ _ _ _ HQ Ht Hnot) as Hlen.
  destruct HQ as [Hinit Hlist Htail _ Hready Hcount Hsize].
  rewrite (proj2 (Z.eqb_neq _ _)) by done.
  rewrite (valid_object _ _ _ Ht Hc0), bool_decide_eq_true_2 by done. simpl.
  rewrite (qvalidate_loop _ _ q) by (done || lia). simpl.
  unfold tail_of in Htail. by rewrite <- Htail, Z.eqb_refl, Hcount, Z.eqb_refl.
Qed.

Lemma count_loop ts q : ∀ fuel count h,
  qlist ts h q → 0 ≤ count → count + Z.of_nat (length q) < 2 ^ 64 → (length q < fuel)%nat →
  loop fuel (count_step ts) (count, h) = Ret (count + Z.of_nat (length q)).
Proof.
  induction q as [|p q IH]; intros fuel count h Hq Hc0 Hcl Hfuel;
    (destruct fuel as [|fuel]; [lia|]); rewrite loop_unfold.
  { simpl in Hq. subst h. simpl. f_equal. lia. }
  destruct Hq as (-> & Hp0 & t & Ht & Hq). simpl length in *. simpl.
  rewrite (proj2 (Z.eqb_neq p 0)) by done. unfold deref. rewrite Ht. simpl. words.
  rewrite IH by (done || lia). f_equal. lia.
Qed.

(** ** What [mcsos_sched_validate] establishes *)
Lemma qlist_functional ts h q1 q2 : qlist ts h q1 → qlist ts h q2 → q1 = q2.
Proof.
  revert h q2. induction q1 as [|p q1 IH]; intros h q2 H1 H2.
  - simpl in H1. subst h. destruct q2 as [|p q2]; [done|]. destruct H2 as (<- & ? & _). done.
  - destruct H1 as (-> & Hp & t & Ht & H1). destruct q2 as [|p2 q2]; [done|].
    destruct H2 as (<- & _ & t2 & Ht2 & H2). rewrite Ht in Ht2. injection Ht2 as <-.
    f_equal. by eapply IH.
Qed.

Lemma qlist_suffix ts h q1 p q2 : qlist ts h (q1 ++ p :: q2) → qlist ts p (p :: q2).
Proof.
  revert h. induction q1 as [|a q1 IH]; intros h.
  - intros Hq. pose proof Hq as (-> & _). done.
  - intros (_ & _ & t & _ & Hq). by eapply IH.
Qed.

Lemma qlist_NoDup ts h q : qlist ts h q → NoDup q.
Proof.
  revert h. induction q as [|p q IH]; intros h Hq; [constructor|].
  pose proof Hq as (-> & Hp & t & Ht & Hq'). constructor; [|by eapply IH].
  intros Hin. apply list_elem_of_split in Hin as (l1 & l2 & ->).
  pose proof (qlist_suffix _ _ _ _ _ Hq') as H2.
  pose proof (qlist_functional _ _ _ _ Hq H2) as E. apply (f_equal length) in E.
  simpl in E. rewrite length_app in E. simpl in E. lia.
Qed.

Lemma valid_object_true ts p :
  valid_thread_object ts p = Ret true → p ≠ 0 ∧ ∃ t, ts !! p = Some t ∧ valid t.
Proof.
  unfold valid_thread_object. destruct (Z.eqb_spec p 0); [done|]. unfold deref.
  destruct (ts !! p) as [t|]; [|done]. simpl. intros [= E]. apply Z.eqb_eq in E. eauto.
Qed.

Lemma qvalidate_sound ts s fuel : ∀ count h last count' last',
  runnable_count s + 2 < 2 ^ 64 → 0 ≤ count ≤ runnable_count s + 1 →
  loop fuel (qvalidate_step ts s) (count, h, last) = Ret (inr (count', last')) →
  ∃ q, qlist ts h q ∧ Forall (ready_at ts) q ∧ (current s ∉ q) ∧
    count' = count + Z.of_nat (length q) ∧ last' = default last (list.last q).
Proof.
  induction fuel as [|fuel IH]; intros count h last count' last' Hr Hc; [done|].
  rewrite loop_unfold. unfold qvalidate_step at 1.
  destruct (Z.eqb_spec h 0) as [->|Hh].
  { simpl. intros [= <- <-]. exists []. simpl. split_and!; [done|done|apply not_elem_of_nil|lia|done]. }
  intros H. bind_inv H. bind_inv Hx. destruct x0; simpl in Hx; [|injection Hx as <-; done].
  apply valid_object_true in Hx0 as (_ & t & Ht & Hv). bind_inv Hx. unfold deref in Hx0.
  rewrite Ht in Hx0. injection Hx0 as <-.
  case_bool_decide as Hst; simpl in Hx; [|injection Hx as <-; done].
  destruct (Z.eqb_spec h (current s)) as [|Hcur]; [injection Hx as <-; done|].
  rewrite !add64_small in Hx by (unfold in64; lia).
  destruct (Z.ltb_spec (runnable_count s + 1) (count + 1)); [injection Hx as <-; done|].
  injection Hx as <-.
  apply IH in H as (q & Hq & HF & Hnot & -> & ->); [|lia|lia].
  exists (h :: q). split_and!.
  - simpl. eauto.
  - constructor; [|done]. exists t. done.
  - apply not_elem_of_cons. split; [congruence|done].
  - simpl length. lia.
  - rewrite list.last_cons. by destruct (list.last q).
Qed.

Lemma qvalidate_fail ts s fuel : ∀ st rc,
  loop fuel (qvalidate_step ts s) st = Ret (inl rc) → rc = MCSOS_SCHED_ECORRUPT.
Proof.
  induction fuel as [|fuel IH]; intros [[count h] last] rc; [done|]. rewrite loop_unfold.
  intros H. bind_inv H. unfold qvalidate_step in Hx. destruct (h =? 0); [by injection Hx as <-|].
  bind_inv Hx. destruct x0; simpl in Hx; [|injection Hx as <-; by injection H as <-].
  bind_inv Hx. case_bool_decide; simpl in Hx; [|injection Hx as <-; by injection H as <-].
  destruct (h =? current s); [injection Hx as <-; by injection H as <-|].
  destruct (_ <? _); injection Hx as <-; [by injection H as <-|by eapply IH].
Qed.

(** ** The invariant of a running system *)
Record sched_inv (k : kern) (s : scheduler) (q : list Z) : Prop := {
  si_sched : sched k = Some s;
  si_queue : queue_inv (threads k) s q;
  si_cur0 : current s ≠ 0;
  si_cur : states_of (threads k) !! current s = Some THREAD_RUNNING;
  si_idle0 : idle s ≠ 0;
  si_idle : states_of (threads k) !! idle s = Some THREAD_RUNNING;
}.

Section ops.
Context (resume_label : Z).

(** A hand-over re-establishes the invariant. *)
Lemma handed_over_inv k s k' s' q' n st :
  handed_over resume_label k k' s' q' (current s) n (idle s) st → n ≠ 0 → idle s ≠ 0 →
  (requeue st (current s) (idle s) = true → current s ≠ idle s) →
  states_of (threads k) !! idle s = Some THREAD_RUNNING → sched_inv k' s' q'.
Proof.
  intros [Hs HQ Hc Hi Hst _ _] Hn Hi0 Hrq Hidle. split; [done|done|by rewrite Hc| |by rewrite Hi|].
  - rewrite Hst, Hc. by rewrite lookup_insert_eq.
  - rewrite Hst, Hi. destruct (decide (n = idle s)) as [->|Hne]; [by rewrite lookup_insert_eq|].
    rewrite lookup_insert_ne by done. destruct (requeue st (current s) (idle s)) eqn:E; [|done].
    rewrite lookup_insert_ne; [done|]. by apply Hrq.
Qed.

Lemma requeue_true st cur idl : requeue st cur idl = true ↔ st = THREAD_RUNNING ∧ cur ≠ idl.
Proof.
  unfold requeue. rewrite andb_true_iff, bool_decide_eq_true, negb_true_iff, Z.eqb_neq. done.
Qed.

Lemma next_runner_ok k s q :
  sched_inv k s q → next_runner (idle s) q ≠ 0.
Proof.
  intros []. destruct q as [|p q]; [done|]. simpl.
  eapply (qlist_nonzero _ _ _ p); [apply si_queue0|]. by constructor.
Qed.

(** [mcsos_sched_yield] on a running system. *)
Lemma yield_spec k s q :
  sched_inv k s q →
  ∃ k' s', mcsos_sched_yield resume_label k = Ret (MCSOS_SCHED_OK, k') ∧
    if decide (q = [] ∧ current s = idle s) then
      s' = s ∧ sched_inv k' s [] ∧ states_of (threads k') = states_of (threads k) ∧ regs k' = regs k ∧
      ∀ x, ctxt <$> threads k' !! x = ctxt <$> threads k !! x
    else
      sched_inv k' s' (next_queue THREAD_RUNNING (current s) (idle s) q) ∧
      handed_over resume_label k k' s' (next_queue THREAD_RUNNING (current s) (idle s) q)
        (current s) (next_runner (idle s) q) (idle s) THREAD_RUNNING.
Proof.
  intros HI. pose proof HI as [Hs HQ Hc0 Hc Hi0 Hi]. case_decide as Hd.
  - destruct (yield_idle resume_label k s q THREAD_RUNNING Hs HQ Hc0 Hc Hi0 Hi) as (ts & E & HQ' & Hst & Hx);
      [tauto..|]. exists (with_threads k ts), s. split; [done|]. split_and!; [done| |done|done|done].
    split; simpl; rewrite ?Hst; done.
  - destruct (yield_switch resume_label k s q THREAD_RUNNING Hs HQ Hc0 Hc Hi0 Hi (or_introl eq_refl) Hd)
      as (k' & s' & E & H). exists k', s'. split; [done|]. split; [|done].
    eapply handed_over_inv; [done|by eapply next_runner_ok|done| |done].
    intros ?%requeue_true. tauto.
Qed.

(** [mcsos_thread_block_current]. *)
Lemma block_spec k s q :
  sched_inv k s q → current s ≠ idle s →
  ∃ k0 k' s', mcsos_thread_block_current resume_label k = Ret (MCSOS_SCHED_OK, k') ∧
    sched_inv k' s' (tail q) ∧
    states_of (threads k0) = <[current s := THREAD_BLOCKED]> (states_of (threads k)) ∧
    regs k0 = regs k ∧ (∀ x, ctxt <$> threads k0 !! x = ctxt <$> threads k !! x) ∧
    handed_over resume_label k0 k' s' (tail q) (current s) (next_runner (idle s) q) (idle s) THREAD_BLOCKED.
Proof.
  intros HI Hne. pose proof HI as [Hs HQ Hc0 Hc Hi0 Hi].
  destruct (states_of_inv _ _ _ Hc) as (t & Ht & Hv & Hst).
  unfold mcsos_thread_block_current. rewrite Hs, (proj2 (Z.eqb_neq _ _)) by apply HQ.
  rewrite (valid_object _ _ _ Ht Hc0), bool_decide_eq_true_2 by done. simpl.
  rewrite (proj2 (Z.eqb_neq _ _)) by done. rewrite (modify_Ret _ _ _ _ Ht). simpl.
  set (k0 := with_threads k _). exists k0.
  assert (Hst0 : states_of (threads k0) = <[current s := THREAD_BLOCKED]> (states_of (threads k)))
    by (simpl; by rewrite states_of_insert).
  assert (HQ0 : queue_inv (threads k0) s q).
  { eapply queue_inv_insert; [done..|]. intros Hin.
    exfalso. eapply (not_queued _ _ _ _ _ HQ Hc); done. }
  destruct (yield_switch resume_label k0 s q THREAD_BLOCKED) as (k' & s' & E & H);
    [done|done|done|by rewrite Hst0, lookup_insert_eq|done|by rewrite Hst0, lookup_insert_ne|by right|tauto|].
  assert (Hnq : next_queue THREAD_BLOCKED (current s) (idle s) q = tail q) by apply app_nil_r.
  rewrite Hnq in H. exists k', s'. split; [done|]. split; [|split_and!; [done|done| |done]].
  - eapply handed_over_inv; [done|by eapply next_runner_ok|done|by intros ?%requeue_true|].
    by rewrite Hst0, lookup_insert_ne.
  - intros x. simpl. destruct (decide (current s = x)) as [<-|]; [by rewrite lookup_insert_eq, Ht|].
    by rewrite lookup_insert_ne.
Qed.
End ops.
