(* ===== verification/SchedTheorems.v ===== *)
(** * The cooperative scheduler: theorems *)

From S2P Require Import Prelude Mem Sched SchedProofs SchedSpecs.

(** ** The abstract scheduler: a FIFO of ready threads *)
Record asched : Type := mk_asched {
  a_cur : Z;
  a_idle : Z;
  a_queue : list Z;
  a_states : gmap Z thread_state;
}.

Inductive sched_op : Type :=
| OpEnqueue (p : Z)
| OpYield
| OpBlock
| OpMarkReady (p : Z)
| OpTick
| OpReadyCount
| OpValidate.

Definition a_enqueue (a : asched) (p : Z) : Z * asched :=
  (MCSOS_SCHED_OK,
   mk_asched (a_cur a) (a_idle a) (a_queue a ++ [p]) (<[p := THREAD_READY]> (a_states a))).

(** Hand the processor to the head of the queue, or to the idle thread. *)
Definition a_switch (a : asched) (st : thread_state) : asched :=
  let n := next_runner (a_idle a) (a_queue a) in
  mk_asched n (a_idle a) (next_queue st (a_cur a) (a_idle a) (a_queue a))
    (<[n := THREAD_RUNNING]>
       (if requeue st (a_cur a) (a_idle a) then <[a_cur a := THREAD_READY]> (a_states a)
        else a_states a)).

Definition a_step (a : asched) (op : sched_op) : Z * asched :=
  match op with
  | OpEnqueue p =>
      match (if p =? 0 then None else a_states a !! p) with
      | None => (MCSOS_SCHED_EINVAL, a)
      | Some st => if state_enqueueable st then a_enqueue a p else (MCSOS_SCHED_ESTATE, a)
      end
  | OpYield =>
      if bool_decide (a_queue a = []) && (a_cur a =? a_idle a) then (MCSOS_SCHED_OK, a)
      else (MCSOS_SCHED_OK, a_switch a THREAD_RUNNING)
  | OpBlock =>
      if a_cur a =? a_idle a then (MCSOS_SCHED_ESTATE, a)
      else (MCSOS_SCHED_OK,
            a_switch (mk_asched (a_cur a) (a_idle a) (a_queue a)
                        (<[a_cur a := THREAD_BLOCKED]> (a_states a))) THREAD_BLOCKED)
  | OpMarkReady p =>
      match (if p =? 0 then None else a_states a !! p) with
      | None => (MCSOS_SCHED_EINVAL, a)
      | Some THREAD_BLOCKED => a_enqueue a p
      | Some _ => (MCSOS_SCHED_ESTATE, a)
      end
  | OpTick => (MCSOS_SCHED_OK, a)
  | OpReadyCount => (Z.of_nat (length (a_queue a)), a)
  | OpValidate => (MCSOS_SCHED_OK, a)
  end.

Fixpoint a_run (a : asched) (ops : list sched_op) : list Z * asched :=
  match ops with
  | [] => ([], a)
  | op :: ops => let '(o, a) := a_step a op in let '(os, a) := a_run a ops in (o :: os, a)
  end.

(** ** The implementation *)
Section impl.
Context (resume_label : Z).

Definition sched_step (k : kern) (op : sched_op) : outcome (Z * kern) :=
  match op with
  | OpEnqueue p => mcsos_sched_enqueue k p
  | OpYield => mcsos_sched_yield resume_label k
  | OpBlock => mcsos_thread_block_current resume_label k
  | OpMarkReady p => mcsos_thread_mark_ready k p
  | OpTick => mcsos_sched_tick k
  | OpReadyCount =>
      n ← mcsos_sched_ready_count (S (size (threads k))) k;
      Ret (n, k)
  | OpValidate => rc ← mcsos_sched_validate k; Ret (rc, k)
  end.

Fixpoint sched_run (k : kern) (ops : list sched_op) : outcome (list Z * kern) :=
  match ops with
  | [] => Ret ([], k)
  | op :: ops =>
      ' (o, k) ← sched_step k op;
      ' (os, k) ← sched_run k ops;
      Ret (o :: os, k)
  end.

(** The client's part of the contract: pointers are null or name objects of the
    store, and a thread that is queued is not enqueued again. *)
Definition op_allowed (known : gset Z) (a : asched) (op : sched_op) : Prop :=
  match op with
  | OpEnqueue p => (p = 0 ∨ p ∈ known) ∧ p ∉ a_queue a
  | OpMarkReady p => p = 0 ∨ p ∈ known
  | _ => True
  end.

Fixpoint ops_allowed (known : gset Z) (a : asched) (ops : list sched_op) : Prop :=
  match ops with
  | [] => True
  | op :: ops => op_allowed known a op ∧ ops_allowed known (a_step a op).2 ops
  end.

(** The concrete state represents the abstract one. *)
Record srep (known : gset Z) (k : kern) (a : asched) : Prop := {
  sr_inv : ∃ s, sched_inv k s (a_queue a) ∧ current s = a_cur a ∧ idle s = a_idle a;
  sr_states : a_states a = states_of (threads k);
  sr_dom : dom (threads k) = known;
}.

Lemma ctxt_dom (ts ts' : store) :
  (∀ x, ctxt <$> ts' !! x = ctxt <$> ts !! x) → dom ts' = dom ts.
Proof.
  intros H. apply leibniz_equiv. intros x. rewrite !elem_of_dom. specialize (H x).
  destruct (ts !! x), (ts' !! x); simpl in H; split; intros [? ?]; done || eauto.
Qed.

Lemma handed_over_dom k k' s' q' old n idl st :
  handed_over resume_label k k' s' q' old n idl st → old ∈ dom (threads k) →
  dom (threads k') = dom (threads k).
Proof.
  intros [_ _ _ _ _ _ Hc] Hold. apply leibniz_equiv. intros x. rewrite !elem_of_dom.
  specialize (Hc x). destruct (decide (x = old)) as [->|].
  - rewrite elem_of_dom in Hold. destruct (threads k' !! old); [|done]. split; eauto.
  - destruct (threads k !! x), (threads k' !! x); simpl in Hc; split; intros [? ?]; done || eauto.
Qed.

(** Enqueue on a represented state. *)
Lemma step_enqueue known k a p st :
  srep known k a → p ≠ 0 → a_states a !! p = Some st → state_enqueueable st = true →
  p ∉ a_queue a →
  ∃ k', mcsos_sched_enqueue k p = Ret (MCSOS_SCHED_OK, k') ∧ srep known k' (a_enqueue a p).2.
Proof.
  intros [(s & HI & Hc & Hid) Hst Hdom] Hp0 Hp He Hnot. pose proof HI as [Hs HQ Hc0 Hcur Hi0 Hidle].
  rewrite Hst in Hp. destruct (states_of_inv _ _ _ Hp) as (t & Ht & Hv & <-).
  destruct (enqueue_spec k s (a_queue a) p t Hs HQ Hp0 Ht Hv He Hnot) as (ts & -> & HQ' & Hst' & Hx).
  eexists. split; [done|].
  assert (Hpc : p ≠ current s ∧ p ≠ idle s).
  { split; intros ->; [rewrite Hcur in Hp|rewrite Hidle in Hp]; injection Hp as E; by rewrite <- E in He. }
  split; simpl.
  - eexists. split.
    + split; [reflexivity|exact HQ'|done| |done|]; simpl; rewrite Hst', lookup_insert_ne by tauto; done.
    + done.
  - by rewrite Hst', Hst.
  - rewrite <- Hdom. by apply ctxt_dom.
Qed.

Lemma lookup_known known k a p :
  srep known k a → p ∈ known → ∃ t, threads k !! p = Some t ∧
    a_states a !! p = if bool_decide (valid t) then Some (state t) else None.
Proof.
  intros [_ Hst Hdom] Hp. rewrite <- Hdom, elem_of_dom in Hp. destruct Hp as [t Ht]. exists t.
  split; [done|]. rewrite Hst. unfold states_of. by rewrite lookup_omap, Ht.
Qed.

Lemma step_switch known k a :
  srep known k a → ¬ (a_queue a = [] ∧ a_cur a = a_idle a) →
  ∃ k', mcsos_sched_yield resume_label k = Ret (MCSOS_SCHED_OK, k') ∧
    srep known k' (a_switch a THREAD_RUNNING).
Proof.
  intros [(s & HI & Hc & Hid) Hst Hdom] Hne.
  destruct (yield_spec resume_label k s _ HI) as (k' & s' & E & H). rewrite Hc, Hid in *.
  rewrite decide_False in H by done. destruct H as [HI' HO].
  exists k'. split; [done|]. split; simpl.
  - exists s'. split; [exact HI'|]. destruct HO; done.
  - by rewrite (ho_states _ _ _ _ _ _ _ _ _ HO), Hst.
  - rewrite <- Hdom. eapply handed_over_dom; [exact HO|]. apply elem_of_dom.
    pose proof (si_cur _ _ _ HI) as Hcur. rewrite Hc in Hcur.
    destruct (states_of_inv _ _ _ Hcur) as (t & Ht & _). eauto.
Qed.

Lemma step_block known k a :
  srep known k a → a_cur a ≠ a_idle a →
  ∃ k', mcsos_thread_block_current resume_label k = Ret (MCSOS_SCHED_OK, k') ∧
    srep known k' (a_step a OpBlock).2.
Proof.
  intros [(s & HI & Hc & Hid) Hst Hdom] Hne. simpl. rewrite (proj2 (Z.eqb_neq _ _)) by done. simpl.
  destruct (block_spec resume_label k s _ HI) as (k0 & k' & s' & E & HI' & Hst0 & _ & Hx & HO);
    [congruence|]. rewrite Hc, Hid in *. exists k'. split; [done|]. split; simpl.
  - exists s'. assert (Hnq : ∀ q, next_queue THREAD_BLOCKED (a_cur a) (a_idle a) q = tail q)
      by (intros; apply app_nil_r). rewrite Hnq. split; [exact HI'|]. destruct HO; done.
  - by rewrite (ho_states _ _ _ _ _ _ _ _ _ HO), Hst0, Hst.
  - rewrite <- Hdom, <- (ctxt_dom _ _ Hx). eapply handed_over_dom; [exact HO|]. apply elem_of_dom.
    pose proof (si_cur _ _ _ HI) as Hcur. rewrite Hc in Hcur. specialize (Hx (a_cur a)).
    destruct (states_of_inv _ _ _ Hcur) as (t & Ht & _). rewrite Ht in Hx. 
    destruct (threads k0 !! a_cur a); [eauto|done].
Qed.

(** An update of a valid thread that keeps state, link and context. *)
Lemma sched_inv_keep k s s' q p t t' :
  sched_inv k s q → threads k !! p = Some t → valid t → valid t' → state t' = state t →
  next t' = next t → current s' = current s → idle s' = idle s → ready_head s' = ready_head s →
  ready_tail s' = ready_tail s → runnable_count s' = runnable_count s →
  initialized s' = initialized s →
  sched_inv (with_sched (with_threads k (<[p := t']> (threads k))) s') s' q.
Proof.
  intros [Hs HQ Hc0 Hc Hi0 Hi] Hp Hv Hv' Hst Hn E1 E2 E3 E4 E5 E6.
  split; simpl; rewrite ?E1, ?E2, ?(states_of_keep _ _ _ _ Hp Hv Hv' Hst); try done.
  apply (queue_inv_sched _ s); [|done..]. eapply queue_inv_insert; [done..|]. intros Hin.
  split_and!; [done..|]. pose proof (queued_ready _ _ _ _ HQ Hin) as Hr.
  rewrite (states_of_lookup _ _ _ Hp Hv) in Hr. congruence.
Qed.

Lemma step_tick known k a :
  srep known k a → ∃ k', mcsos_sched_tick k = Ret (MCSOS_SCHED_OK, k') ∧ srep known k' a.
Proof.
  intros [(s & HI & Hc & Hid) Hst Hdom]. pose proof HI as [Hs HQ Hc0 Hcur Hi0 Hidle].
  destruct (states_of_inv _ _ _ Hcur) as (t & Ht & Hv & Hst').
  unfold mcsos_sched_tick. rewrite Hs, (proj2 (Z.eqb_neq _ _)) by apply HQ.
  rewrite (valid_object _ _ _ Ht Hc0), bool_decide_eq_true_2 by done. simpl.
  rewrite (modify_Ret _ _ _ _ Ht). simpl. eexists. split; [done|]. split; simpl.
  - exists (inc_sched_ticks s). split; [|done]. by eapply sched_inv_keep.
  - by rewrite (states_of_keep _ _ t).
  - rewrite <- Hdom. apply dom_insert_lookup_L. eauto.
Qed.

Lemma step_yield_idle known k a :
  srep known k a → a_queue a = [] → a_cur a = a_idle a →
  ∃ k', mcsos_sched_yield resume_label k = Ret (MCSOS_SCHED_OK, k') ∧ srep known k' a.
Proof.
  intros [(s & HI & Hc & Hid) Hst Hdom] Hq Hci.
  destruct (yield_spec resume_label k s _ HI) as (k' & s' & E & H). rewrite Hc, Hid in *.
  rewrite decide_True in H by done. destruct H as (-> & HI' & Hst' & _ & Hx).
  exists k'. split; [done|]. split.
  - exists s. by rewrite Hq.
  - by rewrite Hst'.
  - rewrite <- Hdom. by apply ctxt_dom.
Qed.

(** Readings do not change the state. *)
Lemma step_count known k a :
  srep known k a →
  mcsos_sched_ready_count (S (size (threads k))) k = Ret (Z.of_nat (length (a_queue a))) ∧
  mcsos_sched_validate k = Ret MCSOS_SCHED_OK.
Proof.
  intros [(s & HI & Hc & Hid) Hst Hdom]. pose proof HI as [Hs HQ Hc0 Hcur Hi0 Hidle].
  destruct (states_of_inv _ _ _ Hcur) as (t & Ht & _).
  pose proof (not_queued _ _ _ _ _ HQ Hcur ltac:(done)) as Hnot.
  pose proof (queue_len _ _ _ _ _ HQ Ht Hnot) as Hlen. pose proof (qi_size _ _ _ HQ).
  split; [|by eapply validate_spec].
  unfold mcsos_sched_ready_count. rewrite Hs, (proj2 (Z.eqb_neq _ _)) by apply HQ.
  rewrite (count_loop _ (a_queue a)); [done|apply HQ|lia..].
Qed.

(** A pointer argument: null, an object without magic, or a thread. *)
Lemma pointer_cases known k a p :
  srep known k a → p = 0 ∨ p ∈ known →
  valid_thread_object (threads k) p =
    Ret (match (if p =? 0 then None else a_states a !! p) with Some _ => true | None => false end) ∧
  (∀ st, p ≠ 0 → a_states a !! p = Some st → ∃ t, threads k !! p = Some t ∧ state t = st).
Proof.
  intros HR Hp. destruct (Z.eqb_spec p 0) as [->|Hn]; [by split|].
  destruct Hp as [?|Hp]; [done|]. destruct (lookup_known _ _ _ _ HR Hp) as (t & Ht & Hst).
  rewrite (valid_object _ _ _ Ht Hn), Hst. split; [by case_bool_decide|].
  intros st _. case_bool_decide; [|done]. intros [= <-]. eauto.
Qed.

Lemma sched_initialized known k a :
  srep known k a → ∃ s, sched k = Some s ∧ (initialized s =? 0) = false.
Proof.
  intros [(s & HI & _) _ _]. exists s. split; [apply HI|]. apply Z.eqb_neq, (si_queue _ _ _ HI).
Qed.

Lemma enqueue_step known k a p :
  srep known k a → op_allowed known a (OpEnqueue p) →
  ∃ k', mcsos_sched_enqueue k p = Ret ((a_step a (OpEnqueue p)).1, k') ∧
    srep known k' (a_step a (OpEnqueue p)).2.
Proof.
  intros HR [Hp Hnot]. destruct (pointer_cases _ _ _ _ HR Hp) as [Hv Hl].
  destruct (sched_initialized _ _ _ HR) as (s & Hs & Hin). simpl.
  destruct (Z.eqb_spec p 0) as [->|Hn].
  { exists k. split; [|done]. unfold mcsos_sched_enqueue. by rewrite Hs, Hin. }
  destruct (a_states a !! p) as [st|] eqn:Est.
  - destruct (state_enqueueable st) eqn:He; [by eapply step_enqueue|].
    destruct (Hl st Hn eq_refl) as (t & Ht & Hst). exists k. split; [|done].
    unfold mcsos_sched_enqueue. rewrite Hs, Hin, Hv. simpl. unfold deref. rewrite Ht. simpl.
    by rewrite Hst, He.
  - exists k. split; [|done]. unfold mcsos_sched_enqueue. by rewrite Hs, Hin, Hv.
Qed.

Lemma mark_ready_step known k a p :
  srep known k a → op_allowed known a (OpMarkReady p) →
  ∃ k', mcsos_thread_mark_ready k p = Ret ((a_step a (OpMarkReady p)).1, k') ∧
    srep known k' (a_step a (OpMarkReady p)).2.
Proof.
  intros HR Hp. destruct (pointer_cases _ _ _ _ HR Hp) as [Hv Hl].
  unfold mcsos_thread_mark_ready. rewrite Hv. simpl.
  destruct (Z.eqb_spec p 0) as [->|Hn]; [by exists k|].
  destruct (a_states a !! p) as [st|] eqn:Est; [|by exists k].
  destruct (Hl st Hn eq_refl) as (t & Ht & Hst). simpl. unfold deref. rewrite Ht. simpl. rewrite Hst.
  destruct st; simpl; try (by exists k). eapply step_enqueue; [done..| ].
  destruct HR as [(s & HI & _) Hsts _]. rewrite Hsts in Est.
  by eapply (not_queued _ _ _ _ _ (si_queue _ _ _ HI) Est).
Qed.

Lemma sched_step_refines known k a op :
  srep known k a → op_allowed known a op →
  ∃ k', sched_step k op = Ret ((a_step a op).1, k') ∧ srep known k' (a_step a op).2.
Proof.
  intros HR Hop. destruct op as [p| | |p| | |]; simpl sched_step.
  - by apply enqueue_step.
  - simpl. destruct (bool_decide (a_queue a = []) && (a_cur a =? a_idle a)) eqn:E; simpl.
    + apply andb_true_iff in E as [E1 E2]. apply bool_decide_eq_true in E1. apply Z.eqb_eq in E2.
      by apply step_yield_idle.
    + apply step_switch; [done|]. intros [E1 E2]. rewrite E1, E2, Z.eqb_refl in E. done.
  - simpl. destruct (Z.eqb_spec (a_cur a) (a_idle a)) as [E|E].
    + exists k. split; [|done]. destruct HR as [(s & HI & Hc & Hid) _ _].
      pose proof HI as [Hs HQ Hc0 Hcur _ _]. destruct (states_of_inv _ _ _ Hcur) as (t & Ht & Hv & _).
      unfold mcsos_thread_block_current. rewrite Hs, (proj2 (Z.eqb_neq _ _)) by apply HQ.
      rewrite (valid_object _ _ _ Ht Hc0), bool_decide_eq_true_2 by done. simpl.
      by rewrite Hc, Hid, E, Z.eqb_refl.
    + destruct (step_block known k a HR E) as (k' & Eb & HR'). exists k'. split; [exact Eb|].
      simpl in HR'. by rewrite (proj2 (Z.eqb_neq _ _)) in HR' by done.
  - by apply mark_ready_step.
  - by apply step_tick.
  - destruct (step_count known k a HR) as [-> _]. simpl. eauto.
  - destruct (step_count known k a HR) as [_ ->]. simpl. eauto.
Qed.

Lemma sched_run_refines known k a ops :
  srep known k a → ops_allowed known a ops →
  ∃ k', sched_run k ops = Ret ((a_run a ops).1, k') ∧ srep known k' (a_run a ops).2.
Proof.
  revert k a. induction ops as [|op ops IH]; intros k a HR; simpl; [eauto|]. intros [Hop Hops].
  destruct (sched_step_refines known k a op HR Hop) as (k1 & -> & HR1). simpl.
  destruct (a_step a op) as [o a1]. simpl in *.
  destruct (IH k1 a1 HR1 Hops) as (k2 & -> & HR2). simpl.
  destruct (a_run a1 ops) as [os a2]. simpl in *. eauto.
Qed.
End impl.

(** ** Lemmas for the theorems *)

Lemma init_srep boot_name k s0 boot t0 :
  sched k = Some s0 → boot ≠ 0 → threads k !! boot = Some t0 →
  Z.of_nat (size (threads k)) < 2 ^ 64 - 1 →
  ∃ k', mcsos_scheduler_init boot_name k boot = Ret (MCSOS_SCHED_OK, k') ∧
    srep (dom (threads k)) k'
      (mk_asched boot boot [] (<[boot := THREAD_RUNNING]> (states_of (threads k)))).
Proof.
  intros Hs Hb Ht Hsz. unfold mcsos_scheduler_init. rewrite Hs, (proj2 (Z.eqb_neq _ _)) by done.
  rewrite (modify_Ret _ _ _ _ Ht). simpl. eexists. split; [done|]. split; simpl.
  - exists (mk_sched boot boot 0 0 1 0 0 0 1). split; [|done].
    split; [reflexivity| |done| |done|]; simpl.
    + split; simpl; try done; [by constructor|]. by erewrite size_modify.
    + rewrite states_of_insert by done. by rewrite lookup_insert_eq.
    + rewrite states_of_insert by done. by rewrite lookup_insert_eq.
  - by rewrite states_of_insert.
  - apply dom_insert_lookup_L. eauto.
Qed.

(** [n] yields in a row. *)
Fixpoint yields (resume_label : Z) (n : nat) (k : kern) : outcome kern :=
  match n with
  | O => Ret k
  | S n =>
      ' (_, k) ← mcsos_sched_yield resume_label k;
      yields resume_label n k
  end.

Lemma yields_reach resume_label i : ∀ k s q p,
  sched_inv k s q → q !! i = Some p →
  ∃ k' s' q', yields resume_label (S i) k = Ret k' ∧ sched_inv k' s' q' ∧ current s' = p.
Proof.
  induction i as [|i IH]; intros k s q p HI Hp; destruct q as [|p0 q]; try done;
    destruct (yield_spec resume_label k s _ HI) as (k1 & s1 & E & H);
    rewrite decide_False in H by (by intros [? _]); destruct H as [HI1 HO].
  - simpl in Hp. injection Hp as ->. exists k1, s1. eexists. split; [|split; [exact HI1|apply HO]].
    simpl. by rewrite E.
  - destruct (IH k1 s1 _ p HI1) as (k2 & s2 & q2 & E2 & HI2 & Hc2).
    { unfold next_queue. simpl. rewrite lookup_app_l; [done|]. by eapply lookup_lt_Some. }
    exists k2, s2, q2. split; [|done]. simpl yields at 1. rewrite E. simpl obind. exact E2.
Qed.

(** The system while thread [A] is not running: the running thread computes
    (the live registers change at will), or yields to another one. *)
Inductive away (resume_label A : Z) : kern → kern → Prop :=
| away_refl k : away resume_label A k k
| away_run k k1 r :
    away resume_label A k k1 → away resume_label A k (mk_kern (threads k1) (sched k1) r (kmemory k1))
| away_yield k k1 k2 s1 s2 q1 :
    away resume_label A k k1 → sched_inv k1 s1 q1 → current s1 ≠ A →
    mcsos_sched_yield resume_label k1 = Ret (MCSOS_SCHED_OK, k2) → sched k2 = Some s2 →
    current s2 ≠ A → away resume_label A k k2.

Lemma away_ctxt resume_label A k k' :
  away resume_label A k k' → ctxt <$> threads k' !! A = ctxt <$> threads k !! A.
Proof.
  induction 1 as [|k k1 r _ IH|k k1 k2 s1 s2 q1 _ IH HI Hne E Hs2 Hne2]; [done|done|].
  rewrite <- IH. destruct (yield_spec resume_label k1 s1 q1 HI) as (k3 & s3 & E3 & H).
  rewrite E in E3. injection E3 as <-. case_decide.
  - apply H.
  - rewrite (ho_ctxt _ _ _ _ _ _ _ _ _ (proj2 H)). by rewrite decide_False.
Qed.

(** A set of queued threads closed under [next], as a cycle is. *)
Definition trapped (ts : store) (cur : Z) (S : list Z) : Prop :=
  ∀ x, x ∈ S → x ≠ 0 ∧ x ≠ cur ∧
    ∃ t, ts !! x = Some t ∧ valid t ∧ state t = THREAD_READY ∧ next t ∈ S.

Lemma trapped_count ts cur S fuel count h :
  trapped ts cur S → h ∈ S → loop fuel (count_step ts) (count, h) = OutOfFuel.
Proof.
  intros HT Hh. apply (loop_diverges (count_step ts) (λ st, st.2 ∈ S)); [|done].
  intros [c x] Hx. simpl in *. destruct (HT x Hx) as (Hx0 & _ & t & Ht & _ & _ & Hn).
  rewrite (proj2 (Z.eqb_neq x 0)) by done. unfold deref. rewrite Ht. simpl. eauto.
Qed.

Lemma trapped_validate ts s S fuel : ∀ count h last,
  trapped ts (current s) S → h ∈ S → runnable_count s + 2 < 2 ^ 64 →
  0 ≤ count ≤ runnable_count s + 1 → (Z.to_nat (runnable_count s + 2 - count) < fuel)%nat →
  loop fuel (qvalidate_step ts s) (count, h, last) = Ret (inl MCSOS_SCHED_ECORRUPT).
Proof.
  induction fuel as [|fuel IH]; intros count h last HT Hh Hr Hc Hf; [lia|].
  rewrite loop_unfold. unfold qvalidate_step at 1.
  destruct (HT h Hh) as (Hh0 & Hcur & t & Ht & Hv & Hst & Hn).
  rewrite (proj2 (Z.eqb_neq h 0)) by done.
  rewrite (valid_object _ _ _ Ht Hh0), bool_decide_eq_true_2 by done. simpl.
  unfold deref. rewrite Ht. simpl. rewrite bool_decide_eq_true_2 by done. simpl.
  rewrite (proj2 (Z.eqb_neq h (current s))) by done. words.
  destruct (Z.ltb_spec (runnable_count s + 1) (count + 1)); simpl; [done|].
  apply IH; [done|done|lia..].
Qed.

Lemma qlist_next ts h q1 x y q2 t :
  qlist ts h (q1 ++ x :: y :: q2) → ts !! x = Some t → next t = y.
Proof.
  intros Hq Ht. apply qlist_suffix in Hq. destruct Hq as (_ & _ & t' & Ht' & Hy & _). congruence.
Qed.

Lemma qlist_head ts h q : qlist ts h q → q ≠ [] → h ∈ q.
Proof. destruct q as [|p q]; [done|]. intros (-> & _) _. constructor. Qed.

(** ** A concrete system: the boot thread and two prepared threads *)
Definition raw_thread : thread := mk_thread 0 0 0 THREAD_NEW zero_context 0 0 0 0 0 0 0 0.
Definition demo_thread (base : Z) : thread :=
  mk_thread MCSOS_THREAD_MAGIC 1 0 THREAD_NEW (mk_context (base + 8184) 0 0 0 0 0 0 5000)
    7000 0 base 8192 0 0 0 0.
Definition demo_kern0 : kern :=
  mk_kern (<[100 := raw_thread]> (<[200 := demo_thread 8192]> (<[300 := demo_thread 16384]> ∅)))
    (Some (mk_sched 0 0 0 0 0 0 0 0 0)) zero_context (zero_mem 8192 16384).

(** The system after [mcsos_scheduler_init] and the two enqueues. *)
Definition demo_known : gset Z := {[100; 200; 300]}.
Definition demo_kern : kern :=
  match mcsos_scheduler_init 0 demo_kern0 100 with Ret (_, k) => k | _ => demo_kern0 end.
Definition demo_abs : asched :=
  mk_asched 100 100 [] (<[100 := THREAD_RUNNING]> (states_of (threads demo_kern0))).

Lemma demo_known_dom : dom (threads demo_kern0) = demo_known.
Proof. by vm_compute. Qed.

Lemma demo_init_sched : mcsos_scheduler_init 0 demo_kern0 100 = Ret (MCSOS_SCHED_OK, demo_kern).
Proof. reflexivity. Qed.

Lemma demo_srep : srep demo_known demo_kern demo_abs.
Proof.
  destruct (init_srep 0 demo_kern0 (mk_sched 0 0 0 0 0 0 0 0 0) 100 raw_thread) as (k' & E & HR);
    [done|done|done|by vm_compute|].
  rewrite demo_init_sched in E. injection E as <-. by rewrite demo_known_dom in HR.
Qed.

Definition demo_sched_ops : list sched_op :=
  [ OpValidate; OpEnqueue 200; OpEnqueue 300; OpReadyCount; OpYield; OpTick; OpYield; OpYield;
    OpBlock; OpMarkReady 200; OpMarkReady 0; OpValidate ].

Lemma demo_sched_ops_allowed : ops_allowed demo_known demo_abs demo_sched_ops.
Proof. apply (bool_decide_unpack _). vm_compute. exact I. Qed.

(** ** Theorems *)

(** C3: After mcsos_scheduler_init, every sequence of enqueue, yield, block, mark-ready, tick, count and validate calls (on null or existing thread objects, no thread enqueued while it is queued) returns what a FIFO scheduler returns and leaves the thread states, the running thread and the ready queue of that FIFO scheduler; in particular the queue invariant holds throughout and every mcsos_sched_validate on the way succeeds. *)
Theorem sched_refines_fifo (resume_label boot_name : Z) (k : kern) (s0 : scheduler) (boot : Z)
    (t0 : thread) (ops : list sched_op) :
  let a0 := mk_asched boot boot [] (<[boot := THREAD_RUNNING]> (states_of (threads k))) in
  sched k = Some s0 → boot ≠ 0 → threads k !! boot = Some t0 →
  Z.of_nat (size (threads k)) < 2 ^ 64 - 1 → ops_allowed (dom (threads k)) a0 ops →
  ∃ k0 k', mcsos_scheduler_init boot_name k boot = Ret (MCSOS_SCHED_OK, k0) ∧
    sched_run resume_label k0 ops = Ret ((a_run a0 ops).1, k') ∧
    srep (dom (threads k)) k' (a_run a0 ops).2.
Proof.
  intros a0 Hs Hb Ht Hsz Hops.
  destruct (init_srep boot_name k s0 boot t0 Hs Hb Ht Hsz) as (k0 & E0 & HR0).
  destruct (sched_run_refines resume_label _ k0 a0 ops HR0 Hops) as (k' & E & HR).
  exists k0, k'. done.
Qed.

Lemma sched_refines_fifo_witness :
  ∃ k0 k', mcsos_scheduler_init 0 demo_kern0 100 = Ret (MCSOS_SCHED_OK, k0) ∧
    sched_run 9000 k0 demo_sched_ops = Ret ([0; 0; 0; 2; 0; 0; 0; 0; 0; 0; -1; 0], k').
Proof.
  destruct (sched_refines_fifo 9000 0 demo_kern0 (mk_sched 0 0 0 0 0 0 0 0 0) 100 raw_thread
    demo_sched_ops eq_refl ltac:(done) eq_refl ltac:(by vm_compute)) as (k0 & k' & E0 & E & _).
  - rewrite demo_known_dom. exact demo_sched_ops_allowed.
  - exists k0, k'. split; [exact E0|]. rewrite E. vm_compute. reflexivity.
Defined.

(** C28: No ready thread starves: the thread at position i of the ready queue is the running thread after exactly i + 1 calls of mcsos_sched_yield. *)
Theorem sched_yield_fair (resume_label : Z) (k : kern) (s : scheduler) (q : list Z) (i : nat) (p : Z) :
  sched_inv k s q → q !! i = Some p →
  ∃ k' s' q', yields resume_label (S i) k = Ret k' ∧ sched_inv k' s' q' ∧ current s' = p.
Proof. intros HI Hp. by eapply yields_reach. Qed.

(** The demonstration system with threads 200 and 300 queued. *)
Lemma demo_queued : ∃ k s, sched_run 9000 demo_kern [OpEnqueue 200; OpEnqueue 300] = Ret ([0; 0], k) ∧
  sched_inv k s [200; 300].
Proof.
  destruct (sched_run_refines 9000 demo_known demo_kern demo_abs [OpEnqueue 200; OpEnqueue 300] demo_srep)
    as (k' & E & [(s & HI & _) _ _]).
  - apply (bool_decide_unpack _). vm_compute. exact I.
  - exists k', s. split; [exact E|exact HI].
Qed.

Lemma sched_yield_fair_witness :
  ∃ k k' s', yields 9000 2 k = Ret k' ∧ sched k' = Some s' ∧ current s' = 300.
Proof.
  destruct demo_queued as (k & s & _ & HI).
  destruct (sched_yield_fair 9000 k s [200; 300] 1 300 HI eq_refl) as (k' & s' & q' & E & HI' & Hc).
  exists k, k', s'. split_and!; [exact E|apply HI'|exact Hc].
Defined.

(** C29: mcsos_sched_validate accepts exactly the well-formed queues: it returns MCSOS_SCHED_OK if and only if the current thread object is valid and the ready list is an acyclic chain of distinct valid READY threads, none of them the current thread, that ends at ready_tail and has runnable_count nodes. *)
Theorem sched_validate_iff (k : kern) (s : scheduler) :
  sched k = Some s → initialized s ≠ 0 → 0 ≤ runnable_count s → runnable_count s + 2 < 2 ^ 64 →
  mcsos_sched_validate k = Ret MCSOS_SCHED_OK ↔
  (current s ≠ 0 ∧ (∃ t, threads k !! current s = Some t ∧ valid t)) ∧
  ∃ q, qlist (threads k) (ready_head s) q ∧ NoDup q ∧ Forall (ready_at (threads k)) q ∧
    (current s ∉ q) ∧ ready_tail s = tail_of q ∧ runnable_count s = Z.of_nat (length q).
Proof.
  intros Hs Hi Hr0 Hr. unfold mcsos_sched_validate. rewrite Hs, (proj2 (Z.eqb_neq _ _)) by done.
  split.
  - intros H. bind_inv H. destruct x; [|done]. apply valid_object_true in Hx as (Hc0 & t & Ht & Hv).
    simpl in H. bind_inv H. destruct x as [rc|[count last]].
    { apply qvalidate_fail in Hx. subst rc. done. }
    apply qvalidate_sound in Hx as (q & Hq & HF & Hnot & -> & ->); [|done|lia].
    destruct (Z.eqb_spec (default 0 (list.last q)) (ready_tail s)) as [Htl|]; [|done]. simpl in H.
    destruct (Z.eqb_spec (0 + Z.of_nat (length q)) (runnable_count s)); [|done].
    split; [eauto|]. exists q. split_and!; [done|by eapply qlist_NoDup|done|done| |lia].
    unfold tail_of. congruence.
  - intros ((Hc0 & t & Ht & Hv) & q & Hq & Hnd & HF & Hnot & Htl & Hcount).
    rewrite (valid_object _ _ _ Ht Hc0), bool_decide_eq_true_2 by done. simpl.
    rewrite (qvalidate_loop _ _ q) by (done || lia). simpl. unfold tail_of in Htl.
    by rewrite <- Htl, Z.eqb_refl, Hcount, Z.eqb_refl.
Qed.

Lemma sched_validate_iff_witness :
  ∃ k s, qlist (threads k) (ready_head s) [200; 300] ∧ mcsos_sched_validate k = Ret MCSOS_SCHED_OK.
Proof.
  destruct demo_queued as (k & s & _ & HI). exists k, s. split; [apply (qi_list _ _ _ (si_queue _ _ _ HI))|].
  pose proof (si_queue _ _ _ HI) as HQ. pose proof (qi_count _ _ _ HQ) as Hn. simpl in Hn.
  destruct (states_of_inv _ _ _ (si_cur _ _ _ HI)) as (t & Ht & Hv & Hst).
  apply (sched_validate_iff k s); [apply HI|apply HQ|lia|lia|].
  split; [split; [apply HI|by exists t]|]. exists [200; 300]. split_and!; [apply HQ..| |apply HQ|apply HQ].
  intros Hin. pose proof (queued_ready _ _ _ _ HQ Hin) as Hr. rewrite (si_cur _ _ _ HI) in Hr. discriminate Hr.
Defined.

(** A context switch is transparent to the thread that yields: however long other threads run, change the registers and yield among themselves, when the scheduler next hands the processor back to it the stack pointer and all callee-saved registers are those it yielded with, and execution continues at the return of mcsos_context_switch. *)
Theorem sched_context_restored (resume_label : Z) (k k1 k2 k3 : kern) (s s1 s2 s3 : scheduler)
    (q q2 : list Z) :
  sched_inv k s q → mcsos_sched_yield resume_label k = Ret (MCSOS_SCHED_OK, k1) →
  sched k1 = Some s1 → current s1 ≠ current s →
  away resume_label (current s) k1 k2 → sched_inv k2 s2 q2 → current s2 ≠ current s →
  mcsos_sched_yield resume_label k2 = Ret (MCSOS_SCHED_OK, k3) →
  sched k3 = Some s3 → current s3 = current s →
  rsp (regs k3) = rsp (regs k) ∧ rbp (regs k3) = rbp (regs k) ∧ rbx (regs k3) = rbx (regs k) ∧
  r12 (regs k3) = r12 (regs k) ∧ r13 (regs k3) = r13 (regs k) ∧ r14 (regs k3) = r14 (regs k) ∧
  r15 (regs k3) = r15 (regs k) ∧ rip (regs k3) = resume_label.
Proof.
  intros HI E1 Hs1 Hne1 HA HI2 Hne2 E3 Hs3 Hc3.
  assert (Hsaved : ctxt <$> threads k1 !! current s = Some (saved resume_label (regs k))).
  { destruct (yield_spec resume_label k s q HI) as (k' & s' & E & H). rewrite E1 in E.
    injection E as <-. case_decide as Hd.
    - destruct H as (-> & HI' & _). pose proof (si_sched _ _ _ HI'). congruence.
    - rewrite (ho_ctxt _ _ _ _ _ _ _ _ _ (proj2 H)). by rewrite decide_True. }
  assert (Hregs : Some (regs k3) = Some (saved resume_label (regs k))).
  { destruct (yield_spec resume_label k2 s2 q2 HI2) as (k' & s' & E & H). rewrite E3 in E.
    injection E as <-. case_decide as Hd.
    - destruct H as (-> & HI' & _). pose proof (si_sched _ _ _ HI'). congruence.
    - destruct H as [HI' HO].
      assert (Hn : next_runner (idle s2) q2 = current s).
      { rewrite <- (ho_current _ _ _ _ _ _ _ _ _ HO). pose proof (ho_sched _ _ _ _ _ _ _ _ _ HO). congruence. }
      rewrite (ho_regs _ _ _ _ _ _ _ _ _ HO), Hn, (away_ctxt _ _ _ _ HA). done. }
  injection Hregs as ->. done.
Qed.

(** Thread 200 running, thread 300 queued. *)
Lemma demo_running : ∃ k s, sched_inv k s [300] ∧ current s = 200 ∧ idle s = 100.
Proof.
  destruct (sched_run_refines 9000 demo_known demo_kern demo_abs [OpEnqueue 200; OpEnqueue 300; OpYield]
    demo_srep) as (k' & E & [(s & HI & Hc & Hi) _ _]).
  - apply (bool_decide_unpack _). vm_compute. exact I.
  - exists k', s. split_and!; [exact HI|exact Hc|exact Hi].
Qed.

Lemma sched_context_restored_witness :
  ∃ k k1 k3, mcsos_sched_yield 9000 k = Ret (MCSOS_SCHED_OK, k1) ∧
    mcsos_sched_yield 9000 k1 = Ret (MCSOS_SCHED_OK, k3) ∧
    rsp (regs k3) = rsp (regs k) ∧ rip (regs k3) = 9000.
Proof.
  destruct demo_running as (k & s & HI & Hc & Hi).
  destruct (yield_spec 9000 k s [300] HI) as (k1 & s1 & E1 & H1).
  rewrite decide_False in H1 by (intros [? _]; done). destruct H1 as [HI1 HO1].
  assert (Hq1 : next_queue THREAD_RUNNING (current s) (idle s) [300] = [200]) by (by rewrite Hc, Hi).
  assert (Hc1 : current s1 = 300) by apply HO1. rewrite Hq1 in HI1.
  destruct (yield_spec 9000 k1 s1 [200] HI1) as (k3 & s3 & E3 & H3).
  rewrite decide_False in H3 by (intros [? _]; done). destruct H3 as [HI3 HO3].
  destruct (sched_context_restored 9000 k k1 k1 k3 s s1 s1 s3 [300] [200] HI E1
    (si_sched _ _ _ HI1) ltac:(lia) (away_refl _ _ _) HI1 ltac:(lia) E3 (si_sched _ _ _ HI3)
    ltac:(by rewrite Hc, (ho_current _ _ _ _ _ _ _ _ _ HO3))) as (R1 & _ & _ & _ & _ & _ & _ & R2).
  exists k, k1, k3. split_and!; [exact E1|exact E3|exact R1|exact R2].
Defined.

(** What [mcsos_thread_prepare] does on every branch. *)
Lemma thread_prepare_spec (trampoline : Z) (k : kern) (thr nm ent ar base size tid : Z) (t0 : thread) :
  0 ≤ base < 2 ^ 64 → 0 ≤ size < 2 ^ 64 → threads k !! thr = Some t0 →
  mapped (kmemory k) base size →
  if decide (thr = 0 ∨ ent = 0 ∨ base = 0) then
    mcsos_thread_prepare trampoline k thr nm ent ar base size tid = Ret (MCSOS_SCHED_EINVAL, k)
  else if decide (size < 4096 ∨ 2 ^ 64 ≤ base + size) then
    mcsos_thread_prepare trampoline k thr nm ent ar base size tid = Ret (MCSOS_SCHED_ESTACK, k)
  else
    ∃ m', let sp := base + size - (base + size) mod 16 - 8 in
      mcsos_thread_prepare trampoline k thr nm ent ar base size tid =
        Ret (MCSOS_SCHED_OK, mk_kern (<[thr := mk_thread MCSOS_THREAD_MAGIC tid nm THREAD_NEW
               (mk_context sp 0 0 0 0 0 0 trampoline) ent ar base size 0 0 0 0]> (threads k))
               (sched k) (regs k) m') ∧
      base < sp ∧ sp + 8 ≤ base + size ∧ sp mod 16 = 8 ∧
      load64 m' sp = Ret 0 ∧ wrote sp 8 (kmemory k) m'.
Proof.
  intros Hb Hsz Ht HM. unfold mcsos_thread_prepare.
  destruct (decide (thr = 0 ∨ ent = 0 ∨ base = 0)) as [Hz|Hz].
  { destruct (Z.eqb_spec thr 0), (Z.eqb_spec ent 0), (Z.eqb_spec base 0); done || lia. }
  destruct (Z.eqb_spec thr 0), (Z.eqb_spec ent 0), (Z.eqb_spec base 0); try lia. simpl.
  unfold MCSOS_MIN_KERNEL_STACK, MCSOS_STACK_ALIGN.
  destruct (Z.ltb_spec size 4096); [by rewrite decide_True by lia|].
  destruct (decide (2 ^ 64 ≤ base + size)) as [Hw|Hw].
  { rewrite decide_True by lia.
    assert (Hh : base ⊕ size = base + size - 2 ^ 64).
    { unfold add64, u64. symmetry. apply (Z.mod_unique _ _ 1); lia. }
    rewrite Hh. destruct (Z.leb_spec (base + size - 2 ^ 64) base); [done|lia]. }
  rewrite decide_False by lia. words.
  destruct (Z.leb_spec (base + size) base); [lia|].
  assert (Htop : align_down_uintptr (base + size) 16 = base + size - (base + size) mod 16).
  { unfold align_down_uintptr. change (16 ⊖ 1) with (Z.ones 4).
    rewrite land_not64_ones by (unfold in64; lia). done. }
  rewrite Htop. pose proof (Z.mod_pos_bound (base + size) 16 ltac:(lia)) as Hm.
  destruct (Z.leb_spec (base + size - (base + size) mod 16) (base + 128)); [lia|].
  words. set (sp := base + size - (base + size) mod 16 - 8).
  destruct (store64_wrote (kmemory k) sp 0) as (m' & -> & W & L); [|done|].
  { eapply mapped_sub; [exact HM|lia..]. }
  simpl. rewrite (modify_Ret _ _ _ _ Ht). simpl. exists m'. split_and!; try done; try lia.
  unfold sp. mlia.
Qed.

(** mcsos_thread_prepare rejects null pointers with EINVAL and stacks that are smaller than 4096 bytes or wrap around with ESTACK, changing nothing; otherwise it clears the word at the initial stack pointer, which lies inside the stack and is 8 modulo 16 as the ABI requires at a function entry, and makes the thread a NEW one that starts at the trampoline. *)
Theorem thread_prepare_correct (trampoline : Z) (k : kern) (thr nm ent ar base size tid : Z) (t0 : thread) :
  0 ≤ base < 2 ^ 64 → 0 ≤ size < 2 ^ 64 → threads k !! thr = Some t0 →
  mapped (kmemory k) base size →
  if decide (thr = 0 ∨ ent = 0 ∨ base = 0) then
    mcsos_thread_prepare trampoline k thr nm ent ar base size tid = Ret (MCSOS_SCHED_EINVAL, k)
  else if decide (size < 4096 ∨ 2 ^ 64 ≤ base + size) then
    mcsos_thread_prepare trampoline k thr nm ent ar base size tid = Ret (MCSOS_SCHED_ESTACK, k)
  else
    ∃ m', let sp := base + size - (base + size) mod 16 - 8 in
      mcsos_thread_prepare trampoline k thr nm ent ar base size tid =
        Ret (MCSOS_SCHED_OK, mk_kern (<[thr := mk_thread MCSOS_THREAD_MAGIC tid nm THREAD_NEW
               (mk_context sp 0 0 0 0 0 0 trampoline) ent ar base size 0 0 0 0]> (threads k))
               (sched k) (regs k) m') ∧
      base < sp ∧ sp + 8 ≤ base + size ∧ sp mod 16 = 8 ∧
      load64 m' sp = Ret 0 ∧ wrote sp 8 (kmemory k) m'.
Proof. apply thread_prepare_spec. Qed.

Lemma thread_prepare_correct_witness :
  ∃ k', mcsos_thread_prepare 5000 demo_kern0 200 0 7000 0 8192 8192 7 = Ret (MCSOS_SCHED_OK, k').
Proof.
  pose proof (thread_prepare_correct 5000 demo_kern0 200 0 7000 0 8192 8192 7 (demo_thread 8192)
    ltac:(lia) ltac:(lia) eq_refl) as H.
  rewrite !decide_False in H by lia. destruct H as (m' & E & _).
  - eapply mapped_sub; [apply zero_mem_mapped|lia..].
  - eexists. exact E.
Defined.

(** C31: Enqueueing a READY thread that is already queued is not rejected: with a well-formed ready queue whose count is not about to overflow, mcsos_sched_enqueue of the thread at its tail returns MCSOS_SCHED_OK and links the thread to itself, and in the state it leaves mcsos_sched_validate reports corruption and mcsos_sched_ready_count runs out of any fuel, that is, loops forever. *)
Theorem sched_double_enqueue_corrupts (k : kern) (s : scheduler) (q : list Z) (p : Z) :
  sched_inv k s (q ++ [p]) → runnable_count s + 3 < 2 ^ 64 →
  ∃ k' t, mcsos_sched_enqueue k p = Ret (MCSOS_SCHED_OK, k') ∧ threads k' !! p = Some t ∧ next t = p ∧
    mcsos_sched_validate k' = Ret MCSOS_SCHED_ECORRUPT ∧
    ∀ fuel, mcsos_sched_ready_count fuel k' = OutOfFuel.
Proof.
  intros [Hs HQ Hc0 Hcur Hi0 Hidle] Hr. pose proof HQ as [Hinit Hlist Htail Hnd Hready Hcount _].
  assert (Hp : p ∈ q ++ [p]) by set_solver.
  pose proof (queued_ready _ _ _ _ HQ Hp) as Hst. destruct (states_of_inv _ _ _ Hst) as (t & Ht & Hv & Hts).
  pose proof (qlist_nonzero _ _ _ _ Hlist Hp) as Hp0. rewrite tail_of_snoc in Htail.
  destruct (states_of_inv _ _ _ Hcur) as (tc & Htc & Hvc & Hsc).
  assert (Hcp : current s ≠ p) by (intros E; rewrite E in Hcur; congruence).
  unfold mcsos_sched_enqueue. rewrite Hs, (proj2 (Z.eqb_neq _ _)) by done.
  rewrite (valid_object _ _ _ Ht Hp0), bool_decide_eq_true_2 by done. simpl.
  unfold deref. rewrite Ht. simpl. rewrite Hts. simpl. rewrite (modify_Ret _ _ _ _ Ht). simpl.
  rewrite Htail, (proj2 (Z.eqb_neq p 0)) by done.
  rewrite (modify_Ret _ p (set_tnext (set_state t THREAD_READY) 0)) by (by rewrite lookup_insert_eq). simpl.
  rewrite add64_small by (unfold in64; lia). rewrite insert_insert_eq.
  set (t2 := set_tnext _ p). set (ts := <[p := t2]> (threads k)).
  assert (HT : trapped ts (current s) (q ++ [p])).
  { intros x Hx. pose proof (queued_ready _ _ _ _ HQ Hx) as Hsx.
    split; [by eapply qlist_nonzero|]. split; [intros ->; rewrite Hcur in Hsx; congruence|].
    destruct (decide (x = p)) as [->|Hxp].
    - exists t2. unfold ts. rewrite lookup_insert_eq. done.
    - destruct (states_of_inv _ _ _ Hsx) as (tx & Htx & Hvx & Hstx). exists tx.
      unfold ts. rewrite lookup_insert_ne by done. split_and!; [done..|].
      assert (Hxq : x ∈ q) by set_solver. apply list_elem_of_split in Hxq as (l1 & l2 & ->).
      rewrite <- app_assoc in *. simpl in *. destruct l2 as [|y l2]; simpl in *;
        rewrite (qlist_next _ _ _ _ _ _ _ Hlist Htx); set_solver. }
  assert (Hh : ready_head s ∈ q ++ [p]) by (eapply qlist_head; [done|by destruct q]).
  eexists _, t2. split; [done|]. split; [apply lookup_insert_eq|]. split; [done|]. split.
  - unfold mcsos_sched_validate. simpl. rewrite (proj2 (Z.eqb_neq _ _)) by done.
    rewrite (valid_object ts (current s) tc) by (unfold ts; rewrite ?lookup_insert_ne by done; done).
    rewrite bool_decide_eq_true_2 by done. simpl.
    rewrite (trapped_validate ts _ (q ++ [p])); [done|exact HT|exact Hh|simpl; lia..].
  - intros fuel. unfold mcsos_sched_ready_count. simpl. rewrite (proj2 (Z.eqb_neq _ _)) by done.
    by apply (trapped_count ts (current s) (q ++ [p])).
Qed.

Lemma sched_double_enqueue_corrupts_witness :
  ∃ k k', mcsos_sched_enqueue k 300 = Ret (MCSOS_SCHED_OK, k') ∧
    mcsos_sched_validate k' = Ret MCSOS_SCHED_ECORRUPT.
Proof.
  destruct demo_queued as (k & s & _ & HI).
  destruct (sched_double_enqueue_corrupts k s [200] 300 HI) as (k' & t & E & _ & _ & V & _).
  - rewrite (qi_count _ _ _ (si_queue _ _ _ HI)). simpl. lia.
  - exists k, k'. split; [exact E|exact V].
Defined.
