(* ===== verification/Machine.v ===== *)
(** * The machine the kernel drives

    Registers, I/O ports and the kernel statics that port-driven code changes.

    Devices are outside the sources.  They are a parameter: a function [dev]
    from the history of port accesses to the byte the next [inb] returns.  Every
    [inb] and [outb] is recorded in the history, so what the kernel asked of a
    device is a fact about the history, and what a device answers is a
    hypothesis about [dev].

    Code that uses the ports is written in the monad [M]: a machine is threaded
    through, and a computation that runs into the kernel's endless [hlt] loop
    ends with [None]. *)

From Stdlib Require Import String Ascii.
From S2P Require Import Prelude.

(** ** Registers *)

Record regs : Type := mk_regs {
  rax : Z; rbx : Z; rcx : Z; rdx : Z; rsi : Z; rdi : Z; rbp : Z; rsp : Z;
  r8 : Z; r9 : Z; r10 : Z; r11 : Z; r12 : Z; r13 : Z; r14 : Z; r15 : Z;
}.

(** The registers after a call of a C function: the System V convention keeps
    [rbx], [rbp], [rsp] and [r12 .. r15]; the others hold the values [c] the
    compiled code happens to leave there. *)
Definition after_call (c r : regs) : regs :=
  mk_regs (rax c) (rbx r) (rcx c) (rdx c) (rsi c) (rdi c) (rbp r) (rsp r)
    (r8 c) (r9 c) (r10 c) (r11 c) (r12 r) (r13 r) (r14 r) (r15 r).

Definition set_rax (r : regs) (v : Z) : regs :=
  mk_regs v (rbx r) (rcx r) (rdx r) (rsi r) (rdi r) (rbp r) (rsp r)
    (r8 r) (r9 r) (r10 r) (r11 r) (r12 r) (r13 r) (r14 r) (r15 r).
Definition set_rdi (r : regs) (v : Z) : regs :=
  mk_regs (rax r) (rbx r) (rcx r) (rdx r) (rsi r) v (rbp r) (rsp r)
    (r8 r) (r9 r) (r10 r) (r11 r) (r12 r) (r13 r) (r14 r) (r15 r).
Definition set_rsp (r : regs) (v : Z) : regs :=
  mk_regs (rax r) (rbx r) (rcx r) (rdx r) (rsi r) (rdi r) (rbp r) v
    (r8 r) (r9 r) (r10 r) (r11 r) (r12 r) (r13 r) (r14 r) (r15 r).

Definition set_rbx (r : regs) (v : Z) : regs :=
  mk_regs (rax r) v (rcx r) (rdx r) (rsi r) (rdi r) (rbp r) (rsp r)
    (r8 r) (r9 r) (r10 r) (r11 r) (r12 r) (r13 r) (r14 r) (r15 r).
Definition set_rcx (r : regs) (v : Z) : regs :=
  mk_regs (rax r) (rbx r) v (rdx r) (rsi r) (rdi r) (rbp r) (rsp r)
    (r8 r) (r9 r) (r10 r) (r11 r) (r12 r) (r13 r) (r14 r) (r15 r).
Definition set_rdx (r : regs) (v : Z) : regs :=
  mk_regs (rax r) (rbx r) (rcx r) v (rsi r) (rdi r) (rbp r) (rsp r)
    (r8 r) (r9 r) (r10 r) (r11 r) (r12 r) (r13 r) (r14 r) (r15 r).
Definition set_rsi (r : regs) (v : Z) : regs :=
  mk_regs (rax r) (rbx r) (rcx r) (rdx r) v (rdi r) (rbp r) (rsp r)
    (r8 r) (r9 r) (r10 r) (r11 r) (r12 r) (r13 r) (r14 r) (r15 r).
Definition set_rbp (r : regs) (v : Z) : regs :=
  mk_regs (rax r) (rbx r) (rcx r) (rdx r) (rsi r) (rdi r) v (rsp r)
    (r8 r) (r9 r) (r10 r) (r11 r) (r12 r) (r13 r) (r14 r) (r15 r).
Definition set_r8 (r : regs) (v : Z) : regs :=
  mk_regs (rax r) (rbx r) (rcx r) (rdx r) (rsi r) (rdi r) (rbp r) (rsp r)
    v (r9 r) (r10 r) (r11 r) (r12 r) (r13 r) (r14 r) (r15 r).
Definition set_r9 (r : regs) (v : Z) : regs :=
  mk_regs (rax r) (rbx r) (rcx r) (rdx r) (rsi r) (rdi r) (rbp r) (rsp r)
    (r8 r) v (r10 r) (r11 r) (r12 r) (r13 r) (r14 r) (r15 r).
Definition set_r10 (r : regs) (v : Z) : regs :=
  mk_regs (rax r) (rbx r) (rcx r) (rdx r) (rsi r) (rdi r) (rbp r) (rsp r)
    (r8 r) (r9 r) v (r11 r) (r12 r) (r13 r) (r14 r) (r15 r).
Definition set_r11 (r : regs) (v : Z) : regs :=
  mk_regs (rax r) (rbx r) (rcx r) (rdx r) (rsi r) (rdi r) (rbp r) (rsp r)
    (r8 r) (r9 r) (r10 r) v (r12 r) (r13 r) (r14 r) (r15 r).
Definition set_r12 (r : regs) (v : Z) : regs :=
  mk_regs (rax r) (rbx r) (rcx r) (rdx r) (rsi r) (rdi r) (rbp r) (rsp r)
    (r8 r) (r9 r) (r10 r) (r11 r) v (r13 r) (r14 r) (r15 r).
Definition set_r13 (r : regs) (v : Z) : regs :=
  mk_regs (rax r) (rbx r) (rcx r) (rdx r) (rsi r) (rdi r) (rbp r) (rsp r)
    (r8 r) (r9 r) (r10 r) (r11 r) (r12 r) v (r14 r) (r15 r).
Definition set_r14 (r : regs) (v : Z) : regs :=
  mk_regs (rax r) (rbx r) (rcx r) (rdx r) (rsi r) (rdi r) (rbp r) (rsp r)
    (r8 r) (r9 r) (r10 r) (r11 r) (r12 r) (r13 r) v (r15 r).
Definition set_r15 (r : regs) (v : Z) : regs :=
  mk_regs (rax r) (rbx r) (rcx r) (rdx r) (rsi r) (rdi r) (rbp r) (rsp r)
    (r8 r) (r9 r) (r10 r) (r11 r) (r12 r) (r13 r) (r14 r) v.

(** ** Port accesses *)

Inductive event : Type :=
| Out (port value : Z)
| In (port value : Z).

#[global] Instance event_eq_dec : EqDecision event.
Proof. solve_decision. Defined.

(** A history, newest access first, and the devices behind the ports. *)
Abbreviation history := (list event).
Abbreviation device := (history → Z → Z).

(** ** The machine *)

(** The flags register (bit 9 is the interrupt flag), the port history, and the
    statics of [log.c], [trap.c] and [pit.c]. *)
Record machine : Type := mk_machine {
  io : history;
  rflags : Z;
  g_log_ready : Z;
  trap_count : Z;
  g_timer_ticks : Z;
}.

Definition set_io (m : machine) (v : history) : machine :=
  mk_machine v (rflags m) (g_log_ready m) (trap_count m) (g_timer_ticks m).
Definition set_rflags (m : machine) (v : Z) : machine :=
  mk_machine (io m) v (g_log_ready m) (trap_count m) (g_timer_ticks m).
Definition set_log_ready (m : machine) (v : Z) : machine :=
  mk_machine (io m) (rflags m) v (trap_count m) (g_timer_ticks m).
Definition set_trap_count (m : machine) (v : Z) : machine :=
  mk_machine (io m) (rflags m) (g_log_ready m) v (g_timer_ticks m).
Definition set_timer_ticks (m : machine) (v : Z) : machine :=
  mk_machine (io m) (rflags m) (g_log_ready m) (trap_count m) v.

(** ** The monad *)

Definition M (A : Type) : Type := machine → outcome (option A * machine).

Definition mret {A} (a : A) : M A := λ m, Ret (Some a, m).
Definition mbind {A B} (e : M A) (k : A → M B) : M B := λ m,
  ' (a, m) ← e m;
  match a with Some a => k a m | None => Ret (None, m) end.
Definition mget : M machine := λ m, Ret (Some m, m).
Definition mmodify (f : machine → machine) : M unit := λ m, Ret (Some tt, f m).
Definition mhalt {A} : M A := λ m, Ret (None, m).
Definition mlift {A} (o : outcome A) : M A := λ m, a ← o; Ret (Some a, m).

Declare Scope io_scope.
Delimit Scope io_scope with io.
Bind Scope io_scope with M.
#[global] Open Scope io_scope.

Notation "x ⇐ e ; k" := (mbind e (λ x, k))
  (at level 20, e at level 100, k at level 200) : io_scope.
Notation "e ;; k" := (mbind e (λ _, k))
  (at level 100, k at level 200, right associativity) : io_scope.

Lemma mbind_Ret {A B} (f : M A) (k : A → M B) a m m' :
  f m = Ret (Some a, m') → mbind f k m = k a m'.
Proof. intros E. unfold mbind. by rewrite E. Qed.

(** The laws that regroup a sequence, machine by machine. *)
Lemma mbind_assoc {A B D} (e : M A) (f : A → M B) (g : B → M D) m :
  mbind (mbind e f) g m = mbind e (λ a, mbind (f a) g) m.
Proof. unfold mbind. by destruct (e m) as [[[a|] m']| |]. Qed.

Lemma mbind_ext {A B} (e : M A) (f g : A → M B) m :
  (∀ a m', f a m' = g a m') → mbind e f m = mbind e g m.
Proof. intros H. unfold mbind. destruct (e m) as [[[a|] m']| |]; [apply H|done..]. Qed.

Lemma mbind_mret {A B} (a : A) (f : A → M B) m : mbind (mret a) f m = f a m.
Proof. done. Qed.

(** A loop of [Prelude] whose state includes the machine; [inr] leaves it. *)
Definition mloop {St R} (fuel : nat) (step : St → M (St + R)) (s : St) : M R := λ m,
  loop fuel (λ '(s, m),
    ' (a, m) ← step s m;
    Ret (match a with
         | None => inr (None, m)
         | Some (inl s) => inl (s, m)
         | Some (inr r) => inr (Some r, m)
         end)) (s, m).

(** ** Processor and ports *)

Definition cpu_cli : M unit := mmodify (λ m, set_rflags m (Z.land (rflags m) (not64 (Z.shiftl 1 9)))).
Definition cpu_sti : M unit := mmodify (λ m, set_rflags m (Z.lor (rflags m) (Z.shiftl 1 9))).
Definition cpu_read_rflags : M Z := m ⇐ mget; mret (rflags m).

(** [cli; for (;;) hlt]: the processor stays in the loop. *)
Definition cpu_halt_forever {A} : M A := cpu_cli ;; mhalt.

Definition outb (port value : Z) : M unit :=
  mmodify (λ m, set_io m (Out port (u8 value) :: io m)).

Definition io_wait : M unit := outb 0x80 0.

Section ports.
Context (dev : device).

Definition inb (port : Z) : M Z := λ m,
  let v := u8 (dev (io m) port) in
  Ret (Some v, set_io m (In port v :: io m)).
End ports.

(** ** Strings *)

(** The bytes of a C string literal, without the terminator. *)
Fixpoint bytes (s : string) : list Z :=
  match s with
  | EmptyString => []
  | String c s => Z.of_nat (nat_of_ascii c) :: bytes s
  end.
Arguments bytes s%_string.

(** A pointer to a string literal. *)
Definition lit (s : string) : option (list Z) := Some (bytes s).
Arguments lit s%_string.
