(* ===== verification/Syscall.v ===== *)
(** * System calls

    [src/kernel/syscall/syscall.c], [src/include/mcsos/syscall.h] and the
    register-level stub [src/kernel/syscall/syscall_entry.S].

    The layer's two statics, the table of callbacks and the bounds of the user
    region, are the record [syscalls].  The callbacks are function pointers
    installed by the kernel: a value of type [option] (the null pointer is
    [None]) whose function acts on the byte memory and on whatever else the
    callbacks reach, the type parameter [W].  Calling a null pointer is
    undefined behaviour.  A handler takes the six argument registers and
    returns a value of [int64_t], a [Z] in [-2^63 .. 2^63 - 1]. *)

From S2P Require Import Prelude Mem Machine.

Definition MCSOS_SYS_PING : Z := 0.
Definition MCSOS_SYS_GET_TICKS : Z := 1.
Definition MCSOS_SYS_WRITE_SERIAL : Z := 2.
Definition MCSOS_SYS_YIELD : Z := 3.
Definition MCSOS_SYS_EXIT_THREAD : Z := 4.
Definition MCSOS_SYS_MAX : Z := 5.

Definition MCSOS_OK : Z := 0.
Definition MCSOS_EINVAL : Z := -22.
Definition MCSOS_ENOSYS : Z := -38.
Definition MCSOS_EFAULT : Z := -14.
Definition MCSOS_EPERM : Z := -1.
Definition MCSOS_EBUSY : Z := -16.

Record mcsos_user_region : Type := mk_region { base : Z; limit : Z }.

(** What a callback may change: the memory, and the rest of the kernel. *)
Abbreviation world W := (mem * W)%type.

Record mcsos_syscall_ops (W : Type) : Type := mk_ops {
  get_ticks : option (world W → outcome (Z * world W));
  yield_current : option (world W → outcome (world W));
  exit_current : option (Z → world W → outcome (world W));
  write_serial : option (Z → Z → world W → outcome (Z * world W));
}.
Arguments mk_ops {W}.
Arguments get_ticks {W}.
Arguments yield_current {W}.
Arguments exit_current {W}.
Arguments write_serial {W}.

(** The statics of [syscall.c]; they are zero before [mcsos_syscall_init]. *)
Record syscalls (W : Type) : Type := mk_syscalls {
  g_ops : mcsos_syscall_ops W;
  g_user_region : mcsos_user_region;
}.
Arguments mk_syscalls {W}.
Arguments g_ops {W}.
Arguments g_user_region {W}.

Definition syscalls_boot {W} : syscalls W :=
  mk_syscalls (mk_ops None None None None) (mk_region 0 0).

(** ** The C functions *)
Section syscall_c.
Context {W : Type}.

Definition default_write_serial (buf len : Z) (w : world W) : outcome (Z * world W) :=
  Ret (i64 len, w).

(** [g = ops->f != 0 ? ops->f : d], the form of the four assignments. *)
Definition or_default {F : Type} (f d : option F) : option F :=
  match f with Some _ => f | None => d end.

Definition mcsos_syscall_init (g : syscalls W) (ops : option (mcsos_syscall_ops W)) : syscalls W :=
  let g_ops := mk_ops None None None (Some default_write_serial) in
  let g_ops :=
    match ops with
    | None => g_ops
    | Some ops =>
        mk_ops (or_default (get_ticks ops) (get_ticks g_ops))
          (or_default (yield_current ops) (yield_current g_ops))
          (or_default (exit_current ops) (exit_current g_ops))
          (or_default (write_serial ops) (write_serial g_ops))
    end in
  mk_syscalls g_ops (g_user_region g).

Definition mcsos_syscall_set_user_region (g : syscalls W) (region : mcsos_user_region) : syscalls W :=
  mk_syscalls (g_ops g) region.

Definition mcsos_user_check_range (g : syscalls W) (addr len : Z) : Z :=
  let r := g_user_region g in
  if len =? 0 then 1
  else if (base r =? 0) || (limit r <=? base r) then 0
  else if addr <? base r then 0
  else if limit r <? addr then 0
  else
    let last := (addr ⊕ len) ⊖ 1 in
    if last <? addr then 0
    else if limit r <=? last then 0
    else 1.

Definition copy_from_step (dst src len : Z) (s : mem * Z) : outcome (mem * Z + mem) :=
  let '(m, i) := s in
  if i <? len then
    b ← load8 m (src + i);
    m ← store8 m (dst + i) b;
    Ret (inl (m, i + 1))
  else Ret (inr m).

Definition mcsos_copy_from_user (g : syscalls W) (m : mem) (dst src len : Z) : outcome (Z * mem) :=
  if len =? 0 then Ret (MCSOS_OK, m)
  else if (dst =? 0) || (src =? 0) then Ret (MCSOS_EINVAL, m)
  else if mcsos_user_check_range g src len =? 0 then Ret (MCSOS_EFAULT, m)
  else
    m ← loop (S (Z.to_nat len)) (copy_from_step dst src len) (m, 0);
    Ret (MCSOS_OK, m).

(** [syscall_fn_t]: the handlers of the table. *)
Definition syscall_fn : Type :=
  syscalls W → Z → Z → Z → Z → Z → Z → world W → outcome (Z * world W).

Definition sys_ping : syscall_fn := λ g a0 a1 a2 a3 a4 a5 w, Ret (0x2605020A, w).

Definition sys_get_ticks : syscall_fn := λ g a0 a1 a2 a3 a4 a5 w,
  match get_ticks (g_ops g) with
  | None => Ret (MCSOS_EBUSY, w)
  | Some f => ' (t, w) ← f w; Ret (i64 t, w)
  end.

Definition sys_write_serial : syscall_fn := λ g ptr len a2 a3 a4 a5 w,
  if ptr =? 0 then Ret (MCSOS_EINVAL, w)
  else if 4096 <? len then Ret (MCSOS_EINVAL, w)
  else if mcsos_user_check_range g ptr len =? 0 then Ret (MCSOS_EFAULT, w)
  else match write_serial (g_ops g) with
       | None => UB
       | Some f => f ptr len w
       end.

Definition sys_yield : syscall_fn := λ g a0 a1 a2 a3 a4 a5 w,
  match yield_current (g_ops g) with
  | None => Ret (MCSOS_EBUSY, w)
  | Some f => w ← f w; Ret (MCSOS_OK, w)
  end.

Definition sys_exit_thread : syscall_fn := λ g code a1 a2 a3 a4 a5 w,
  match exit_current (g_ops g) with
  | None => Ret (MCSOS_EBUSY, w)
  | Some f => w ← f (i32 code) w; Ret (MCSOS_OK, w)
  end.

Definition g_table : list (option syscall_fn) :=
  [Some sys_ping; Some sys_get_ticks; Some sys_write_serial; Some sys_yield; Some sys_exit_thread].

Definition mcsos_syscall_dispatch (g : syscalls W) (nr arg0 arg1 arg2 arg3 arg4 arg5 : Z) (w : world W)
  : outcome (Z * world W) :=
  if MCSOS_SYS_MAX <=? nr then Ret (MCSOS_ENOSYS, w)
  else
    fn ← rd g_table nr;
    match fn with
    | None => Ret (MCSOS_ENOSYS, w)
    | Some fn => fn g arg0 arg1 arg2 arg3 arg4 arg5 w
    end.

(** [struct mcsos_syscall_frame]: eight 64-bit fields, [nr] at offset 0,
    [arg0 .. arg5] at 8 .. 48, [ret] at 56. *)
Definition mcsos_syscall_dispatch_frame (g : syscalls W) (frame : Z) (w : world W) : outcome (world W) :=
  if frame =? 0 then Ret w
  else
    let m := w.1 in
    nr ← load64 m frame;
    arg0 ← load64 m (frame + 8);
    arg1 ← load64 m (frame + 16);
    arg2 ← load64 m (frame + 24);
    arg3 ← load64 m (frame + 32);
    arg4 ← load64 m (frame + 40);
    arg5 ← load64 m (frame + 48);
    ' (ret, w) ← mcsos_syscall_dispatch g nr arg0 arg1 arg2 arg3 arg4 arg5 w;
    m ← store64 w.1 (frame + 56) (u64 ret);
    Ret (m, w.2).

End syscall_c.

(** ** The interrupt stub *)

(** From the entry of [x86_64_syscall_int80_stub] to its [iretq]. *)
Definition x86_64_syscall_int80_stub {W} (c : regs) (g : syscalls W) (r : regs) (w : world W)
  : outcome (regs * world W) :=
  let r := set_rsp r (rsp r ⊖ 64) in
  let m := w.1 in
  m ← store64 m (rsp r) (rax r);
  m ← store64 m (rsp r + 8) (rdi r);
  m ← store64 m (rsp r + 16) (rsi r);
  m ← store64 m (rsp r + 24) (rdx r);
  m ← store64 m (rsp r + 32) (r10 r);
  m ← store64 m (rsp r + 40) (r8 r);
  m ← store64 m (rsp r + 48) (r9 r);
  m ← store64 m (rsp r + 56) 0;
  let r := set_rdi r (rsp r) in
  w ← mcsos_syscall_dispatch_frame g (rdi r) (m, w.2);
  let r := after_call c r in
  ret ← load64 w.1 (rsp r + 56);
  let r := set_rax r ret in
  let r := set_rsp r (rsp r ⊕ 64) in
  Ret (r, w).
