(* ===== verification/SyscallTheorems.v ===== *)
(** * System calls: theorems

    The user-range check against the plain statement it implements, every
    branch of the dispatcher, the user copy, and the safety of the [int 0x80]
    path: whatever the user registers hold, the stub comes back, provided the
    callbacks behave on validated arguments ([SyscallBackend]) and the kernel
    stack is there ([KernelStack]). *)

From S2P Require Import Prelude Mem Lib Machine Syscall.

(** ** The promise of the range check *)

(** The [len] bytes at [addr] lie in a region whose base is not null; the sum
    is taken in the integers, so a range that wraps around is not inside. *)
Definition user_range (r : mcsos_user_region) (addr len : Z) : Prop :=
  len = 0 ∨ (base r ≠ 0 ∧ base r ≤ addr ∧ addr + len ≤ limit r).

#[global] Instance user_range_dec r addr len : Decision (user_range r addr len).
Proof. unfold user_range. apply _. Defined.

(** The fields of the region are machine words. *)
Definition user_region_ok (r : mcsos_user_region) : Prop := in64 (base r) ∧ in64 (limit r).

Lemma check_range_spec {W} (g : syscalls W) addr len :
  user_region_ok (g_user_region g) → in64 addr → in64 len →
  mcsos_user_check_range g addr len = if decide (user_range (g_user_region g) addr len) then 1 else 0.
Proof.
  intros [Hb Hl] Ha Hn. unfold mcsos_user_check_range, user_range.
  destruct (Z.eqb_spec len 0); [rewrite decide_True by auto; done|].
  rewrite sub64_add64.
  assert (u64 (addr + len - 1) = addr + len - 1 ∨
          2 ^ 64 ≤ addr + len - 1 ∧ u64 (addr + len - 1) = addr + len - 1 - 2 ^ 64)
    as Hlast by (unfold u64; mlia).
  unfold in64 in *. generalize dependent (u64 (addr + len - 1)). intros last Hlast.
  destruct (Z.eqb_spec (base (g_user_region g)) 0),
    (Z.leb_spec (limit (g_user_region g)) (base (g_user_region g))),
    (Z.ltb_spec addr (base (g_user_region g))), (Z.ltb_spec (limit (g_user_region g)) addr),
    (Z.ltb_spec last addr), (Z.leb_spec (limit (g_user_region g)) last), (decide _);
    simpl; try done; exfalso; lia.
Qed.

(** ** The promises of the callbacks and of the kernel stack *)

(** Installed callbacks keep [I] when they are called the way the layer calls
    them: [write_serial] only on a checked buffer of at most 4096 bytes. *)
Class SyscallBackend {W} (g : syscalls W) (I : world W → Prop) : Prop := {
  backend_ticks : ∀ f w, get_ticks (g_ops g) = Some f → I w →
    ∃ t w', f w = Ret (t, w') ∧ I w';
  backend_yield : ∀ f w, yield_current (g_ops g) = Some f → I w → ∃ w', f w = Ret w' ∧ I w';
  backend_exit : ∀ f w code, exit_current (g_ops g) = Some f → I w →
    - 2 ^ 31 ≤ code < 2 ^ 31 → ∃ w', f code w = Ret w' ∧ I w';
  backend_write : ∃ f, write_serial (g_ops g) = Some f ∧
    ∀ w buf len, I w → buf ≠ 0 → in64 buf → 0 ≤ len ≤ 4096 → user_range (g_user_region g) buf len →
    ∃ r w', f buf len w = Ret (r, w') ∧ - 2 ^ 63 ≤ r < 2 ^ 63 ∧ I w';
}.

(** The 64 bytes below the stack pointer [sp] are kernel stack: mapped in every
    state of [I], and not read by [I]. *)
Class KernelStack {W} (sp : Z) (I : world W → Prop) : Prop := {
  stack_range : 64 < sp < 2 ^ 64;
  stack_mapped : ∀ w, I w → mem_ok w.1 ∧ mapped w.1 (sp - 64) 64;
  stack_frame : ∀ m m' v, I (m, v) → wrote (sp - 64) 64 m m' → I (m', v);
}.

(** ** Integers *)

Lemma i64_range x : - 2 ^ 63 ≤ i64 x < 2 ^ 63.
Proof. unfold i64, to_signed. pose proof (Z.mod_pos_bound x (2 ^ 64)). if_split; lia. Qed.

Lemma i32_range x : - 2 ^ 31 ≤ i32 x < 2 ^ 31.
Proof. unfold i32, to_signed. pose proof (Z.mod_pos_bound x (2 ^ 32)). if_split; lia. Qed.

Lemma i64_u64 r : - 2 ^ 63 ≤ r < 2 ^ 63 → i64 (u64 r) = r.
Proof.
  intros Hr. unfold i64, to_signed, u64. rewrite Z.mod_mod by lia.
  destruct (Z.ltb_spec (r mod 2 ^ 64) (2 ^ (64 - 1))); mlia.
Qed.

(** ** The dispatcher *)

Section dispatch.
Context {W : Type} (g : syscalls W) (a0 a1 a2 a3 a4 a5 : Z) (w : world W).

Lemma dispatch_entry nr (fn : syscall_fn) :
  0 ≤ nr < 5 → g_table !! Z.to_nat nr = Some (Some fn) →
  mcsos_syscall_dispatch g nr a0 a1 a2 a3 a4 a5 w = fn g a0 a1 a2 a3 a4 a5 w.
Proof.
  intros Hnr Hf. unfold mcsos_syscall_dispatch, MCSOS_SYS_MAX. if_split; [lia|].
  by rewrite (rd_Ret _ _ _ (proj1 Hnr) Hf).
Qed.

Lemma dispatch_enosys nr :
  5 ≤ nr → mcsos_syscall_dispatch g nr a0 a1 a2 a3 a4 a5 w = Ret (MCSOS_ENOSYS, w).
Proof. intros Hnr. unfold mcsos_syscall_dispatch, MCSOS_SYS_MAX. if_split; [done|lia]. Qed.

Lemma nr_cases nr : 0 ≤ nr → 5 ≤ nr ∨ nr = 0 ∨ nr = 1 ∨ nr = 2 ∨ nr = 3 ∨ nr = 4.
Proof. lia. Qed.

Lemma write_serial_eq :
  user_region_ok (g_user_region g) → in64 a0 → in64 a1 →
  sys_write_serial g a0 a1 a2 a3 a4 a5 w =
    if decide (a0 = 0 ∨ 4096 < a1) then Ret (MCSOS_EINVAL, w)
    else if decide (user_range (g_user_region g) a0 a1)
         then match write_serial (g_ops g) with Some f => f a0 a1 w | None => UB end
         else Ret (MCSOS_EFAULT, w).
Proof.
  intros. unfold sys_write_serial. rewrite check_range_spec by done.
  destruct (Z.eqb_spec a0 0), (Z.ltb_spec 4096 a1), (decide (a0 = 0 ∨ 4096 < a1)); try done; try lia.
  by destruct (decide _).
Qed.

(** With a well-behaved backend every system call returns. *)
Lemma dispatch_safe (I : world W → Prop) `{!SyscallBackend g I} nr :
  user_region_ok (g_user_region g) → 0 ≤ nr → in64 a0 → in64 a1 → I w →
  ∃ r w', mcsos_syscall_dispatch g nr a0 a1 a2 a3 a4 a5 w = Ret (r, w') ∧
    - 2 ^ 63 ≤ r < 2 ^ 63 ∧ I w'.
Proof.
  intros Hr Hnr H0 H1 HI. destruct (nr_cases nr Hnr) as [?|[->|[->|[->|[->| ->]]]]].
  { rewrite dispatch_enosys by done. by exists MCSOS_ENOSYS, w. }
  all: erewrite dispatch_entry by (lia || reflexivity).
  - by exists 0x2605020A, w.
  - unfold sys_get_ticks. destruct (get_ticks (g_ops g)) as [f|] eqn:E; [|by exists MCSOS_EBUSY, w].
    destruct (backend_ticks f w E HI) as (t & w' & -> & HI'). exists (i64 t), w'.
    split; [done|]. split; [apply i64_range|done].
  - rewrite write_serial_eq by done. case_decide as HE; [by exists MCSOS_EINVAL, w|].
    case_decide; [|by exists MCSOS_EFAULT, w].
    destruct backend_write as (f & -> & Hf). apply Hf; [done|tauto|done|unfold in64 in *; lia|done].
  - unfold sys_yield. destruct (yield_current (g_ops g)) as [f|] eqn:E; [|by exists MCSOS_EBUSY, w].
    destruct (backend_yield f w E HI) as (w' & -> & HI'). by exists MCSOS_OK, w'.
  - unfold sys_exit_thread. destruct (exit_current (g_ops g)) as [f|] eqn:E; [|by exists MCSOS_EBUSY, w].
    destruct (backend_exit f w (i32 a0) E HI (i32_range _)) as (w' & -> & HI'). by exists MCSOS_OK, w'.
Qed.
End dispatch.

(** ** The user copy *)

Lemma copy_from_loop m dst src len :
  mem_ok m → mapped m src len → mapped m dst len → 0 ≤ len → copy_up_safe dst src len →
  ∃ m', loop (S (Z.to_nat len)) (copy_from_step dst src len) (m, 0) = Ret m' ∧
    copied m m' dst src 0 len.
Proof.
  intros Hok Hs Hd Hn Hsafe.
  apply (loop_rule (copy_from_step dst src len)
    (λ '(m', i), 0 ≤ i ≤ len ∧ copied m m' dst src 0 i)
    (λ m', copied m m' dst src 0 len) (λ '(_, i), Z.to_nat (len - i))).
  - intros [m' i] [Hi HC]. unfold copy_from_step. if_split; last first.
    { exists (inr m'). split; [done|]. by replace len with i by lia. }
    destruct (Hs (src + i)) as [b Hb]; [lia|].
    destruct (copied_byte m m' dst src 0 i i b) as (-> & m'' & HS & HC' & _);
      [done|done|lia|destruct Hsafe; lia|lia|done|apply Hd; lia|].
    simpl. rewrite HS. simpl. eexists. split; [done|]. split; [|lia]. split; [lia|auto].
  - split; [lia|]. apply copied_nil.
  - lia.
Qed.

(** ** The stub *)

(** Consecutive 64-bit stores in one frame: the next store succeeds, and the
    words already written keep their values. *)
Lemma frame_store sp m m1 off v :
  mapped m sp 64 → wrote sp 64 m m1 → 0 ≤ off → off + 8 ≤ 64 → in64 v →
  ∃ m2, store64 m1 (sp + off) v = Ret m2 ∧ wrote sp 64 m m2 ∧ load64 m2 (sp + off) = Ret v ∧
    ∀ o x, o + 8 ≤ off ∨ off + 8 ≤ o → load64 m1 (sp + o) = Ret x → load64 m2 (sp + o) = Ret x.
Proof.
  intros Hm HW ? ? Hv.
  destruct (store64_wrote m1 (sp + off) v) as (m2 & HS & HW2 & HL);
    [apply HW; eapply mapped_sub; [exact Hm|lia..]|done|].
  exists m2. split_and!; [done| |done|].
  - eapply wrote_trans; [exact HW|]. eapply wrote_weaken; [exact HW2|lia..].
  - intros o x Ho Hx. rewrite (load64_outside _ _ _ _ _ HW2) by lia. done.
Qed.

(** The registers are machine words. *)
Definition regs_ok (r : regs) : Prop :=
  in64 (rax r) ∧ in64 (rdi r) ∧ in64 (rsi r) ∧ in64 (rdx r) ∧ in64 (r10 r) ∧ in64 (r8 r) ∧ in64 (r9 r).

(** Perform the next store of the frame and carry the words written so far. *)
Ltac next_store Hm HW off v Hv :=
  let m2 := fresh "m" in let HS := fresh "HS" in let HW2 := fresh "HW" in
  let HL := fresh "HL" in let HK := fresh "HK" in
  destruct (frame_store _ _ _ off v Hm HW ltac:(lia) ltac:(lia) Hv) as (m2 & HS & HW2 & HL & HK);
  rewrite ?Z.add_0_r in HS; rewrite HS; cbn [obind];
  repeat match goal with
  | H : load64 _ (_ + ?o) = Ret _ |- _ =>
      lazymatch type of H with load64 m2 _ = _ => fail | _ => apply (HK o _ ltac:(lia)) in H end
  end; clear HK HS HW; rename HW2 into HW.

Lemma int80_enters {W} (c : regs) (g : syscalls W) (r : regs) (w : world W) :
  mapped w.1 (rsp r - 64) 64 → 64 < rsp r < 2 ^ 64 → regs_ok r →
  ∃ m1, wrote (rsp r - 64) 64 w.1 m1 ∧
    x86_64_syscall_int80_stub c g r w =
    (' (ret, w') ← mcsos_syscall_dispatch g (rax r) (rdi r) (rsi r) (rdx r) (r10 r) (r8 r) (r9 r) (m1, w.2);
     m ← store64 w'.1 (rsp r - 64 + 56) (u64 ret);
     v ← load64 m (rsp r - 64 + 56);
     Ret (set_rax (after_call c r) v, (m, w'.2))).
Proof.
  intros Hm Hsp (H0 & H1 & H2 & H3 & H4 & H5 & H6).
  unfold x86_64_syscall_int80_stub. cbn [set_rsp set_rdi rsp rax rdi rsi rdx r10 r8 r9].
  rewrite (sub64_small (rsp r) 64) by (unfold in64; lia).
  pose proof (wrote_refl (rsp r - 64) 64 w.1) as HW.
  next_store Hm HW 0 (rax r) H0. next_store Hm HW 8 (rdi r) H1. next_store Hm HW 16 (rsi r) H2.
  next_store Hm HW 24 (rdx r) H3. next_store Hm HW 32 (r10 r) H4. next_store Hm HW 40 (r8 r) H5.
  next_store Hm HW 48 (r9 r) H6.
  assert (H7 : in64 0) by (unfold in64; lia). next_store Hm HW 56 0 H7.
  eexists. split; [exact HW|]. unfold mcsos_syscall_dispatch_frame. rewrite Z.add_0_r in HL.
  destruct (Z.eqb_spec (rsp r - 64) 0); [lia|]. cbn [fst snd].
  rewrite HL, HL0, HL1, HL2, HL3, HL4, HL5. cbn [obind].
  destruct (mcsos_syscall_dispatch _ _ _ _ _ _ _ _ _) as [[ret w']| |]; cbn [obind]; [|done..].
  destruct (store64 _ _ _) as [m8| |]; cbn [obind fst snd after_call set_rdi rsp]; [|done..].
  destruct (load64 _ _) as [v| |]; cbn [obind]; [|done..].
  do 2 f_equal. unfold set_rsp, set_rax, after_call. simpl. f_equal.
  by rewrite add64_small, Z.sub_add by (unfold in64; lia).
Qed.

(** ** A concrete backend

    The callbacks of the host test: a tick count of 12345, a yield counter, the
    last exit code, and the list of buffers written. *)
Record host : Type := mk_host { yields : Z; exit_code : Z; writes : list (Z * Z) }.

Definition host_ops : mcsos_syscall_ops host :=
  mk_ops (Some (λ w, Ret (12345, w)))
    (Some (λ w, Ret (w.1, mk_host (yields w.2 + 1) (exit_code w.2) (writes w.2))))
    (Some (λ code w, Ret (w.1, mk_host (yields w.2) code (writes w.2))))
    (Some (λ buf len w, Ret (len, (w.1, mk_host (yields w.2) (exit_code w.2) ((buf, len) :: writes w.2))))).

Definition host_syscalls : syscalls host :=
  mcsos_syscall_set_user_region (mcsos_syscall_init syscalls_boot (Some host_ops)) (mk_region 4096 4112).

(** The kernel stack is the 64 bytes below 8256. *)
Definition host_inv (w : world host) : Prop := mem_ok w.1 ∧ mapped w.1 8192 64.
Definition host_world : world host := (zero_mem 8192 64, mk_host 0 0 []).
Definition host_regs : regs := mk_regs 2 11 0 5 5 4096 22 8256 0 0 0 0 33 44 55 66.

Lemma host_region_ok : user_region_ok (g_user_region host_syscalls).
Proof. by split. Qed.

#[export] Instance host_backend : SyscallBackend host_syscalls host_inv.
Proof.
  split.
  - intros f w [= <-] HI. by exists 12345, w.
  - intros f w [= <-] HI. by eexists.
  - intros f w code [= <-] HI _. by eexists.
  - eexists. split; [done|]. intros w buf len HI _ _ Hlen _. do 2 eexists. split; [done|].
    split; [lia|done].
Qed.

#[export] Instance host_stack : KernelStack 8256 host_inv.
Proof.
  split; [lia|by intros w HI|]. intros m m' v [Hok Hm] HW. split; by apply HW.
Qed.

Lemma host_inv0 : host_inv host_world.
Proof. split; [apply zero_mem_ok|apply zero_mem_mapped]. Qed.

(** ** Theorems *)

(** C22: [mcsos_user_check_range] accepts a buffer exactly when it is empty, or
    when all of it lies in the configured user region (whose base is not null);
    in particular a buffer whose end wraps around the address space is refused,
    and no accepted buffer reaches the limit. *)
Theorem user_check_range_iff {W} (g : syscalls W) (addr len : Z) :
  user_region_ok (g_user_region g) → in64 addr → in64 len →
  (mcsos_user_check_range g addr len = 1 ↔ user_range (g_user_region g) addr len) ∧
  (mcsos_user_check_range g addr len = 0 ↔ ¬ user_range (g_user_region g) addr len).
Proof. intros. rewrite check_range_spec by done. case_decide; naive_solver. Qed.

Lemma user_check_range_iff_witness :
  mcsos_user_check_range host_syscalls 4107 5 = 1 ∧ mcsos_user_check_range host_syscalls 4108 5 = 0.
Proof.
  split.
  - apply (proj1 (user_check_range_iff host_syscalls 4107 5 host_region_ok ltac:(done) ltac:(done))).
    right. done.
  - apply (proj2 (user_check_range_iff host_syscalls 4108 5 host_region_ok ltac:(done) ltac:(done))).
    by intros [?|(? & ? & ?)].
Defined.

(** The dispatcher on every branch.  A number outside the table gives
    [ENOSYS]; [ping] gives its constant; [get_ticks], [yield] and [exit_thread]
    give [EBUSY] without their callback and else its result, the exit code
    truncated to an [int]; [write_serial] refuses a null buffer or more than
    4096 bytes with [EINVAL], a buffer outside the user region with [EFAULT],
    and else returns what the callback returns on that buffer.  No branch that
    reports an error changes the state. *)
Theorem syscall_dispatch_correct {W} (g : syscalls W) (nr a0 a1 a2 a3 a4 a5 : Z) (w : world W) :
  user_region_ok (g_user_region g) → in64 nr → in64 a0 → in64 a1 →
  let call nr := mcsos_syscall_dispatch g nr a0 a1 a2 a3 a4 a5 w in
  (MCSOS_SYS_MAX ≤ nr → call nr = Ret (MCSOS_ENOSYS, w)) ∧
  call MCSOS_SYS_PING = Ret (0x2605020A, w) ∧
  call MCSOS_SYS_GET_TICKS =
    from_option (λ f, ' (t, w') ← f w; Ret (i64 t, w')) (Ret (MCSOS_EBUSY, w)) (get_ticks (g_ops g)) ∧
  call MCSOS_SYS_YIELD =
    from_option (λ f, w' ← f w; Ret (MCSOS_OK, w')) (Ret (MCSOS_EBUSY, w)) (yield_current (g_ops g)) ∧
  call MCSOS_SYS_EXIT_THREAD =
    from_option (λ f, w' ← f (i32 a0) w; Ret (MCSOS_OK, w')) (Ret (MCSOS_EBUSY, w)) (exit_current (g_ops g)) ∧
  (a0 = 0 ∨ 4096 < a1 → call MCSOS_SYS_WRITE_SERIAL = Ret (MCSOS_EINVAL, w)) ∧
  (a0 ≠ 0 → a1 ≤ 4096 → ¬ user_range (g_user_region g) a0 a1 →
     call MCSOS_SYS_WRITE_SERIAL = Ret (MCSOS_EFAULT, w)) ∧
  (∀ f, a0 ≠ 0 → a1 ≤ 4096 → user_range (g_user_region g) a0 a1 →
     write_serial (g_ops g) = Some f → call MCSOS_SYS_WRITE_SERIAL = f a0 a1 w).
Proof.
  intros Hr Hnr H0 H1 call.
  pose proof (dispatch_entry g a0 a1 a2 a3 a4 a5 w : ∀ nr fn, _ → _ → call nr = _) as Hcall.
  rewrite (Hcall MCSOS_SYS_WRITE_SERIAL sys_write_serial), write_serial_eq by done.
  rewrite (Hcall MCSOS_SYS_PING sys_ping), (Hcall MCSOS_SYS_GET_TICKS sys_get_ticks),
    (Hcall MCSOS_SYS_YIELD sys_yield), (Hcall MCSOS_SYS_EXIT_THREAD sys_exit_thread) by done.
  split_and!.
  - apply dispatch_enosys.
  - done.
  - unfold sys_get_ticks. by destruct (get_ticks _).
  - unfold sys_yield. by destruct (yield_current _).
  - unfold sys_exit_thread. by destruct (exit_current _).
  - intros. by rewrite decide_True.
  - intros. rewrite decide_False by lia. by rewrite decide_False.
  - intros f ? ? ? Hf. rewrite decide_False by lia. by rewrite decide_True, Hf.
Qed.

Lemma syscall_dispatch_correct_witness :
  mcsos_syscall_dispatch host_syscalls MCSOS_SYS_WRITE_SERIAL 4096 5 0 0 0 0 host_world =
    Ret (5, (host_world.1, mk_host 0 0 [(4096, 5)])).
Proof.
  destruct (syscall_dispatch_correct host_syscalls 999 4096 5 0 0 0 0 host_world host_region_ok)
    as (_ & _ & _ & _ & _ & _ & _ & H); [done..|].
  apply (H (λ buf len w, Ret (len, (w.1, mk_host (yields w.2) (exit_code w.2) ((buf, len) :: writes w.2)))));
    [done|done| |done].
  right. done.
Defined.

(** C5: The [int 0x80] path is safe for every content of the user registers:
    if the callbacks behave on checked arguments and the kernel stack is
    mapped, the stub reaches its [iretq]; the system call has run on the number
    in [rax] and the arguments in [rdi, rsi, rdx, r10, r8, r9]; [rax] holds its
    64-bit result, the stack pointer and the callee-saved registers are back,
    and apart from the call's own effect only the 64 bytes of the frame below
    the stack pointer have been written. *)
Theorem syscall_int80_safe {W} (g : syscalls W) (I : world W → Prop) (c r : regs) (w : world W) :
  SyscallBackend g I → KernelStack (rsp r) I → user_region_ok (g_user_region g) → regs_ok r → I w →
  ∃ m1 ret w1 m2 r',
    wrote (rsp r - 64) 64 w.1 m1 ∧
    mcsos_syscall_dispatch g (rax r) (rdi r) (rsi r) (rdx r) (r10 r) (r8 r) (r9 r) (m1, w.2) = Ret (ret, w1) ∧
    x86_64_syscall_int80_stub c g r w = Ret (r', (m2, w1.2)) ∧
    wrote (rsp r - 64) 64 w1.1 m2 ∧ I (m2, w1.2) ∧
    i64 (rax r') = ret ∧ rsp r' = rsp r ∧ rbx r' = rbx r ∧ rbp r' = rbp r ∧
    r12 r' = r12 r ∧ r13 r' = r13 r ∧ r14 r' = r14 r ∧ r15 r' = r15 r.
Proof.
  intros HB [Hsp Hmap Hfr] Hreg Hr HI. destruct (Hmap w HI) as [Hok Hm].
  destruct (int80_enters c g r w Hm Hsp Hr) as (m1 & HW & ->).
  assert (HI1 : I (m1, w.2)) by (destruct w; by eapply Hfr).
  destruct Hr as (H0 & H1 & H2 & _).
  destruct (dispatch_safe g (rdi r) (rsi r) (rdx r) (r10 r) (r8 r) (r9 r) (m1, w.2) I (rax r))
    as (ret & w1 & HD & Hret & HI2); [done|apply H0|done..|].
  destruct (Hmap w1 HI2) as [Hok2 Hm2].
  destruct (store64_wrote w1.1 (rsp r - 64 + 56) (u64 ret)) as (m2 & HS & HW2 & HL);
    [eapply mapped_sub; [exact Hm2|lia..]|apply u64_range|].
  assert (HW3 : wrote (rsp r - 64) 64 w1.1 m2) by (eapply wrote_weaken; [exact HW2|lia..]).
  exists m1, ret, w1, m2, (set_rax (after_call c r) (u64 ret)).
  rewrite HD. cbn [obind]. rewrite HS. cbn [obind]. rewrite HL. cbn [obind].
  split_and!; try done; [destruct w1; by eapply Hfr|by apply i64_u64].
Qed.

Lemma syscall_int80_safe_witness :
  ∃ r' w', x86_64_syscall_int80_stub host_regs host_syscalls host_regs host_world = Ret (r', w') ∧
    host_inv w' ∧ i64 (rax r') = 5 ∧ rsp r' = 8256.
Proof.
  destruct (syscall_int80_safe host_syscalls host_inv host_regs host_regs host_world
              host_backend host_stack host_region_ok)
    as (m1 & ret & w1 & m2 & r' & _ & HD & HE & _ & HI & Hret & Hsp & _);
    [by repeat split|apply host_inv0|].
  exists r', (m2, w1.2). split; [exact HE|]. split; [exact HI|]. split; [|exact Hsp].
  rewrite Hret. by injection HD.
Defined.

(** C35: [mcsos_copy_from_user] copies nothing and answers [EINVAL] for a null
    pointer and [EFAULT] for a source that is not inside the user region; for a
    mapped source inside it, it answers [OK], the destination holds the source
    bytes, and nothing else has changed.  A zero length always succeeds. *)
Theorem copy_from_user_correct {W} (g : syscalls W) (m : mem) (dst src len : Z) :
  user_region_ok (g_user_region g) → in64 dst → in64 src → in64 len → mem_ok m →
  (len = 0 → mcsos_copy_from_user g m dst src len = Ret (MCSOS_OK, m)) ∧
  (len ≠ 0 → dst = 0 ∨ src = 0 → mcsos_copy_from_user g m dst src len = Ret (MCSOS_EINVAL, m)) ∧
  (len ≠ 0 → dst ≠ 0 → src ≠ 0 → ¬ user_range (g_user_region g) src len →
     mcsos_copy_from_user g m dst src len = Ret (MCSOS_EFAULT, m)) ∧
  (len ≠ 0 → dst ≠ 0 → user_range (g_user_region g) src len →
     mapped m src len → mapped m dst len → copy_up_safe dst src len →
     ∃ m', mcsos_copy_from_user g m dst src len = Ret (MCSOS_OK, m') ∧ wrote dst len m m' ∧
       ∀ i, 0 ≤ i < len → m' !! (dst + i) = m !! (src + i)).
Proof.
  intros Hr Hd Hs Hn Hok. unfold mcsos_copy_from_user. rewrite check_range_spec by done.
  destruct (Z.eqb_spec len 0) as [|Hlen]; [split_and!; done|].
  destruct (Z.eqb_spec dst 0) as [|Hdst], (Z.eqb_spec src 0) as [Hsrc|Hsrc]; simpl.
  1-2: split_and!; done.
  - split_and!; [done..|]. intros _ _ [?|(? & ? & ?)]; [done|]. unfold user_region_ok, in64 in *. lia.
  - split_and!; [done|plia| |].
    + intros _ _ _ Hno. by rewrite decide_False.
    + intros _ _ Hin Hms Hmd Hup. rewrite decide_True by done. simpl.
      destruct (copy_from_loop m dst src len) as (m' & -> & HC); [done..|unfold in64 in Hn; lia|done|].
      exists m'. split; [done|]. split; [by apply (copied_wrote m m' dst src)|apply HC].
Qed.

Definition copy_mem : mem :=
  list_to_map [(4096, 104); (4097, 101); (4098, 108); (9000, 0); (9001, 0); (9002, 0)].

Lemma copy_from_user_correct_witness :
  ∃ m', mcsos_copy_from_user host_syscalls copy_mem 9000 4096 3 = Ret (MCSOS_OK, m') ∧
    m' !! 9002 = Some 108.
Proof.
  destruct (copy_from_user_correct host_syscalls copy_mem 9000 4096 3 host_region_ok)
    as (_ & _ & _ & H); [done..|by apply list_to_map_ok; repeat constructor|].
  destruct H as (m' & HE & _ & HC); [done|done|by right| | |by right|].
  - intros i Hi. assert (i = 4096 ∨ i = 4097 ∨ i = 4098) as Hc by lia. destruct_or! Hc; subst i; by eexists.
  - intros i Hi. assert (i = 9000 ∨ i = 9001 ∨ i = 9002) as Hc by lia. destruct_or! Hc; subst i; by eexists.
  - exists m'. split; [exact HE|]. exact (HC 2 ltac:(lia)).
Defined.
