(* ===== verification/Console.v ===== *)
(** * Serial console, log and panic

    [src/kernel/core/serial.c], [log.c] and [panic.c].  A [char *] is [None]
    for the null pointer, else the bytes before the terminator.  The polling
    loop of [serial_putc] is bounded by [SERIAL_TIMEOUT_LIMIT], which is also
    its fuel. *)

From Stdlib Require Import (notations) String.
From S2P Require Import Prelude Machine.

Definition MCSOS_NAME : option (list Z) := lit "MCSOS".
Definition MCSOS_VERSION : option (list Z) := lit "260502".
Definition MCSOS_MILESTONE : option (list Z) := lit "M3".

Definition COM1_PORT : Z := 0x3F8.
Definition SERIAL_TIMEOUT_LIMIT : Z := 100000.

Section console.
Context (dev : device).

(** ** [serial.c] *)

Definition serial_transmit_empty : M bool :=
  v ⇐ inb dev (COM1_PORT + 5);
  mret (negb (Z.land v 0x20 =? 0)).

Definition serial_init : M unit :=
  outb (COM1_PORT + 1) 0x00 ;;
  outb (COM1_PORT + 3) 0x80 ;;
  outb (COM1_PORT + 0) 0x03 ;;
  outb (COM1_PORT + 1) 0x00 ;;
  outb (COM1_PORT + 3) 0x03 ;;
  outb (COM1_PORT + 2) 0xC7 ;;
  outb (COM1_PORT + 4) 0x0B.

(** One turn of the polling loop; the result says whether the transmitter is
    empty or the loop timed out. *)
Definition wait_step (spin : Z) : M (Z + bool) :=
  e ⇐ serial_transmit_empty;
  if negb e then
    let spin := u32 (spin + 1) in
    if SERIAL_TIMEOUT_LIMIT <=? spin then mret (inr false) else mret (inl spin)
  else mret (inr true).

(** [serial_putc] after its test for a newline. *)
Definition serial_send (c : Z) : M unit :=
  ok ⇐ mloop (Z.to_nat SERIAL_TIMEOUT_LIMIT) wait_step 0;
  if ok then outb COM1_PORT (u8 c) else mret tt.

Definition serial_putc (c : Z) : M unit :=
  (if c =? 10 then serial_send 13 else mret tt) ;;
  serial_send c.

Fixpoint serial_puts (s : list Z) : M unit :=
  match s with
  | [] => mret tt
  | c :: s => if c =? 0 then mret tt else serial_putc c ;; serial_puts s
  end.

Definition serial_write (s : option (list Z)) : M unit :=
  match s with None => mret tt | Some s => serial_puts s end.

(** ** [log.c] *)

Definition log_init : M unit :=
  serial_init ;;
  mmodify (λ m, set_log_ready m 1).

(** [if (g_log_ready == 0) { serial_init(); g_log_ready = 1; }] *)
Definition log_ready : M unit :=
  m ⇐ mget;
  if g_log_ready m =? 0 then serial_init ;; mmodify (λ m, set_log_ready m 1) else mret tt.

Definition log_putc (c : Z) : M unit :=
  log_ready ;;
  serial_putc c.

Definition log_write (s : option (list Z)) : M unit :=
  log_ready ;;
  serial_write s.

Definition log_writeln (s : option (list Z)) : M unit :=
  log_write s ;;
  log_putc 10.

Definition digits : list Z := bytes "0123456789abcdef".

Definition hex_step (value shift : Z) : M (Z + unit) :=
  if 0 <=? shift then
    let nibble := u8 (Z.land (Z.shiftr value shift) 0x0F) in
    c ⇐ mlift (rd digits nibble);
    log_putc c ;;
    mret (inl (shift - 4))
  else mret (inr tt).

Definition log_hex64 (value : Z) : M unit :=
  log_write (lit "0x") ;;
  mloop 17 (hex_step value) 60.

Definition log_key_value_hex64 (key : option (list Z)) (value : Z) : M unit :=
  log_write key ;;
  log_write (lit "=") ;;
  log_hex64 value ;;
  log_putc 10.

(** ** [panic.c] *)

Definition dec_fill_step (s : Z * Z * list Z) : outcome (Z * Z * list Z + Z * list Z) :=
  let '(value, i, buf) := s in
  if negb (value =? 0) && (i <? 11) then
    buf ← wr buf i (u8 (48 + value mod 10));
    Ret (inl (value / 10, i + 1, buf))
  else Ret (inr (i, buf)).

Definition dec_emit_step (buf : list Z) (i : Z) : M (Z + unit) :=
  if negb (i =? 0) then
    c ⇐ mlift (rd buf (i - 1));
    log_putc c ;;
    mret (inl (i - 1))
  else mret (inr tt).

(** [buf] is an uninitialised array of 11 characters, read only where it was
    written; its initial content is the argument [garbage]. *)
Definition log_dec_u32 (garbage : list Z) (value : Z) : M unit :=
  if value =? 0 then log_putc 48
  else
    ibuf ⇐ mlift (loop 12 dec_fill_step (value, 0, garbage));
    mloop 12 (dec_emit_step ibuf.2) ibuf.1.

Definition kernel_panic_at {A} (garbage : list Z) (file : option (list Z)) (line : Z)
    (reason : option (list Z)) (code : Z) : M A :=
  rflags ⇐ cpu_read_rflags;
  cpu_cli ;;
  log_writeln (lit "") ;;
  log_writeln (lit "================ MCSOS KERNEL PANIC ================") ;;
  log_write (lit "system=") ;;
  log_write MCSOS_NAME ;;
  log_write (lit " version=") ;;
  log_write MCSOS_VERSION ;;
  log_write (lit " milestone=") ;;
  log_writeln MCSOS_MILESTONE ;;
  log_write (lit "reason=") ;;
  log_writeln (match reason with Some _ => reason | None => lit "<null>" end) ;;
  log_write (lit "location=") ;;
  log_write (match file with Some _ => file | None => lit "<unknown>" end) ;;
  log_write (lit ":") ;;
  log_dec_u32 garbage (u32 line) ;;
  log_putc 10 ;;
  log_key_value_hex64 (lit "panic_code") code ;;
  log_key_value_hex64 (lit "rflags_before_cli") rflags ;;
  log_writeln (lit "state=halted") ;;
  log_writeln (lit "====================================================") ;;
  cpu_halt_forever.

End console.
