(* ===== verification/ConsoleProofs.v ===== *)
(** * The console: what is sent to the serial line

    The 16550 UART's view of the port history ([uart_of]), a judgement
    [prints] for computations that emit a text, with one rule per way of
    composing them, and the rules for the functions of [Console]. *)

From Stdlib Require Import (notations) String.
From S2P Require Import Prelude Machine Console.

(** ** The serial line *)

(** The registers of the UART that decide where a byte written to the data port
    goes: with the divisor latch open it is the divisor, else it is sent. *)
Record uart : Type := mk_uart { dlab : bool; dll : Z; dlm : Z; sent : list Z }.

Definition uart_event (u : uart) (e : event) : uart :=
  match e with
  | In _ _ => u
  | Out p v =>
      if p =? COM1_PORT + 3 then mk_uart (Z.testbit v 7) (dll u) (dlm u) (sent u)
      else if p =? COM1_PORT then
        if dlab u then mk_uart true v (dlm u) (sent u)
        else mk_uart false (dll u) (dlm u) (sent u ++ [v])
      else if p =? COM1_PORT + 1 then
        if dlab u then mk_uart true (dll u) v (sent u) else u
      else u
  end.

Definition uart_of (h : history) : uart := foldr (λ e u, uart_event u e) (mk_uart false 0 0 []) h.

(** The accesses of the console stay on the ports of COM1. *)
Definition com1_event (e : event) : Prop :=
  match e with Out p _ => COM1_PORT ≤ p ≤ COM1_PORT + 5 | In p _ => p = COM1_PORT + 5 end.

(** The history after [n] polls of the line status. *)
Fixpoint polls (dev : device) (n : nat) (h : history) : history :=
  match n with
  | O => h
  | S n => let h := polls dev n h in In (COM1_PORT + 5) (u8 (dev h (COM1_PORT + 5))) :: h
  end.

Definition tx_empty (dev : device) (h : history) : bool :=
  negb (Z.land (u8 (dev h (COM1_PORT + 5))) 0x20 =? 0).

(** A transmitter that becomes empty before the kernel gives up polling. *)
Definition tx_ready (dev : device) : Prop :=
  ∀ h, ∃ n, Z.of_nat n < SERIAL_TIMEOUT_LIMIT ∧ tx_empty dev (polls dev n h) = true.

(** Once the log is initialised the divisor latch is closed. *)
Definition log_ok (m : machine) : Prop := g_log_ready m ≠ 0 → dlab (uart_of (io m)) = false.

(** [says dev s m m']: between [m] and [m'] the text [s] was sent, all of it if
    the transmitter keeps up and else a part of it, through COM1 only. *)
Record says (dev : device) (s : list Z) (m m' : machine) : Prop := {
  says_sent : ∃ s', sent (uart_of (io m')) = sent (uart_of (io m)) ++ s' ∧
    s' `sublist_of` s ∧ (tx_ready dev → s' = s);
  says_io : ∃ h, io m' = h ++ io m ∧ Forall com1_event h;
  says_log : log_ok m';
  says_statics : trap_count m' = trap_count m ∧ g_timer_ticks m' = g_timer_ticks m;
}.

(** [prints dev f oa fl s]: from every machine in order [f] ends with [oa],
    the flags mapped by [fl], and the text [s] sent. *)
Definition prints (dev : device) {A} (f : M A) (oa : option A) (fl : Z → Z) (s : list Z) : Prop :=
  ∀ m, log_ok m → ∃ m', f m = Ret (oa, m') ∧ rflags m' = fl (rflags m) ∧ says dev s m m'.

(** ** Rules *)

Lemma uart_of_cons e h : uart_of (e :: h) = uart_event (uart_of h) e.
Proof. done. Qed.

Lemma uart_polls dev n h : uart_of (polls dev n h) = uart_of h.
Proof. induction n; done. Qed.

Lemma polls_app dev n h : ∃ h', polls dev n h = h' ++ h ∧ Forall com1_event h'.
Proof.
  induction n as [|n (h' & E & Hh)]; [by exists []|]. simpl. rewrite E.
  eexists (_ :: h'). split; [done|]. by constructor.
Qed.

Section rules.
Context (dev : device).

Lemma says_refl m : log_ok m → says dev [] m m.
Proof.
  split; [|by exists []|done|done]. exists []. split; [by rewrite app_nil_r|done].
Qed.

Lemma says_trans s1 s2 m1 m2 m3 :
  says dev s1 m1 m2 → says dev s2 m2 m3 → says dev (s1 ++ s2) m1 m3.
Proof.
  intros [(s1' & E1 & HS1 & HR1) (h1 & F1 & HF1) HL1 [HT1 HG1]]
    [(s2' & E2 & HS2 & HR2) (h2 & F2 & HF2) HL2 [HT2 HG2]].
  split; [| |done|by rewrite HT2, HG2].
  - exists (s1' ++ s2'). split; [by rewrite E2, E1, (assoc_L (++))|].
    split; [by apply sublist_app|]. intros Hr. by rewrite HR1, HR2.
  - exists (h2 ++ h1). split; [by rewrite F2, F1, (assoc_L (++))|]. by apply Forall_app.
Qed.

Lemma prints_ret {A} (a : A) : prints dev (mret a) (Some a) id [].
Proof. intros m Hm. exists m. split; [done|]. split; [done|by apply says_refl]. Qed.

Lemma prints_bind {A B} (f : M A) (k : A → M B) a ob fl1 fl2 s1 s2 :
  prints dev f (Some a) fl1 s1 → prints dev (k a) ob fl2 s2 →
  prints dev (mbind f k) ob (λ z, fl2 (fl1 z)) (s1 ++ s2).
Proof.
  intros Hf Hk m Hm. destruct (Hf m Hm) as (m1 & E1 & R1 & S1).
  destruct (Hk m1 (says_log _ _ _ _ S1)) as (m2 & E2 & R2 & S2).
  exists m2. unfold mbind. rewrite E1. simpl. rewrite E2, R2, R1.
  split; [done|]. split; [done|by eapply says_trans].
Qed.

(** Run the first part of a sequence from a given machine. *)
Lemma prints_then {A B} (f : M A) (k : A → M B) a s m :
  prints dev f (Some a) id s → log_ok m →
  ∃ m1, mbind f k m = k a m1 ∧ rflags m1 = rflags m ∧ says dev s m m1.
Proof.
  intros Hf Hm. destruct (Hf m Hm) as (m1 & E & R & S). exists m1. unfold mbind. by rewrite E.
Qed.

Lemma prints_lift {A} (o : outcome A) a : o = Ret a → prints dev (mlift o) (Some a) id [].
Proof. intros -> m Hm. exists m. split; [done|]. split; [done|by apply says_refl]. Qed.

Lemma prints_text {A} (f : M A) oa fl s s' : prints dev f oa fl s → s = s' → prints dev f oa fl s'.
Proof. by intros H <-. Qed.

(** Unfold one turn of a loop that continues, or its last. *)
Lemma prints_loop_next {St R} fuel (step : St → M (St + R)) s s' orr fl1 fl2 t1 t2 :
  prints dev (step s) (Some (inl s')) fl1 t1 → prints dev (mloop fuel step s') orr fl2 t2 →
  prints dev (mloop (S fuel) step s) orr (λ z, fl2 (fl1 z)) (t1 ++ t2).
Proof.
  intros Hf Hk m Hm. destruct (Hf m Hm) as (m1 & E1 & R1 & S1).
  destruct (Hk m1 (says_log _ _ _ _ S1)) as (m2 & E2 & R2 & S2).
  exists m2. unfold mloop in *. rewrite loop_unfold, E1. simpl. rewrite E2, R2, R1.
  split; [done|]. split; [done|by eapply says_trans].
Qed.

Lemma prints_loop_last {St R} fuel (step : St → M (St + R)) s r fl t :
  prints dev (step s) (Some (inr r)) fl t → prints dev (mloop (S fuel) step s) (Some r) fl t.
Proof.
  intros Hf m Hm. destruct (Hf m Hm) as (m1 & E1 & R1 & S1).
  exists m1. unfold mloop. rewrite loop_unfold, E1. done.
Qed.

(** ** The transmitter *)

(** What the polling loop leaves behind. *)
Definition polled (m : machine) (r : option bool * machine) : Prop :=
  ∃ n ok, r = (Some ok, set_io m (polls dev n (io m))) ∧ (tx_ready dev → ok = true).

Lemma wait_step_eq spin m n :
  wait_step dev spin (set_io m (polls dev n (io m))) =
    Ret (Some (if tx_empty dev (polls dev n (io m)) then inr true
               else if SERIAL_TIMEOUT_LIMIT <=? u32 (spin + 1) then inr false else inl (u32 (spin + 1))),
         set_io m (polls dev (S n) (io m))).
Proof.
  unfold wait_step, serial_transmit_empty, mbind, inb, mret. simpl.
  unfold tx_empty. destruct (negb (Z.land _ 32 =? 0)); simpl; [done|].
  destruct (SERIAL_TIMEOUT_LIMIT <=? u32 (spin + 1)); done.
Qed.

Lemma wait_loop m :
  ∃ r, mloop (Z.to_nat SERIAL_TIMEOUT_LIMIT) (wait_step dev) 0 m = Ret r ∧ polled m r.
Proof.
  unfold mloop.
  apply (loop_rule _
    (λ '(spin, m'), ∃ n, m' = set_io m (polls dev n (io m)) ∧ spin = Z.of_nat n ∧
       0 ≤ spin < SERIAL_TIMEOUT_LIMIT ∧ ∀ j, (j < n)%nat → tx_empty dev (polls dev j (io m)) = false)
    (polled m) (λ '(spin, _), Z.to_nat (SERIAL_TIMEOUT_LIMIT - 1 - spin))).
  - intros [spin m'] (n & -> & -> & Hn & Hj). rewrite wait_step_eq. cbn [obind].
    destruct (tx_empty dev (polls dev n (io m))) eqn:E.
    { eexists. split; [done|]. by exists (S n), true. }
    assert (Hw : u32 (Z.of_nat n + 1) = Z.of_nat (S n))
      by (unfold u32; unfold SERIAL_TIMEOUT_LIMIT in *; rewrite Z.mod_small; lia).
    assert (Hj' : ∀ j, (j < S n)%nat → tx_empty dev (polls dev j (io m)) = false).
    { intros j Hlt. destruct (decide (j = n)) as [->|]; [done|]. apply Hj. lia. }
    rewrite Hw. destruct (Z.leb_spec SERIAL_TIMEOUT_LIMIT (Z.of_nat (S n))).
    + eexists. split; [done|]. exists (S n), false. split; [done|]. intros Hr.
      destruct (Hr (io m)) as (k & Hk & HE). rewrite Hj' in HE by lia. done.
    + eexists. split; [done|]. split; [|unfold SERIAL_TIMEOUT_LIMIT in *; lia].
      exists (S n). split_and!; [done|done|lia|done|done].
  - exists 0%nat. split_and!; [by destruct m|done|done|done|lia].
  - unfold SERIAL_TIMEOUT_LIMIT. lia.
Qed.

(** [emits dev f s]: with the divisor latch closed, [f] sends [s] and leaves the
    latch closed. *)
Definition latched (m : machine) : Prop := dlab (uart_of (io m)) = false.

Definition emits (f : M unit) (s : list Z) : Prop :=
  ∀ m, latched m → ∃ m', f m = Ret (Some tt, m') ∧ latched m' ∧ rflags m' = rflags m ∧
    g_log_ready m' = g_log_ready m ∧ says dev s m m'.

Lemma emits_nil : emits (mret tt) [].
Proof.
  intros m Hm. exists m. split_and!; [done..|]. apply says_refl. by intros _.
Qed.

Lemma emits_seq f g s1 s2 : emits f s1 → emits g s2 → emits (f ;; g) (s1 ++ s2).
Proof.
  intros Hf Hg m Hm. destruct (Hf m Hm) as (m1 & E1 & L1 & R1 & G1 & S1).
  destruct (Hg m1 L1) as (m2 & E2 & L2 & R2 & G2 & S2).
  exists m2. unfold mbind. rewrite E1. cbn [obind]. rewrite E2, R2, R1, G2, G1.
  split_and!; [done..|]. by eapply says_trans.
Qed.

Lemma emits_send c : emits (serial_send dev c) [u8 (u8 c)].
Proof.
  intros m Hd. unfold serial_send, mbind at 1.
  destruct (wait_loop m) as (r & -> & (n & ok & -> & Hok)). cbn [obind].
  destruct (polls_app dev n (io m)) as (h & Eh & Hh).
  assert (Hin : COM1_PORT ≤ COM1_PORT ≤ COM1_PORT + 5) by (unfold COM1_PORT; lia).
  assert (Hu : uart_of (io (set_io m (polls dev n (io m)))) = uart_of (io m)) by apply uart_polls.
  destruct ok.
  - assert (HU : uart_of (io (set_io m (Out COM1_PORT (u8 (u8 c)) :: polls dev n (io m)))) =
                 mk_uart false (dll (uart_of (io m))) (dlm (uart_of (io m))) (sent (uart_of (io m)) ++ [u8 (u8 c)])).
    { cbn [io set_io]. rewrite uart_of_cons, uart_polls. unfold uart_event. simpl. by rewrite Hd. }
    eexists. split; [done|]. split; [exact (f_equal dlab HU)|]. split; [done|]. split; [done|].
    split; [| |intros _; exact (f_equal dlab HU)|done].
    + exists [u8 (u8 c)]. split; [exact (f_equal sent HU)|done].
    + exists (Out COM1_PORT (u8 (u8 c)) :: h). split; [cbn; by rewrite Eh|]. by constructor.
  - eexists. split; [done|]. split; [by unfold latched; rewrite Hu|]. split; [done|]. split; [done|].
    split; [|by exists h|intros _; by rewrite Hu|done].
    exists []. split; [by rewrite Hu, app_nil_r|]. split; [apply sublist_nil_l|].
    intros Hr. by specialize (Hok Hr).
Qed.

(** ** Texts *)

(** A newline goes out as carriage return, line feed. *)
Definition crlf1 (c : Z) : list Z := (if c =? 10 then [13] else []) ++ [u8 c].
Definition crlf (s : list Z) : list Z := s ≫= crlf1.

(** The part of a string before a terminator inside it. *)
Fixpoint upto_nul (s : list Z) : list Z :=
  match s with [] => [] | c :: s => if c =? 0 then [] else c :: upto_nul s end.

Definition text (s : option (list Z)) : list Z := crlf (upto_nul (default [] s)).

Lemma u8_u8 c : u8 (u8 c) = u8 c.
Proof. apply Z.mod_mod. lia. Qed.

Lemma emits_putc c : emits (serial_putc dev c) (crlf1 c).
Proof.
  unfold serial_putc, crlf1. rewrite <- (u8_u8 c). apply emits_seq; [|apply emits_send].
  destruct (c =? 10); [apply emits_send|apply emits_nil].
Qed.

Lemma emits_puts s : emits (serial_puts dev s) (crlf (upto_nul s)).
Proof.
  induction s as [|c s IH]; simpl; [apply emits_nil|].
  destruct (c =? 0); [apply emits_nil|]. apply emits_seq; [apply emits_putc|done].
Qed.

Lemma emits_write s : emits (serial_write dev s) (text s).
Proof. destruct s; [apply emits_puts|apply emits_nil]. Qed.

(** ** The log *)

(** The history [serial_init] adds. *)
Definition init_events : history :=
  [Out (COM1_PORT + 4) 0x0B; Out (COM1_PORT + 2) 0xC7; Out (COM1_PORT + 3) 0x03; Out (COM1_PORT + 1) 0x00;
   Out (COM1_PORT + 0) 0x03; Out (COM1_PORT + 3) 0x80; Out (COM1_PORT + 1) 0x00].

Lemma serial_init_eq m : serial_init m = Ret (Some tt, set_io m (init_events ++ io m)).
Proof. done. Qed.

Lemma uart_init h :
  uart_of (init_events ++ h) = mk_uart false 3 0 (sent (uart_of h)).
Proof.
  unfold init_events, uart_of. cbn [app foldr]. fold (uart_of h).
  by destruct (uart_of h) as [[] ? ? ?].
Qed.

Lemma log_ready_spec m :
  log_ok m → ∃ m', log_ready m = Ret (Some tt, m') ∧ latched m' ∧ g_log_ready m' ≠ 0 ∧
    rflags m' = rflags m ∧ says dev [] m m'.
Proof.
  intros Hm. unfold log_ready, mbind, mget. cbn [obind].
  destruct (Z.eqb_spec (g_log_ready m) 0) as [E|E].
  - rewrite serial_init_eq. cbn [obind mmodify].
    pose proof (uart_init (io m)) as HU.
    eexists. split; [reflexivity|]. unfold latched. cbn [io set_log_ready set_io g_log_ready rflags].
    split_and!; [exact (f_equal dlab HU)|lia|reflexivity|].
    split; cbn [io set_log_ready set_io]; [|exists init_events|intros _; exact (f_equal dlab HU)|done].
    + exists []. split; [|done]. rewrite app_nil_r. exact (f_equal sent HU).
    + split; [done|]. unfold init_events, com1_event, COM1_PORT. repeat (constructor; [lia|]). done.
  - exists m. split_and!; [done|by apply Hm|done|done|by apply says_refl].
Qed.

Lemma prints_log f s : emits f s → prints dev (log_ready ;; f) (Some tt) id s.
Proof.
  intros Hf m Hm. destruct (log_ready_spec m Hm) as (m1 & E1 & L1 & G1 & R1 & S1).
  destruct (Hf m1 L1) as (m2 & E2 & L2 & R2 & G2 & S2).
  exists m2. unfold mbind. rewrite E1. cbn [obind]. rewrite E2.
  split; [done|]. split; [by rewrite R2, R1|]. exact (says_trans [] s m m1 m2 S1 S2).
Qed.

Lemma prints_putc c : prints dev (log_putc dev c) (Some tt) id (crlf1 c).
Proof. apply prints_log, emits_putc. Qed.

Lemma prints_write s : prints dev (log_write dev s) (Some tt) id (text s).
Proof. apply prints_log, emits_write. Qed.

Lemma prints_writeln s : prints dev (log_writeln dev s) (Some tt) id (text s ++ [13; 10]).
Proof. apply (prints_bind _ _ tt _ id id); [apply prints_write|apply prints_putc]. Qed.

(** ** Numbers *)

(** The [k] low digits of [v] in base [b], most significant first. *)
Fixpoint digs (b : Z) (k : nat) (v : Z) : list Z :=
  match k with O => [] | S k => (v / b ^ Z.of_nat k) mod b :: digs b k v end.

Definition char_of_digit (d : Z) : Z := if d <? 10 then 48 + d else 87 + d.
Definition digit_of_char (c : Z) : Z := if c <? 58 then c - 48 else c - 87.
Definition parse (b : Z) (s : list Z) : Z := fold_left (λ acc c, b * acc + digit_of_char c) s 0.

Definition hex16 (v : Z) : list Z := char_of_digit <$> digs 16 16 v.

Lemma digit_char d : 0 ≤ d < 16 → digit_of_char (char_of_digit d) = d.
Proof.
  intros Hd. unfold digit_of_char, char_of_digit.
  destruct (Z.ltb_spec d 10); if_split; lia.
Qed.

Lemma parse_digs b k v acc :
  1 < b ≤ 16 →
  fold_left (λ acc c, b * acc + digit_of_char c) (char_of_digit <$> digs b k v) acc =
    acc * b ^ Z.of_nat k + v mod b ^ Z.of_nat k.
Proof.
  intros Hb. revert acc. induction k as [|k IH]; intros acc; [simpl; rewrite Z.mod_1_r; lia|].
  simpl fmap. simpl fold_left. rewrite IH, digit_char by (pose proof (Z.mod_pos_bound (v / b ^ Z.of_nat k) b); lia).
  rewrite Nat2Z.inj_succ, Z.pow_succ_r by lia.
  pose proof (Z.pow_pos_nonneg b (Z.of_nat k) ltac:(lia) ltac:(lia)).
  rewrite (Z.mul_comm b (b ^ Z.of_nat k)), Z.rem_mul_r by lia. ring.
Qed.

Lemma prints_hex_step v k :
  in64 v →
  prints dev (hex_step dev v (4 * Z.of_nat k)) (Some (inl (4 * Z.of_nat k - 4))) id
    [char_of_digit ((v / 16 ^ Z.of_nat k) mod 16)].
Proof.
  intros Hv. unfold hex_step. destruct (Z.leb_spec 0 (4 * Z.of_nat k)); [|lia].
  assert (Hn : u8 (Z.land (Z.shiftr v (4 * Z.of_nat k)) 15) = (v / 16 ^ Z.of_nat k) mod 16).
  { change 15 with (Z.ones 4). rewrite Z.land_ones, Z.shiftr_div_pow2 by lia.
    change (2 ^ 4) with 16. rewrite Z.pow_mul_r by lia. change (2 ^ 4) with 16. unfold u8. mlia. }
  rewrite Hn. set (d := (v / 16 ^ Z.of_nat k) mod 16).
  assert (Hd : 0 ≤ d < 16) by (apply Z.mod_pos_bound; lia).
  assert (Hdig : rd digits d = Ret (char_of_digit d) ∧ crlf1 (char_of_digit d) = [char_of_digit d]).
  { assert (d = 0 ∨ d = 1 ∨ d = 2 ∨ d = 3 ∨ d = 4 ∨ d = 5 ∨ d = 6 ∨ d = 7 ∨ d = 8 ∨ d = 9 ∨ d = 10 ∨
      d = 11 ∨ d = 12 ∨ d = 13 ∨ d = 14 ∨ d = 15) as Hc by lia.
    destruct_or! Hc; rewrite Hc; done. }
  destruct Hdig as [Hrd Hcr]. rewrite <- Hcr.
  eapply prints_text; [|apply app_nil_l].
  eapply (prints_bind _ _ (char_of_digit d) _ id id); [by apply prints_lift|].
  eapply prints_text; [|apply app_nil_r].
  eapply (prints_bind _ _ tt _ id id); [apply prints_putc|apply prints_ret].
Qed.

Lemma prints_hex_loop v k :
  in64 v →
  prints dev (mloop (S k) (hex_step dev v) (4 * Z.of_nat k - 4)) (Some tt) id (char_of_digit <$> digs 16 k v).
Proof.
  intros Hv. induction k as [|k IH].
  { apply prints_loop_last. apply prints_ret. }
  replace (4 * Z.of_nat (S k) - 4) with (4 * Z.of_nat k) by lia.
  exact (prints_loop_next _ _ _ _ _ id id _ _ (prints_hex_step v k Hv) IH).
Qed.

Lemma prints_hex64 v : in64 v → prints dev (log_hex64 dev v) (Some tt) id (bytes "0x" ++ hex16 v).
Proof.
  intros Hv. eapply (prints_bind _ _ tt _ id id); [apply prints_write|].
  exact (prints_hex_loop v 16 Hv).
Qed.

Definition key_value (key : option (list Z)) (v : Z) : list Z :=
  text key ++ bytes "=0x" ++ hex16 v ++ [13; 10].

Lemma prints_key_value key v :
  in64 v → prints dev (log_key_value_hex64 dev key v) (Some tt) id (key_value key v).
Proof.
  intros Hv. apply (prints_bind _ _ tt _ id id); [apply prints_write|].
  apply (prints_bind _ _ tt _ id id (bytes "=") (bytes "0x" ++ hex16 v ++ [13; 10])); [apply prints_write|].
  rewrite (assoc_L (++)). apply (prints_bind _ _ tt _ id id); [by apply prints_hex64|apply prints_putc].
Qed.

(** ** Decimal numbers *)

(** [ds] is [v] in decimal, without leading zeros. *)
Record is_decimal (v : Z) (ds : list Z) : Prop := {
  dec_value : parse 10 ds = v;
  dec_chars : Forall (λ c, 48 ≤ c ≤ 57) ds;
  dec_length : (1 ≤ length ds ≤ 10)%nat;
  dec_no_zero : head ds = Some 48 → ds = [48];
}.

Definition dec_digit (v j : Z) : Z := 48 + (v / 10 ^ j) mod 10.

Lemma digs_length b k v : length (digs b k v) = k.
Proof. induction k; simpl; auto. Qed.

Lemma dec_fill_spec v garbage :
  length garbage = 11%nat → 0 < v < 2 ^ 32 →
  ∃ r, loop 12 dec_fill_step (v, 0, garbage) = Ret r ∧ 1 ≤ r.1 ≤ 10 ∧ 10 ^ (r.1 - 1) ≤ v < 10 ^ r.1 ∧
    ∀ j, 0 ≤ j < r.1 → r.2 !! Z.to_nat j = Some (dec_digit v j).
Proof.
  intros Hg Hv.
  apply (loop_rule dec_fill_step
    (λ '(val, i, buf), val = v / 10 ^ i ∧ 0 ≤ i ≤ 10 ∧ (i = 0 ∨ 10 ^ (i - 1) ≤ v) ∧ length buf = 11%nat ∧
       ∀ j, 0 ≤ j < i → buf !! Z.to_nat j = Some (dec_digit v j))
    (λ r, 1 ≤ r.1 ≤ 10 ∧ 10 ^ (r.1 - 1) ≤ v < 10 ^ r.1 ∧
       ∀ j, 0 ≤ j < r.1 → r.2 !! Z.to_nat j = Some (dec_digit v j))
    (λ '(_, i, _), Z.to_nat (11 - i))).
  - intros [[val i] buf] (-> & Hi & Hlow & Hlen & Hd). unfold dec_fill_step.
    pose proof (Z.pow_pos_nonneg 10 i ltac:(lia) ltac:(lia)) as Hp.
    destruct (Z.eqb_spec (v / 10 ^ i) 0) as [E|E]; cbn [negb andb].
    + eexists. split; [done|]. cbn [fst snd].
      assert (v < 10 ^ i) by (apply Z.div_small_iff in E; lia).
      destruct Hlow as [->|Hlow]; [cbn in *; lia|]. split; [|done].
      destruct (decide (i = 0)) as [->|]; [cbn in *; lia|lia].
    + assert (Hle : 10 ^ i ≤ v).
      { destruct (Z.le_gt_cases (10 ^ i) v); [done|]. rewrite Z.div_small in E by lia. done. }
      assert (Hi9 : i ≤ 9).
      { destruct (Z.le_gt_cases i 9); [done|]. replace i with 10 in Hle by lia. lia. }
      destruct (Z.ltb_spec i 11); [|lia].
      rewrite wr_Ret by lia. cbn [obind]. eexists. split; [done|]. split; [|lia].
      split_and!; [|lia|lia|right; by replace (i + 1 - 1) with i by lia|by rewrite length_insert|].
      * rewrite Z.pow_add_r, Z.div_div by lia. done.
      * intros j Hj. destruct (decide (j = i)) as [->|].
        -- rewrite list_lookup_insert_eq by lia. f_equal. unfold dec_digit, u8. mlia.
        -- rewrite list_lookup_insert_ne by lia. apply Hd. lia.
  - split_and!; [by rewrite Z.div_1_r|lia|lia|by left|done|lia].
  - lia.
Qed.

Lemma dec_digit_char v j : char_of_digit ((v / 10 ^ j) mod 10) = dec_digit v j.
Proof.
  unfold char_of_digit, dec_digit. pose proof (Z.mod_pos_bound (v / 10 ^ j) 10).
  if_split; lia.
Qed.

Lemma dec_digit_range v j : 48 ≤ dec_digit v j ≤ 57.
Proof. unfold dec_digit. pose proof (Z.mod_pos_bound (v / 10 ^ j) 10). lia. Qed.

Lemma crlf1_digit c : 48 ≤ c ≤ 57 → crlf1 c = [c].
Proof.
  intros Hc. unfold crlf1. destruct (Z.eqb_spec c 10); [lia|]. unfold u8. by rewrite Z.mod_small by lia.
Qed.

Lemma prints_dec_emit v buf k fuel :
  (∀ j, 0 ≤ j < Z.of_nat k → buf !! Z.to_nat j = Some (dec_digit v j)) → (k < fuel)%nat →
  prints dev (mloop fuel (dec_emit_step dev buf) (Z.of_nat k)) (Some tt) id (char_of_digit <$> digs 10 k v).
Proof.
  revert fuel. induction k as [|k IH]; intros fuel Hb Hf; (destruct fuel as [|fuel]; [lia|]).
  { apply prints_loop_last. apply prints_ret. }
  simpl fmap. rewrite dec_digit_char.
  apply (prints_loop_next _ _ _ (Z.of_nat k) _ id id [dec_digit v (Z.of_nat k)]);
    [|apply IH; [intros; apply Hb; lia|lia]].
  unfold dec_emit_step. destruct (Z.eqb_spec (Z.of_nat (S k)) 0); [lia|]. cbn [negb].
  replace (Z.of_nat (S k) - 1) with (Z.of_nat k) by lia.
  eapply prints_text; [|apply app_nil_l].
  apply (prints_bind _ _ (dec_digit v (Z.of_nat k)) _ id id).
  { apply prints_lift, rd_Ret; [lia|]. apply Hb. lia. }
  rewrite <- (crlf1_digit (dec_digit v (Z.of_nat k))) by apply dec_digit_range.
  eapply prints_text; [|apply app_nil_r].
  apply (prints_bind _ _ tt _ id id); [apply prints_putc|apply prints_ret].
Qed.

Lemma digs_decimal v k :
  1 ≤ Z.of_nat k ≤ 10 → 10 ^ (Z.of_nat k - 1) ≤ v < 10 ^ Z.of_nat k →
  is_decimal v (char_of_digit <$> digs 10 k v).
Proof.
  intros Hk Hv. split.
  - unfold parse. rewrite parse_digs by lia. rewrite Z.mod_small; [lia|].
    pose proof (Z.pow_pos_nonneg 10 (Z.of_nat k - 1)). lia.
  - clear. induction k; simpl; constructor; [rewrite dec_digit_char; apply dec_digit_range|done].
  - rewrite length_fmap, digs_length. lia.
  - destruct k as [|k]; [lia|]. simpl. rewrite dec_digit_char. intros [= Hz]. exfalso.
    unfold dec_digit in Hz. replace (Z.of_nat (S k) - 1) with (Z.of_nat k) in Hv by lia.
    rewrite Nat2Z.inj_succ, Z.pow_succ_r in Hv by lia.
    pose proof (Z.pow_pos_nonneg 10 (Z.of_nat k) ltac:(lia) ltac:(lia)).
    assert (1 ≤ v / 10 ^ Z.of_nat k < 10)
      by (split; [apply Z.div_le_lower_bound; lia|apply Z.div_lt_upper_bound; lia]).
    rewrite Z.mod_small in Hz by lia. lia.
Qed.

Lemma prints_dec v garbage :
  length garbage = 11%nat → 0 ≤ v < 2 ^ 32 →
  ∃ ds, is_decimal v ds ∧ prints dev (log_dec_u32 dev garbage v) (Some tt) id ds.
Proof.
  intros Hg Hv. unfold log_dec_u32. destruct (Z.eqb_spec v 0) as [->|].
  { exists [48]. split; [|apply prints_putc]. split; [done|by repeat constructor|simpl; lia|done]. }
  destruct (dec_fill_spec v garbage) as ([i buf] & -> & Hi & Hpow & Hb); [done|lia|]. cbn [fst snd] in *.
  exists (char_of_digit <$> digs 10 (Z.to_nat i) v). split.
  - apply digs_decimal; rewrite Z2Nat.id by lia; done.
  - eapply prints_text; [|apply app_nil_l].
    apply (prints_bind _ _ (i, buf) _ id id); [by apply prints_lift|]. cbn [fst snd].
    rewrite <- (Z2Nat.id i) at 1 by lia. apply prints_dec_emit; [|lia].
    intros j Hj. apply Hb. lia.
Qed.

(** ** Halting *)

(** The flags with interrupts disabled. *)
Definition cli_flags (z : Z) : Z := Z.land z (not64 (Z.shiftl 1 9)).

Lemma prints_cli : prints dev cpu_cli (Some tt) cli_flags [].
Proof.
  intros m Hm. exists (set_rflags m (cli_flags (rflags m))). split; [done|]. split; [done|].
  split; [exists []; by rewrite app_nil_r|by exists []|exact Hm|done].
Qed.

Lemma prints_halt {A} : prints dev (@cpu_halt_forever A) None cli_flags [].
Proof.
  intros m Hm. destruct (prints_cli m Hm) as (m' & E & R & S). exists m'. split; [|done].
  unfold cpu_halt_forever, mbind. by rewrite E.
Qed.

Lemma testbit_if_cli z : Z.testbit (cli_flags z) 9 = false.
Proof.
  unfold cli_flags. rewrite Z.land_spec, testbit_not64 by lia.
  change (Z.testbit (Z.shiftl 1 9) 9) with true. apply andb_false_r.
Qed.

Lemma cli_flags_idemp z : in64 z → cli_flags (cli_flags z) = cli_flags z.
Proof.
  intros Hz. unfold cli_flags. by rewrite <- Z.land_assoc, Z.land_diag.
Qed.

(** Sequences: apply the rule of each part. *)
Ltac prints_step :=
  lazymatch goal with
  | |- prints _ (mbind (log_writeln _ _) _) _ _ _ => eapply prints_bind; [apply prints_writeln|]
  | |- prints _ (mbind (log_write _ _) _) _ _ _ => eapply prints_bind; [apply prints_write|]
  | |- prints _ (mbind (log_putc _ _) _) _ _ _ => eapply prints_bind; [apply prints_putc|]
  | |- prints _ (mbind (log_key_value_hex64 _ _ _) _) _ _ _ =>
      eapply prints_bind; [apply prints_key_value; assumption|]
  | |- prints _ (mbind cpu_cli _) _ _ _ => eapply prints_bind; [apply prints_cli|]
  | |- prints _ cpu_halt_forever _ _ _ => apply prints_halt
  | |- prints _ (mret _) _ _ _ => apply prints_ret
  | |- prints _ (log_writeln _ _) _ _ _ => apply prints_writeln
  end; cbn beta.

Definition or_else (s : option (list Z)) (d : option (list Z)) : option (list Z) :=
  match s with Some _ => s | None => d end.

(** The report of a panic; [ds] is the line number in decimal. *)
Definition panic_text (file : option (list Z)) (ds : list Z) (reason : option (list Z)) (code flags : Z) : list Z :=
  let nl := [13; 10] in
  nl ++ bytes "================ MCSOS KERNEL PANIC ================" ++ nl ++
  bytes "system=MCSOS version=260502 milestone=M3" ++ nl ++
  bytes "reason=" ++ text (or_else reason (lit "<null>")) ++ nl ++
  bytes "location=" ++ text (or_else file (lit "<unknown>")) ++ bytes ":" ++ ds ++ nl ++
  key_value (lit "panic_code") code ++ key_value (lit "rflags_before_cli") flags ++
  bytes "state=halted" ++ nl ++ bytes "====================================================" ++ nl.

Lemma panic_spec {A} garbage file line reason code m :
  length garbage = 11%nat → in64 code → in64 (rflags m) → log_ok m →
  ∃ ds m', is_decimal (u32 line) ds ∧
    @kernel_panic_at dev A garbage file line reason code m = Ret (None, m') ∧
    rflags m' = cli_flags (rflags m) ∧
    says dev (panic_text file ds reason code (rflags m)) m m'.
Proof.
  intros Hg Hc Hr Hm.
  destruct (prints_dec (u32 line) garbage Hg) as (ds & Hds & HP); [apply Z.mod_pos_bound; lia|].
  exists ds. unfold kernel_panic_at. set (flags := rflags m) in *.
  match goal with |- context [mbind cpu_read_rflags ?k] =>
    assert (E0 : mbind cpu_read_rflags k m = k flags m) by done; rewrite E0; clear E0;
    eassert (H : prints dev (k flags) None _ _); [|destruct (H m Hm) as (m' & E & R & S)]
  end.
  { cbn beta. repeat prints_step. eapply prints_bind; [exact HP|]. repeat prints_step. }
  exists m'. split; [done|]. split; [exact E|]. split; [rewrite R; by apply cli_flags_idemp|].
  revert S. unfold panic_text, or_else. repeat rewrite <- (assoc_L (++)). exact id.
Qed.
End rules.

(** Run the first statement of the goal's sequence, which prints by [H] from a
    machine in order by [HL]; continue with the rest on the machine [m1]. *)
Ltac run_print dev H HL m1 R S :=
  match goal with
  | |- context [mbind ?f ?k ?m] => destruct (prints_then dev f k _ _ m H HL) as (m1 & -> & R & S)
  end; cbn beta.
