(* ===== verification/ConsoleTheorems.v ===== *)
(** * The console: theorems

    Output on the serial line, printed numbers, and the panic report. *)

From Stdlib Require Import (notations) String.
From S2P Require Import Prelude Machine Console ConsoleProofs.

(** ** A concrete device and machine *)

(** Every port reads as 0x60: the transmitter is always empty. *)
Definition quiet_dev : device := λ _ _, 0x60.

(** Reset: nothing accessed yet, interrupts disabled. *)
Definition reset_machine : machine := mk_machine [] 2 0 0 0.

Lemma quiet_ready : tx_ready quiet_dev.
Proof. intros h. by exists 0%nat. Qed.

Lemma reset_log_ok : log_ok reset_machine.
Proof. by intros []. Qed.

(** ** Theorems *)

(** C38: [log_init] sets the line up from any state (divisor 3, divisor latch
    closed) without sending anything, and after it [log_write] always comes
    back, whatever the serial device does: after at most 100000 polls it gives
    a byte up.  What goes out is a sublist of the string (a CR before each LF,
    up to a terminator), and all of it when the transmitter becomes empty in
    time; a null pointer prints nothing, only COM1's ports are accessed, and
    the flags are kept. *)
Theorem log_write_correct (dev : device) (s : option (list Z)) (m : machine) :
  (∃ m1, log_init m = Ret (Some tt, m1) ∧ log_ok m1 ∧ g_log_ready m1 = 1 ∧
     uart_of (io m1) = mk_uart false 3 0 (sent (uart_of (io m)))) ∧
  (log_ok m →
   ∃ m' out h, log_write dev s m = Ret (Some tt, m') ∧ log_ok m' ∧
     sent (uart_of (io m')) = sent (uart_of (io m)) ++ out ∧
     out `sublist_of` text s ∧ (tx_ready dev → out = text s) ∧
     io m' = h ++ io m ∧ Forall com1_event h ∧ rflags m' = rflags m).
Proof.
  split.
  - pose proof (uart_init (io m)) as HU.
    exists (set_log_ready (set_io m (init_events ++ io m)) 1).
    split; [reflexivity|]. split; [intros _; exact (f_equal dlab HU)|]. split; [reflexivity|exact HU].
  - intros Hm. destruct (prints_write dev s m Hm) as (m' & E & R & [(o & So & Sl & Hr) (h & Eh & Fh) Lg _]).
    exists m', o, h. split_and!; done.
Qed.

Lemma log_write_correct_witness :
  ∃ m', log_write quiet_dev (lit "ok") reset_machine = Ret (Some tt, m') ∧
    sent (uart_of (io m')) = bytes "ok".
Proof.
  destruct (proj2 (log_write_correct quiet_dev (lit "ok") reset_machine) reset_log_ok)
    as (m' & out & h & E & _ & S & _ & R & _).
  exists m'. split; [exact E|]. rewrite S. apply R, quiet_ready.
Defined.

(** Printed numbers read back: [log_key_value_hex64] prints the key, [=0x]
    and sixteen hexadecimal digits that denote the value; [log_dec_u32] prints
    its value in decimal, at most ten digits without leading zeros, whatever
    its buffer of eleven characters held before. *)
Theorem log_numbers_roundtrip (dev : device) (key : option (list Z)) (value line : Z)
    (garbage : list Z) (m : machine) :
  log_ok m → tx_ready dev → in64 value → 0 ≤ line < 2 ^ 32 → length garbage = 11%nat →
  (∃ m' ds, log_key_value_hex64 dev key value m = Ret (Some tt, m') ∧
     sent (uart_of (io m')) = sent (uart_of (io m)) ++ text key ++ bytes "=0x" ++ ds ++ [13; 10] ∧
     length ds = 16%nat ∧ parse 16 ds = value) ∧
  (∃ m' ds, log_dec_u32 dev garbage line m = Ret (Some tt, m') ∧
     sent (uart_of (io m')) = sent (uart_of (io m)) ++ ds ∧ is_decimal line ds).
Proof.
  intros Hm Hr Hv Hl Hg. split.
  - destruct (prints_key_value dev key value Hv m Hm) as (m' & E & _ & [(o & So & _ & Ho) _ _ _]).
    exists m', (hex16 value). rewrite So, (Ho Hr). split_and!; [done|done| |].
    + unfold hex16. by rewrite length_fmap, digs_length.
    + unfold parse, hex16. rewrite parse_digs by lia. rewrite Z.mod_small; [lia|].
      unfold in64 in Hv. change (16 ^ Z.of_nat 16) with (2 ^ 64). lia.
  - destruct (prints_dec dev line garbage Hg Hl) as (ds & Hds & HP).
    destruct (HP m Hm) as (m' & E & _ & [(o & So & _ & Ho) _ _ _]).
    exists m', ds. by rewrite So, (Ho Hr).
Qed.

Lemma log_numbers_roundtrip_witness :
  ∃ m' ds, log_dec_u32 quiet_dev (repeat 0 11) 260502 reset_machine = Ret (Some tt, m') ∧
    sent (uart_of (io m')) = sent (uart_of (io reset_machine)) ++ ds ∧ is_decimal 260502 ds.
Proof.
  refine (proj2 (log_numbers_roundtrip quiet_dev None 0xbeef 260502 (repeat 0 11) reset_machine _ _ _ _ _)).
  - apply reset_log_ok.
  - apply quiet_ready.
  - done.
  - lia.
  - done.
Defined.

(** C37: [kernel_panic_at] never returns to its caller: it ends in the halt loop
    with interrupts disabled, from every machine and for every device, having
    touched no port but COM1's.  If the transmitter keeps up, the line carries
    the whole report: the reason, the location with its line number in decimal,
    the panic code and the flags from before interrupts were disabled. *)
Theorem kernel_panic_correct {A} (dev : device) (garbage : list Z) (file : option (list Z)) (line : Z)
    (reason : option (list Z)) (code : Z) (m : machine) :
  length garbage = 11%nat → in64 code → in64 (rflags m) → log_ok m →
  ∃ m' h ds, @kernel_panic_at dev A garbage file line reason code m = Ret (None, m') ∧
    Z.testbit (rflags m') 9 = false ∧ io m' = h ++ io m ∧ Forall com1_event h ∧
    is_decimal (u32 line) ds ∧
    (tx_ready dev → sent (uart_of (io m')) =
       sent (uart_of (io m)) ++ panic_text file ds reason code (rflags m)).
Proof.
  intros Hg Hc Hf Hm.
  destruct (@panic_spec dev A garbage file line reason code m) as (ds & m' & Hds & E & R & HS); [done..|].
  destruct HS as [(o & So & _ & Ho) (h & Eh & Fh) _ _].
  exists m', h, ds. split_and!; [done|rewrite R; apply testbit_if_cli|done|done|done|].
  intros Hr. by rewrite So, (Ho Hr).
Qed.

Lemma kernel_panic_correct_witness :
  ∃ m' ds, @kernel_panic_at quiet_dev unit (repeat 0 11) None 42 (lit "x") 7 reset_machine = Ret (None, m') ∧
    Z.testbit (rflags m') 9 = false ∧ is_decimal 42 ds ∧
    sent (uart_of (io m')) = panic_text None ds (lit "x") 7 2.
Proof.
  destruct (@kernel_panic_correct unit quiet_dev (repeat 0 11) None 42 (lit "x") 7 reset_machine)
    as (m' & h & ds & E & HI & _ & _ & Hds & HT); [done|done|done|apply reset_log_ok|].
  exists m', ds. split; [exact E|]. split; [exact HI|]. split; [exact Hds|]. exact (HT quiet_ready).
Defined.
