(* ===== verification/Interrupts.v ===== *)
(** * Interrupts

    The descriptor table ([src/kernel/arch/x86_64/idt.c]), the exception stubs
    ([isr.S]), the trap dispatcher ([src/kernel/core/trap.c]), the 8259
    interrupt controllers ([pic.c]) and the 8253 timer ([pit.c]).

    The addresses the linker assigns (the 32 exception stubs, the system-call
    stub, the table itself) are parameters. *)

From Stdlib Require Import (notations) String.
From S2P Require Import Prelude Mem Machine Console.

(** ** [pic.c] *)

Definition PIC_MASTER_OFFSET : Z := 0x20.
Definition PIC_SLAVE_OFFSET : Z := 0x28.
Definition PIC1_COMMAND : Z := 0x20.
Definition PIC1_DATA : Z := 0x21.
Definition PIC2_COMMAND : Z := 0xA0.
Definition PIC2_DATA : Z := 0xA1.
Definition PIC_EOI : Z := 0x20.

Section pic.
Context (dev : device).

Definition pic_remap (master_offset slave_offset : Z) : M unit :=
  master_mask ⇐ inb dev PIC1_DATA;
  slave_mask ⇐ inb dev PIC2_DATA;
  outb PIC1_COMMAND 0x11 ;; io_wait ;;
  outb PIC2_COMMAND 0x11 ;; io_wait ;;
  outb PIC1_DATA master_offset ;; io_wait ;;
  outb PIC2_DATA slave_offset ;; io_wait ;;
  outb PIC1_DATA 0x04 ;; io_wait ;;
  outb PIC2_DATA 0x02 ;; io_wait ;;
  outb PIC1_DATA 0x01 ;; io_wait ;;
  outb PIC2_DATA 0x01 ;; io_wait ;;
  outb PIC1_DATA master_mask ;;
  outb PIC2_DATA slave_mask.

Definition pic_mask_all : M unit :=
  outb PIC1_DATA 0xFF ;;
  outb PIC2_DATA 0xFF.

Definition pic_unmask_irq (irq : Z) : M unit :=
  let '(port, line) := if irq <? 8 then (PIC1_DATA, irq) else (PIC2_DATA, u8 (irq - 8)) in
  mask ⇐ inb dev port;
  bit ⇐ mlift (if line <? 32 then Ret (Z.shiftl 1 line) else UB);
  let mask := u8 (Z.land mask (u8 (Z.lnot bit))) in
  outb port mask.

Definition pic_send_eoi (irq : Z) : M unit :=
  (if 8 <=? irq then outb PIC2_COMMAND PIC_EOI else mret tt) ;;
  outb PIC1_COMMAND PIC_EOI.

Definition pic_read_master_mask : M Z := inb dev PIC1_DATA.
Definition pic_read_slave_mask : M Z := inb dev PIC2_DATA.
End pic.

(** ** [pit.c] *)

Definition PIT_BASE_FREQUENCY_HZ : Z := 1193182.
Definition PIT_CHANNEL0 : Z := 0x40.
Definition PIT_COMMAND : Z := 0x43.

Definition pit_configure_hz (hz : Z) : M unit :=
  if hz =? 0 then mret tt
  else
    let divisor := PIT_BASE_FREQUENCY_HZ / hz in
    outb PIT_COMMAND 0x36 ;;
    outb PIT_CHANNEL0 (u8 (Z.land divisor 0xFF)) ;;
    outb PIT_CHANNEL0 (u8 (Z.land (Z.shiftr divisor 8) 0xFF)).

Definition timer_on_irq0 : M unit :=
  mmodify (λ m, set_timer_ticks m (g_timer_ticks m ⊕ 1)).

Definition timer_ticks : M Z := m ⇐ mget; mret (g_timer_ticks m).

(** ** [idt.c] *)

Definition X86_64_IDT_VECTOR_COUNT : Z := 256.
Definition X86_64_KERNEL_CODE_SELECTOR : Z := 0x28.
Definition X86_64_IDT_GATE_INTERRUPT : Z := 0x8E.
Definition X86_64_IDT_GATE_TRAP : Z := 0x8F.

Record idt_entry : Type := mk_entry {
  offset_low : Z;
  selector : Z;
  ist : Z;
  type_attributes : Z;
  offset_mid : Z;
  offset_high : Z;
  reserved : Z;
}.
Definition sizeof_idt_entry : Z := 16.

Record idt_ptr : Type := mk_idtr { idtr_limit : Z; idtr_base : Z }.

(** The statics [idt] and [idtr], and the processor's table register. *)
Record idt_state : Type := mk_idt {
  idt : list idt_entry;
  idtr : idt_ptr;
  loaded : option idt_ptr;
}.

Definition x86_64_idt_set_gate (t : idt_state) (vector handler attributes : Z) : outcome idt_state :=
  idt ← wr (idt t) vector
          (mk_entry (u16 (Z.land handler 0xFFFF)) (u16 X86_64_KERNEL_CODE_SELECTOR) 0 attributes
             (u16 (Z.land (Z.shiftr handler 16) 0xFFFF)) (u32 (Z.land (Z.shiftr handler 32) 0xFFFFFFFF)) 0);
  Ret (mk_idt idt (idtr t) (loaded t)).

Definition x86_64_idt_base_for_test (t : idt_state) : Z := idtr_base (idtr t).
Definition x86_64_idt_limit_for_test (t : idt_state) : Z := idtr_limit (idtr t).

Definition lidt (t : idt_state) : idt_state := mk_idt (idt t) (idtr t) (Some (idtr t)).

(** First loop of [x86_64_idt_init]. *)
Definition clear_step (s : idt_state * Z) : outcome (idt_state * Z + idt_state) :=
  let '(t, i) := s in
  if i <? X86_64_IDT_VECTOR_COUNT then
    t ← x86_64_idt_set_gate t (u8 i) 0 0;
    Ret (inl (t, u16 (i + 1)))
  else Ret (inr t).

(** Second loop. *)
Definition stub_step (stubs : list Z) (s : idt_state * Z) : outcome (idt_state * Z + idt_state) :=
  let '(t, vector) := s in
  if vector <? 32 then
    let gate := if vector =? 3 then X86_64_IDT_GATE_TRAP else X86_64_IDT_GATE_INTERRUPT in
    stub ← rd stubs vector;
    t ← x86_64_idt_set_gate t vector stub gate;
    Ret (inl (t, u8 (vector + 1)))
  else Ret (inr t).

Section kernel.
Context (dev : device) (garbage : list Z).

(** [KERNEL_ASSERT] and [KERNEL_PANIC] at a line of a file. *)
Definition KERNEL_PANIC {A} (file : option (list Z)) (line : Z) (reason : option (list Z)) (code : Z) : M A :=
  kernel_panic_at dev garbage file line reason (u64 code).

Definition KERNEL_ASSERT (file : option (list Z)) (line : Z) (expr : bool) (s : option (list Z)) : M unit :=
  if negb expr then
    kernel_panic_at dev garbage file line s 0xA55E4710
  else mret tt.

Section idt_init.
Context (x86_64_exception_stubs : list Z) (x86_64_syscall_int80_stub idt_addr : Z).

Definition idt_c : option (list Z) := lit "kernel/arch/x86_64/idt.c".

Definition x86_64_idt_init (t : idt_state) : M idt_state :=
  t ⇐ mlift (loop 257 clear_step (t, 0));
  t ⇐ mlift (loop 33 (stub_step x86_64_exception_stubs) (t, 0));
  t ⇐ mlift (x86_64_idt_set_gate t 0x80 x86_64_syscall_int80_stub X86_64_IDT_GATE_INTERRUPT);
  let sizeof_idt := X86_64_IDT_VECTOR_COUNT * sizeof_idt_entry in
  let t := mk_idt (idt t) (mk_idtr (u16 (sizeof_idt - 1)) idt_addr) (loaded t) in
  KERNEL_ASSERT idt_c 63 (sizeof_idt_entry =? 16)
    (lit "assertion failed: sizeof(x86_64_idt_entry_t) == 16u") ;;
  KERNEL_ASSERT idt_c 64
    (idtr_limit (idtr t) =? u16 (X86_64_IDT_VECTOR_COUNT * sizeof_idt_entry - 1))
    (lit "assertion failed: idtr.limit == (uint16_t)((X86_64_IDT_VECTOR_COUNT * sizeof(x86_64_idt_entry_t)) - 1u)") ;;
  let t := lidt t in
  log_key_value_hex64 dev (lit "idt_base") (idtr_base (idtr t)) ;;
  log_key_value_hex64 dev (lit "idt_limit") (idtr_limit (idtr t)) ;;
  log_writeln dev (lit "[M4] IDT loaded") ;;
  mret t.
End idt_init.

(** ** [trap.c] *)

Definition exception_names : list (option (list Z)) :=
  [lit "#DE Divide Error"; lit "#DB Debug"; lit "NMI Interrupt"; lit "#BP Breakpoint"; lit "#OF Overflow";
   lit "#BR Bound Range Exceeded"; lit "#UD Invalid Opcode"; lit "#NM Device Not Available";
   lit "#DF Double Fault"; lit "Coprocessor Segment Overrun"; lit "#TS Invalid TSS";
   lit "#NP Segment Not Present"; lit "#SS Stack Segment Fault"; lit "#GP General Protection Fault";
   lit "#PF Page Fault"; lit "Reserved"; lit "#MF x87 Floating-Point Exception"; lit "#AC Alignment Check";
   lit "#MC Machine Check"; lit "#XM SIMD Floating-Point Exception"; lit "#VE Virtualization Exception";
   lit "#CP Control Protection Exception"; lit "Reserved"; lit "Reserved"; lit "Reserved"; lit "Reserved";
   lit "Reserved"; lit "Reserved"; lit "#HV Hypervisor Injection Exception"; lit "#VC VMM Communication Exception";
   lit "#SX Security Exception"; lit "Reserved"].

Definition trap_name (vector : Z) : outcome (option (list Z)) :=
  if vector <? 32 then rd exception_names vector
  else Ret (lit "external-or-user-defined-interrupt").

Definition m4_trap_count_for_test : M Z := m ⇐ mget; mret (trap_count m).

(** [x86_64_trap_frame_t]: twenty 64-bit fields from [r15] at offset 0 to
    [rflags] at 152. *)
Definition frame_rdx : Z := 88.
Definition frame_rcx : Z := 96.
Definition frame_rbx : Z := 104.
Definition frame_rax : Z := 112.
Definition frame_vector : Z := 120.
Definition frame_error_code : Z := 128.
Definition frame_rip : Z := 136.
Definition frame_cs : Z := 144.
Definition frame_rflags : Z := 152.

Definition log_field (ram : mem) (frame : Z) (key : option (list Z)) (offset : Z) : M unit :=
  v ⇐ mlift (load64 ram (frame + offset));
  log_key_value_hex64 dev key v.

Definition log_trap_frame (ram : mem) (frame : Z) : M unit :=
  log_field ram frame (lit "trap_vector") frame_vector ;;
  log_field ram frame (lit "trap_error") frame_error_code ;;
  log_field ram frame (lit "trap_rip") frame_rip ;;
  log_field ram frame (lit "trap_cs") frame_cs ;;
  log_field ram frame (lit "trap_rflags") frame_rflags ;;
  log_field ram frame (lit "trap_rax") frame_rax ;;
  log_field ram frame (lit "trap_rbx") frame_rbx ;;
  log_field ram frame (lit "trap_rcx") frame_rcx ;;
  log_field ram frame (lit "trap_rdx") frame_rdx.

Definition trap_c : option (list Z) := lit "kernel/core/trap.c".

Definition x86_64_trap_dispatch (ram : mem) (frame : Z) : M unit :=
  KERNEL_ASSERT trap_c 68 (negb (frame =? 0))
    (lit "assertion failed: frame != (x86_64_trap_frame_t *)0") ;;
  mmodify (λ m, set_trap_count m (trap_count m ⊕ 1)) ;;
  vector ⇐ mlift (load64 ram (frame + frame_vector));
  if vector =? PIC_MASTER_OFFSET then
    timer_on_irq0 ;;
    pic_send_eoi 0
  else
    log_write dev (lit "[M4] trap dispatch: ") ;;
    name ⇐ mlift (trap_name vector);
    log_writeln dev name ;;
    log_trap_frame ram frame ;;
    if vector =? 3 then
      log_writeln dev (lit "[M4] breakpoint handled; returning with iretq")
    else
      KERNEL_PANIC trap_c 85 (lit "unrecoverable CPU exception") vector.

(** ** [isr.S] *)

Definition pushq (v : Z) (s : regs * mem) : outcome (regs * mem) :=
  let '(r, ram) := s in
  let r := set_rsp r (rsp r ⊖ 8) in
  ram ← store64 ram (rsp r) v;
  Ret (r, ram).

(** Pop into a register. *)
Definition popq (f : regs → Z → regs) (s : regs * mem) : outcome (regs * mem) :=
  let '(r, ram) := s in
  v ← load64 ram (rsp r);
  Ret (f (set_rsp r (rsp r ⊕ 8)) v, ram).

(** The fifteen registers in the order [isr_common] pushes them. *)
Definition pushed (r : regs) : list Z :=
  [rax r; rbx r; rcx r; rdx r; rbp r; rdi r; rsi r; r8 r; r9 r; r10 r; r11 r; r12 r; r13 r; r14 r; r15 r].

(** The setters in the order it pops them. *)
Definition popped : list (regs → Z → regs) :=
  [set_r15; set_r14; set_r13; set_r12; set_r11; set_r10; set_r9; set_r8; set_rsi; set_rdi; set_rbp;
   set_rdx; set_rcx; set_rbx; set_rax].

Fixpoint push_all (vs : list Z) (s : regs * mem) : outcome (regs * mem) :=
  match vs with [] => Ret s | v :: vs => s ← pushq v s; push_all vs s end.

Fixpoint pop_all (fs : list (regs → Z → regs)) (s : regs * mem) : outcome (regs * mem) :=
  match fs with [] => Ret s | f :: fs => s ← popq f s; pop_all fs s end.

(** From [isr_common] to its [iretq]; [c] are the caller-saved registers after
    the call of the dispatcher. *)
Definition isr_common (c r : regs) (ram : mem) : M (regs * mem) :=
  s ⇐ mlift (push_all (pushed r) (r, ram));
  let r := set_rdi s.1 (rsp s.1) in
  let ram := s.2 in
  x86_64_trap_dispatch ram (rdi r) ;;
  s ⇐ mlift (pop_all popped (after_call c r, ram));
  mret (set_rsp s.1 (rsp s.1 ⊕ 16), s.2).

(** The vectors defined with [ISR_ERR]: the processor has pushed the error code. *)
Definition isr_err (vector : Z) : bool :=
  bool_decide (vector ∈ [8; 10; 11; 12; 13; 14; 17; 21; 29; 30]).

Definition isr_stub (vector : Z) (c r : regs) (ram : mem) : M (regs * mem) :=
  s ⇐ mlift (if isr_err vector then pushq vector (r, ram)
             else s ← pushq 0 (r, ram); pushq vector s);
  isr_common c s.1 s.2.

(** ** The processor's side of an interrupt *)

Definition gate_offset (e : idt_entry) : Z := offset_low e + 2 ^ 16 * offset_mid e + 2 ^ 32 * offset_high e.
Definition gate_present (e : idt_entry) : bool := Z.testbit (type_attributes e) 7.
Definition gate_dpl (e : idt_entry) : Z := Z.land (Z.shiftr (type_attributes e) 5) 3.
(** A trap gate leaves interrupts enabled, an interrupt gate disables them. *)
Definition gate_is_trap (e : idt_entry) : bool := Z.testbit (type_attributes e) 0.

(** Where the processor goes for a vector: the handler of a present gate, or
    nowhere, which it reports as exception 11, segment not present. *)
Definition deliver (t : idt_state) (vector : Z) : option Z :=
  match idt t !! Z.to_nat vector with
  | Some e => if gate_present e then Some (gate_offset e) else None
  | None => None
  end.

(** The interrupt of a vector, from the instruction to the resumed program, in
    64-bit mode: align the stack, push [ss], [rsp], [rflags], [cs] and [rip], go
    through the gate to the stub at its address, and take the five words back
    on [iretq].  An interrupt gate clears the interrupt flag.  The result holds
    the registers, the address at which execution resumes, and the memory. *)
Definition cpu_interrupt (stubs : list Z) (t : idt_state) (vector : Z) (c : regs) (ss cs rip : Z)
    (r : regs) (ram : mem) : M (regs * Z * mem) :=
  h ⇐ mlift (match deliver t vector with Some h => Ret h | None => UB end);
  i ⇐ mlift (match list_find (h =.) stubs with Some (i, _) => Ret (Z.of_nat i) | None => UB end);
  flags ⇐ cpu_read_rflags;
  s ⇐ mlift (push_all [ss; rsp r; flags; cs; rip] (set_rsp r (Z.land (rsp r) (not64 15)), ram));
  (if match idt t !! Z.to_nat vector with Some e => gate_is_trap e | None => true end then mret tt else cpu_cli) ;;
  s ⇐ isr_stub i c s.1 s.2;
  rip ⇐ mlift (load64 s.2 (rsp s.1));
  flags ⇐ mlift (load64 s.2 (rsp s.1 + 16));
  sp ⇐ mlift (load64 s.2 (rsp s.1 + 24));
  mmodify (λ m, set_rflags m flags) ;;
  mret (set_rsp s.1 sp, rip, s.2).

(** An exception that pushes an error code below the five words. *)
Definition cpu_fault (stubs : list Z) (t : idt_state) (vector code : Z) (c : regs) (ss cs rip : Z)
    (r : regs) (ram : mem) : M (regs * Z * mem) :=
  h ⇐ mlift (match deliver t vector with Some h => Ret h | None => UB end);
  i ⇐ mlift (match list_find (h =.) stubs with Some (i, _) => Ret (Z.of_nat i) | None => UB end);
  flags ⇐ cpu_read_rflags;
  s ⇐ mlift (push_all [ss; rsp r; flags; cs; rip; code] (set_rsp r (Z.land (rsp r) (not64 15)), ram));
  (if match idt t !! Z.to_nat vector with Some e => gate_is_trap e | None => true end then mret tt else cpu_cli) ;;
  s ⇐ isr_stub i c s.1 s.2;
  rip ⇐ mlift (load64 s.2 (rsp s.1));
  flags ⇐ mlift (load64 s.2 (rsp s.1 + 16));
  sp ⇐ mlift (load64 s.2 (rsp s.1 + 24));
  mmodify (λ m, set_rflags m flags) ;;
  mret (set_rsp s.1 sp, rip, s.2).

(** An interrupt request of a device, taken only while interrupts are enabled.
    Where the gate of its vector is not present the processor raises exception
    11 instead, with the number of the gate, the table and the external origin
    in the error code. *)
Definition cpu_external (stubs : list Z) (t : idt_state) (vector : Z) (c : regs) (ss cs rip : Z)
    (r : regs) (ram : mem) : M (regs * Z * mem) :=
  flags ⇐ cpu_read_rflags;
  if negb (Z.testbit flags 9) then mret (r, rip, ram)
  else
    match deliver t vector with
    | Some _ => cpu_interrupt stubs t vector c ss cs rip r ram
    | None => cpu_fault stubs t 11 (8 * vector + 3) c ss cs rip r ram
    end.

(** [x86_64_trigger_breakpoint_for_test]: the one-byte instruction [int3]. *)
Definition x86_64_trigger_breakpoint_for_test (stubs : list Z) (t : idt_state) (c : regs) (ss cs rip : Z)
    (r : regs) (ram : mem) : M (regs * Z * mem) :=
  cpu_interrupt stubs t 3 c ss cs rip r ram.

End kernel.
