(* ===== verification/InterruptProofs.v ===== *)
(** * Interrupts: specifications and lemmas

    The processor's reading of a gate, the descriptor table after
    initialisation, the pushes and pops of the exception stubs, the trap
    dispatcher, and the interrupt controllers' reading of the port history. *)

From Stdlib Require Import (notations) String.
From S2P Require Import Prelude Mem Machine Console ConsoleProofs Interrupts.

(** ** Gates *)

(** The entry [x86_64_idt_set_gate] writes. *)
Definition gate (handler attributes : Z) : idt_entry :=
  mk_entry (u16 (Z.land handler 0xFFFF)) (u16 X86_64_KERNEL_CODE_SELECTOR) 0 attributes
    (u16 (Z.land (Z.shiftr handler 16) 0xFFFF)) (u32 (Z.land (Z.shiftr handler 32) 0xFFFFFFFF)) 0.

Lemma gate_offset_gate h a : in64 h → gate_offset (gate h a) = h.
Proof.
  intros Hh. unfold gate_offset, gate, u16, u32. cbn [offset_low offset_mid offset_high].
  change 0xFFFF with (Z.ones 16). change 0xFFFFFFFF with (Z.ones 32).
  rewrite !Z.land_ones, !Z.shiftr_div_pow2, !Z.mod_mod by lia. mlia.
Qed.

Lemma set_gate_eq t v h a :
  0 ≤ v < Z.of_nat (length (idt t)) →
  x86_64_idt_set_gate t v h a = Ret (mk_idt (<[Z.to_nat v := gate h a]> (idt t)) (idtr t) (loaded t)).
Proof. intros Hv. unfold x86_64_idt_set_gate. by rewrite wr_Ret. Qed.

(** The gate of a vector after initialisation. *)
Definition idt_spec (stubs : list Z) (int80 : Z) (v : Z) : idt_entry :=
  if v <? 32 then
    gate (default 0 (stubs !! Z.to_nat v)) (if v =? 3 then X86_64_IDT_GATE_TRAP else X86_64_IDT_GATE_INTERRUPT)
  else if v =? 0x80 then gate int80 X86_64_IDT_GATE_INTERRUPT
  else gate 0 0.

Lemma clear_loop t :
  length (idt t) = 256%nat →
  ∃ t', loop 257 clear_step (t, 0) = Ret t' ∧ length (idt t') = 256%nat ∧ idtr t' = idtr t ∧
    loaded t' = loaded t ∧ ∀ j, 0 ≤ j < 256 → idt t' !! Z.to_nat j = Some (gate 0 0).
Proof.
  intros Ht.
  apply (loop_rule clear_step
    (λ '(t', i), 0 ≤ i ≤ 256 ∧ length (idt t') = 256%nat ∧ idtr t' = idtr t ∧ loaded t' = loaded t ∧
       ∀ j, 0 ≤ j < i → idt t' !! Z.to_nat j = Some (gate 0 0))
    (λ t', length (idt t') = 256%nat ∧ idtr t' = idtr t ∧ loaded t' = loaded t ∧
       ∀ j, 0 ≤ j < 256 → idt t' !! Z.to_nat j = Some (gate 0 0))
    (λ '(_, i), Z.to_nat (256 - i))).
  - intros [t' i] (Hi & Hl & Hr & Hld & Hj). unfold clear_step, X86_64_IDT_VECTOR_COUNT.
    destruct (Z.ltb_spec i 256).
    + replace (u8 i) with i by (unfold u8; rewrite Z.mod_small; lia).
      replace (u16 (i + 1)) with (i + 1) by (unfold u16; rewrite Z.mod_small; lia).
      rewrite set_gate_eq by lia. cbn [obind]. eexists. split; [done|]. split; [|lia]. cbn [idt idtr loaded].
      split_and!; [lia|lia|by rewrite length_insert|done|done|].
      intros j Hji. rewrite list_lookup_insert. case_decide; [done|]. apply Hj. lia.
    + eexists. split; [done|]. split_and!; [done..|]. intros j Hji. apply Hj. lia.
  - split_and!; [lia|lia|done..|lia].
  - lia.
Qed.

Lemma stub_loop stubs t :
  length stubs = 32%nat → length (idt t) = 256%nat →
  ∃ t', loop 33 (stub_step stubs) (t, 0) = Ret t' ∧ length (idt t') = 256%nat ∧ idtr t' = idtr t ∧
    loaded t' = loaded t ∧
    ∀ j, 0 ≤ j < 256 → idt t' !! Z.to_nat j = if j <? 32 then Some (idt_spec stubs 0 j) else idt t !! Z.to_nat j.
Proof.
  intros Hs Ht.
  apply (loop_rule (stub_step stubs)
    (λ '(t', v), 0 ≤ v ≤ 32 ∧ length (idt t') = 256%nat ∧ idtr t' = idtr t ∧ loaded t' = loaded t ∧
       ∀ j, 0 ≤ j < 256 → idt t' !! Z.to_nat j = if j <? v then Some (idt_spec stubs 0 j) else idt t !! Z.to_nat j)
    (λ t', length (idt t') = 256%nat ∧ idtr t' = idtr t ∧ loaded t' = loaded t ∧
       ∀ j, 0 ≤ j < 256 → idt t' !! Z.to_nat j = if j <? 32 then Some (idt_spec stubs 0 j) else idt t !! Z.to_nat j)
    (λ '(_, v), Z.to_nat (32 - v))).
  - intros [t' v] (Hv & Hl & Hr & Hld & Hj). unfold stub_step.
    destruct (Z.ltb_spec v 32); last first.
    { eexists. split; [done|]. split_and!; [done..|]. by replace 32 with v by lia. }
    destruct (lookup_lt_is_Some_2 stubs (Z.to_nat v)) as [a Ha]; [lia|].
    rewrite (rd_Ret _ _ a) by (done || lia). cbn [obind].
    replace (u8 (v + 1)) with (v + 1) by (unfold u8; rewrite Z.mod_small; lia).
    rewrite set_gate_eq by lia. cbn [obind]. eexists. split; [done|]. split; [|lia]. cbn [idt idtr loaded].
    split_and!; [lia|lia|by rewrite length_insert|done|done|].
    intros j Hji. destruct (decide (j = v)) as [->|].
    + rewrite list_lookup_insert_eq by lia. destruct (Z.ltb_spec v (v + 1)); [|lia].
      unfold idt_spec. destruct (Z.ltb_spec v 32); [|lia]. by rewrite Ha.
    + rewrite list_lookup_insert_ne, Hj by lia.
      destruct (Z.ltb_spec j v), (Z.ltb_spec j (v + 1)); done || lia.
  - split_and!; [lia|lia|done..|]. intros j Hj. destruct (Z.ltb_spec j 0); [lia|done].
  - lia.
Qed.

(** ** The stack of the stubs *)

Definition rsp_kept (f : regs → Z → regs) : Prop := ∀ r v, rsp (f r v) = rsp r.

Lemma pushq_spec v r ram :
  8 ≤ rsp r < 2 ^ 64 → mapped ram (rsp r - 8) 8 → in64 v →
  ∃ ram', pushq v (r, ram) = Ret (set_rsp r (rsp r - 8), ram') ∧ wrote (rsp r - 8) 8 ram ram' ∧
    load64 ram' (rsp r - 8) = Ret v.
Proof.
  intros Hr Hm Hv. unfold pushq. rewrite (sub64_small (rsp r) 8) by (unfold in64; lia).
  destruct (store64_wrote ram (rsp r - 8) v) as (ram' & E & HW & HL); [done..|].
  exists ram'. cbn [rsp set_rsp]. by rewrite E.
Qed.

Lemma push_all_spec vs r ram n :
  n = 8 * Z.of_nat (length vs) → n ≤ rsp r < 2 ^ 64 → mapped ram (rsp r - n) n → Forall in64 vs →
  ∃ ram', push_all vs (r, ram) = Ret (set_rsp r (rsp r - n), ram') ∧ wrote (rsp r - n) n ram ram' ∧
    ∀ i v, vs !! i = Some v → load64 ram' (rsp r - 8 * Z.of_nat (S i)) = Ret v.
Proof.
  revert r ram n. induction vs as [|v vs IH]; intros r ram n Hn Hr Hm Hv.
  { exists ram. simpl. replace (rsp r - n) with (rsp r) by (simpl in Hn; lia).
    split_and!; [by destruct r|apply wrote_refl|done]. }
  cbn [length] in Hn. apply Forall_cons in Hv as [Hv Hvs].
  destruct (pushq_spec v r ram) as (ram1 & E1 & HW1 & HL1); [lia|eapply mapped_sub; [exact Hm|lia..]|done|].
  destruct (IH (set_rsp r (rsp r - 8)) ram1 (n - 8)) as (ram2 & E2 & HW2 & HL2);
    [lia|cbn; lia|cbn; apply HW1; eapply mapped_sub; [exact Hm|lia..]|done|].
  cbn [rsp set_rsp] in *. exists ram2. cbn [push_all]. rewrite E1. cbn [obind]. rewrite E2.
  replace (rsp r - 8 - (n - 8)) with (rsp r - n) in * by lia. split_and!.
  - by destruct r.
  - eapply wrote_trans; eapply wrote_weaken; [exact HW1|lia|lia|exact HW2|lia|lia].
  - intros [|i] w Hw; simpl in Hw.
    + injection Hw as ->. rewrite (load64_outside _ _ _ _ _ HW2); [done|lia].
    + apply HL2 in Hw. rewrite <- Hw. f_equal. lia.
Qed.

Fixpoint pop_result (fs : list (regs → Z → regs)) (vs : list Z) (r : regs) : regs :=
  match fs, vs with
  | f :: fs, v :: vs => pop_result fs vs (f (set_rsp r (rsp r + 8)) v)
  | _, _ => r
  end.

Lemma pop_all_spec fs vs r ram :
  length vs = length fs → Forall rsp_kept fs → 0 ≤ rsp r → rsp r + 8 * Z.of_nat (length fs) < 2 ^ 64 →
  (∀ i v, vs !! i = Some v → load64 ram (rsp r + 8 * Z.of_nat i) = Ret v) →
  pop_all fs (r, ram) = Ret (pop_result fs vs r, ram).
Proof.
  revert vs r. induction fs as [|f fs IH]; intros [|v vs] r Hlen Hk Hr0 Hr Hl; try done.
  cbn [length] in *. apply Forall_cons in Hk as [Hf Hk].
  assert (HL0 : load64 ram (rsp r) = Ret v) by (rewrite <- (Hl 0%nat v eq_refl); f_equal; lia).
  cbn [pop_all pop_result popq]. rewrite HL0. cbn [obind]. rewrite add64_small by (unfold in64; lia).
  assert (Hrsp : rsp (f (set_rsp r (rsp r + 8)) v) = rsp r + 8) by (rewrite Hf; done).
  apply IH; [lia|done|rewrite Hrsp; lia|rewrite Hrsp; lia|].
  intros i w Hw. rewrite Hrsp, <- (Hl (S i) w Hw). f_equal. lia.
Qed.

(** ** Dispatch *)

(** The text of a trap report for the frame at [a], its fields loaded from [ram]. *)
Definition field (ram : mem) (a : Z) : Z := match load64 ram a with Ret v => v | _ => 0 end.

Definition trap_fields (ram : mem) (frame : Z) : list Z :=
  key_value (lit "trap_vector") (field ram (frame + 120)) ++
  key_value (lit "trap_error") (field ram (frame + 128)) ++
  key_value (lit "trap_rip") (field ram (frame + 136)) ++
  key_value (lit "trap_cs") (field ram (frame + 144)) ++
  key_value (lit "trap_rflags") (field ram (frame + 152)) ++
  key_value (lit "trap_rax") (field ram (frame + 112)) ++
  key_value (lit "trap_rbx") (field ram (frame + 104)) ++
  key_value (lit "trap_rcx") (field ram (frame + 96)) ++
  key_value (lit "trap_rdx") (field ram (frame + 88)).

Definition trap_text (ram : mem) (frame : Z) (name : option (list Z)) : list Z :=
  bytes "[M4] trap dispatch: " ++ text name ++ [13; 10] ++ trap_fields ram frame.

(** The frame is mapped memory. *)
Definition frame_ok (ram : mem) (frame : Z) : Prop := 0 < frame ∧ mem_ok ram ∧ mapped ram frame 160.

Section dispatch.
Context (dev : device) (garbage : list Z).

Lemma frame_field ram frame off :
  frame_ok ram frame → 0 ≤ off ≤ 152 →
  load64 ram (frame + off) = Ret (field ram (frame + off)) ∧ in64 (field ram (frame + off)).
Proof.
  intros (_ & Hok & Hm) Ho. unfold field.
  destruct (load64_Ret ram (frame + off) Hok) as (v & -> & Hv); [|done].
  eapply mapped_sub; [exact Hm|lia..].
Qed.

Lemma prints_field ram frame key off :
  frame_ok ram frame → 0 ≤ off ≤ 152 →
  prints dev (log_field dev ram frame key off) (Some tt) id (key_value key (field ram (frame + off))).
Proof.
  intros Hf Ho. destruct (frame_field ram frame off Hf Ho) as [HL Hv].
  eapply prints_text; [|apply app_nil_l]. eapply (prints_bind _ _ _ (field ram (frame + off)) _ id id).
  - by apply prints_lift.
  - by apply prints_key_value.
Qed.

Lemma prints_trap_frame ram frame :
  frame_ok ram frame →
  prints dev (log_trap_frame dev ram frame) (Some tt) id (trap_fields ram frame).
Proof.
  intros Hf. unfold log_trap_frame.
  do 8 (eapply (prints_bind _ _ _ tt _ id id); [apply prints_field; done|]).
  apply prints_field; done.
Qed.

(** A computation that starts with a known value of the counter. *)
Lemma trap_name_Ret v : 0 ≤ v → ∃ name, trap_name v = Ret name ∧ name ≠ None.
Proof.
  intros Hv. unfold trap_name. destruct (Z.ltb_spec v 32); [|by eexists].
  destruct (lookup_lt_is_Some_2 exception_names (Z.to_nat v)) as [name Hn]; [cbn; lia|].
  exists name. split; [by apply rd_Ret|].
  assert (Forall (λ n, n ≠ None) exception_names) as HF by (repeat constructor; done).
  rewrite Forall_lookup in HF. by apply (HF (Z.to_nat v)).
Qed.

(** What the dispatcher does after the report. *)
Definition trap_end (vector : Z) : M unit :=
  if vector =? 3 then log_writeln dev (lit "[M4] breakpoint handled; returning with iretq")
  else KERNEL_PANIC dev garbage trap_c 85 (lit "unrecoverable CPU exception") vector.

(** The dispatcher after its assertion and its counter. *)
Lemma dispatch_enters ram frame m :
  frame_ok ram frame →
  x86_64_trap_dispatch dev garbage ram frame m =
    (let vector := field ram (frame + 120) in
     let m := set_trap_count m (trap_count m ⊕ 1) in
     if vector =? PIC_MASTER_OFFSET then (timer_on_irq0 ;; pic_send_eoi 0)%io m
     else (log_write dev (lit "[M4] trap dispatch: ") ;;
           name ⇐ mlift (trap_name vector);
           log_writeln dev name ;;
           log_trap_frame dev ram frame ;;
           trap_end vector)%io m).
Proof.
  intros Hf. destruct (frame_field ram frame 120 Hf ltac:(lia)) as [HL Hv].
  unfold x86_64_trap_dispatch, KERNEL_ASSERT. destruct Hf as (Hf & _).
  destruct (Z.eqb_spec frame 0); [lia|]. cbn [negb]. unfold mbind at 1. cbn [mret obind].
  unfold mbind at 1. cbn [mmodify obind]. unfold mbind at 1. unfold mlift at 1.
  unfold frame_vector. rewrite HL. cbn [obind].
  destruct (field ram (frame + 120) =? PIC_MASTER_OFFSET); done.
Qed.

(** The report of a trap other than the timer's: the rest [k] of the handler
    runs after it. *)
Lemma report_then {A} ram frame (k : M A) name m :
  frame_ok ram frame → trap_name (field ram (frame + 120)) = Ret name → log_ok m →
  ∃ m1, (log_write dev (lit "[M4] trap dispatch: ") ;;
         name ⇐ mlift (trap_name (field ram (frame + 120)));
         log_writeln dev name ;;
         log_trap_frame dev ram frame ;; k)%io m = k m1 ∧
    rflags m1 = rflags m ∧ says dev (trap_text ram frame name) m m1.
Proof.
  intros Hf Hn Hm.
  run_print dev (prints_write dev (lit "[M4] trap dispatch: ")) Hm m1 R1 S1.
  run_print dev (prints_lift dev _ _ Hn) (says_log _ _ _ _ S1) m2 R2 S2.
  run_print dev (prints_writeln dev name) (says_log _ _ _ _ S2) m3 R3 S3.
  run_print dev (prints_trap_frame ram frame Hf) (says_log _ _ _ _ S3) m4 R4 S4.
  exists m4. split; [done|]. split; [by rewrite R4, R3, R2, R1|].
  pose proof (says_trans _ _ _ _ _ _ S1 (says_trans _ _ _ _ _ _ S2 (says_trans _ _ _ _ _ _ S3 S4))) as HS.
  revert HS. unfold trap_text. rewrite <- !(assoc_L (++)). exact (λ x, x).
Qed.
End dispatch.

(** ** The controllers as the history drives them *)

(** One 8259: which command word it expects next (0: none), the base vector, its
    mask register, its cascade word and the end-of-interrupt commands it got. *)
Record chip : Type := mk_chip { awaits : Z; icw1 : Z; vec_base : Z; icw3 : Z; imr : Z; eois : nat }.

Definition chip_command (c : chip) (v : Z) : chip :=
  if Z.testbit v 4 then mk_chip 2 v (vec_base c) (icw3 c) 0 (eois c)
  else if v =? 0x20 then mk_chip (awaits c) (icw1 c) (vec_base c) (icw3 c) (imr c) (S (eois c))
  else c.

(** ICW3 follows unless ICW1 says single, ICW4 if ICW1 asks for it. *)
Definition chip_data (c : chip) (v : Z) : chip :=
  let icw4 := if Z.testbit (icw1 c) 0 then 4 else 0 in
  if awaits c =? 2 then
    mk_chip (if Z.testbit (icw1 c) 1 then icw4 else 3) (icw1 c) (Z.land v 0xF8) (icw3 c) (imr c) (eois c)
  else if awaits c =? 3 then mk_chip icw4 (icw1 c) (vec_base c) v (imr c) (eois c)
  else if awaits c =? 4 then mk_chip 0 (icw1 c) (vec_base c) (icw3 c) (imr c) (eois c)
  else mk_chip 0 (icw1 c) (vec_base c) (icw3 c) v (eois c).

Definition chip_event (command data : Z) (e : event) (c : chip) : chip :=
  match e with
  | In _ _ => c
  | Out p v => if p =? command then chip_command c v else if p =? data then chip_data c v else c
  end.

Definition chip_of (command data : Z) (h : history) : chip :=
  foldr (chip_event command data) (mk_chip 0 0 0 0 0 0) h.

Abbreviation master := (chip_of PIC1_COMMAND PIC1_DATA).
Abbreviation slave := (chip_of PIC2_COMMAND PIC2_DATA).

(** An operational controller answers a read of its data port with its mask. *)
Definition pic_device (dev : device) : Prop :=
  ∀ h, (awaits (master h) = 0 → dev h PIC1_DATA = imr (master h)) ∧
       (awaits (slave h) = 0 → dev h PIC2_DATA = imr (slave h)).

(** Both controllers operate, and their masks are bytes. *)
Record pic_ok (h : history) : Prop := {
  master_ready : awaits (master h) = 0;
  slave_ready : awaits (slave h) = 0;
  master_mask : 0 ≤ imr (master h) < 256;
  slave_mask : 0 ≤ imr (slave h) < 256;
}.

Lemma u8_small x : 0 ≤ x < 256 → u8 x = x.
Proof. intros. unfold u8. apply Z.mod_small. lia. Qed.

(** The console does not reach the controllers. *)
Lemma chip_com1 command data h h0 :
  (∀ p, COM1_PORT ≤ p ≤ COM1_PORT + 5 → p ≠ command ∧ p ≠ data) → Forall com1_event h →
  chip_of command data (h ++ h0) = chip_of command data h0.
Proof.
  intros Hp. induction 1 as [|e h He _ IH]; [done|].
  unfold chip_of in *. cbn [app foldr]. rewrite IH. destruct e as [p v|]; [|done].
  destruct (Hp p He) as [? ?]. cbn.
  destruct (Z.eqb_spec p command); [done|]. by destruct (Z.eqb_spec p data).
Qed.

Lemma pic_says dev s m m' :
  says dev s m m' → master (io m') = master (io m) ∧ slave (io m') = slave (io m).
Proof.
  intros [_ (h & -> & Hh) _ _].
  split; apply chip_com1; try done; unfold COM1_PORT, PIC1_COMMAND, PIC1_DATA, PIC2_COMMAND, PIC2_DATA; lia.
Qed.

(** The mask with one line enabled. *)
Lemma unmask_bits x line n :
  0 ≤ x < 256 → 0 ≤ line < 8 → 0 ≤ n →
  Z.testbit (u8 (Z.land x (u8 (Z.lnot (Z.shiftl 1 line))))) n = Z.testbit x n && negb (n =? line).
Proof.
  intros Hx Hl Hn. unfold u8. rewrite testbit_mod_pow2, Z.land_spec, testbit_mod_pow2, Z.lnot_spec by lia.
  rewrite Z.shiftl_1_l, Z.pow2_bits_eqb by lia. rewrite (Z.eqb_sym line n).
  destruct (Z.ltb_spec n 8); [done|]. by rewrite (testbit_small x 8 n) by lia.
Qed.

(** The accesses of [pic_remap], newest first, given the masks it read. *)
Definition remap_events (a b v1 v2 : Z) : history :=
  [Out PIC2_DATA v2; Out PIC1_DATA v1; Out 0x80 0; Out PIC2_DATA 1; Out 0x80 0; Out PIC1_DATA 1;
   Out 0x80 0; Out PIC2_DATA 2; Out 0x80 0; Out PIC1_DATA 4; Out 0x80 0; Out PIC2_DATA b;
   Out 0x80 0; Out PIC1_DATA a; Out 0x80 0; Out PIC2_COMMAND 0x11; Out 0x80 0; Out PIC1_COMMAND 0x11;
   In PIC2_DATA v2; In PIC1_DATA v1].

Lemma remap_master a b v1 v2 h :
  master (remap_events a b v1 v2 ++ h) = mk_chip 0 17 (Z.land a 0xF8) 4 v1 (eois (master h)).
Proof. done. Qed.

Lemma remap_slave a b v1 v2 h :
  slave (remap_events a b v1 v2 ++ h) = mk_chip 0 17 (Z.land b 0xF8) 2 v2 (eois (slave h)).
Proof. done. Qed.

Lemma pic_remap_eq dev a b m :
  pic_device dev → pic_ok (io m) → 0 ≤ a < 256 → 0 ≤ b < 256 →
  pic_remap dev a b m =
    Ret (Some tt, set_io m (remap_events a b (imr (master (io m))) (imr (slave (io m))) ++ io m)).
Proof.
  intros Hd Hok Ha Hb.
  assert (H1 : u8 (dev (io m) PIC1_DATA) = imr (master (io m))).
  { rewrite (proj1 (Hd (io m)) (master_ready _ Hok)). apply u8_small, Hok. }
  set (h1 := In PIC1_DATA (imr (master (io m))) :: io m).
  assert (H2 : u8 (dev h1 PIC2_DATA) = imr (slave (io m))).
  { rewrite (proj2 (Hd h1)); [|exact (slave_ready _ Hok)]. apply u8_small, Hok. }
  unfold pic_remap, mbind, inb, outb, io_wait, mmodify. cbn [obind io set_io].
  rewrite H1. fold h1. rewrite H2.
  rewrite !(u8_small a), !(u8_small b), !(u8_small (imr _)) by (done || apply Hok). reflexivity.
Qed.

(** ** The timer chip as the history drives it *)

(** Channel 0 of the 8253: its mode, the low byte of a reload value being
    written, and the reload value. *)
Record pit : Type := mk_pit { pit_mode : Z; low_byte : option Z; reload : Z }.

Definition pit_event (e : event) (p : pit) : pit :=
  match e with
  | In _ _ => p
  | Out port v =>
      if port =? PIT_COMMAND then
        if (Z.shiftr v 6 =? 0) && (Z.land (Z.shiftr v 4) 3 =? 3)
        then mk_pit (Z.land (Z.shiftr v 1) 7) None (reload p) else p
      else if port =? PIT_CHANNEL0 then
        match low_byte p with
        | None => mk_pit (pit_mode p) (Some v) (reload p)
        | Some lo => mk_pit (pit_mode p) None (lo + 256 * v)
        end
      else p
  end.

Definition pit_of (h : history) : pit := foldr pit_event (mk_pit 0 None 0) h.

Lemma pit_programmed lo hi h :
  pit_of (Out PIT_CHANNEL0 hi :: Out PIT_CHANNEL0 lo :: Out PIT_COMMAND 0x36 :: h) = mk_pit 3 None (lo + 256 * hi).
Proof. done. Qed.

Lemma divisor_bytes d :
  0 ≤ d → u8 (u8 (Z.land d 0xFF)) + 256 * u8 (u8 (Z.land (Z.shiftr d 8) 0xFF)) = d mod 2 ^ 16.
Proof.
  intros Hd. change 0xFF with (Z.ones 8). rewrite !Z.land_ones, Z.shiftr_div_pow2 by lia. unfold u8.
  rewrite !Z.mod_mod by lia. change (2 ^ 16) with (2 ^ 8 * 2 ^ 8). rewrite Z.rem_mul_r by lia. done.
Qed.

(** A byte written to the data port of an operational controller is its mask. *)
Definition with_mask (c : chip) (v : Z) : chip := mk_chip 0 (icw1 c) (vec_base c) (icw3 c) v (eois c).

Lemma chip_data_mask c v : awaits c = 0 → chip_data c v = with_mask c v.
Proof. intros Hc. unfold chip_data. by rewrite Hc. Qed.

Lemma master_mask_write h v : awaits (master h) = 0 → master (Out PIC1_DATA v :: h) = with_mask (master h) v.
Proof. apply chip_data_mask. Qed.

Lemma slave_mask_write h v : awaits (slave h) = 0 → slave (Out PIC2_DATA v :: h) = with_mask (slave h) v.
Proof. apply chip_data_mask. Qed.

Lemma master_other h v : master (Out PIC2_DATA v :: h) = master h.
Proof. done. Qed.

Lemma slave_other h v : slave (Out PIC1_DATA v :: h) = slave h.
Proof. done. Qed.

Lemma pic_mask_all_spec m :
  pic_ok (io m) →
  ∃ h, pic_mask_all m = Ret (Some tt, set_io m h) ∧
    master h = with_mask (master (io m)) 0xFF ∧ slave h = with_mask (slave (io m)) 0xFF ∧
    uart_of h = uart_of (io m).
Proof.
  intros [Hm Hs _ _]. exists (Out PIC2_DATA 0xFF :: Out PIC1_DATA 0xFF :: io m). split; [reflexivity|].
  by rewrite master_other, master_mask_write, slave_mask_write by done.
Qed.

(** The mask of a controller with one line enabled. *)
Definition clear_line (mask line : Z) : Z := u8 (Z.land mask (u8 (Z.lnot (Z.shiftl 1 line)))).

Lemma pic_unmask_spec dev irq m :
  pic_device dev → pic_ok (io m) → 0 ≤ irq < 16 →
  ∃ h, pic_unmask_irq dev irq m = Ret (Some tt, set_io m h) ∧
    master h = (if irq <? 8 then with_mask (master (io m)) (clear_line (imr (master (io m))) irq) else master (io m)) ∧
    slave h = (if irq <? 8 then slave (io m) else with_mask (slave (io m)) (clear_line (imr (slave (io m))) (irq - 8))) ∧
    uart_of h = uart_of (io m).
Proof.
  intros Hd [Hm Hs Hmm Hsm] Hirq. unfold pic_unmask_irq, mbind, inb, outb, mmodify, mlift. destruct (Z.ltb_spec irq 8).
  - rewrite (proj2 (Z.ltb_lt irq 32)) by lia. eexists. cbn [obind io set_io]. split; [reflexivity|].
    rewrite slave_other, master_mask_write by exact Hm.
    rewrite (proj1 (Hd (io m)) Hm), (u8_small (imr _)) by done. split; [|done]. cbn. f_equal.
    apply u8_small, u8_range.
  - rewrite (u8_small (irq - 8)), (proj2 (Z.ltb_lt (irq - 8) 32)) by lia. eexists. cbn [obind io set_io]. split; [reflexivity|].
    rewrite master_other, slave_mask_write by exact Hs.
    rewrite (proj2 (Hd (io m)) Hs), (u8_small (imr _)) by done. split; [done|]. split; [|done]. cbn. f_equal.
    apply u8_small, u8_range.
Qed.

Definition acknowledged (c : chip) : chip := mk_chip (awaits c) (icw1 c) (vec_base c) (icw3 c) (imr c) (S (eois c)).

Lemma pic_send_eoi_spec irq m :
  ∃ h, pic_send_eoi irq m = Ret (Some tt, set_io m h) ∧ master h = acknowledged (master (io m)) ∧
    slave h = if 8 <=? irq then acknowledged (slave (io m)) else slave (io m).
Proof.
  unfold pic_send_eoi. destruct (8 <=? irq); eexists; (split; [reflexivity|]); done.
Qed.
