(* ===== verification/InterruptSpecs.v ===== *)
(** * Interrupts: the operations' specifications

    What initialisation leaves in the table, what the dispatcher does for each
    vector, and the frame an exception stub builds and takes down. *)

From Stdlib Require Import (notations) String.
From S2P Require Import Prelude Mem Machine Console ConsoleProofs Interrupts InterruptProofs.

(** ** Initialisation of the table *)

Definition idt_text (idt_addr : Z) : list Z :=
  key_value (lit "idt_base") idt_addr ++ key_value (lit "idt_limit") 4095 ++ bytes "[M4] IDT loaded" ++ [13; 10].

Section init.
Context (dev : device) (garbage : list Z) (stubs : list Z) (int80 idt_addr : Z).

(** The table [x86_64_idt_init] leaves. *)
Record idt_ready (t : idt_state) : Prop := {
  ready_length : length (idt t) = 256%nat;
  ready_loaded : loaded t = Some (mk_idtr 4095 idt_addr);
  ready_idtr : idtr t = mk_idtr 4095 idt_addr;
  ready_gates : ∀ v, 0 ≤ v < 256 → idt t !! Z.to_nat v = Some (idt_spec stubs int80 v);
}.

Lemma idt_init_spec t :
  length stubs = 32%nat → length (idt t) = 256%nat → in64 idt_addr →
  ∃ t', idt_ready t' ∧
    prints dev (x86_64_idt_init dev garbage stubs int80 idt_addr t) (Some t') id (idt_text idt_addr).
Proof.
  intros Hs Ht Ha.
  destruct (clear_loop t Ht) as (t1 & E1 & L1 & R1 & D1 & G1).
  destruct (stub_loop stubs t1 Hs L1) as (t2 & E2 & L2 & R2 & D2 & G2).
  set (t3 := mk_idt (<[128%nat := gate int80 X86_64_IDT_GATE_INTERRUPT]> (idt t2))
               (mk_idtr 4095 idt_addr) (Some (mk_idtr 4095 idt_addr))).
  exists t3. split.
  - split; [cbn; by rewrite length_insert|done|done|]. intros v Hv. cbn.
    destruct (decide (v = 128)) as [->|].
    { change (Z.to_nat 128) with 128%nat. by rewrite list_lookup_insert_eq by lia. }
    rewrite list_lookup_insert_ne, G2 by lia. unfold idt_spec.
    destruct (Z.ltb_spec v 32); [done|]. rewrite G1 by lia. by destruct (Z.eqb_spec v 128).
  - unfold x86_64_idt_init.
    eapply prints_text; [|apply app_nil_l]. eapply (prints_bind _ _ _ t1 _ id id); [by apply prints_lift|].
    eapply prints_text; [|apply app_nil_l]. eapply (prints_bind _ _ _ t2 _ id id); [by apply prints_lift|].
    rewrite set_gate_eq by lia.
    eapply prints_text; [|apply app_nil_l]. eapply (prints_bind _ _ _ _ _ id id); [by apply prints_lift|].
    cbn [idt idtr loaded].
    eapply prints_text; [|apply app_nil_l]. eapply (prints_bind _ _ _ tt _ id id); [apply prints_ret|].
    eapply prints_text; [|apply app_nil_l]. eapply (prints_bind _ _ _ tt _ id id); [apply prints_ret|].
    unfold idt_text. eapply (prints_bind _ _ _ tt _ id id); [by apply prints_key_value|].
    eapply (prints_bind _ _ _ tt _ id id); [by apply prints_key_value|].
    eapply prints_text; [|apply app_nil_r]. eapply (prints_bind _ _ _ tt _ id id); [apply prints_writeln|].
    apply prints_ret.
Qed.

Lemma deliver_ready t v : idt_ready t → 0 ≤ v < 256 →
  deliver t v = if gate_present (idt_spec stubs int80 v) then Some (gate_offset (idt_spec stubs int80 v)) else None.
Proof. intros [] Hv. unfold deliver. by rewrite ready_gates0. Qed.

Lemma deliver_stub t v a :
  idt_ready t → 0 ≤ v < 32 → stubs !! Z.to_nat v = Some a → in64 a → deliver t v = Some a.
Proof.
  intros Ht Hv Ha Hr. rewrite deliver_ready by (done || lia). unfold idt_spec.
  destruct (Z.ltb_spec v 32); [|lia]. rewrite Ha. cbn [default].
  replace (gate_present _) with true by (by destruct (v =? 3)). by rewrite gate_offset_gate.
Qed.
End init.

(** ** The dispatcher and the stubs *)

Definition breakpoint_text : list Z := bytes "[M4] breakpoint handled; returning with iretq" ++ [13; 10].

Section traps.
Context (dev : device) (garbage : list Z) (ram : mem) (frame : Z) (m : machine).
Hypothesis Hg : length garbage = 11%nat.
Hypothesis Hf : frame_ok ram frame.
Hypothesis Hlog : log_ok m.

Definition counted : machine := set_trap_count m (trap_count m ⊕ 1).

Lemma dispatch_timer :
  field ram (frame + 120) = 0x20 →
  x86_64_trap_dispatch dev garbage ram frame m =
    Ret (Some tt, mk_machine (Out 0x20 0x20 :: io m) (rflags m) (g_log_ready m) (trap_count m ⊕ 1) (g_timer_ticks m ⊕ 1)).
Proof. intros Hv. rewrite dispatch_enters by done. cbv zeta. by rewrite Hv. Qed.

Lemma dispatch_breakpoint :
  field ram (frame + 120) = 3 →
  ∃ m', x86_64_trap_dispatch dev garbage ram frame m = Ret (Some tt, m') ∧ rflags m' = rflags m ∧
    says dev (trap_text ram frame (lit "#BP Breakpoint") ++ breakpoint_text) counted m'.
Proof.
  intros Hv. rewrite dispatch_enters by done. cbv zeta. fold counted.
  destruct (Z.eqb_spec (field ram (frame + 120)) PIC_MASTER_OFFSET) as [E|_]; [by rewrite Hv in E|].
  destruct (report_then dev ram frame (trap_end dev garbage (field ram (frame + 120))) (lit "#BP Breakpoint") counted)
    as (m1 & -> & R1 & S1); [exact Hf|by rewrite Hv|exact Hlog|].
  rewrite Hv. destruct (prints_writeln dev (lit "[M4] breakpoint handled; returning with iretq") m1) as (m2 & E2 & R2 & S2);
    [apply S1|].
  exists m2. split; [exact E2|]. split; [by rewrite R2, R1|]. exact (says_trans _ _ _ _ _ _ S1 S2).
Qed.

Lemma dispatch_fatal :
  in64 (rflags m) → field ram (frame + 120) ≠ 0x20 → field ram (frame + 120) ≠ 3 →
  ∃ m' name ds, x86_64_trap_dispatch dev garbage ram frame m = Ret (None, m') ∧
    Z.testbit (rflags m') 9 = false ∧ trap_name (field ram (frame + 120)) = Ret name ∧ is_decimal 85 ds ∧
    says dev (trap_text ram frame name ++
              panic_text trap_c ds (lit "unrecoverable CPU exception") (field ram (frame + 120)) (rflags m)) counted m'.
Proof.
  intros Hr H32 H3. destruct (frame_field ram frame 120 Hf ltac:(lia)) as [_ Hv].
  rewrite dispatch_enters by done. cbv zeta. fold counted.
  destruct (Z.eqb_spec (field ram (frame + 120)) PIC_MASTER_OFFSET) as [E|_]; [done|].
  destruct (trap_name_Ret (field ram (frame + 120))) as (name & Hn & _); [apply Hv|].
  destruct (report_then dev ram frame (trap_end dev garbage (field ram (frame + 120))) name counted)
    as (m1 & -> & R1 & S1); [exact Hf|exact Hn|exact Hlog|].
  unfold trap_end. destruct (Z.eqb_spec (field ram (frame + 120)) 3) as [|_]; [done|].
  unfold KERNEL_PANIC. rewrite (u64_small _ Hv).
  destruct (panic_spec (A := unit) dev garbage trap_c 85 (lit "unrecoverable CPU exception") (field ram (frame + 120)) m1)
    as (ds & m2 & Hds & E2 & R2 & S2); [done|done|by rewrite R1|apply S1|].
  exists m2, name, ds. split; [exact E2|]. split; [rewrite R2; apply testbit_if_cli|].
  split; [done|]. split; [exact Hds|]. rewrite R1 in S2. exact (says_trans _ _ _ _ _ _ S1 S2).
Qed.
End traps.

(** *** Stubs *)

(** What the stub of a vector pushes before [isr_common]. *)
Definition stub_words (vector : Z) : list Z := if isr_err vector then [vector] else [0; vector].

Lemma isr_stub_pushes dev garbage vector c r ram m :
  isr_stub dev garbage vector c r ram m =
    (s ⇐ mlift (push_all (stub_words vector) (r, ram)); isr_common dev garbage c s.1 s.2)%io m.
Proof.
  unfold isr_stub, stub_words, mbind, mlift. destruct (isr_err vector); cbn [push_all].
  - by destruct (pushq vector (r, ram)).
  - destruct (pushq 0 (r, ram)) as [s| |]; cbn [obind]; [|done..]. by destruct (pushq vector s).
Qed.

Lemma popped_rsp : Forall rsp_kept popped.
Proof. repeat (constructor; [done|]). constructor. Qed.

Lemma pop_pushed c r x :
  0 ≤ x →
  pop_result popped (reverse (pushed r)) (after_call c (set_rdi (set_rsp r x) x)) = set_rsp r (x + 120).
Proof.
  intros Hx. destruct r, c. cbv -[Z.add]. f_equal. lia.
Qed.

(** The frame [isr_common] builds, and its return. *)
Lemma isr_common_spec dev garbage c r ram m :
  Forall in64 (pushed r) → 120 < rsp r < 2 ^ 64 - 16 → mapped ram (rsp r - 120) 120 →
  ∃ ram1, wrote (rsp r - 120) 120 ram ram1 ∧
    (∀ i v, pushed r !! i = Some v → load64 ram1 (rsp r - 120 + 8 * (14 - Z.of_nat i)) = Ret v) ∧
    ∀ m', (x86_64_trap_dispatch dev garbage ram1 (rsp r - 120) m = Ret (None, m') →
             isr_common dev garbage c r ram m = Ret (None, m')) ∧
          (x86_64_trap_dispatch dev garbage ram1 (rsp r - 120) m = Ret (Some tt, m') →
             isr_common dev garbage c r ram m = Ret (Some (set_rsp r (rsp r + 16), ram1), m')).
Proof.
  intros Hin Hr Hm.
  destruct (push_all_spec (pushed r) r ram 120) as (ram1 & E & HW & HL); [done|lia|done|done|].
  assert (HL' : ∀ i v, pushed r !! i = Some v → load64 ram1 (rsp r - 120 + 8 * (14 - Z.of_nat i)) = Ret v).
  { intros i v Hv. rewrite <- (HL i v Hv). f_equal. lia. }
  exists ram1. split; [done|]. split; [done|]. intros m'. unfold isr_common, mbind, mlift. rewrite E. cbn [obind fst snd].
  cbn [rdi set_rdi rsp set_rsp]. split; intros ->; cbn [obind]; [done|].
  rewrite (pop_all_spec popped (reverse (pushed r))); [|done|apply popped_rsp|cbn; lia|cbn; lia|].
  - cbn [obind]. rewrite pop_pushed by lia. cbn [rsp set_rsp fst snd mret].
    rewrite add64_small by (unfold in64; lia).
    by replace (rsp r - 120 + 120 + 16) with (rsp r + 16) by lia.
  - intros i v Hv. cbn [rsp after_call set_rdi set_rsp].
    assert (Hi : (i < 15)%nat) by (apply lookup_lt_Some in Hv; by rewrite length_reverse in Hv).
    rewrite reverse_lookup in Hv by (cbn; lia). rewrite <- (HL' _ _ Hv). f_equal. cbn [pushed length]. lia.
Qed.

(** The size of the error code the processor pushed for a vector. *)
Definition error_bytes (vector : Z) : Z := if isr_err vector then 8 else 0.

Lemma stub_words_spec vector r ram e :
  e = error_bytes vector → 0 ≤ vector < 32 → 16 < rsp r < 2 ^ 64 - 16 → mapped ram (rsp r + e - 16) (16 - e) →
  ∃ ram1, push_all (stub_words vector) (r, ram) = Ret (set_rsp r (rsp r + e - 16), ram1) ∧
    wrote (rsp r + e - 16) (16 - e) ram ram1 ∧ load64 ram1 (rsp r + e - 16) = Ret vector ∧
    (isr_err vector = false → load64 ram1 (rsp r - 8) = Ret 0).
Proof.
  intros -> Hv Hr Hm. unfold error_bytes, stub_words in *. destruct (isr_err vector).
  - destruct (push_all_spec [vector] r ram 8) as (ram1 & E & HW & HL);
      [done|lia|eapply mapped_sub; [exact Hm|lia..]|repeat constructor; unfold in64; lia|].
    exists ram1. replace (rsp r + 8 - 16) with (rsp r - 8) by lia. split_and!; [done|done| |done].
    exact (HL 0%nat vector eq_refl).
  - destruct (push_all_spec [0; vector] r ram 16) as (ram1 & E & HW & HL);
      [done|lia|eapply mapped_sub; [exact Hm|lia..]|repeat constructor; unfold in64; lia|].
    exists ram1. replace (rsp r + 0 - 16) with (rsp r - 16) by lia. split_and!; [done|done| |intros _].
    + exact (HL 1%nat vector eq_refl).
    + exact (HL 0%nat 0 eq_refl).
Qed.

(** The trap frame [x86_64_trap_frame_t] the dispatcher of a vector sees: the
    interrupted registers, the vector, the processor's error code or 0, and
    what the processor pushed ([rip], [cs], [rflags]). *)
Record frame_built (vector : Z) (r : regs) (ram ram1 : mem) (frame : Z) : Prop := {
  built_ok : frame_ok ram1 frame;
  built_wrote : wrote frame (136 - error_bytes vector) ram ram1;
  built_regs : ∀ i v, pushed r !! i = Some v → field ram1 (frame + 8 * (14 - Z.of_nat i)) = v;
  built_vector : field ram1 (frame + 120) = vector;
  built_error : field ram1 (frame + 128) = if isr_err vector then field ram (frame + 128) else 0;
  built_cpu : ∀ off, off ∈ [136; 144; 152] → field ram1 (frame + off) = field ram (frame + off);
}.

Lemma isr_stub_spec dev garbage vector c r ram m :
  0 ≤ vector < 32 → Forall in64 (pushed r) → mem_ok ram →
  136 < rsp r < 2 ^ 64 - 32 → mapped ram (rsp r + error_bytes vector - 136) 160 →
  let frame := rsp r + error_bytes vector - 136 in
  ∃ ram1, frame_built vector r ram ram1 frame ∧
    ∀ m', (x86_64_trap_dispatch dev garbage ram1 frame m = Ret (None, m') →
             isr_stub dev garbage vector c r ram m = Ret (None, m')) ∧
          (x86_64_trap_dispatch dev garbage ram1 frame m = Ret (Some tt, m') →
             isr_stub dev garbage vector c r ram m = Ret (Some (set_rsp r (rsp r + error_bytes vector), ram1), m')).
Proof.
  intros Hv Hin Hok Hr Hm frame. set (e := error_bytes vector) in *.
  assert (He : e = 0 ∨ e = 8) by (unfold e, error_bytes; destruct (isr_err vector); auto).
  destruct (stub_words_spec vector r ram e) as (ram1 & E1 & HW1 & HLv & HL0);
    [done|done|lia|eapply mapped_sub; [exact Hm|lia..]|].
  set (r1 := set_rsp r (rsp r + e - 16)).
  assert (Hr1 : rsp r1 - 120 = frame) by (cbn; unfold frame; lia).
  destruct (isr_common_spec dev garbage c r1 ram1 m) as (ram2 & HW2 & HLr & Hrun);
    [exact Hin|cbn; lia|rewrite Hr1; apply HW1; eapply mapped_sub; [exact Hm|lia..]|].
  rewrite Hr1 in *.
  assert (HW : wrote frame (136 - e) ram ram2)
    by (eapply wrote_trans; eapply wrote_weaken; [exact HW1|lia|lia|exact HW2|lia|lia]).
  exists ram2. split.
  - assert (Hkeep : ∀ off, 120 ≤ off → field ram2 (frame + off) = field ram1 (frame + off)).
    { intros off Ho. unfold field. by rewrite (load64_outside _ _ _ _ _ HW2) by lia. }
    assert (Habove : ∀ off, 136 - e ≤ off → field ram2 (frame + off) = field ram (frame + off)).
    { intros off Ho. unfold field. by rewrite (load64_outside _ _ _ _ _ HW) by lia. }
    split; fold e.
    + split; [lia|]. split; [by apply HW|]. by apply HW.
    + done.
    + intros i v Hiv. unfold field. by rewrite (HLr i v Hiv).
    + rewrite Hkeep by lia. unfold field. replace (frame + 120) with (rsp r + e - 16) by lia. by rewrite HLv.
    + unfold e, error_bytes in *. destruct (isr_err vector); [apply Habove; lia|].
      rewrite Hkeep by lia. unfold field. replace (frame + 128) with (rsp r - 8) by lia. by rewrite HL0.
    + intros off Ho. apply Habove. set_unfold. lia.
  - intros m'. destruct (Hrun m') as [HN HS].
    rewrite isr_stub_pushes. unfold mbind, mlift. rewrite E1. cbn [obind fst snd]. fold r1.
    split; intros HD; [by rewrite (HN HD)|]. rewrite (HS HD). do 3 f_equal. cbn.
    by replace (rsp r + e - 16 + 16) with (rsp r + e) by lia.
Qed.

(** ** A breakpoint from the instruction to its return *)

Lemma find_stub (stubs : list Z) (i : nat) (a : Z) :
  NoDup stubs → stubs !! i = Some a → list_find (a =.) stubs = Some (i, a).
Proof.
  intros Hnd Hi. apply list_find_Some. split; [done|]. split; [done|].
  intros j b Hj Hlt ->. pose proof (NoDup_lookup _ _ _ _ Hnd Hi Hj). lia.
Qed.

(** The words the processor pushes, and its way to the stub of vector 3. *)
Lemma int3_enters dev garbage stubs int80 idt_addr t c ss cs rip r ram m :
  idt_ready stubs int80 idt_addr t → length stubs = 32%nat → NoDup stubs → Forall in64 stubs →
  in64 (rflags m) → in64 (rsp r) → in64 ss → in64 cs → in64 rip →
  let sp := rsp r - rsp r mod 16 in
  40 < sp → mapped ram (sp - 40) 40 →
  ∃ ram1, wrote (sp - 40) 40 ram ram1 ∧ load64 ram1 (sp - 40) = Ret rip ∧
    load64 ram1 (sp - 24) = Ret (rflags m) ∧ load64 ram1 (sp - 16) = Ret (rsp r) ∧
    x86_64_trigger_breakpoint_for_test dev garbage stubs t c ss cs rip r ram m =
    (s ⇐ isr_stub dev garbage 3 c (set_rsp r (sp - 40)) ram1;
     rip ⇐ mlift (load64 s.2 (rsp s.1));
     flags ⇐ mlift (load64 s.2 (rsp s.1 + 16));
     sp ⇐ mlift (load64 s.2 (rsp s.1 + 24));
     mmodify (λ m, set_rflags m flags) ;;
     mret (set_rsp s.1 sp, rip, s.2))%io m.
Proof.
  intros Ht Hl Hnd Hst Hf Hrsp Hss Hcs Hrip sp Hsp Hm.
  destruct (lookup_lt_is_Some_2 stubs 3) as [a Ha]; [lia|].
  rewrite Forall_lookup in Hst. pose proof (Hst _ _ Ha) as Ha64.
  assert (Hsp64 : sp < 2 ^ 64) by (unfold in64, sp in *; pose proof (Z.mod_pos_bound (rsp r) 16); lia).
  unfold x86_64_trigger_breakpoint_for_test, cpu_interrupt.
  rewrite (deliver_stub stubs int80 idt_addr t 3 a) by (done || lia).
  rewrite (mbind_Ret _ _ a _ m) by done. rewrite (find_stub stubs 3 a) by done.
  rewrite (mbind_Ret _ _ 3 _ m) by done. rewrite (mbind_Ret _ _ (rflags m) _ m) by done.
  change (not64 15) with (not64 (Z.ones 4)). rewrite land_not64_ones by (done || lia).
  change (2 ^ 4) with 16. fold sp.
  destruct (push_all_spec [ss; rsp r; rflags m; cs; rip] (set_rsp r sp) ram 40) as (ram1 & E1 & W1 & L1);
    [done|cbn; lia|done|by repeat (apply Forall_cons_2; [done|])|]. cbn [rsp set_rsp] in *.
  rewrite (mbind_Ret _ _ _ _ m (f_equal (λ o, a ← o; Ret (Some a, m)) E1)). cbn [fst snd].
  rewrite (ready_gates _ _ _ _ Ht 3) by lia. change (gate_is_trap (idt_spec stubs int80 3)) with true. cbv iota.
  rewrite (mbind_Ret _ _ tt _ m) by done.
  exists ram1. split; [done|]. split; [exact (L1 4%nat rip eq_refl)|].
  split; [exact (L1 2%nat _ eq_refl)|]. split; [exact (L1 1%nat _ eq_refl)|reflexivity].
Qed.

Lemma int3_spec dev garbage stubs int80 idt_addr t c ss cs rip r ram m :
  idt_ready stubs int80 idt_addr t → length stubs = 32%nat → NoDup stubs → Forall in64 stubs →
  log_ok m → in64 (rflags m) → Forall in64 (pushed r) → in64 (rsp r) →
  in64 ss → in64 cs → in64 rip → mem_ok ram →
  let sp := rsp r - rsp r mod 16 in
  256 < sp < 2 ^ 64 - 32 → mapped ram (sp - 176) 176 →
  ∃ ram1 ram2 m', wrote (sp - 40) 40 ram ram1 ∧ frame_built 3 r ram1 ram2 (sp - 176) ∧
    wrote (sp - 176) 176 ram ram2 ∧ load64 ram2 (sp - 40) = Ret rip ∧
    x86_64_trigger_breakpoint_for_test dev garbage stubs t c ss cs rip r ram m = Ret (Some (r, rip, ram2), m') ∧
    rflags m' = rflags m ∧
    says dev (trap_text ram2 (sp - 176) (lit "#BP Breakpoint") ++ breakpoint_text) (counted m) m'.
Proof.
  intros Ht Hl Hnd Hst Hlog Hf Hin Hrsp Hss Hcs Hrip Hok sp Hsp Hm.
  destruct (int3_enters dev garbage stubs int80 idt_addr t c ss cs rip r ram m)
    as (ram1 & W1 & L0 & L16 & L24 & ->); [done..|fold sp; lia|fold sp; eapply mapped_sub; [exact Hm|lia..]|].
  fold sp in W1, L0, L16, L24 |- *.
  destruct (isr_stub_spec dev garbage 3 c (set_rsp r (sp - 40)) ram1 m) as (ram2 & HB & Hrun);
    [lia|exact Hin|by apply W1|cbn; lia| |].
  { change (error_bytes 3) with 0. cbn. apply W1. eapply mapped_sub; [exact Hm|lia..]. }
  change (error_bytes 3) with 0 in *. change (rsp (set_rsp r (sp - 40))) with (sp - 40) in *.
  replace (sp - 40 + 0 - 136) with (sp - 176) in * by lia. rewrite Z.add_0_r in Hrun.
  destruct (dispatch_breakpoint dev garbage ram2 (sp - 176) m (built_ok _ _ _ _ _ HB) Hlog (built_vector _ _ _ _ _ HB))
    as (m' & ED & R & S).
  pose proof (built_wrote _ _ _ _ _ HB) as W2. change (136 - error_bytes 3) with 136 in W2.
  rewrite (mbind_Ret _ _ _ _ m' (proj2 (Hrun m') ED)). cbn [fst snd rsp set_rsp].
  replace (sp - 40 + 16) with (sp - 24) by lia. replace (sp - 40 + 24) with (sp - 16) by lia.
  rewrite <- (load64_outside _ _ (sp - 40) _ _ W2) in L0 by lia.
  rewrite <- (load64_outside _ _ (sp - 24) _ _ W2) in L16 by lia.
  rewrite <- (load64_outside _ _ (sp - 16) _ _ W2) in L24 by lia. rewrite L0, L16, L24.
  exists ram1, ram2, (set_rflags m' (rflags m)). split_and!; try done.
  - destruct HB as [B1 B2 B3 B4 B5 B6]. by split.
  - eapply wrote_trans; eapply wrote_weaken; [exact W1|lia|lia|exact W2|lia|lia].
  - unfold mbind, mlift, mmodify, mret. cbn [obind]. by destruct r.
  - destruct S as [H1 H2 H3 H4]. by split.
Qed.

(** ** A device interrupt without a gate *)

Lemma cli_in64 z : in64 z → in64 (cli_flags z).
Proof.
  intros Hz. apply small_in64; [apply Z.land_nonneg; left; apply Hz|].
  intros n Hn. unfold cli_flags. by rewrite Z.land_spec, testbit_in64_high.
Qed.

(** The words the processor pushes for exception 11, and its way to the stub. *)
Lemma np_enters dev garbage stubs int80 idt_addr t code c ss cs rip r ram m :
  idt_ready stubs int80 idt_addr t → length stubs = 32%nat → NoDup stubs → Forall in64 stubs →
  in64 (rflags m) → in64 (rsp r) → in64 ss → in64 cs → in64 rip → in64 code →
  let sp := rsp r - rsp r mod 16 in
  48 < sp → mapped ram (sp - 48) 48 →
  ∃ ram1, wrote (sp - 48) 48 ram ram1 ∧
    cpu_fault dev garbage stubs t 11 code c ss cs rip r ram m =
    (s ⇐ isr_stub dev garbage 11 c (set_rsp r (sp - 48)) ram1;
     rip ⇐ mlift (load64 s.2 (rsp s.1));
     flags ⇐ mlift (load64 s.2 (rsp s.1 + 16));
     sp ⇐ mlift (load64 s.2 (rsp s.1 + 24));
     mmodify (λ m, set_rflags m flags) ;;
     mret (set_rsp s.1 sp, rip, s.2))%io (set_rflags m (cli_flags (rflags m))).
Proof.
  intros Ht Hl Hnd Hst Hf Hrsp Hss Hcs Hrip Hcode sp Hsp Hm.
  destruct (lookup_lt_is_Some_2 stubs 11) as [a Ha]; [lia|].
  rewrite Forall_lookup in Hst. pose proof (Hst _ _ Ha) as Ha64.
  assert (Hsp64 : sp < 2 ^ 64) by (unfold in64, sp in *; pose proof (Z.mod_pos_bound (rsp r) 16); lia).
  unfold cpu_fault. rewrite (deliver_stub stubs int80 idt_addr t 11 a) by (done || lia).
  rewrite (mbind_Ret _ _ a _ m) by done. rewrite (find_stub stubs 11 a) by done.
  rewrite (mbind_Ret _ _ 11 _ m) by done. rewrite (mbind_Ret _ _ (rflags m) _ m) by done.
  change (not64 15) with (not64 (Z.ones 4)). rewrite land_not64_ones by (done || lia).
  change (2 ^ 4) with 16. fold sp.
  destruct (push_all_spec [ss; rsp r; rflags m; cs; rip; code] (set_rsp r sp) ram 48) as (ram1 & E1 & W1 & L1);
    [done|cbn; lia|done|by repeat (apply Forall_cons_2; [done|])|]. cbn [rsp set_rsp] in *.
  rewrite (mbind_Ret _ _ _ _ m (f_equal (λ o, a ← o; Ret (Some a, m)) E1)). cbn [fst snd].
  rewrite (ready_gates _ _ _ _ Ht 11) by lia. change (gate_is_trap (idt_spec stubs int80 11)) with false. cbv iota.
  exists ram1. split; [done|]. by erewrite mbind_Ret by reflexivity.
Qed.

Definition np_text (ds : list Z) (ram : mem) (frame flags : Z) : list Z :=
  trap_text ram frame (lit "#NP Segment Not Present") ++
  panic_text trap_c ds (lit "unrecoverable CPU exception") 11 flags.

(** The timer interrupt on the table [x86_64_idt_init] leaves. *)
Lemma timer_irq_panics dev garbage stubs int80 idt_addr t c ss cs rip r ram m :
  idt_ready stubs int80 idt_addr t → length stubs = 32%nat → NoDup stubs → Forall in64 stubs →
  length garbage = 11%nat → log_ok m → in64 (rflags m) → Z.testbit (rflags m) 9 = true →
  Forall in64 (pushed r) → in64 (rsp r) → in64 ss → in64 cs → in64 rip → mem_ok ram →
  let sp := rsp r - rsp r mod 16 in
  256 < sp < 2 ^ 64 - 32 → mapped ram (sp - 176) 176 →
  ∃ m' ram' ds,
    cpu_external dev garbage stubs t PIC_MASTER_OFFSET c ss cs rip r ram m = Ret (None, m') ∧
    Z.testbit (rflags m') 9 = false ∧ is_decimal 85 ds ∧
    says dev (np_text ds ram' (sp - 176) (cli_flags (rflags m))) (counted m) m'.
Proof.
  intros Ht Hl Hnd Hst Hg Hlog Hf Hif Hin Hrsp Hss Hcs Hrip Hok sp Hsp Hm.
  unfold cpu_external. rewrite (mbind_Ret _ _ (rflags m) _ m) by done. rewrite Hif. cbn [negb].
  rewrite (deliver_ready stubs int80 idt_addr t PIC_MASTER_OFFSET Ht) by (unfold PIC_MASTER_OFFSET; lia).
  change (gate_present (idt_spec stubs int80 PIC_MASTER_OFFSET)) with false. cbv iota.
  destruct (np_enters dev garbage stubs int80 idt_addr t (8 * PIC_MASTER_OFFSET + 3) c ss cs rip r ram m)
    as (ram1 & W1 & ->); [done..|fold sp; lia|fold sp; eapply mapped_sub; [exact Hm|lia..]|]. fold sp in W1 |- *.
  set (m1 := set_rflags m _).
  destruct (isr_stub_spec dev garbage 11 c (set_rsp r (sp - 48)) ram1 m1) as (ram2 & HB & Hrun);
    [lia|exact Hin|by apply W1|cbn; lia| |].
  { change (error_bytes 11) with 8. cbn. apply W1. eapply mapped_sub; [exact Hm|lia..]. }
  change (error_bytes 11) with 8 in *. change (rsp (set_rsp r (sp - 48))) with (sp - 48) in *.
  replace (sp - 48 + 8 - 136) with (sp - 176) in * by lia.
  pose proof (built_vector _ _ _ _ _ HB) as HV.
  destruct (dispatch_fatal dev garbage ram2 (sp - 176) m1 Hg (built_ok _ _ _ _ _ HB)) as (m' & name & ds & ED & HI & Hn & Hds & S);
    [exact Hlog|apply cli_in64, Hf|by rewrite HV|by rewrite HV|].
  rewrite HV in Hn, S. injection Hn as <-.
  exists m', ram2, ds. split_and!; [|done|done|].
  - unfold mbind. by rewrite (proj1 (Hrun m') ED).
  - destruct S as [H1 H2 H3 H4]. by split.
Qed.
