(* ===== verification/InterruptTheorems.v ===== *)
(** * Interrupts: theorems

    The descriptor table, the trap dispatcher and the exception stubs, the
    missing timer gate, the interrupt controllers and the timer. *)

From Stdlib Require Import (notations) String.
From S2P Require Import Prelude Mem Machine Console ConsoleProofs ConsoleTheorems.
From S2P Require Import Interrupts InterruptProofs InterruptSpecs.

(** ** Theorems *)

(** [x86_64_idt_init] builds and loads the table: from any content of the
    table it returns, the processor's table register holds the table's address
    with limit 4095, and for each of the 256 vectors the processor finds what
    was meant for it: a present ring-0 gate to the vector's exception stub for
    0..31 (a trap gate for the breakpoint, interrupt gates for the others), an
    interrupt gate to the system-call stub for 0x80, and no present gate
    anywhere else.  The 64-bit handler addresses survive their split into
    three fields. *)
Theorem idt_init_correct (dev : device) (garbage stubs : list Z) (int80 idt_addr : Z) (t : idt_state) (m : machine) :
  length stubs = 32%nat → Forall in64 stubs → in64 int80 → in64 idt_addr →
  length (idt t) = 256%nat → log_ok m →
  ∃ t' m', x86_64_idt_init dev garbage stubs int80 idt_addr t m = Ret (Some t', m') ∧
    says dev (idt_text idt_addr) m m' ∧ rflags m' = rflags m ∧
    loaded t' = Some (mk_idtr 4095 idt_addr) ∧
    (∀ v a, 0 ≤ v < 32 → stubs !! Z.to_nat v = Some a →
       deliver t' v = Some a ∧
       ∃ e, idt t' !! Z.to_nat v = Some e ∧ selector e = 0x28 ∧ gate_dpl e = 0 ∧ gate_is_trap e = (v =? 3)) ∧
    deliver t' 0x80 = Some int80 ∧
    (∀ v, 32 ≤ v < 256 → v ≠ 0x80 → deliver t' v = None).
Proof.
  intros Hs Hst H80 Ha Ht Hm.
  destruct (idt_init_spec dev garbage stubs int80 idt_addr t Hs Ht Ha) as (t' & Hr & HP).
  destruct (HP m Hm) as (m' & E & R & S). exists t', m'. split; [exact E|]. split; [exact S|].
  split; [exact R|]. split; [apply Hr|]. split; [|split].
  - intros v a Hv Hva. rewrite Forall_lookup in Hst. split; [eapply deliver_stub; eauto|].
    exists (idt_spec stubs int80 v). split; [apply (ready_gates _ _ _ _ Hr); lia|]. unfold idt_spec.
    destruct (Z.ltb_spec v 32); [|lia]. by destruct (v =? 3).
  - rewrite (deliver_ready stubs int80 idt_addr) by (done || lia).
    change (idt_spec stubs int80 128) with (gate int80 X86_64_IDT_GATE_INTERRUPT).
    by rewrite gate_offset_gate.
  - intros v Hv Hne. rewrite (deliver_ready stubs int80 idt_addr) by (done || lia). unfold idt_spec.
    destruct (Z.ltb_spec v 32); [lia|]. by destruct (Z.eqb_spec v 128).
Qed.

Definition demo_stubs : list Z := (λ i, 0xffffffff80001000 + 16 * Z.of_nat i) <$> seq 0 32.
Definition zero_idt : idt_state := mk_idt (replicate 256 (mk_entry 0 0 0 0 0 0 0)) (mk_idtr 0 0) None.

Lemma demo_stubs_in64 : Forall in64 demo_stubs.
Proof. unfold demo_stubs. cbn. repeat (constructor; [done|]). constructor. Qed.

Lemma idt_init_correct_witness :
  ∃ t' m', x86_64_idt_init quiet_dev (repeat 0 11) demo_stubs 0xffffffff80002000 0xffffffff80010000 zero_idt reset_machine
    = Ret (Some t', m') ∧ deliver t' 13 = Some 0xffffffff800010d0 ∧ deliver t' 0x80 = Some 0xffffffff80002000.
Proof.
  destruct (idt_init_correct quiet_dev (repeat 0 11) demo_stubs 0xffffffff80002000 0xffffffff80010000 zero_idt reset_machine)
    as (t' & m' & E & _ & _ & _ & HD & H80 & _);
    [done|apply demo_stubs_in64|done|done|done|apply reset_log_ok|].
  exists t', m'. split; [exact E|]. split; [|exact H80].
  refine (proj1 (HD 13 _ _ _)); [lia|reflexivity].
Defined.

(** The trap dispatcher on every vector.  For 0x20 it adds a tick, sends one
    end-of-interrupt command to the master controller and returns, accessing
    nothing else.  For 3 it reports the frame and returns with the flags
    unchanged.  For every other vector it reports the frame and ends in the
    panic's halt loop with interrupts disabled.  Each call counts one trap, and
    only vector 0x20 changes the tick count. *)
Theorem trap_dispatch_correct (dev : device) (garbage : list Z) (ram : mem) (frame : Z) (m : machine) :
  length garbage = 11%nat → frame_ok ram frame → log_ok m → in64 (rflags m) →
  let vector := field ram (frame + 120) in
  let run := x86_64_trap_dispatch dev garbage ram frame m in
  (vector = 0x20 →
     run = Ret (Some tt, mk_machine (Out 0x20 0x20 :: io m) (rflags m) (g_log_ready m)
                           (trap_count m ⊕ 1) (g_timer_ticks m ⊕ 1))) ∧
  (vector = 3 →
     ∃ m', run = Ret (Some tt, m') ∧ rflags m' = rflags m ∧
       trap_count m' = trap_count m ⊕ 1 ∧ g_timer_ticks m' = g_timer_ticks m ∧
       says dev (trap_text ram frame (lit "#BP Breakpoint") ++ breakpoint_text) (counted m) m') ∧
  (vector ≠ 0x20 → vector ≠ 3 →
     ∃ m' name ds, run = Ret (None, m') ∧ Z.testbit (rflags m') 9 = false ∧
       trap_count m' = trap_count m ⊕ 1 ∧ g_timer_ticks m' = g_timer_ticks m ∧
       trap_name vector = Ret name ∧ is_decimal 85 ds ∧
       says dev (trap_text ram frame name ++
                 panic_text trap_c ds (lit "unrecoverable CPU exception") vector (rflags m)) (counted m) m').
Proof.
  intros Hg Hf Hlog Hr vector run. split_and!.
  - by apply dispatch_timer.
  - intros Hv. destruct (dispatch_breakpoint dev garbage ram frame m Hf Hlog Hv) as (m' & E & R & S).
    exists m'. destruct (says_statics _ _ _ _ S) as [HT HG]. split_and!; done.
  - intros H32 H3. destruct (dispatch_fatal dev garbage ram frame m Hg Hf Hlog Hr H32 H3)
      as (m' & name & ds & E & HI & Hn & Hds & S).
    exists m', name, ds. destruct (says_statics _ _ _ _ S) as [HT HG]. split_and!; done.
Qed.

(** A frame of zeros has vector 0, a divide error. *)
Lemma zero_frame_ok : frame_ok (zero_mem 8192 160) 8192.
Proof. split; [lia|]. split; [apply zero_mem_ok|apply zero_mem_mapped]. Qed.

Lemma zero_frame_vector : field (zero_mem 8192 160) (8192 + 120) = 0.
Proof. unfold field, load64. by rewrite load_zero_mem by lia. Qed.

Lemma trap_dispatch_correct_witness :
  ∃ m', x86_64_trap_dispatch quiet_dev (repeat 0 11) (zero_mem 8192 160) 8192 reset_machine = Ret (None, m') ∧
    Z.testbit (rflags m') 9 = false ∧ trap_count m' = 1.
Proof.
  pose proof (trap_dispatch_correct quiet_dev (repeat 0 11) (zero_mem 8192 160) 8192 reset_machine
    eq_refl zero_frame_ok reset_log_ok ltac:(done)) as H.
  cbv zeta in H. destruct H as (_ & _ & HF). rewrite zero_frame_vector in HF.
  destruct HF as (m' & name & ds & E & HI & HT & _); [lia|lia|].
  exists m'. split; [exact E|]. split; [exact HI|exact HT].
Defined.


(** A stack of zeros below 8352, registers holding their own numbers. *)
Definition trap_ram : mem := zero_mem 8192 192.
Definition trap_regs : regs := mk_regs 1 2 3 4 5 6 7 8328 8 9 10 11 12 13 14 15.

Lemma trap_regs_in64 : Forall in64 (pushed trap_regs).
Proof. repeat (constructor; [done|]). constructor. Qed.


(** C26: The timer interrupt has no handler.  [kmain] remaps IRQ0 to vector 0x20,
    unmasks it and enables interrupts, but after [x86_64_idt_init] the gate of
    vector 0x20 is not present, so the processor raises exception 11 (segment
    not present) instead, whose stub never returns: the first tick ends in the
    panic's halt loop.  The tick branch of the dispatcher is dead code, since no
    exception stub changes the tick count. *)
Theorem timer_vector_unhandled (dev : device) (garbage stubs : list Z) (int80 idt_addr : Z) (t : idt_state)
    (m0 : machine) :
  length stubs = 32%nat → Forall in64 stubs → in64 int80 → in64 idt_addr →
  length (idt t) = 256%nat → log_ok m0 → length garbage = 11%nat →
  ∃ t' m1, x86_64_idt_init dev garbage stubs int80 idt_addr t m0 = Ret (Some t', m1) ∧
    deliver t' PIC_MASTER_OFFSET = None ∧ deliver t' 11 = stubs !! 11%nat ∧
    ∀ vector c r ram m, 0 ≤ vector < 32 → Forall in64 (pushed r) → mem_ok ram → 136 < rsp r < 2 ^ 64 - 32 →
      mapped ram (rsp r + error_bytes vector - 136) 160 → log_ok m → in64 (rflags m) →
      (∃ x m', isr_stub dev garbage vector c r ram m = Ret (x, m') ∧ g_timer_ticks m' = g_timer_ticks m) ∧
      (vector = 11 → ∃ m', isr_stub dev garbage vector c r ram m = Ret (None, m') ∧
                           Z.testbit (rflags m') 9 = false).
Proof.
  intros Hs Hst H80 Ha Ht Hm Hg.
  destruct (idt_init_spec dev garbage stubs int80 idt_addr t Hs Ht Ha) as (t' & Hr & HP).
  destruct (HP m0 Hm) as (m1 & E & _ & _). exists t', m1. split; [exact E|]. split; [|split].
  - rewrite (deliver_ready stubs int80 idt_addr); [done|done|unfold PIC_MASTER_OFFSET; lia].
  - destruct (lookup_lt_is_Some_2 stubs 11) as [a Hsa]; [lia|]. rewrite Hsa.
    rewrite Forall_lookup in Hst. eapply (deliver_stub stubs int80 idt_addr); [done|lia|exact Hsa|eauto].
  - intros vector c r ram m Hv Hin Hok Hsp Hmp Hlog Hf.
    destruct (isr_stub_spec dev garbage vector c r ram m) as (ram1 & HB & Hrun); [done..|].
    pose proof (built_vector _ _ _ _ _ HB) as HV. pose proof (built_ok _ _ _ _ _ HB) as Hfr.
    destruct (decide (vector = 3)) as [->|H3].
    + destruct (dispatch_breakpoint dev garbage ram1 _ m Hfr Hlog HV) as (m' & E3 & R & S).
      split; [|done]. eexists _, m'. split; [exact (proj2 (Hrun m') E3)|apply S].
    + destruct (dispatch_fatal dev garbage ram1 _ m Hg Hfr Hlog Hf) as (m' & name & ds & EF & HI & _ & _ & S);
        [rewrite HV; lia|by rewrite HV|].
      pose proof (proj1 (Hrun m') EF) as ER. split; [eexists None, m'; split; [exact ER|apply S]|].
      intros _. by exists m'.
Qed.

Lemma timer_vector_unhandled_witness :
  ∃ t' m1, x86_64_idt_init quiet_dev (repeat 0 11) demo_stubs 0xffffffff80002000 0xffffffff80010000 zero_idt reset_machine
    = Ret (Some t', m1) ∧ deliver t' 0x20 = None ∧
    ∃ m', isr_stub quiet_dev (repeat 0 11) 11 trap_regs trap_regs trap_ram reset_machine = Ret (None, m').
Proof.
  destruct (timer_vector_unhandled quiet_dev (repeat 0 11) demo_stubs 0xffffffff80002000 0xffffffff80010000 zero_idt reset_machine)
    as (t' & m1 & E & H32 & _ & Hall);
    [done|apply demo_stubs_in64|done|done|done|apply reset_log_ok|done|].
  exists t', m1. split; [exact E|]. split; [exact H32|].
  destruct (Hall 11 trap_regs trap_regs trap_ram reset_machine) as [_ H11].
  - lia.
  - exact trap_regs_in64.
  - apply zero_mem_ok.
  - by split.
  - apply (mapped_sub _ 8192 192); [apply zero_mem_mapped|by unfold Z.le|by unfold Z.le].
  - apply reset_log_ok.
  - by split.
  - destruct (H11 eq_refl) as (m' & E' & _). exists m'. exact E'.
Defined.

(** C36: The interrupt controllers, seen through the command words they receive.
    From two operational controllers that answer reads with their masks:
    [pic_remap] reinitialises both in cascade with the given base vectors and
    restores the masks it found; [pic_mask_all] masks all sixteen lines;
    [pic_unmask_irq] unmasks exactly its line; [pic_send_eoi] acknowledges on
    the master, and on the slave too for lines 8..15.  None of them changes
    anything but the ports. *)
Theorem pic_correct (dev : device) (m : machine) (a b irq : Z) :
  pic_device dev → pic_ok (io m) → 0 ≤ a < 256 → 0 ≤ b < 256 → 0 ≤ irq < 16 →
  (∃ h, pic_remap dev a b m = Ret (Some tt, set_io m h) ∧ pic_ok h ∧
     vec_base (master h) = Z.land a 0xF8 ∧ vec_base (slave h) = Z.land b 0xF8 ∧
     imr (master h) = imr (master (io m)) ∧ imr (slave h) = imr (slave (io m)) ∧
     icw3 (master h) = 4 ∧ icw3 (slave h) = 2) ∧
  (∃ h, pic_mask_all m = Ret (Some tt, set_io m h) ∧ pic_ok h ∧
     imr (master h) = 0xFF ∧ imr (slave h) = 0xFF ∧
     vec_base (master h) = vec_base (master (io m)) ∧ vec_base (slave h) = vec_base (slave (io m))) ∧
  (∃ h, pic_unmask_irq dev irq m = Ret (Some tt, set_io m h) ∧ pic_ok h ∧
     (∀ n, 0 ≤ n < 8 → Z.testbit (imr (master h)) n = Z.testbit (imr (master (io m))) n && negb (n =? irq)) ∧
     (∀ n, 0 ≤ n < 8 → Z.testbit (imr (slave h)) n = Z.testbit (imr (slave (io m))) n && negb (n =? irq - 8)) ∧
     vec_base (master h) = vec_base (master (io m)) ∧ vec_base (slave h) = vec_base (slave (io m))) ∧
  (∃ h, pic_send_eoi irq m = Ret (Some tt, set_io m h) ∧ pic_ok h ∧
     eois (master h) = S (eois (master (io m))) ∧
     eois (slave h) = (eois (slave (io m)) + if (8 <=? irq)%Z then 1 else 0)%nat ∧
     imr (master h) = imr (master (io m)) ∧ imr (slave h) = imr (slave (io m))).
Proof.
  intros Hd Hok Ha Hb Hirq. pose proof Hok as [Hm0 Hs0 Hm1 Hs1]. split_and!.
  - rewrite pic_remap_eq by done. eexists. split; [reflexivity|].
    rewrite remap_master, remap_slave. split; [|done].
    by split; rewrite ?remap_master, ?remap_slave.
  - destruct (pic_mask_all_spec m Hok) as (h & E & HM & HS & _). exists h.
    rewrite HM, HS. split; [exact E|]. split; [|done]. by split; rewrite ?HM, ?HS.
  - destruct (pic_unmask_spec dev irq m Hd Hok Hirq) as (h & E & HM & HS & _). exists h.
    split; [exact E|]. unfold clear_line in *. split; [|split; [|split; [|split]]].
    + destruct (irq <? 8); split; rewrite ?HM, ?HS; try done; cbn; apply u8_range.
    + intros n Hn. rewrite HM. destruct (Z.ltb_spec irq 8); cbn [imr with_mask].
      * by rewrite unmask_bits by lia.
      * destruct (Z.eqb_spec n irq); [lia|]. by rewrite andb_true_r.
    + intros n Hn. rewrite HS. destruct (Z.ltb_spec irq 8); cbn [imr with_mask].
      * destruct (Z.eqb_spec n (irq - 8)); [lia|]. by rewrite andb_true_r.
      * by rewrite unmask_bits by lia.
    + rewrite HM. by destruct (irq <? 8).
    + rewrite HS. by destruct (irq <? 8).
  - destruct (pic_send_eoi_spec irq m) as (h & E & HM & HS). exists h. rewrite HM, HS.
    split; [exact E|]. split; [by split; rewrite ?HM, ?HS; destruct (8 <=? irq)|].
    destruct (8 <=? irq); cbn; split_and!; try done; lia.
Qed.

(** A pair of controllers that answer as documented, and a serial line that is
    always ready. *)
Definition pc_dev : device := λ h p,
  if p =? PIC1_DATA then imr (master h) else if p =? PIC2_DATA then imr (slave h) else 0x60.

Lemma pc_dev_pic : pic_device pc_dev.
Proof. by intros h. Qed.

Lemma pc_dev_ready : tx_ready pc_dev.
Proof. intros h. by exists 0%nat. Qed.

Lemma reset_pic_ok : pic_ok (io reset_machine).
Proof. by split. Qed.

Lemma pic_correct_witness :
  ∃ h, pic_unmask_irq pc_dev 0 reset_machine = Ret (Some tt, set_io reset_machine h) ∧ pic_ok h.
Proof.
  destruct (pic_correct pc_dev reset_machine 0x20 0x28 0) as (_ & _ & (h & E & Hok & _) & _);
    [apply pc_dev_pic|apply reset_pic_ok|lia|lia|lia|].
  exists h. split; [exact E|exact Hok].
Defined.

(** C40: [pit_configure_hz] programs channel 0 in mode 3 with the reload value
    [1193182 / hz] when that fits 16 bits, that is for 19 <= hz <= 1193182, and
    does nothing for 0.  Outside that range the value is truncated: below 19 Hz
    only its low 16 bits are kept, so the timer runs faster than asked, and
    above 1193182 Hz it is 0, which the chip takes as 65536. *)
Theorem pit_configure_correct (hz : Z) (m : machine) :
  0 ≤ hz < 2 ^ 32 →
  (hz = 0 → pit_configure_hz hz m = Ret (Some tt, m)) ∧
  (hz ≠ 0 →
   ∃ h, pit_configure_hz hz m = Ret (Some tt, set_io m h) ∧
     pit_of h = mk_pit 3 None ((1193182 / hz) mod 2 ^ 16) ∧
     (19 ≤ hz ≤ 1193182 → reload (pit_of h) * hz ≤ 1193182 < (reload (pit_of h) + 1) * hz ∧ 0 < reload (pit_of h)) ∧
     (hz < 19 → reload (pit_of h) < 1193182 / hz) ∧
     (1193182 < hz → reload (pit_of h) = 0)).
Proof.
  intros Hhz. unfold pit_configure_hz, PIT_BASE_FREQUENCY_HZ.
  destruct (Z.eqb_spec hz 0) as [|Hne]; [done|]. split; [done|]. intros _.
  assert (Hd : 0 ≤ 1193182 / hz) by (apply Z.div_pos; lia).
  set (d := 1193182 / hz) in *.
  exists (Out PIT_CHANNEL0 (u8 (u8 (Z.land (Z.shiftr d 8) 0xFF))) :: Out PIT_CHANNEL0 (u8 (u8 (Z.land d 0xFF)))
          :: Out PIT_COMMAND 0x36 :: io m).
  split; [reflexivity|]. rewrite pit_programmed, divisor_bytes by done. cbn [reload]. unfold d in *.
  pose proof (Z.mul_div_le 1193182 hz ltac:(lia)). pose proof (Z.mul_succ_div_gt 1193182 hz ltac:(lia)).
  split_and!; [done|..]; intros Hr.
  - assert (1193182 / hz < 2 ^ 16) by (apply Z.div_lt_upper_bound; lia).
    assert (0 < 1193182 / hz) by (apply Z.div_str_pos; lia).
    rewrite Z.mod_small by lia. lia.
  - assert (2 ^ 16 ≤ 1193182 / hz) by (apply Z.div_le_lower_bound; lia).
    pose proof (Z.mod_pos_bound (1193182 / hz) (2 ^ 16)). lia.
  - by rewrite Z.div_small by lia.
Qed.

Lemma pit_configure_correct_witness :
  ∃ h, pit_configure_hz 100 reset_machine = Ret (Some tt, set_io reset_machine h) ∧ reload (pit_of h) = 11931.
Proof.
  destruct (proj2 (pit_configure_correct 100 reset_machine ltac:(lia)) ltac:(lia)) as (h & E & P & _).
  exists h. split; [exact E|]. by rewrite P.
Defined.

(** C25: A breakpoint comes back.  With the table [x86_64_idt_init] built, an
    [int3] goes through the gate of vector 3 to its stub and the dispatcher and
    resumes at the next instruction with every register, the stack pointer and
    the flags as they were, for any alignment of the stack and whatever the C
    code leaves in its scratch registers.  One trap is counted, no tick is
    added, and only the 176 bytes below the aligned stack pointer are written. *)
Theorem breakpoint_resumes (dev : device) (garbage stubs : list Z) (int80 idt_addr : Z) (t : idt_state)
    (m0 : machine) :
  length stubs = 32%nat → NoDup stubs → Forall in64 stubs → in64 int80 → in64 idt_addr →
  length (idt t) = 256%nat → log_ok m0 →
  ∃ t' m1, x86_64_idt_init dev garbage stubs int80 idt_addr t m0 = Ret (Some t', m1) ∧
    ∀ c ss cs rip r ram m, in64 ss → in64 cs → in64 rip → Forall in64 (pushed r) → in64 (rsp r) →
      log_ok m → in64 (rflags m) → mem_ok ram →
      let sp := rsp r - rsp r mod 16 in
      256 < sp < 2 ^ 64 - 32 → mapped ram (sp - 176) 176 →
      ∃ ram' m', x86_64_trigger_breakpoint_for_test dev garbage stubs t' c ss cs rip r ram m
          = Ret (Some (r, rip, ram'), m') ∧
        rflags m' = rflags m ∧ trap_count m' = trap_count m ⊕ 1 ∧ g_timer_ticks m' = g_timer_ticks m ∧
        wrote (sp - 176) 176 ram ram'.
Proof.
  intros Hs Hnd Hst H80 Ha Ht Hm.
  destruct (idt_init_spec dev garbage stubs int80 idt_addr t Hs Ht Ha) as (t' & Hr & HP).
  destruct (HP m0 Hm) as (m1 & E & _ & _). exists t', m1. split; [exact E|].
  intros c ss cs rip r ram m Hss Hcs Hrip Hin Hrsp Hlog Hf Hok sp Hsp Hmap.
  destruct (int3_spec dev garbage stubs int80 idt_addr t' c ss cs rip r ram m)
    as (ram1 & ram2 & m' & _ & _ & HW & _ & E3 & R & S); [done..|].
  destruct (says_statics _ _ _ _ S) as [HT HG].
  exists ram2, m'. split_and!; [exact E3|exact R|exact HT|exact HG|exact HW].
Qed.

Lemma demo_stubs_NoDup : NoDup demo_stubs.
Proof. unfold demo_stubs. apply NoDup_fmap_2; [intros i j; lia|apply NoDup_seq]. Qed.

Definition int3_regs : regs := mk_regs 1 2 3 4 5 6 7 8372 8 9 10 11 12 13 14 15.

Lemma int3_regs_in64 : Forall in64 (pushed int3_regs).
Proof. repeat (constructor; [done|]). constructor. Qed.

Lemma breakpoint_resumes_witness :
  ∃ t' m1 ram' m', x86_64_idt_init quiet_dev (repeat 0 11) demo_stubs 0xffffffff80002000 0xffffffff80010000 zero_idt
      reset_machine = Ret (Some t', m1) ∧
    x86_64_trigger_breakpoint_for_test quiet_dev (repeat 0 11) demo_stubs t' int3_regs 0x30 0x28 0xffffffff80003001
      int3_regs trap_ram reset_machine = Ret (Some (int3_regs, 0xffffffff80003001, ram'), m').
Proof.
  destruct (breakpoint_resumes quiet_dev (repeat 0 11) demo_stubs 0xffffffff80002000 0xffffffff80010000 zero_idt reset_machine)
    as (t' & m1 & E & Hall);
    [done|apply demo_stubs_NoDup|apply demo_stubs_in64|done|done|done|apply reset_log_ok|].
  destruct (Hall int3_regs 0x30 0x28 0xffffffff80003001 int3_regs trap_ram reset_machine) as (ram' & m' & E' & _).
  - split; [discriminate|reflexivity].
  - split; [discriminate|reflexivity].
  - split; [discriminate|reflexivity].
  - exact int3_regs_in64.
  - split; [discriminate|reflexivity].
  - apply reset_log_ok.
  - split; [discriminate|reflexivity].
  - apply zero_mem_ok.
  - split; reflexivity.
  - apply (mapped_sub _ 8192 192); [apply zero_mem_mapped|discriminate|discriminate].
  - exists t', m1, ram', m'. split; [exact E|exact E'].
Defined.
