(* ===== verification/Kmain.v ===== *)
(** * Boot

    [src/kernel/core/kmain.c]: the kernel entry point and the callbacks it
    installs for system calls.  The memory, the heap, the descriptor table and
    the system-call layer are threaded explicitly; the ports and the statics of
    the console and the timer are the machine of the monad.

    Parameters: the devices, the addresses the linker assigns ([__kernel_start],
    [__kernel_end], the exception stubs, the system-call stub, the descriptor
    table and the static array [m8_boot_heap]), and the content of the panic
    path's uninitialised buffer. *)

From Stdlib Require Import (notations) String.
From S2P Require Import Prelude Mem Kmem Machine Syscall Console Interrupts.

Definition M8_BOOT_HEAP_SIZE : Z := 64 * 1024.

(** A function of the monad called from outside it.  A callee that halts does
    not come back. *)
Definition call {A} (f : M A) (w : world machine) : outcome (A * world machine) :=
  ' (a, m) ← f w.2;
  match a with Some a => Ret (a, (w.1, m)) | None => OutOfFuel end.

(** The system-call layer called from the monad. *)
Definition enter {A} (f : world machine → outcome (A * world machine)) (ram : mem) : M (A * mem) := λ m,
  ' (a, w) ← f (ram, m);
  Ret (Some (a, w.1), w.2).

Section callbacks.
Context (dev : device).

Definition k_get_ticks (w : world machine) : outcome (Z * world machine) := call timer_ticks w.

Definition k_yield_current (w : world machine) : outcome (world machine) := Ret w.

Definition k_exit_current (code : Z) (w : world machine) : outcome (world machine) := Ret w.

Definition write_step (buf len : Z) (s : Z * world machine)
  : outcome (Z * world machine + world machine) :=
  let '(i, w) := s in
  if i <? len then
    c ← load8 w.1 (buf + i);
    ' (_, w) ← call (serial_putc dev c) w;
    Ret (inl (i ⊕ 1, w))
  else Ret (inr w).

Definition k_write_serial (buf len : Z) (w : world machine) : outcome (Z * world machine) :=
  if buf =? 0 then Ret (-1, w)
  else
    w ← loop (S (Z.to_nat len)) (write_step buf len) (0, w);
    Ret (i64 len, w).

(** The initialiser of [ops] in [kmain]. *)
Definition k_ops : mcsos_syscall_ops machine :=
  mk_ops (Some k_get_ticks) (Some k_yield_current) (Some k_exit_current) (Some k_write_serial).
End callbacks.

Section kmain.
Context (dev : device) (garbage : list Z).
Context (kernel_start kernel_end m8_boot_heap idt_addr x86_64_syscall_int80_stub : Z).
Context (x86_64_exception_stubs : list Z).

Definition kmain_c : option (list Z) := lit "kernel/core/kmain.c".

Definition m8_heap_bootstrap (heap : kmem) (ram : mem) : M (kmem * mem) :=
  r ⇐ mlift (kmem_init heap ram m8_boot_heap M8_BOOT_HEAP_SIZE);
  let '(rc, heap, ram) := r in
  (if negb (rc =? 0) then KERNEL_PANIC dev garbage kmain_c 20 (lit "M8 kmem_init failed") 0x4D3848454150
   else mret tt) ;;
  r ⇐ mlift (kmem_alloc heap ram 128);
  let '(probe, ram) := r in
  (if probe =? 0 then KERNEL_PANIC dev garbage kmain_c 25 (lit "M8 kmem_alloc failed") 0x4D38414C4C4F
   else mret tt) ;;
  r ⇐ mlift (kmem_free_checked heap ram probe);
  let '(rc, ram) := r in
  (if negb (rc =? 0) then KERNEL_PANIC dev garbage kmain_c 29 (lit "M8 kmem_free failed") 0x4D3846524545
   else mret tt) ;;
  st ⇐ mlift (kmem_get_stats heap ram (Some (mk_stats 0 0 0 0 0 0)));
  log_writeln dev (lit "[M8] kernel heap bootstrap OK") ;;
  mret (heap, ram).

Definition m4_selftest (t : idt_state) : M unit :=
  KERNEL_ASSERT dev garbage kmain_c 39 (kernel_start <? kernel_end)
    (lit "assertion failed: __kernel_end > __kernel_start") ;;
  KERNEL_ASSERT dev garbage kmain_c 40 (8 =? 8)
    (lit "assertion failed: sizeof(uintptr_t) == 8u") ;;
  KERNEL_ASSERT dev garbage kmain_c 41 (sizeof_idt_entry =? 16)
    (lit "assertion failed: sizeof(x86_64_idt_entry_t) == 16u") ;;
  KERNEL_ASSERT dev garbage kmain_c 42 (negb (x86_64_idt_base_for_test t =? 0))
    (lit "assertion failed: x86_64_idt_base_for_test() != 0u") ;;
  KERNEL_ASSERT dev garbage kmain_c 43 (x86_64_idt_limit_for_test t =? 4095)
    (lit "assertion failed: x86_64_idt_limit_for_test() == 4095u") ;;
  log_writeln dev (lit "[M4] selftest: IDT invariants passed").

Definition m10_syscall_smoke_direct (g : syscalls machine) (ram : mem) : M mem :=
  r ⇐ enter (mcsos_syscall_dispatch g MCSOS_SYS_PING 0 0 0 0 0 0) ram;
  (if negb (r.1 =? 0x2605020A) then
     KERNEL_PANIC dev garbage kmain_c 80 (lit "M10 syscall ping failed") 0x4D313050494E47
   else mret tt) ;;
  log_writeln dev (lit "[M10] syscall ping ok") ;;
  mret r.2.

(** What the kernel owns besides the machine. *)
Record kernel : Type := mk_kernel {
  k_ram : mem;
  k_heap : kmem;
  k_idt : idt_state;
  k_sys : syscalls machine;
}.

(** [kmain] up to the end of its initialisation. *)
Definition kmain_init (k : kernel) : M kernel :=
  log_init ;;
  log_write dev MCSOS_NAME ;;
  log_write dev (lit " ") ;;
  log_write dev MCSOS_VERSION ;;
  log_write dev (lit " ") ;;
  log_write dev MCSOS_MILESTONE ;;
  log_writeln dev (lit " kernel entered") ;;
  log_key_value_hex64 dev (lit "kernel_start") kernel_start ;;
  log_key_value_hex64 dev (lit "kernel_end") kernel_end ;;
  flags ⇐ cpu_read_rflags;
  log_key_value_hex64 dev (lit "rflags_before_idt") flags ;;
  t ⇐ x86_64_idt_init dev garbage x86_64_exception_stubs x86_64_syscall_int80_stub idt_addr (k_idt k);
  pic_remap dev PIC_MASTER_OFFSET PIC_SLAVE_OFFSET ;;
  pic_mask_all ;;
  pic_unmask_irq dev 0 ;;
  pit_configure_hz 100 ;;
  cpu_sti ;;
  m4_selftest t ;;
  hr ⇐ m8_heap_bootstrap (k_heap k) (k_ram k);
  let g := mcsos_syscall_init (k_sys k) (Some (k_ops dev)) in
  let g := mcsos_syscall_set_user_region g (mk_region 0x400000 0x800000000000) in
  ram ⇐ m10_syscall_smoke_direct g hr.2;
  mret (mk_kernel ram hr.1 t g).

(** The entry point in the build without test triggers. *)
Definition kmain (k : kernel) : M unit :=
  k ⇐ kmain_init k;
  log_writeln dev (lit "[M4] IDT and exception dispatch path installed") ;;
  log_writeln dev (lit "[M4] ready for QEMU smoke test and GDB audit") ;;
  cpu_halt_forever.

(** The entry point built with [MCSOS_M4_TRIGGER_PANIC]. *)
Definition kmain_panic (k : kernel) : M unit :=
  k ⇐ kmain_init k;
  KERNEL_PANIC dev garbage kmain_c 127 (lit "intentional M4 panic test") 0x4D43534F533034.

(** The entry point built with [MCSOS_M4_TRIGGER_BREAKPOINT]: the [int3] runs on
    the boot stack, with the registers [r] at that point and [rip] the address
    behind the instruction. *)
Definition kmain_breakpoint (c : regs) (ss cs rip : Z) (r : regs) (k : kernel) : M unit :=
  k ⇐ kmain_init k;
  log_writeln dev (lit "[M4] triggering intentional breakpoint exception") ;;
  x86_64_trigger_breakpoint_for_test dev garbage x86_64_exception_stubs (k_idt k) c ss cs rip r (k_ram k) ;;
  log_writeln dev (lit "[M4] returned from breakpoint handler") ;;
  log_writeln dev (lit "[M4] IDT and exception dispatch path installed") ;;
  log_writeln dev (lit "[M4] ready for QEMU smoke test and GDB audit") ;;
  cpu_halt_forever.

(** *** The window in which interrupts are enabled *)

(** [kmain] up to its [sti]. *)
Definition kmain_enable (k : kernel) : M kernel :=
  log_init ;;
  log_write dev MCSOS_NAME ;;
  log_write dev (lit " ") ;;
  log_write dev MCSOS_VERSION ;;
  log_write dev (lit " ") ;;
  log_write dev MCSOS_MILESTONE ;;
  log_writeln dev (lit " kernel entered") ;;
  log_key_value_hex64 dev (lit "kernel_start") kernel_start ;;
  log_key_value_hex64 dev (lit "kernel_end") kernel_end ;;
  flags ⇐ cpu_read_rflags;
  log_key_value_hex64 dev (lit "rflags_before_idt") flags ;;
  t ⇐ x86_64_idt_init dev garbage x86_64_exception_stubs x86_64_syscall_int80_stub idt_addr (k_idt k);
  pic_remap dev PIC_MASTER_OFFSET PIC_SLAVE_OFFSET ;;
  pic_mask_all ;;
  pic_unmask_irq dev 0 ;;
  pit_configure_hz 100 ;;
  cpu_sti ;;
  mret (mk_kernel (k_ram k) (k_heap k) t (k_sys k)).

Definition set_ram (k : kernel) (ram : mem) : kernel := mk_kernel ram (k_heap k) (k_idt k) (k_sys k).
Definition set_sys (k : kernel) (g : syscalls machine) : kernel :=
  mk_kernel (k_ram k) (k_heap k) (k_idt k) g.

(** The statements of [kmain] between its [sti] and the [cli] of its halt loop. *)
Definition boot_statements : list (kernel → M kernel) :=
  [ (λ k, m4_selftest (k_idt k) ;; mret k);
    (λ k, hr ⇐ m8_heap_bootstrap (k_heap k) (k_ram k); mret (mk_kernel hr.2 hr.1 (k_idt k) (k_sys k)));
    (λ k, mret (set_sys k (mcsos_syscall_init (k_sys k) (Some (k_ops dev)))));
    (λ k, mret (set_sys k (mcsos_syscall_set_user_region (k_sys k) (mk_region 0x400000 0x800000000000))));
    (λ k, ram ⇐ m10_syscall_smoke_direct (k_sys k) (k_ram k); mret (set_ram k ram));
    (λ k, log_writeln dev (lit "[M4] IDT and exception dispatch path installed") ;; mret k);
    (λ k, log_writeln dev (lit "[M4] ready for QEMU smoke test and GDB audit") ;; mret k) ].

Fixpoint run_statements (ss : list (kernel → M kernel)) (k : kernel) : M kernel :=
  match ss with [] => mret k | s :: ss => k ⇐ s k; run_statements ss k end.

(** [kmain] when the timer interrupt, remapped to [PIC_MASTER_OFFSET], arrives
    after the first [n] of these statements, with the registers [r] and the
    address [rip] of the next instruction. *)
Definition kmain_interrupted (n : nat) (c : regs) (ss cs rip : Z) (r : regs) (k : kernel) : M unit :=
  k ⇐ kmain_enable k;
  k ⇐ run_statements (take n boot_statements) k;
  x ⇐ cpu_external dev garbage x86_64_exception_stubs (k_idt k) PIC_MASTER_OFFSET c ss cs rip r (k_ram k);
  k ⇐ run_statements (drop n boot_statements) (set_ram k x.2);
  cpu_halt_forever.

End kmain.
