(* ===== verification/KmainProofs.v ===== *)
(** * Boot: lemmas

    The callbacks against the interface of the system-call layer, the heap
    self-test, and the boot sequence step by step. *)

From Stdlib Require Import (notations) String.
From S2P Require Import Prelude Mem Kmem KmemProofs KmemBlocks KmemSpecs.
From S2P Require Import Machine Syscall SyscallTheorems Console ConsoleProofs Interrupts InterruptProofs InterruptSpecs Kmain.

(** ** The callbacks *)

(** The [n] bytes at [a]. *)
Definition bytes_at (ram : mem) (a : Z) (n : nat) : list Z :=
  (λ i, default 0 (ram !! (a + Z.of_nat i))) <$> seq 0 n.

Lemma bytes_at_S ram a n :
  bytes_at ram a (S n) = bytes_at ram a n ++ [default 0 (ram !! (a + Z.of_nat n))].
Proof. unfold bytes_at. by rewrite seq_S, fmap_app. Qed.

Lemma crlf_snoc s c : crlf (s ++ [c]) = crlf s ++ crlf1 c.
Proof. unfold crlf. rewrite bind_app. simpl. by rewrite app_nil_r. Qed.

Section callbacks.
Context (dev : device).

Lemma write_loop buf len ram m :
  mapped ram buf len → latched m → 0 ≤ len < 2 ^ 64 →
  ∃ w', loop (S (Z.to_nat len)) (write_step dev buf len) (0, (ram, m)) = Ret w' ∧ w'.1 = ram ∧ latched w'.2 ∧
    rflags w'.2 = rflags m ∧ g_log_ready w'.2 = g_log_ready m ∧
    says dev (crlf (bytes_at ram buf (Z.to_nat len))) m w'.2.
Proof.
  intros Hmap Hm Hlen.
  apply (loop_rule (write_step dev buf len)
    (λ '(i, w'), 0 ≤ i ≤ len ∧ w'.1 = ram ∧ latched w'.2 ∧ rflags w'.2 = rflags m ∧
       g_log_ready w'.2 = g_log_ready m ∧ says dev (crlf (bytes_at ram buf (Z.to_nat i))) m w'.2)
    (λ w', w'.1 = ram ∧ latched w'.2 ∧ rflags w'.2 = rflags m ∧ g_log_ready w'.2 = g_log_ready m ∧
       says dev (crlf (bytes_at ram buf (Z.to_nat len))) m w'.2)
    (λ '(i, _), Z.to_nat (len - i))).
  - intros [i [ram' m']] (Hi & Hram & HL & HR & HG & HS). cbn [fst snd] in *. subst ram'.
    unfold write_step. destruct (Z.ltb_spec i len); last first.
    { eexists. split; [done|]. replace len with i by lia. split_and!; done. }
    destruct (Hmap (buf + i)) as [c Hc]; [lia|]. unfold load8. cbn [fst snd]. rewrite Hc. cbn [obind].
    destruct (emits_putc dev c m' HL) as (m2 & E2 & L2 & R2 & G2 & S2).
    unfold call. cbn [fst snd]. rewrite E2. cbn [obind]. rewrite add64_small by (unfold in64; lia).
    eexists. split; [done|]. cbn [fst snd]. split; [|lia]. rewrite R2, G2.
    split_and!; [lia|lia|done|done|done|done|].
    replace (Z.to_nat (i + 1)) with (S (Z.to_nat i)) by lia. rewrite bytes_at_S, crlf_snoc.
    rewrite Z2Nat.id, Hc by lia. by eapply says_trans.
  - split_and!; try done; try lia. apply says_refl. by intros _.
  - lia.
Qed.

Lemma k_write_serial_spec buf len ram m :
  buf ≠ 0 → mapped ram buf len → latched m → 0 ≤ len < 2 ^ 63 →
  ∃ m', k_write_serial dev buf len (ram, m) = Ret (len, (ram, m')) ∧ latched m' ∧
    rflags m' = rflags m ∧ says dev (crlf (bytes_at ram buf (Z.to_nat len))) m m'.
Proof.
  intros Hb Hmap Hm Hlen. unfold k_write_serial. destruct (Z.eqb_spec buf 0); [done|].
  destruct (write_loop buf len ram m Hmap Hm ltac:(lia)) as ([ram' m'] & -> & Hram & HL & HR & _ & HS).
  cbn [fst snd] in *. subst ram'. cbn [obind]. rewrite i64_small by lia. by exists m'.
Qed.

(** The kernel's system-call layer for a user region. *)
Definition kernel_syscalls (region : mcsos_user_region) : syscalls machine :=
  mcsos_syscall_set_user_region (mcsos_syscall_init syscalls_boot (Some (k_ops dev))) region.

(** The states in which the kernel serves system calls: the user region and the
    stack below [sp] are mapped, and the serial line is set up. *)
Record serving (region : mcsos_user_region) (sp : Z) (w : world machine) : Prop := {
  serving_ok : mem_ok w.1;
  serving_user : mapped w.1 (base region) (limit region - base region);
  serving_stack : mapped w.1 (sp - 64) 64;
  serving_line : latched w.2;
}.

Lemma serving_machine region sp ram m m' : serving region sp (ram, m) → latched m' → serving region sp (ram, m').
Proof. intros [] ?. by split. Qed.

#[export] Instance kernel_backend region sp : SyscallBackend (kernel_syscalls region) (serving region sp).
Proof.
  split.
  - intros f w [= <-] HI. unfold k_get_ticks, call. cbn. destruct w. by eexists _, _.
  - intros f w [= <-] HI. by exists w.
  - intros f w code [= <-] HI _. by exists w.
  - exists (k_write_serial dev). split; [done|]. intros [ram m] buf len HI Hb Hb64 Hlen Hr.
    destruct (k_write_serial_spec buf len ram m) as (m' & E & HL & _); [done| |apply HI|lia|].
    { destruct Hr as [->|(_ & H1 & H2)]; [intros i Hi; lia|].
      eapply mapped_sub; [apply HI|done|cbn in H2 |- *; lia]. }
    exists len, (ram, m'). split; [exact E|]. split; [lia|]. by eapply serving_machine.
Qed.

#[export] Instance kernel_stack region sp : 64 < sp < 2 ^ 64 → KernelStack sp (serving region sp).
Proof.
  intros Hsp. split; [done|by intros w []|].
  intros m m' v [] HW. split; cbn in *; solve [by apply HW | done].
Qed.
End callbacks.

(** ** The heap self-test *)

Definition in_heap (a : Z) (x : Z) : Prop := a ≤ x < a + M8_BOOT_HEAP_SIZE.

Lemma heap_selftest g ram a :
  17 ≤ a → a mod 16 = 0 → a + M8_BOOT_HEAP_SIZE ≤ 2 ^ 64 - 16 → mem_ok ram → mapped ram a M8_BOOT_HEAP_SIZE →
  ∃ g' ram1 ram2 ram3 st, kmem_init g ram a M8_BOOT_HEAP_SIZE = Ret (0, g', ram1) ∧
    kmem_alloc g' ram1 128 = Ret (a + 48, ram2) ∧ kmem_free_checked g' ram2 (a + 48) = Ret (0, ram3) ∧
    kmem_get_stats g' ram3 (Some (mk_stats 0 0 0 0 0 0)) = Ret st ∧
    g_heap_base g' = a ∧ heap_rep g' ram3 [(M8_BOOT_HEAP_SIZE - 48, true)] ∧ changed (in_heap a) ram ram3.
Proof.
  intros Ha Hal He Hok Hm.
  pose proof (kmem_init_spec g ram a M8_BOOT_HEAP_SIZE Ha ltac:(done) He Hok Hm) as Hi.
  assert (Hneg : (- a) mod 16 = 0) by mlia.
  assert (Hst : init_start a = a) by (unfold init_start; lia).
  assert (Hus : init_usable a M8_BOOT_HEAP_SIZE = M8_BOOT_HEAP_SIZE)
    by (unfold init_usable; rewrite Hneg; done).
  rewrite Hst, Hus, decide_True in Hi by done. destruct Hi as (ram1 & E1 & W1 & R1).
  set (g' := mk_kmem a (a + M8_BOOT_HEAP_SIZE) a 1) in *.
  pose proof (kmem_alloc_spec g' ram1 _ R1 128 ltac:(lia)) as HA. cbn in HA.
  destruct HA as (ram2 & E2 & R2 & C2).
  destruct (free_memory g' ram2 [] _ _ R2) as (ram3 & R3 & E3 & C3 & _). cbn in R3.
  rewrite (kmem_validate_spec _ _ _ R3) in E3. cbn in E3.
  pose proof (kmem_get_stats_spec g' ram3 _ R3 (mk_stats 0 0 0 0 0 0)) as E4.
  eexists g', ram1, ram2, ram3, _. split_and!; [exact E1|exact E2|exact E3|exact E4|done|exact R3|].
  eapply changed_trans; [|eapply changed_trans].
  - eapply wrote_changed; [exact W1|]. unfold in_heap, M8_BOOT_HEAP_SIZE. lia.
  - eapply changed_mono; [exact C2|]. intros x [Hx _]. unfold in_heap, M8_BOOT_HEAP_SIZE in *. cbn in Hx. lia.
  - eapply changed_mono; [exact C3|]. intros x Hx. apply in_hdrs_range in Hx; [|apply R2].
    unfold in_heap, M8_BOOT_HEAP_SIZE in *. cbn in Hx. lia.
Qed.

(** ** The parts of the boot sequence that only print *)

Section boot.
Context (dev : device) (garbage : list Z).
Context (kernel_start kernel_end heap_addr idt_addr int80 : Z) (stubs : list Z).

Lemma prints_init : prints dev log_init (Some tt) id [].
Proof.
  intros m _. pose proof (uart_init (io m)) as HU.
  exists (set_log_ready (set_io m (init_events ++ io m)) 1). split; [reflexivity|]. split; [reflexivity|].
  split; cbn [io set_log_ready set_io]; [|exists init_events|intros _; exact (f_equal dlab HU)|done].
  - exists []. split; [|done]. rewrite app_nil_r. exact (f_equal sent HU).
  - split; [done|]. unfold init_events, com1_event, COM1_PORT. repeat (constructor; [lia|]). done.
Qed.

Lemma prints_assert file line e s :
  e = true → prints dev (KERNEL_ASSERT dev garbage file line e s) (Some tt) id [].
Proof. intros ->. apply prints_ret. Qed.

(** Steps of a sequence that print nothing. *)
Lemma prints_silent {A B} (f : M A) (k : A → M B) a ob s :
  prints dev f (Some a) id [] → prints dev (k a) ob id s → prints dev (mbind f k) ob id s.
Proof. apply (prints_bind _ _ _ _ _ id id [] s). Qed.

Lemma prints_selftest t :
  kernel_start < kernel_end → idtr t = mk_idtr 4095 idt_addr → idt_addr ≠ 0 →
  prints dev (m4_selftest dev garbage kernel_start kernel_end t) (Some tt) id
    (bytes "[M4] selftest: IDT invariants passed" ++ [13; 10]).
Proof.
  intros Hk Ht Ha. unfold m4_selftest, x86_64_idt_base_for_test, x86_64_idt_limit_for_test. rewrite Ht. cbn [idtr_base idtr_limit].
  eapply prints_silent; [apply prints_assert; by apply Z.ltb_lt|].
  do 2 (eapply prints_silent; [by apply prints_assert|]).
  eapply prints_silent; [apply prints_assert; by destruct (Z.eqb_spec idt_addr 0)|].
  eapply prints_silent; [by apply prints_assert|].
  apply prints_writeln.
Qed.

Lemma prints_smoke region ram :
  prints dev (m10_syscall_smoke_direct dev garbage (kernel_syscalls dev region) ram) (Some ram) id
    (bytes "[M10] syscall ping ok" ++ [13; 10]).
Proof.
  unfold m10_syscall_smoke_direct.
  apply (prints_silent _ _ (0x2605020A, ram)).
  { intros m Hm. exists m. split; [done|]. split; [done|by apply says_refl]. }
  apply (prints_silent _ _ tt); [apply prints_ret|].
  eapply prints_text; [|apply app_nil_r].
  apply (prints_bind _ _ _ tt _ id id); [apply prints_writeln|apply prints_ret].
Qed.

(** What the loader and the linker give the kernel. *)
Record boot_ok (k : kernel) : Prop := {
  boot_garbage : length garbage = 11%nat;
  boot_image : in64 kernel_start ∧ in64 kernel_end ∧ kernel_start < kernel_end;
  boot_stubs : length stubs = 32%nat ∧ Forall in64 stubs ∧ in64 int80;
  boot_idt : in64 idt_addr ∧ idt_addr ≠ 0 ∧ length (idt (k_idt k)) = 256%nat;
  boot_heap : 17 ≤ heap_addr ∧ heap_addr mod 16 = 0 ∧ heap_addr + M8_BOOT_HEAP_SIZE ≤ 2 ^ 64 - 16;
  boot_ram : mem_ok (k_ram k) ∧ mapped (k_ram k) heap_addr M8_BOOT_HEAP_SIZE;
}.

Lemma prints_heap k :
  boot_ok k →
  ∃ g ram, g_heap_base g = heap_addr ∧ heap_rep g ram [(M8_BOOT_HEAP_SIZE - 48, true)] ∧
    changed (in_heap heap_addr) (k_ram k) ram ∧
    prints dev (m8_heap_bootstrap dev garbage heap_addr (k_heap k) (k_ram k)) (Some (g, ram)) id
      (bytes "[M8] kernel heap bootstrap OK" ++ [13; 10]).
Proof.
  intros [_ _ _ _ (Ha & Hal & He) (Hok & Hm)].
  destruct (heap_selftest (k_heap k) (k_ram k) heap_addr Ha Hal He Hok Hm)
    as (g & ram1 & ram2 & ram3 & st & E1 & E2 & E3 & E4 & Hb & HR & HC).
  exists g, ram3. split_and!; [done..|]. unfold m8_heap_bootstrap.
  eapply prints_silent; [apply prints_lift, E1|]. eapply prints_silent; [apply prints_ret|].
  eapply prints_silent; [apply prints_lift, E2|]. cbv beta iota.
  destruct (Z.eqb_spec (heap_addr + 48) 0); [lia|]. eapply prints_silent; [apply prints_ret|].
  eapply prints_silent; [apply prints_lift, E3|]. eapply prints_silent; [apply prints_ret|].
  eapply prints_silent; [apply prints_lift, E4|].
  eapply prints_text; [|apply app_nil_r].
  apply (prints_bind _ _ _ tt _ id id); [apply prints_writeln|apply prints_ret].
Qed.

(** *** [kmain] as a sequence of statements *)

Abbreviation enable := (kmain_enable dev garbage kernel_start kernel_end idt_addr int80 stubs).
Abbreviation statements := (boot_statements dev garbage kernel_start kernel_end heap_addr).

(** Past a statement both sides start with. *)
Ltac same_statement := repeat first [rewrite mbind_assoc|rewrite mbind_mret]; apply mbind_ext; intros ? ?.

Lemma kmain_init_statements k m :
  kmain_init dev garbage kernel_start kernel_end heap_addr idt_addr int80 stubs k m =
  (k ⇐ enable k; run_statements (take 5 statements) k)%io m.
Proof.
  unfold kmain_init, kmain_enable. do 17 same_statement.
  rewrite mbind_mret. cbn [take boot_statements run_statements]. do 3 same_statement.
  by rewrite mbind_mret.
Qed.

Lemma kmain_statements k m :
  kmain dev garbage kernel_start kernel_end heap_addr idt_addr int80 stubs k m =
  (k ⇐ enable k; k ⇐ run_statements statements k; cpu_halt_forever)%io m.
Proof.
  transitivity ((k ⇐ (k ⇐ enable k; run_statements (take 5 statements) k);
    log_writeln dev (lit "[M4] IDT and exception dispatch path installed") ;;
    log_writeln dev (lit "[M4] ready for QEMU smoke test and GDB audit") ;;
    @cpu_halt_forever unit)%io m); [unfold kmain, mbind at 1 3; by rewrite kmain_init_statements|].
  same_statement. cbn [take boot_statements run_statements]. do 5 same_statement.
  by repeat first [rewrite mbind_assoc|rewrite mbind_mret].
Qed.

(** After the console and the table: the interrupt controllers and the timer. *)
Definition enable_irqs (t : idt_state) (k : kernel) : M kernel :=
  pic_remap dev PIC_MASTER_OFFSET PIC_SLAVE_OFFSET ;;
  pic_mask_all ;;
  pic_unmask_irq dev 0 ;;
  pit_configure_hz 100 ;;
  cpu_sti ;;
  mret (mk_kernel (k_ram k) (k_heap k) t (k_sys k)).

Definition banner_text (flags : Z) : list Z :=
  bytes "MCSOS 260502 M3 kernel entered" ++ [13; 10] ++
  key_value (lit "kernel_start") kernel_start ++ key_value (lit "kernel_end") kernel_end ++
  key_value (lit "rflags_before_idt") flags ++ idt_text idt_addr.

Lemma banner_literals r :
  [] ++ text MCSOS_NAME ++ text (lit " ") ++ text MCSOS_VERSION ++ text (lit " ") ++ text MCSOS_MILESTONE ++
    (text (lit " kernel entered") ++ [13; 10]) ++ r = bytes "MCSOS 260502 M3 kernel entered" ++ [13; 10] ++ r.
Proof. reflexivity. Qed.

Lemma kmain_banner k m :
  boot_ok k → in64 (rflags m) → log_ok m →
  ∃ t m1, idt_ready stubs int80 idt_addr t ∧
    enable k m = enable_irqs t k m1 ∧
    rflags m1 = rflags m ∧ says dev (banner_text (rflags m)) m m1.
Proof.
  intros [_ (Hks & Hke & _) (Hst & _) (Hi & _ & Hl) _ _] Hf Hm.
  destruct (idt_init_spec dev garbage stubs int80 idt_addr (k_idt k) Hst Hl Hi) as (t & Ht & HP).
  exists t. unfold kmain_enable.
  run_print dev prints_init Hm m1 R1 S1.
  run_print dev (prints_write dev MCSOS_NAME) (says_log _ _ _ _ S1) m2 R2 S2.
  run_print dev (prints_write dev (lit " ")) (says_log _ _ _ _ S2) m3 R3 S3.
  run_print dev (prints_write dev MCSOS_VERSION) (says_log _ _ _ _ S3) m4 R4 S4.
  run_print dev (prints_write dev (lit " ")) (says_log _ _ _ _ S4) m5 R5 S5.
  run_print dev (prints_write dev MCSOS_MILESTONE) (says_log _ _ _ _ S5) m6 R6 S6.
  run_print dev (prints_writeln dev (lit " kernel entered")) (says_log _ _ _ _ S6) m7 R7 S7.
  run_print dev (prints_key_value dev (lit "kernel_start") _ Hks) (says_log _ _ _ _ S7) m8 R8 S8.
  run_print dev (prints_key_value dev (lit "kernel_end") _ Hke) (says_log _ _ _ _ S8) m9 R9 S9.
  assert (R : rflags m9 = rflags m) by (rewrite R9, R8, R7, R6, R5, R4, R3, R2, R1; done).
  match goal with |- context [mbind cpu_read_rflags ?K m9] =>
    assert (E : mbind cpu_read_rflags K m9 = K (rflags m9) m9) by done; rewrite E; clear E end.
  cbn beta. rewrite R.
  run_print dev (prints_key_value dev (lit "rflags_before_idt") _ Hf) (says_log _ _ _ _ S9) m10 R10 S10.
  run_print dev HP (says_log _ _ _ _ S10) m11 R11 S11.
  exists m11. split; [exact Ht|]. split; [unfold enable_irqs; reflexivity|]. split; [by rewrite R11, R10|].
  pose proof (says_trans _ _ _ _ _ _ S1 (says_trans _ _ _ _ _ _ S2 (says_trans _ _ _ _ _ _ S3
    (says_trans _ _ _ _ _ _ S4 (says_trans _ _ _ _ _ _ S5 (says_trans _ _ _ _ _ _ S6
    (says_trans _ _ _ _ _ _ S7 (says_trans _ _ _ _ _ _ S8 (says_trans _ _ _ _ _ _ S9
    (says_trans _ _ _ _ _ _ S10 S11)))))))))) as HS.
  rewrite banner_literals in HS. exact HS.
Qed.

(** What each statement after [sti] prints. *)
Definition window_text : list (list Z) :=
  [ bytes "[M4] selftest: IDT invariants passed" ++ [13; 10];
    bytes "[M8] kernel heap bootstrap OK" ++ [13; 10]; []; [];
    bytes "[M10] syscall ping ok" ++ [13; 10];
    bytes "[M4] IDT and exception dispatch path installed" ++ [13; 10];
    bytes "[M4] ready for QEMU smoke test and GDB audit" ++ [13; 10] ].

(** Statements that print their texts and lead through the states [ks]. *)
Inductive says_each : kernel → list (kernel → M kernel) → list (list Z) → list kernel → Prop :=
| says_each_nil k : says_each k [] [] []
| says_each_cons k st ss tx txs k' ks :
    prints dev (st k) (Some k') id tx → says_each k' ss txs ks → says_each k (st :: ss) (tx :: txs) (k' :: ks).

Lemma says_each_length k ss txs ks : says_each k ss txs ks → length ks = length ss.
Proof. induction 1; simpl; congruence. Qed.

Lemma prints_statements k ss txs ks n :
  says_each k ss txs ks →
  prints dev (run_statements (take n ss) k) (Some (default k (last (take n ks)))) id (concat (take n txs)).
Proof.
  intros HS. revert n. induction HS as [k|k st ss tx txs k' ks HP HS IH]; intros n.
  { rewrite !take_nil. apply prints_ret. }
  destruct n as [|n]; [apply prints_ret|]. cbn [take run_statements concat].
  eapply (prints_bind _ _ _ k' _ id id); [exact HP|]. rewrite last_cons.
  specialize (IH n). by destruct (last (take n ks)).
Qed.

(** The statements of [kmain] after its [sti] run and leave the table alone. *)
Lemma window_run t k :
  boot_ok k → idtr t = mk_idtr 4095 idt_addr →
  ∃ g ram ks, let k' := mk_kernel ram g t (kernel_syscalls dev (mk_region 0x400000 0x800000000000)) in
    g_heap_base g = heap_addr ∧ heap_rep g ram [(M8_BOOT_HEAP_SIZE - 48, true)] ∧
    changed (in_heap heap_addr) (k_ram k) ram ∧
    says_each (mk_kernel (k_ram k) (k_heap k) t (k_sys k)) statements window_text ks ∧
    last (take 5 ks) = Some k' ∧ last ks = Some k' ∧
    Forall (λ x, k_idt x = t ∧ (k_ram x = k_ram k ∨ k_ram x = ram)) ks.
Proof.
  intros Hk Ht. destruct (prints_heap k Hk) as (g & ram & Hb & HR & HC & HP).
  destruct Hk as [_ (_ & _ & Hlt) _ (_ & Hne & _) _ _].
  set (k1 := mk_kernel (k_ram k) (k_heap k) t (k_sys k)).
  set (k3 := mk_kernel ram g t (mcsos_syscall_init (k_sys k) (Some (k_ops dev)))).
  set (k4 := mk_kernel ram g t (kernel_syscalls dev (mk_region 0x400000 0x800000000000))).
  exists g, ram, [k1; mk_kernel ram g t (k_sys k); k3; k4; k4; k4; k4]. cbv zeta.
  split; [done|]. split; [done|]. split; [done|]. split; [|split; [done|split; [done|]]].
  2: { repeat (constructor; [split; [done|auto]|]). constructor. }
  assert (Hret : ∀ (x : kernel) tx (f : M unit), prints dev f (Some tt) id tx →
    prints dev (f ;; mret x)%io (Some x) id tx).
  { intros x tx f Hf. eapply prints_text; [|apply app_nil_r].
    apply (prints_bind _ _ _ tt _ id id); [exact Hf|apply prints_ret]. }
  constructor; [apply Hret; by apply prints_selftest|].
  constructor.
  { eapply prints_text; [|apply app_nil_r]. apply (prints_bind _ _ _ (g, ram) _ id id); [exact HP|apply prints_ret]. }
  constructor; [apply prints_ret|]. constructor; [apply prints_ret|]. constructor.
  { eapply prints_text; [|apply app_nil_r].
    apply (prints_bind _ _ _ ram _ id id); [apply prints_smoke|apply prints_ret]. }
  constructor; [apply Hret, prints_writeln|]. constructor; [apply Hret, prints_writeln|]. constructor.
Qed.

(** The controllers and the timer as the kernel wants them: IRQ0 alone is
    unmasked, at vector 0x20, and fires a hundred times a second. *)
Record irqs_ready (h : history) : Prop := {
  irqs_operational : awaits (master h) = 0 ∧ awaits (slave h) = 0;
  irqs_vectors : vec_base (master h) = 0x20 ∧ vec_base (slave h) = 0x28;
  irqs_masks : imr (master h) = 0xFE ∧ imr (slave h) = 0xFF;
  irqs_timer : pit_of h = mk_pit 3 None 11931;
}.

Definition sti_flags (z : Z) : Z := Z.lor z (Z.shiftl 1 9).

Lemma irqs_run t k m :
  pic_device dev → pic_ok (io m) →
  ∃ h, enable_irqs t k m =
      Ret (Some (mk_kernel (k_ram k) (k_heap k) t (k_sys k)), set_rflags (set_io m h) (sti_flags (rflags m))) ∧
    irqs_ready h ∧ uart_of h = uart_of (io m).
Proof.
  intros Hd Hok. unfold enable_irqs.
  rewrite (mbind_Ret _ _ tt _ _ (pic_remap_eq dev PIC_MASTER_OFFSET PIC_SLAVE_OFFSET m Hd Hok ltac:(done) ltac:(done))).
  set (h1 := _ ++ io m).
  assert (M1 : master h1 = mk_chip 0 17 0x20 4 (imr (master (io m))) (eois (master (io m)))) by apply remap_master.
  assert (S1 : slave h1 = mk_chip 0 17 0x28 2 (imr (slave (io m))) (eois (slave (io m)))) by apply remap_slave.
  assert (U1 : uart_of h1 = uart_of (io m)) by done.
  assert (Hok1 : pic_ok h1) by (split; rewrite ?M1, ?S1; cbn; try done; apply Hok).
  destruct (pic_mask_all_spec (set_io m h1) Hok1) as (h2 & E2 & M2 & S2 & U2). cbn [io set_io] in M2, S2, U2.
  rewrite (mbind_Ret _ _ tt _ _ E2). rewrite M1 in M2. rewrite S1 in S2. cbn in M2, S2.
  assert (Hok2 : pic_ok h2) by (split; rewrite ?M2, ?S2; done).
  destruct (pic_unmask_spec dev 0 (set_io (set_io m h1) h2) Hd Hok2 ltac:(lia)) as (h3 & E3 & M3 & S3 & U3).
  cbn [io set_io] in M3, S3, U3. rewrite (mbind_Ret _ _ tt _ _ E3). rewrite M2 in M3. rewrite S2 in S3. cbn in M3, S3.
  set (h4 := Out PIT_CHANNEL0 46 :: Out PIT_CHANNEL0 155 :: Out PIT_COMMAND 0x36 :: h3).
  exists h4. split; [reflexivity|]. split.
  - assert (M4 : master h4 = master h3) by done. assert (S4 : slave h4 = slave h3) by done.
    split; rewrite ?M4, ?S4, ?M3, ?S3; try done.
  - transitivity (uart_of h3); [done|]. by rewrite U3, U2, U1.
Qed.

(** Console output keeps the controllers and the timer. *)
Lemma irqs_says s m m' : irqs_ready (io m) → says dev s m m' → irqs_ready (io m').
Proof.
  intros [H1 H2 H3 H4] HS. destruct (pic_says dev s m m' HS) as [HM HL].
  split; rewrite ?HM, ?HL; try done.
  destruct HS as [_ (h & -> & Hh) _ _]. rewrite <- H4. clear -Hh. induction Hh as [|e h He _ IH]; [done|].
  unfold pit_of in *. cbn [app foldr]. rewrite IH. destruct e as [p v|]; [|done]. cbn in He |- *.
  unfold COM1_PORT, PIT_COMMAND, PIT_CHANNEL0 in *.
  destruct (Z.eqb_spec p 67); [lia|]. by destruct (Z.eqb_spec p 64); [lia|].
Qed.
End boot.
