(* ===== verification/KmainTheorems.v ===== *)
(** * Boot: theorems

    The boot sequence as a whole, and the system calls with the kernel's own
    callbacks. *)

From Stdlib Require Import (notations) String.
From S2P Require Import Prelude Mem Kmem KmemProofs KmemBlocks KmemSpecs.
From S2P Require Import Machine Syscall SyscallTheorems Console ConsoleProofs ConsoleTheorems.
From S2P Require Import Interrupts InterruptProofs InterruptSpecs Kmain KmainProofs.

(** The region [kmain] configures. *)
Definition boot_region : mcsos_user_region := mk_region 0x400000 0x800000000000.

Lemma testbit_sti z : Z.testbit (sti_flags z) 9 = true.
Proof. unfold sti_flags. rewrite Z.lor_spec. apply orb_true_r. Qed.

Lemma sti_in64 z : in64 z → in64 (sti_flags z).
Proof.
  intros Hz. unfold sti_flags. replace (Z.lor z (Z.shiftl 1 9)) with (u64 (Z.lor z (Z.shiftl 1 9))); [apply u64_range|].
  unfold u64. bits_ext n. rewrite testbit_mod_pow2 by lia. destruct (Z.ltb_spec n 64); [done|].
  rewrite Z.lor_spec, (testbit_in64_high z), Z.shiftl_1_l, Z.pow2_bits_eqb by (done || lia).
  by destruct (Z.eqb_spec 9 n); [lia|].
Qed.

(** ** The boot sequence as a whole *)
Section boot.
Context (dev : device) (garbage : list Z).
Context (kernel_start kernel_end heap_addr idt_addr int80 : Z) (stubs : list Z).

Abbreviation init_run := (kmain_init dev garbage kernel_start kernel_end heap_addr idt_addr int80 stubs).
Abbreviation statements := (boot_statements dev garbage kernel_start kernel_end heap_addr).
Abbreviation main_run := (kmain dev garbage kernel_start kernel_end heap_addr idt_addr int80 stubs).

Abbreviation enable := (kmain_enable dev garbage kernel_start kernel_end idt_addr int80 stubs).

(** [kmain] up to its [sti]. *)
Lemma enable_run k m :
  boot_ok garbage kernel_start kernel_end heap_addr idt_addr int80 stubs k →
  pic_device dev → pic_ok (io m) → log_ok m → in64 (rflags m) →
  ∃ t m', enable k m = Ret (Some (mk_kernel (k_ram k) (k_heap k) t (k_sys k)), m') ∧
    idt_ready stubs int80 idt_addr t ∧ irqs_ready (io m') ∧ rflags m' = sti_flags (rflags m) ∧
    log_ok m' ∧ trap_count m' = trap_count m ∧ g_timer_ticks m' = g_timer_ticks m ∧
    (tx_ready dev → sent (uart_of (io m')) =
       sent (uart_of (io m)) ++ banner_text kernel_start kernel_end idt_addr (rflags m)).
Proof.
  intros Hk Hd Hp Hm Hf.
  destruct (kmain_banner dev garbage kernel_start kernel_end heap_addr idt_addr int80 stubs k m Hk Hf Hm)
    as (t & m1 & Ht & -> & R1 & S1).
  destruct (pic_says dev _ m m1 S1) as [HM HL].
  assert (Hp1 : pic_ok (io m1)) by (destruct Hp; split; rewrite ?HM, ?HL; done).
  destruct (irqs_run dev t k m1 Hd Hp1) as (h & -> & HI & HU).
  eexists t, _. split; [reflexivity|]. cbn [io rflags trap_count g_timer_ticks set_rflags set_io].
  destruct (says_statics _ _ _ _ S1) as [T1 G1]. rewrite R1. split_and!; try done.
  - intros Hr. change (dlab (uart_of h) = false). rewrite HU. by apply (says_log _ _ _ _ S1).
  - intros Hr. destruct (says_sent _ _ _ _ S1) as (o1 & E1 & _ & H1). by rewrite HU, E1, (H1 Hr).
Qed.

(** The statements behind it, as many as are wanted. *)
Lemma statements_run k m n :
  boot_ok garbage kernel_start kernel_end heap_addr idt_addr int80 stubs k →
  pic_device dev → pic_ok (io m) → log_ok m → in64 (rflags m) →
  ∃ t k' m', (k ⇐ enable k; run_statements (take n statements) k)%io m = Ret (Some k', m') ∧
    idt_ready stubs int80 idt_addr t ∧ k_idt k' = t ∧ irqs_ready (io m') ∧ rflags m' = sti_flags (rflags m) ∧
    log_ok m' ∧ trap_count m' = trap_count m ∧ g_timer_ticks m' = g_timer_ticks m ∧
    mem_ok (k_ram k') ∧ changed (in_heap heap_addr) (k_ram k) (k_ram k') ∧
    (tx_ready dev → sent (uart_of (io m')) =
       sent (uart_of (io m)) ++ banner_text kernel_start kernel_end idt_addr (rflags m) ++
       concat (take n window_text)) ∧
    ((n = 5 ∨ 7 ≤ n)%nat → g_heap_base (k_heap k') = heap_addr ∧
       heap_rep (k_heap k') (k_ram k') [(M8_BOOT_HEAP_SIZE - 48, true)] ∧
       k_sys k' = kernel_syscalls dev boot_region).
Proof.
  intros Hk Hd Hp Hm Hf.
  destruct (enable_run k m Hk Hd Hp Hm Hf) as (t & m1 & E1 & Ht & HI & R1 & L1 & T1 & G1 & HT1).
  destruct (window_run dev garbage kernel_start kernel_end heap_addr idt_addr int80 stubs t k Hk
    (ready_idtr _ _ _ _ Ht)) as (g & ram & ks & Hb & HR & HC & HS & H5 & H7 & HF).
  pose proof (prints_statements _ _ _ _ _ n HS) as HP.
  destruct (HP m1 L1) as (m2 & E2 & R2 & S2).
  rewrite (mbind_Ret _ _ _ _ _ E1).
  set (k' := default _ _) in *. exists t, k', m2. split; [exact E2|].
  assert (Hk' : k_idt k' = t ∧ (k_ram k' = k_ram k ∨ k_ram k' = ram)).
  { unfold k'. destruct (last (take n ks)) as [x|] eqn:El; cbn [default]; [|by auto].
    apply last_Some_elem_of, elem_of_take in El as (i & Hi & _).
    rewrite Forall_lookup in HF. by apply (HF i). }
  destruct Hk' as [Hidt Hram]. destruct (says_statics _ _ _ _ S2) as [T2 G2].
  split_and!; try done; try congruence.
  - eapply irqs_says; [exact HI|exact S2].
  - rewrite R2. exact R1.
  - apply S2.
  - destruct Hram as [->| ->]; [apply (boot_ram _ _ _ _ _ _ _ _ Hk)|apply HR].
  - destruct Hram as [->| ->]; [apply changed_refl|exact HC].
  - intros Hr. destruct (says_sent _ _ _ _ S2) as (o2 & E3 & _ & H2).
    by rewrite E3, (H2 Hr), (HT1 Hr), (assoc_L (++)).
  - intros Hn. assert (Hlen : length ks = 7%nat) by (by rewrite (says_each_length _ _ _ _ _ HS)).
    assert (Hl : last (take n ks) = last (take 5 ks)).
    { rewrite H5. destruct Hn as [->|Hn]; [done|]. by rewrite take_ge by lia. }
    unfold k'. rewrite Hl, H5. done.
Qed.

Lemma boot_run k m :
  boot_ok garbage kernel_start kernel_end heap_addr idt_addr int80 stubs k →
  pic_device dev → pic_ok (io m) → log_ok m → in64 (rflags m) →
  ∃ k' m', init_run k m = Ret (Some k', m') ∧ log_ok m' ∧
    idt_ready stubs int80 idt_addr (k_idt k') ∧ irqs_ready (io m') ∧ rflags m' = sti_flags (rflags m) ∧
    g_heap_base (k_heap k') = heap_addr ∧
    heap_rep (k_heap k') (k_ram k') [(M8_BOOT_HEAP_SIZE - 48, true)] ∧
    changed (in_heap heap_addr) (k_ram k) (k_ram k') ∧ k_sys k' = kernel_syscalls dev boot_region ∧
    (tx_ready dev → sent (uart_of (io m')) =
       sent (uart_of (io m)) ++ banner_text kernel_start kernel_end idt_addr (rflags m) ++
       concat (take 5 window_text)).
Proof.
  intros Hk Hd Hp Hm Hf.
  destruct (statements_run k m 5 Hk Hd Hp Hm Hf)
    as (t & k' & m' & E & Ht & <- & HI & HR & HL & _ & _ & _ & HC & HT & H5).
  destruct (H5 (or_introl eq_refl)) as (Hb & HP & HS).
  exists k', m'. rewrite kmain_init_statements. done.
Qed.

Lemma main_halts k m :
  boot_ok garbage kernel_start kernel_end heap_addr idt_addr int80 stubs k →
  pic_device dev → pic_ok (io m) → log_ok m → in64 (rflags m) →
  ∃ m', main_run k m = Ret (None, m') ∧ Z.testbit (rflags m') 9 = false ∧
    (tx_ready dev → sent (uart_of (io m')) =
       sent (uart_of (io m)) ++ banner_text kernel_start kernel_end idt_addr (rflags m) ++ concat window_text).
Proof.
  intros Hk Hd Hp Hm Hf.
  destruct (statements_run k m 7 Hk Hd Hp Hm Hf)
    as (t & k' & m1 & E & _ & _ & _ & _ & HL & _ & _ & _ & _ & HT & _).
  destruct (prints_halt (A := unit) dev m1 HL) as (m2 & E2 & R2 & S2).
  exists m2. rewrite kmain_statements, <- mbind_assoc.
  change (run_statements statements) with (run_statements (take 7 statements)).
  rewrite (mbind_Ret _ _ _ _ _ E). split; [exact E2|]. split; [rewrite R2; apply testbit_if_cli|].
  intros Hr. destruct (says_sent _ _ _ _ S2) as (o2 & E3 & _ & H2). rewrite E3, (H2 Hr), (HT Hr). apply app_nil_r.
Qed.

(** The timer interrupt after the first [n] statements behind [sti]. *)
Lemma interrupted_run n c ss cs rip r k m :
  boot_ok garbage kernel_start kernel_end heap_addr idt_addr int80 stubs k → NoDup stubs →
  pic_device dev → pic_ok (io m) → log_ok m → in64 (rflags m) →
  in64 ss → in64 cs → in64 rip → Forall in64 (pushed r) → in64 (rsp r) →
  let sp := rsp r - rsp r mod 16 in
  256 < sp < 2 ^ 64 - 32 → mapped (k_ram k) (sp - 176) 176 →
  ∃ m' ram' ds,
    kmain_interrupted dev garbage kernel_start kernel_end heap_addr idt_addr int80 stubs n c ss cs rip r k m =
      Ret (None, m') ∧
    Z.testbit (rflags m') 9 = false ∧ trap_count m' = trap_count m ⊕ 1 ∧ g_timer_ticks m' = g_timer_ticks m ∧
    is_decimal 85 ds ∧
    (tx_ready dev → sent (uart_of (io m')) =
       sent (uart_of (io m)) ++ banner_text kernel_start kernel_end idt_addr (rflags m) ++
       concat (take n window_text) ++ np_text ds ram' (sp - 176) (cli_flags (sti_flags (rflags m)))).
Proof.
  intros Hk Hnd Hd Hp Hm Hf Hss Hcs Hrip Hin Hrsp sp Hsp Hmap.
  destruct (statements_run k m n Hk Hd Hp Hm Hf)
    as (t & k' & m1 & E & Ht & Hidt & _ & R1 & L1 & T1 & G1 & Hok & HC & HT & _).
  destruct Hk as [Hg _ (Hs & Hst & _) _ _ _].
  destruct (timer_irq_panics dev garbage stubs int80 idt_addr t c ss cs rip r (k_ram k') m1)
    as (m2 & ram2 & ds & E2 & HI & Hds & S2); rewrite ?R1; try done;
    [by apply sti_in64|apply testbit_sti|by apply HC|].
  exists m2, ram2, ds. unfold kmain_interrupted. rewrite <- mbind_assoc, (mbind_Ret _ _ _ _ _ E).
  split. { unfold mbind. by rewrite Hidt, E2. }
  destruct (says_statics _ _ _ _ S2) as [T2 G2].
  split_and!; [done|rewrite T2; cbn; by rewrite T1|rewrite G2; exact G1|done|].
  intros Hr. destruct (says_sent _ _ _ _ S2) as (o2 & E3 & _ & H2).
  rewrite E3, (H2 Hr), <- R1. cbn [io counted set_trap_count]. rewrite (HT Hr), <- !(assoc_L (++)). done.
Qed.
End boot.

(** ** System calls through the stub *)

Lemma bytes_at_outside ram ram' a n b k :
  wrote b k ram ram' → a + Z.of_nat n ≤ b ∨ b + k ≤ a → bytes_at ram' a n = bytes_at ram a n.
Proof.
  intros HW Hd. unfold bytes_at. apply list_fmap_ext. intros i j Hj.
  apply lookup_seq in Hj as [-> Hj]. by rewrite (wrote_outside _ _ _ _ HW) by lia.
Qed.

(** The stub around a system call that leaves the memory alone. *)
Lemma int80_run dev region (c r : regs) ram m ret (Q : machine → Prop) :
  64 < rsp r < 2 ^ 64 → mapped ram (rsp r - 64) 64 → regs_ok r →
  (∀ ram1, wrote (rsp r - 64) 64 ram ram1 → ∃ m1,
     mcsos_syscall_dispatch (kernel_syscalls dev region) (rax r) (rdi r) (rsi r) (rdx r) (r10 r) (r8 r) (r9 r) (ram1, m)
       = Ret (ret, (ram1, m1)) ∧ Q m1) →
  ∃ ram2 m1, x86_64_syscall_int80_stub c (kernel_syscalls dev region) r (ram, m) =
      Ret (set_rax (after_call c r) (u64 ret), (ram2, m1)) ∧ wrote (rsp r - 64) 64 ram ram2 ∧ Q m1.
Proof.
  intros Hsp Hm Hr HD.
  destruct (int80_enters c (kernel_syscalls dev region) r (ram, m) Hm Hsp Hr) as (ram1 & HW & ->).
  cbn [fst snd] in *. destruct (HD ram1 HW) as (m1 & -> & HQ). cbn [obind fst snd].
  destruct (store64_wrote ram1 (rsp r - 64 + 56) (u64 ret)) as (ram2 & -> & HW2 & HL);
    [apply HW; eapply mapped_sub; [exact Hm|lia..]|apply u64_range|].
  cbn [obind]. rewrite HL. cbn [obind]. exists ram2, m1. split; [done|]. split; [|done].
  eapply wrote_trans; [exact HW|]. eapply wrote_weaken; [exact HW2|lia..].
Qed.

(** A buffer for [write_serial] that does not overlap the stub's frame. *)
Definition user_buffer (region : mcsos_user_region) (r : regs) : Prop :=
  rdi r ≠ 0 ∧ rsi r ≤ 4096 ∧ user_range region (rdi r) (rsi r) ∧
  (rdi r + rsi r ≤ rsp r - 64 ∨ rsp r ≤ rdi r).

Lemma write_dispatch dev region (r : regs) ram ram1 m :
  user_region_ok region → regs_ok r → rax r = MCSOS_SYS_WRITE_SERIAL → user_buffer region r →
  serving region (rsp r) (ram, m) → wrote (rsp r - 64) 64 ram ram1 →
  ∃ m1, mcsos_syscall_dispatch (kernel_syscalls dev region) (rax r) (rdi r) (rsi r) (rdx r) (r10 r) (r8 r) (r9 r) (ram1, m)
      = Ret (rsi r, (ram1, m1)) ∧
    latched m1 ∧ says dev (crlf (bytes_at ram (rdi r) (Z.to_nat (rsi r)))) m m1.
Proof.
  intros Hreg (_ & H0 & H1 & _) Hnr (Hb & Hlen & Hin & Hdis) HS HW.
  destruct (k_write_serial_spec dev (rdi r) (rsi r) ram1 m) as (m1 & E & HL & _ & HT).
  - done.
  - apply HW. destruct Hin as [->|(_ & ? & ?)]; [intros i Hi; lia|].
    eapply mapped_sub; [apply HS|done|lia].
  - apply HS.
  - unfold in64 in H1. lia.
  - exists m1. rewrite Hnr, (dispatch_entry _ _ _ _ _ _ _ _ MCSOS_SYS_WRITE_SERIAL sys_write_serial) by done.
    rewrite write_serial_eq by done. rewrite decide_False by lia. rewrite decide_True by done.
    split; [exact E|]. split; [done|].
    rewrite (bytes_at_outside ram ram1 _ _ (rsp r - 64) 64) in HT; [exact HT|done|unfold in64 in *; lia].
Qed.

(** ** A concrete boot *)

(** Controllers that answer reads with their masks, a serial line always ready. *)
Definition board : device := λ h p,
  if p =? PIC1_DATA then imr (master h) else if p =? PIC2_DATA then imr (slave h) else 0x60.

Lemma board_pic : pic_device board.
Proof. by intros h. Qed.

(** Stubs at distinct addresses, the heap array at 0x100000 and the stack below
    0x200000. *)
Definition stack_kernel : kernel :=
  mk_kernel (zero_mem 0x100000 0x100000) kmem_boot
    (mk_idt (replicate 256 (mk_entry 0 0 0 0 0 0 0)) (mk_idtr 0 0) None) syscalls_boot.
Definition distinct_stubs : list Z := (λ i, 0xffffffff80001000 + 16 * Z.of_nat i) <$> seq 0 32.
Definition boot_regs : regs := mk_regs 1 2 3 4 5 6 7 0x1ffff8 8 9 10 11 12 13 14 15.

Lemma stack_boot_ok :
  boot_ok (repeat 0 11) 0xffffffff80000000 0xffffffff80020000 0x100000 0xffffffff80010000 0xffffffff80002000
    distinct_stubs stack_kernel.
Proof.
  split.
  - done.
  - done.
  - split; [done|]. split; [|done]. unfold distinct_stubs. cbn. repeat (constructor; [done|]). constructor.
  - done.
  - done.
  - split; [apply zero_mem_ok|]. apply (mapped_sub _ 0x100000 0x100000); [apply zero_mem_mapped|discriminate|discriminate].
Qed.

Lemma boot_regs_in64 : Forall in64 (pushed boot_regs).
Proof. repeat (constructor; [done|]). constructor. Qed.

Lemma distinct_stubs_NoDup : NoDup distinct_stubs.
Proof. unfold distinct_stubs. apply NoDup_fmap_2; [intros i j; lia|apply NoDup_seq]. Qed.

(** ** Theorems *)

(** C14: What booting does, with and without a timer tick.  [kmain] is its part up
    to [sti], the seven statements behind it, and the halt loop.  If no interrupt
    is delivered between the [sti] and the [cli] of the halt loop, it boots: the
    initialisation returns with the descriptor table built and loaded, both
    interrupt controllers in operation at vectors 0x20 and 0x28 with IRQ0 alone
    unmasked, the timer at 1193182/11931 Hz, interrupts enabled, the heap
    initialised over its 64 KiB array (one free block after the self-test, no
    byte outside changed) and the kernel's callbacks and user region installed;
    [kmain] ends in the halt loop with interrupts disabled, and if the serial
    line keeps up it carries the complete boot log.  But that window is open:
    wherever in it, between two statements, the timer interrupt arrives, the
    boot is lost: the vector has no gate, exception 11 is raised, and the
    kernel ends in the panic's halt loop, having sent the log so far and the
    report of the exception. *)
Theorem kmain_boots (dev : device) (garbage : list Z) (kernel_start kernel_end heap_addr idt_addr int80 : Z)
    (stubs : list Z) (k : kernel) (m : machine) :
  boot_ok garbage kernel_start kernel_end heap_addr idt_addr int80 stubs k →
  pic_device dev → pic_ok (io m) → log_ok m → in64 (rflags m) →
  let banner := banner_text kernel_start kernel_end idt_addr (rflags m) in
  let statements := boot_statements dev garbage kernel_start kernel_end heap_addr in
  kmain dev garbage kernel_start kernel_end heap_addr idt_addr int80 stubs k m =
    (k ⇐ kmain_enable dev garbage kernel_start kernel_end idt_addr int80 stubs k;
     k ⇐ run_statements statements k; cpu_halt_forever)%io m ∧
  (∃ k' m', kmain_init dev garbage kernel_start kernel_end heap_addr idt_addr int80 stubs k m = Ret (Some k', m') ∧
     idt_ready stubs int80 idt_addr (k_idt k') ∧ irqs_ready (io m') ∧ Z.testbit (rflags m') 9 = true ∧
     heap_rep (k_heap k') (k_ram k') [(M8_BOOT_HEAP_SIZE - 48, true)] ∧
     changed (in_heap heap_addr) (k_ram k) (k_ram k') ∧ k_sys k' = kernel_syscalls dev boot_region) ∧
  (∃ m', kmain dev garbage kernel_start kernel_end heap_addr idt_addr int80 stubs k m = Ret (None, m') ∧
     Z.testbit (rflags m') 9 = false ∧
     (tx_ready dev → sent (uart_of (io m')) = sent (uart_of (io m)) ++ banner ++ concat window_text)) ∧
  (∀ n c ss cs rip r, NoDup stubs → in64 ss → in64 cs → in64 rip → Forall in64 (pushed r) → in64 (rsp r) →
     let sp := rsp r - rsp r mod 16 in
     256 < sp < 2 ^ 64 - 32 → mapped (k_ram k) (sp - 176) 176 →
     ∃ m' ram' ds,
       kmain_interrupted dev garbage kernel_start kernel_end heap_addr idt_addr int80 stubs n c ss cs rip r k m =
         Ret (None, m') ∧
       Z.testbit (rflags m') 9 = false ∧ trap_count m' = trap_count m ⊕ 1 ∧ g_timer_ticks m' = g_timer_ticks m ∧
       is_decimal 85 ds ∧
       (tx_ready dev → sent (uart_of (io m')) = sent (uart_of (io m)) ++ banner ++ concat (take n window_text) ++
          np_text ds ram' (sp - 176) (cli_flags (sti_flags (rflags m))))).
Proof.
  intros Hk Hd Hp Hm Hf banner statements. split; [apply kmain_statements|]. split; [|split].
  - destruct (boot_run dev garbage kernel_start kernel_end heap_addr idt_addr int80 stubs k m Hk Hd Hp Hm Hf)
      as (k' & m' & E & Hm' & Ht & Hi & Hr & _ & HR & HC & HS & _).
    exists k', m'. split_and!; try done. rewrite Hr. apply testbit_sti.
  - by apply main_halts.
  - intros n c ss cs rip r Hnd. by apply interrupted_run.
Qed.

Lemma kmain_boots_witness :
  (∃ m', kmain board (repeat 0 11) 0xffffffff80000000 0xffffffff80020000 0x100000 0xffffffff80010000
      0xffffffff80002000 distinct_stubs stack_kernel reset_machine = Ret (None, m')) ∧
  ∃ m', kmain_interrupted board (repeat 0 11) 0xffffffff80000000 0xffffffff80020000 0x100000 0xffffffff80010000
      0xffffffff80002000 distinct_stubs 2 boot_regs 0x30 0x28 0xffffffff80003001 boot_regs stack_kernel reset_machine
    = Ret (None, m') ∧ trap_count m' = 1.
Proof.
  destruct (kmain_boots board (repeat 0 11) 0xffffffff80000000 0xffffffff80020000 0x100000 0xffffffff80010000
    0xffffffff80002000 distinct_stubs stack_kernel reset_machine stack_boot_ok board_pic)
    as (_ & _ & (m1 & E1 & _) & HI).
  - by split.
  - apply reset_log_ok.
  - split; [discriminate|reflexivity].
  - split; [exists m1; exact E1|].
    destruct (HI 2%nat boot_regs 0x30 0x28 0xffffffff80003001 boot_regs distinct_stubs_NoDup)
      as (m2 & ram2 & ds & E2 & _ & HT & _).
    + split; [discriminate|reflexivity].
    + split; [discriminate|reflexivity].
    + split; [discriminate|reflexivity].
    + exact boot_regs_in64.
    + split; [discriminate|reflexivity].
    + split; reflexivity.
    + apply (mapped_sub _ 0x100000 0x100000); [apply zero_mem_mapped|discriminate|discriminate].
    + exists m2. split; [exact E2|exact HT].
Defined.

(** C23: System calls with the kernel's own callbacks, through [int 0x80].  In
    every state in which the kernel serves calls, [write_serial] on a user
    buffer returns the number of its bytes and sends them to the serial line in
    order, a CR before each LF: all of them if the line keeps up, and otherwise
    without those for which the line stayed busy too long, which are dropped
    although the full number is returned.  [get_ticks] returns the tick counter.
    The kernel is ready for the next call, the stack pointer is restored, and
    the only memory written is the stub's frame. *)
Theorem kernel_int80_correct (dev : device) (region : mcsos_user_region) (c r : regs) (ram : mem) (m : machine) :
  user_region_ok region → regs_ok r → 64 < rsp r < 2 ^ 64 → serving region (rsp r) (ram, m) →
  (rax r = MCSOS_SYS_WRITE_SERIAL → user_buffer region r →
   ∃ r' ram' m', x86_64_syscall_int80_stub c (kernel_syscalls dev region) r (ram, m) = Ret (r', (ram', m')) ∧
     i64 (rax r') = rsi r ∧ rsp r' = rsp r ∧ wrote (rsp r - 64) 64 ram ram' ∧ serving region (rsp r) (ram', m') ∧
     ∃ out, sent (uart_of (io m')) = sent (uart_of (io m)) ++ out ∧
       out `sublist_of` crlf (bytes_at ram (rdi r) (Z.to_nat (rsi r))) ∧
       (tx_ready dev → out = crlf (bytes_at ram (rdi r) (Z.to_nat (rsi r))))) ∧
  (rax r = MCSOS_SYS_GET_TICKS →
   ∃ r' ram', x86_64_syscall_int80_stub c (kernel_syscalls dev region) r (ram, m) = Ret (r', (ram', m)) ∧
     i64 (rax r') = i64 (g_timer_ticks m) ∧ rsp r' = rsp r ∧ wrote (rsp r - 64) 64 ram ram' ∧
     serving region (rsp r) (ram', m)).
Proof.
  intros Hreg Hr Hsp HS. pose proof (stack_frame (KernelStack := kernel_stack region (rsp r) Hsp)) as Hfr.
  split; intros Hnr.
  - intros Hbuf. pose proof Hbuf as (_ & Hlen & _). pose proof Hr as (_ & _ & H1 & _). unfold in64 in H1.
    destruct (int80_run dev region c r ram m (rsi r)
      (λ m1, latched m1 ∧ says dev (crlf (bytes_at ram (rdi r) (Z.to_nat (rsi r)))) m m1))
      as (ram2 & m1 & E & HW & HL & HT); [done|apply HS|done| |].
    { intros ram1 HW. by apply write_dispatch. }
    eexists _, ram2, m1. split; [exact E|]. split_and!; [apply i64_u64; lia|done|done| |apply HT].
    eapply Hfr; [|exact HW]. by eapply serving_machine.
  - destruct (int80_run dev region c r ram m (i64 (g_timer_ticks m)) (λ m1, m1 = m))
      as (ram2 & m1 & E & HW & ->); [done|apply HS|done| |].
    { intros ram1 _. exists m. split; [|done].
      rewrite Hnr, (dispatch_entry _ _ _ _ _ _ _ _ MCSOS_SYS_GET_TICKS sys_get_ticks) by done. done. }
    eexists _, ram2. split; [exact E|]. split_and!; [apply i64_u64, i64_range|done|done|].
    eapply Hfr; [exact HS|exact HW].
Qed.

(** A user region of 16 bytes, the kernel stack behind it. *)
Definition small_region : mcsos_user_region := mk_region 4096 4112.
Definition user_regs : regs := mk_regs 2 0 0 0 3 4096 0 4192 0 0 0 0 0 0 0 0.
Definition ready_machine : machine := mk_machine init_events 2 1 0 0.

Lemma small_serving : serving small_region 4192 (zero_mem 4096 96, ready_machine).
Proof.
  split; cbn [fst snd].
  - apply zero_mem_ok.
  - apply (mapped_sub _ 4096 96); [apply zero_mem_mapped|by cbn|by cbn].
  - apply (mapped_sub _ 4096 96); [apply zero_mem_mapped|by cbn|by cbn].
  - reflexivity.
Qed.

Lemma kernel_int80_correct_witness :
  ∃ r' ram' m', x86_64_syscall_int80_stub user_regs (kernel_syscalls board small_region) user_regs
      (zero_mem 4096 96, ready_machine) = Ret (r', (ram', m')) ∧ i64 (rax r') = 3 ∧ rsp r' = 4192.
Proof.
  destruct (kernel_int80_correct board small_region user_regs user_regs (zero_mem 4096 96) ready_machine)
    as [HW _].
  - by split.
  - by repeat split.
  - by split.
  - exact small_serving.
  - destruct HW as (r' & ram' & m' & E & Hret & Hsp & _).
    + reflexivity.
    + split; [done|]. split; [done|]. split; [right; done|left; done].
    + exists r', ram', m'. split; [exact E|]. split; [exact Hret|exact Hsp].
Defined.

(** The two test builds do what they are for.  The breakpoint build comes
    back from its [int3] with one trap counted and reaches the halt loop; the
    panic build ends in the halt loop with its report sent.  Both stop with
    interrupts disabled. *)
Theorem kmain_test_builds (dev : device) (garbage : list Z) (kernel_start kernel_end heap_addr idt_addr int80 : Z)
    (stubs : list Z) (k : kernel) (m : machine) (c r : regs) (ss cs rip : Z) :
  boot_ok garbage kernel_start kernel_end heap_addr idt_addr int80 stubs k → NoDup stubs →
  pic_device dev → pic_ok (io m) → log_ok m → in64 (rflags m) →
  in64 ss → in64 cs → in64 rip → Forall in64 (pushed r) → in64 (rsp r) →
  let sp := rsp r - rsp r mod 16 in
  256 < sp < 2 ^ 64 - 32 → mapped (k_ram k) (sp - 176) 176 →
  (∃ k' m' m'', kmain_init dev garbage kernel_start kernel_end heap_addr idt_addr int80 stubs k m = Ret (Some k', m') ∧
     kmain_breakpoint dev garbage kernel_start kernel_end heap_addr idt_addr int80 stubs c ss cs rip r k m =
       Ret (None, m'') ∧ Z.testbit (rflags m'') 9 = false ∧ trap_count m'' = trap_count m' ⊕ 1) ∧
  (∃ k' m' m'' ds, kmain_init dev garbage kernel_start kernel_end heap_addr idt_addr int80 stubs k m = Ret (Some k', m') ∧
     kmain_panic dev garbage kernel_start kernel_end heap_addr idt_addr int80 stubs k m = Ret (None, m'') ∧
     Z.testbit (rflags m'') 9 = false ∧ is_decimal 127 ds ∧
     says dev (panic_text kmain_c ds (lit "intentional M4 panic test") 0x4D43534F533034 (rflags m')) m' m'').
Proof.
  intros Hk Hnd Hd Hp Hm Hf Hss Hcs Hrip Hin Hrsp sp Hsp Hmap.
  destruct (boot_run dev garbage kernel_start kernel_end heap_addr idt_addr int80 stubs k m Hk Hd Hp Hm Hf)
    as (k' & m' & E & Hm' & Ht & _ & Hr & _ & HR & HC & _).
  assert (Hf' : in64 (rflags m')) by (rewrite Hr; by apply sti_in64).
  destruct Hk as [Hg _ (Hs & Hst & _) _ _ _]. split.
  - exists k', m'. unfold kmain_breakpoint. rewrite (mbind_Ret _ _ k' _ _ E).
    run_print dev (prints_writeln dev (lit "[M4] triggering intentional breakpoint exception")) Hm' m1 R1 S1.
    destruct (int3_spec dev garbage stubs int80 idt_addr (k_idt k') c ss cs rip r (k_ram k') m1)
      as (ram1 & ram2 & m2 & _ & _ & _ & _ & E2 & R2 & S2); [done|done|done|done|apply S1|by rewrite R1|done..|apply HR|done|by apply HC|].
    rewrite (mbind_Ret _ _ _ _ _ E2).
    run_print dev (prints_writeln dev (lit "[M4] returned from breakpoint handler")) (says_log _ _ _ _ S2) m3 R3 S3.
    run_print dev (prints_writeln dev (lit "[M4] IDT and exception dispatch path installed")) (says_log _ _ _ _ S3) m4 R4 S4.
    run_print dev (prints_writeln dev (lit "[M4] ready for QEMU smoke test and GDB audit")) (says_log _ _ _ _ S4) m5 R5 S5.
    destruct (prints_halt (A := unit) dev m5 (says_log _ _ _ _ S5)) as (m6 & E6 & R6 & S6).
    exists m6. split; [exact E|]. split; [exact E6|]. split; [rewrite R6; apply testbit_if_cli|].
    destruct (says_statics _ _ _ _ S1) as [T1 _], (says_statics _ _ _ _ S2) as [T2 _], (says_statics _ _ _ _ S3) as [T3 _],
      (says_statics _ _ _ _ S4) as [T4 _], (says_statics _ _ _ _ S5) as [T5 _], (says_statics _ _ _ _ S6) as [T6 _].
    rewrite T6, T5, T4, T3, T2. unfold counted. cbn [trap_count set_trap_count]. by rewrite T1.
  - destruct (panic_spec (A := unit) dev garbage kmain_c 127 (lit "intentional M4 panic test") 0x4D43534F533034 m')
      as (ds & m2 & Hds & E2 & R2 & S2); [done|done|done|done|].
    exists k', m', m2, ds. split; [exact E|]. unfold kmain_panic. rewrite (mbind_Ret _ _ k' _ _ E).
    split; [exact E2|]. split; [rewrite R2; apply testbit_if_cli|]. split; [exact Hds|exact S2].
Qed.

Lemma kmain_test_builds_witness :
  ∃ m'', kmain_breakpoint board (repeat 0 11) 0xffffffff80000000 0xffffffff80020000 0x100000 0xffffffff80010000
      0xffffffff80002000 distinct_stubs boot_regs 0x30 0x28 0xffffffff80003001 boot_regs stack_kernel reset_machine
    = Ret (None, m'') ∧ Z.testbit (rflags m'') 9 = false.
Proof.
  destruct (kmain_test_builds board (repeat 0 11) 0xffffffff80000000 0xffffffff80020000 0x100000 0xffffffff80010000
    0xffffffff80002000 distinct_stubs stack_kernel reset_machine boot_regs boot_regs 0x30 0x28 0xffffffff80003001
    stack_boot_ok) as [(k' & m' & m'' & _ & E & HI & _) _].
  - apply distinct_stubs_NoDup.
  - apply board_pic.
  - by split.
  - apply reset_log_ok.
  - split; [discriminate|reflexivity].
  - split; [discriminate|reflexivity].
  - split; [discriminate|reflexivity].
  - split; [discriminate|reflexivity].
  - exact boot_regs_in64.
  - split; [discriminate|reflexivity].
  - split; reflexivity.
  - apply (mapped_sub _ 0x100000 0x100000); [apply zero_mem_mapped|discriminate|discriminate].
  - exists m''. split; [exact E|exact HI].
Defined.
