(* ===== verification/Layout.v ===== *)
(** * Struct layouts

    How the compiler lays out the structs that assembly code and pointer
    arithmetic also address: the System V rules for x86_64 (a scalar is aligned
    to its size, a member starts at the next multiple of its alignment, a struct
    is padded to a multiple of its largest member alignment; a packed struct has
    neither padding nor alignment).  The declarations of the headers are data
    here, and [offsetof], [sizeof] and the member accesses are computed from
    them. *)

From Stdlib Require Import (notations) String.
From S2P Require Import Prelude Mem.
#[local] Set Warnings "-register-all".
#[local] Open Scope string_scope.
#[local] Open Scope Z_scope.

Abbreviation string := String.string.

#[global] Instance string_eq_dec : EqDecision string := String.string_dec.

(** ** Types *)

(** A scalar of 1, 2, 4 or 8 bytes, or a struct with its members in order. *)
Inductive ctype : Type :=
| CScalar (bytes : Z)
| CStruct (packed : bool) (members : list (string * ctype)).

Definition uint8_t : ctype := CScalar 1.
Definition uint16_t : ctype := CScalar 2.
Definition uint32_t : ctype := CScalar 4.
Definition uint64_t : ctype := CScalar 8.
Definition int64_t : ctype := CScalar 8.
Definition size_t : ctype := CScalar 8.
Definition int : ctype := CScalar 4.
(** Every enumeration of the sources fits an [int]. *)
Definition enum : ctype := CScalar 4.
Definition pointer : ctype := CScalar 8.

Abbreviation members := (list (string * ctype)).

(** ** The rules *)

(** The least multiple of [a] from [off] on. *)
Definition round_up (off a : Z) : Z := (off + (a - 1)) / a * a.

Fixpoint alignof (t : ctype) : Z :=
  match t with
  | CScalar n => n
  | CStruct true _ => 1
  | CStruct false ms =>
      (fix go (ms : members) : Z :=
         match ms with [] => 1 | (_, t) :: ms => Z.max (alignof t) (go ms) end) ms
  end.

(** Where a member goes that follows [off] bytes. *)
Definition start (packed : bool) (off : Z) (t : ctype) : Z :=
  if packed then off else round_up off (alignof t).

Fixpoint sizeof (t : ctype) : Z :=
  match t with
  | CScalar n => n
  | CStruct packed ms =>
      round_up
        ((fix go (ms : members) (off : Z) : Z :=
            match ms with [] => off | (_, t) :: ms => go ms (start packed off t + sizeof t) end) ms 0)
        (alignof t)
  end.

(** The members with their offsets, from [off] on, and where they end. *)
Fixpoint place (packed : bool) (ms : members) (off : Z) : list (string * ctype * Z) :=
  match ms with
  | [] => []
  | (x, t) :: ms => (x, t, start packed off t) :: place packed ms (start packed off t + sizeof t)
  end.

Fixpoint extent (packed : bool) (ms : members) (off : Z) : Z :=
  match ms with
  | [] => off
  | (_, t) :: ms => extent packed ms (start packed off t + sizeof t)
  end.

Definition placed (t : ctype) : list (string * ctype * Z) :=
  match t with CScalar _ => [] | CStruct packed ms => place packed ms 0 end.

Definition member (t : ctype) (x : string) : option (ctype * Z) :=
  match list_find (λ p, p.1.1 = x) (placed t) with
  | Some (_, (_, u, off)) => Some (u, off)
  | None => None
  end.

Definition offsetof (t : ctype) (x : string) : Z :=
  match member t x with Some (_, off) => off | None => 0 end.

(** Reading and writing the scalar member [x] of the object at [p]. *)
Definition load_member (t : ctype) (x : string) (m : mem) (p : Z) : outcome Z :=
  match member t x with
  | Some (u, off) => load_le (Z.to_nat (sizeof u)) m (p + off)
  | None => UB
  end.

Definition store_member (t : ctype) (x : string) (m : mem) (p v : Z) : outcome mem :=
  match member t x with
  | Some (u, off) => store_le (Z.to_nat (sizeof u)) m (p + off) v
  | None => UB
  end.

(** ** The declarations *)

Definition kmem_block_t : ctype := CStruct false
  [("magic", uint64_t); ("size", size_t); ("free", int); ("reserved", uint32_t);
   ("reserved2", uint64_t); ("prev", pointer); ("next", pointer)].

Definition mcsos_context_t : ctype := CStruct false
  [("rsp", uint64_t); ("rbp", uint64_t); ("rbx", uint64_t); ("r12", uint64_t);
   ("r13", uint64_t); ("r14", uint64_t); ("r15", uint64_t); ("rip", uint64_t)].

Definition mcsos_thread_t : ctype := CStruct false
  [("magic", uint64_t); ("id", uint64_t); ("name", pointer); ("state", enum);
   ("context", mcsos_context_t); ("entry", pointer); ("arg", pointer);
   ("stack_base", pointer); ("stack_size", size_t); ("next", pointer);
   ("switches", uint64_t); ("ticks", uint64_t); ("exit_code", int)].

Definition mcsos_syscall_frame_t : ctype := CStruct false
  [("nr", uint64_t); ("arg0", uint64_t); ("arg1", uint64_t); ("arg2", uint64_t);
   ("arg3", uint64_t); ("arg4", uint64_t); ("arg5", uint64_t); ("ret", int64_t)].

Definition x86_64_idt_entry_t : ctype := CStruct true
  [("offset_low", uint16_t); ("selector", uint16_t); ("ist", uint8_t);
   ("type_attributes", uint8_t); ("offset_mid", uint16_t); ("offset_high", uint32_t);
   ("reserved", uint32_t)].

Definition x86_64_idtr_t : ctype := CStruct true [("limit", uint16_t); ("base", uint64_t)].

Definition x86_64_trap_frame_t : ctype := CStruct true
  [("r15", uint64_t); ("r14", uint64_t); ("r13", uint64_t); ("r12", uint64_t);
   ("r11", uint64_t); ("r10", uint64_t); ("r9", uint64_t); ("r8", uint64_t);
   ("rsi", uint64_t); ("rdi", uint64_t); ("rbp", uint64_t); ("rdx", uint64_t);
   ("rcx", uint64_t); ("rbx", uint64_t); ("rax", uint64_t); ("vector", uint64_t);
   ("error_code", uint64_t); ("rip", uint64_t); ("cs", uint64_t); ("rflags", uint64_t)].

(** The structs whose layout other code depends on. *)
Definition kernel_structs : list ctype :=
  [kmem_block_t; mcsos_context_t; mcsos_thread_t; mcsos_syscall_frame_t;
   x86_64_idt_entry_t; x86_64_idtr_t; x86_64_trap_frame_t].

(** ** Soundness of the rules *)

(** A type every member of which has a size and an alignment. *)
Definition sized (t : ctype) : Prop := 0 < sizeof t ∧ 0 < alignof t.

Lemma round_up_spec off a : 0 < a → off ≤ round_up off a < off + a ∧ (a | round_up off a).
Proof. intros Ha. unfold round_up. split; [mlia|]. by eexists. Qed.

Lemma start_spec packed off t : 0 < alignof t →
  off ≤ start packed off t < off + alignof t ∧ (packed = false → (alignof t | start packed off t)).
Proof.
  intros Ha. unfold start. destruct packed; [split; [lia|done]|].
  destruct (round_up_spec off (alignof t) Ha) as [? ?]. by split.
Qed.

(** The members lie one after the other between [off] and the end. *)
Inductive tiled (packed : bool) : Z → list (string * ctype * Z) → Z → Prop :=
| tiled_nil off : tiled packed off [] off
| tiled_cons off x t o ps stop :
    off ≤ o < off + alignof t → (packed = false → (alignof t | o)) →
    tiled packed (o + sizeof t) ps stop → tiled packed off ((x, t, o) :: ps) stop.

Lemma place_tiled packed ms off :
  Forall (λ p, sized p.2) ms → tiled packed off (place packed ms off) (extent packed ms off).
Proof.
  intros HF. revert off. induction HF as [|[x t] ms [Hs Ha] HF IH]; intros off; [constructor|].
  destruct (start_spec packed off t Ha) as [? ?]. simpl. by constructor.
Qed.

Lemma tiled_le packed off ps stop :
  Forall (λ p, sized p.1.2) ps → tiled packed off ps stop → off ≤ stop.
Proof.
  intros HF HT. induction HT as [|off x t o ps stop ? ? HT IH]; [lia|].
  apply Forall_cons in HF as [[Hs _] HF]. simpl in Hs. specialize (IH HF). lia.
Qed.

Lemma place_sized packed ms off :
  Forall (λ p, sized p.2) ms → Forall (λ p, sized p.1.2) (place packed ms off).
Proof.
  intros HF. revert off. induction HF as [|[x t] ms ? HF IH]; intros off; constructor; [done|apply IH].
Qed.

(** Each member lies between the bounds, at a multiple of its alignment, and
    ends before the next one starts. *)
Lemma tiled_lookup packed off ps stop i x t o :
  Forall (λ p, sized p.1.2) ps → tiled packed off ps stop → ps !! i = Some (x, t, o) →
  off ≤ o ∧ o + sizeof t ≤ stop ∧ (packed = false → (alignof t | o)) ∧
  ∀ j y u o', (i < j)%nat → ps !! j = Some (y, u, o') → o + sizeof t ≤ o'.
Proof.
  intros HF HT. revert i x t o. induction HT as [off|off y u o' ps stop Ho Ha HT IH]; intros i x t o Hi; [done|].
  apply Forall_cons in HF as [[Hs Hu] HF]. simpl in Hs, Hu. destruct i as [|i]; simpl in Hi.
  - injection Hi as -> -> ->. split_and!; [lia|by eapply tiled_le|done|].
    intros [|j] z v o'' Hj Hl; [lia|]. simpl in Hl. by destruct (IH HF _ _ _ _ Hl).
  - destruct (IH HF _ _ _ _ Hi) as (? & ? & ? & Hn). split_and!; [lia|done|done|].
    intros [|j] z v o'' Hj Hl; [lia|]. eapply (Hn j); [lia|exact Hl].
Qed.

Lemma sizeof_struct packed ms :
  sizeof (CStruct packed ms) = round_up (extent packed ms 0) (alignof (CStruct packed ms)).
Proof.
  simpl. f_equal. generalize 0. induction ms as [|[x t] ms IH]; intros off; [done|]. simpl. apply IH.
Qed.

Lemma alignof_pos packed ms : 0 < alignof (CStruct packed ms).
Proof.
  destruct packed; [done|]. simpl. induction ms as [|[x t] ms IH]; lia.
Qed.

(** What the layout of a struct with members [ms] guarantees. *)
Lemma struct_layout_sound packed ms i x t o :
  Forall (λ p, sized p.2) ms → place packed ms 0 !! i = Some (x, t, o) →
  0 ≤ o ∧ o + sizeof t ≤ sizeof (CStruct packed ms) ∧ (packed = false → (alignof t | o)) ∧
  ∀ j y u o', (i < j)%nat → place packed ms 0 !! j = Some (y, u, o') → o + sizeof t ≤ o'.
Proof.
  intros HF Hi. pose proof (round_up_spec (extent packed ms 0) _ (alignof_pos packed ms)) as [? _].
  destruct (tiled_lookup packed 0 _ _ i x t o (place_sized packed ms 0 HF) (place_tiled packed ms 0 HF) Hi)
    as (? & ? & ? & ?). rewrite sizeof_struct. split_and!; [done|lia|done|done].
Qed.
