(* ===== verification/Toolchain.v ===== *)
(** * The toolchain smoke objects

    [smoke/freestanding.c], [smoke/test_zone.c] and
    [tests/toolchain/freestanding_probe.c]: small freestanding units the build
    compiles to see that the cross compiler works.  The first holds a record of
    the widths the rest of the kernel assumes, the last a 64-bit mixing function
    whose result must not be folded away. *)

From S2P Require Import Prelude Layout.

(** ** smoke/freestanding.c *)
Definition MCSOS_M0_MAGIC : Z := 0x4D435330.

Record smoke_record : Type := mk_smoke_record {
  smoke_magic : Z;
  smoke_version : Z;
  pointer_width : Z;
  size_width : Z;
}.

Definition m0_smoke_record : smoke_record :=
  mk_smoke_record MCSOS_M0_MAGIC 260502 (sizeof pointer) (sizeof size_t).

(** A sum of [int]s, undefined when it leaves the type. *)
Definition m0_smoke_add (a b : Z) : outcome Z :=
  if (- 2 ^ 31 <=? a + b) && (a + b <? 2 ^ 31) then Ret (a + b) else UB.

(** ** smoke/test_zone.c *)

(** The volatile locals [a], [b] and [c] with their last values; the sum is one
    of [long]s. *)
Definition test_function : outcome (Z * Z * Z) :=
  let a := 1 in
  let b := 2 in
  if (- 2 ^ 63 <=? a + b) && (a + b <? 2 ^ 63) then Ret (a, b, a + b) else UB.

(** ** tests/toolchain/freestanding_probe.c *)

(** Both shift counts have to be below the width: [r] from 1 to 63. *)
Definition rotl64 (x r : Z) : outcome Z :=
  let s := u32 (64 - r) in
  if (r <? 64) && (s <? 64) then Ret (Z.lor (u64 (Z.shiftl x r)) (Z.shiftr x s)) else UB.

Arguments rotl64 : simpl never.

Definition probe_step (s : Z * Z) : outcome (Z * Z + Z) :=
  let '(x, i) := s in
  if negb (i <? 16) then Ret (inr x)
  else
    x ← rotl64 (Z.lxor x (i ⊗ 0x9e3779b97f4a7c15)) 13;
    Ret (inl (x, i + 1)).

(** Returns the result and the value left in [mcsos_probe_sink]. *)
Definition mcsos_toolchain_probe (seed : Z) : outcome (Z * Z) :=
  let x := Z.lxor seed 0x4d43534f32363035 in
  x ← loop 17 probe_step (x, 0);
  Ret (x, x).

(** ** The rotation *)
Lemma rotl64_testbit x r : in64 x → 0 < r < 64 →
  ∃ y, rotl64 x r = Ret y ∧ in64 y ∧
    ∀ n, 0 ≤ n < 64 → Z.testbit y n = Z.testbit x ((n - r) mod 64).
Proof.
  intros Hx Hr. unfold rotl64, u32. rewrite Z.mod_small by lia.
  destruct (Z.ltb_spec r 64), (Z.ltb_spec (64 - r) 64); [|lia..]. simpl.
  assert (Hb : ∀ n, 0 ≤ n → Z.testbit (Z.lor (u64 (Z.shiftl x r)) (Z.shiftr x (64 - r))) n =
    if n <? 64 then Z.testbit x ((n - r) mod 64) else false).
  { intros n Hn. unfold u64. rewrite Z.lor_spec, Z.shiftr_spec by lia.
    destruct (Z.ltb_spec n 64).
    - rewrite Z.mod_pow2_bits_low, Z.shiftl_spec by lia. destruct (Z.lt_ge_cases n r).
      + rewrite (Z.testbit_neg_r x (n - r)) by lia. simpl. f_equal. mlia.
      + rewrite (testbit_in64_high x (n + (64 - r))) by (done || lia).
        rewrite orb_false_r. f_equal. mlia.
    - rewrite Z.mod_pow2_bits_high, (testbit_in64_high x) by (done || lia). done. }
  eexists. split; [done|]. split.
  - apply small_in64; [|intros n Hn; rewrite Hb by lia; by destruct (Z.ltb_spec n 64); [lia|]].
    apply Z.lor_nonneg. split; [apply u64_range|]. apply Z.shiftr_nonneg. apply Hx.
  - intros n Hn. rewrite Hb by lia. by destruct (Z.ltb_spec n 64); [|lia].
Qed.

(** A rotation loses nothing. *)
Lemma rotl64_inj x y r z : in64 x → in64 y → 0 < r < 64 →
  rotl64 x r = Ret z → rotl64 y r = Ret z → x = y.
Proof.
  intros Hx Hy Hr Ex Ey.
  destruct (rotl64_testbit x r Hx Hr) as (z1 & E1 & _ & B1).
  destruct (rotl64_testbit y r Hy Hr) as (z2 & E2 & _ & B2).
  assert (z1 = z2) by congruence. subst z2. bits_ext n.
  destruct (Z.lt_ge_cases n 64); [|by rewrite !testbit_in64_high].
  specialize (B1 ((n + r) mod 64)). specialize (B2 ((n + r) mod 64)).
  replace (((n + r) mod 64 - r) mod 64) with n in * by mlia.
  rewrite <- B1, <- B2 by (apply Z.mod_pos_bound; lia). done.
Qed.

Lemma lxor_in64 x y : in64 x → in64 y → in64 (Z.lxor x y).
Proof.
  intros Hx Hy. apply small_in64; [apply Z.lxor_nonneg; unfold in64 in *; lia|].
  intros n Hn. by rewrite Z.lxor_spec, !testbit_in64_high.
Qed.

Lemma lxor_inj_r x y k : Z.lxor x k = Z.lxor y k → x = y.
Proof.
  intros E. rewrite <- (Z.lxor_0_r x), <- (Z.lxor_0_r y), <- (Z.lxor_nilpotent k).
  by rewrite <- !Z.lxor_assoc, E.
Qed.

(** ** The rounds *)
Lemma probe_loop n : ∀ i fuel x y, Z.of_nat n = 16 - i → (n < fuel)%nat → in64 x → in64 y →
  ∃ x' y', loop fuel probe_step (x, i) = Ret x' ∧ loop fuel probe_step (y, i) = Ret y' ∧
    in64 x' ∧ (x' = y' → x = y).
Proof.
  induction n as [|n IH]; intros i [|fuel] x y Hn Hf Hx Hy; [lia| |lia|].
  - rewrite !loop_unfold. simpl. destruct (Z.ltb_spec i 16); [lia|]. simpl. by exists x, y.
  - rewrite !loop_unfold. cbn [probe_step]. destruct (Z.ltb_spec i 16); [|lia]. cbn [negb].
    set (k := i ⊗ 11400714819323198485). assert (Hk : in64 k) by apply u64_range.
    destruct (rotl64_testbit (Z.lxor x k) 13) as (x1 & E1 & I1 & _); [by apply lxor_in64|lia|].
    destruct (rotl64_testbit (Z.lxor y k) 13) as (y1 & E2 & I2 & _); [by apply lxor_in64|lia|].
    rewrite E1, E2. simpl.
    destruct (IH (i + 1) fuel x1 y1) as (x' & y' & L1 & L2 & I' & Hinj); [lia..|done|done|].
    exists x', y'. split_and!; [done..|]. intros ->. apply (lxor_inj_r x y k).
    rewrite (Hinj eq_refl) in E1. apply (rotl64_inj _ _ 13 y1); [by apply lxor_in64..|lia|done|done].
Qed.

(** ** Theorems *)

(** The mixing function of the toolchain probe finishes for every seed without a shift the language leaves undefined, leaves its 64-bit result in mcsos_probe_sink as well, and maps different seeds to different results. *)
Theorem toolchain_probe_injective (s s' : Z) : in64 s → in64 s' →
  ∃ x x', mcsos_toolchain_probe s = Ret (x, x) ∧ mcsos_toolchain_probe s' = Ret (x', x') ∧
    in64 x ∧ (x = x' → s = s').
Proof.
  intros Hs Hs'. unfold mcsos_toolchain_probe.
  destruct (probe_loop 16 0 17 (Z.lxor s 0x4d43534f32363035) (Z.lxor s' 0x4d43534f32363035))
    as (x & x' & -> & -> & Hx & Hinj); [lia|lia|by apply lxor_in64..|].
  exists x, x'. split_and!; [done..|]. intros E. by eapply lxor_inj_r, Hinj.
Qed.

Lemma toolchain_probe_injective_witness :
  ∃ x x', mcsos_toolchain_probe 0 = Ret (x, x) ∧ mcsos_toolchain_probe 1 = Ret (x', x') ∧ x ≠ x'.
Proof.
  destruct (toolchain_probe_injective 0 1) as (x & x' & E & E' & _ & Hn); [done..|].
  exists x, x'. split; [exact E|]. split; [exact E'|]. intros Hx. discriminate (Hn Hx).
Defined.

(** The record of the smoke object states the widths the layout rules use for pointers and sizes, and its sum is the exact one wherever the sum is an int. *)
Lemma smoke_object_correct a b :
  - 2 ^ 31 ≤ a + b < 2 ^ 31 →
  pointer_width m0_smoke_record = 8 ∧ size_width m0_smoke_record = 8 ∧ m0_smoke_add a b = Ret (a + b).
Proof.
  intros H. split_and!; [done..|]. unfold m0_smoke_add.
  destruct (Z.leb_spec (- 2 ^ 31) (a + b)), (Z.ltb_spec (a + b) (2 ^ 31)); done || lia.
Qed.

Example test_function_runs : test_function = Ret (1, 2, 3).
Proof. reflexivity. Qed.

(** The largest int has no successor. *)
Example smoke_add_overflows : m0_smoke_add (2 ^ 31 - 1) 1 = UB.
Proof. reflexivity. Qed.
