(* ===== verification/Asm.v ===== *)
(** * The assembly files

    An interpreter for the instructions [src/kernel/arch/x86_64/context_switch.S],
    [src/kernel/arch/x86_64/isr.S] and [src/kernel/syscall/syscall_entry.S] use,
    and the three files, line by line.

    A program is a list of lines.  The assembler is outside the sources: the
    address of the first line and the length of each encoded instruction are
    parameters, so a code address is the sum of the lengths before it.
    Execution stops where control leaves the program: at an [iretq], which the
    processor's side of an interrupt completes, or at a jump or a return to an
    address that is not in the program. *)

From Stdlib Require Import (notations) String.
From S2P Require Import Prelude Mem Layout Machine.
#[local] Open Scope Z_scope.

(** ** Syntax *)

Inductive reg : Type :=
| RAX | RBX | RCX | RDX | RSI | RDI | RBP | RSP
| R8 | R9 | R10 | R11 | R12 | R13 | R14 | R15.

(** A global symbol, the stub of a vector, a numbered local label. *)
Inductive label : Type :=
| Sym (name : string)
| Stub (vector : Z)
| Local (n : Z).

#[global] Instance label_eq_dec : EqDecision label.
Proof. solve_decision. Defined.

(** Operands in the order of the sources: source first. *)
Inductive instr : Type :=
| Cld
| PushqImm (v : Z)
| Pushq (x : reg)
| Popq (x : reg)
| MovqReg (src dst : reg)
| MovqStore (src : reg) (disp : Z) (base : reg)
| MovqStoreImm (v disp : Z) (base : reg)
| MovqLoad (disp : Z) (base dst : reg)
| SubqImm (v : Z) (x : reg)
| AddqImm (v : Z) (x : reg)
| LeaqLabel (l : label) (x : reg)
| Jmp (l : label)
| JmpMem (disp : Z) (base : reg)
| Call (f : string)
| Retq
| Iretq.

Inductive line : Type :=
| Label (l : label)
| Ins (i : instr).

Definition is_label (l : label) (x : line) : bool :=
  match x with Label k => bool_decide (k = l) | Ins _ => false end.

(** ** Registers *)

Definition get_reg (r : regs) (x : reg) : Z :=
  match x with
  | RAX => rax r | RBX => rbx r | RCX => rcx r | RDX => rdx r
  | RSI => rsi r | RDI => rdi r | RBP => rbp r | RSP => rsp r
  | R8 => r8 r | R9 => r9 r | R10 => r10 r | R11 => r11 r
  | R12 => r12 r | R13 => r13 r | R14 => r14 r | R15 => r15 r
  end.

Definition set_reg (r : regs) (x : reg) (v : Z) : regs :=
  match x with
  | RAX => set_rax r v | RBX => set_rbx r v | RCX => set_rcx r v | RDX => set_rdx r v
  | RSI => set_rsi r v | RDI => set_rdi r v | RBP => set_rbp r v | RSP => set_rsp r v
  | R8 => set_r8 r v | R9 => set_r9 r v | R10 => set_r10 r v | R11 => set_r11 r v
  | R12 => set_r12 r v | R13 => set_r13 r v | R14 => set_r14 r v | R15 => set_r15 r v
  end.

(** ** Execution *)

(** Where an execution stops. *)
Inductive stop : Type :=
| AtIret
| LeftTo (a : Z)
| Halted.

(** What the C functions a program calls do: they read the registers, change
    the memory and the rest of the world [S], and return, or end in the
    kernel's halt loop ([None]). *)
Definition callee (S : Type) : Type := string → regs → mem → S → outcome (option mem * S).

Record xstate (S : Type) : Type := mk_x { pc : nat; xregs : regs; xmem : mem; xworld : S }.
Arguments mk_x {S}.
Arguments pc {S}.
Arguments xregs {S}.
Arguments xmem {S}.
Arguments xworld {S}.

(** The length of the encoding of each instruction, and a program's address. *)
Record linked : Type := mk_linked { origin : Z; ilen : instr → Z }.

Section exec.
Context {S : Type} (lk : linked) (code : list line) (ccall : callee S) (scratch : regs).

Fixpoint code_size (ls : list line) : Z :=
  match ls with
  | [] => 0
  | Label _ :: ls => code_size ls
  | Ins i :: ls => ilen lk i + code_size ls
  end.

Definition addr_of (i : nat) : Z := origin lk + code_size (take i code).

(** The first line at an address. *)
Definition at_addr (a : Z) : option nat :=
  fst <$> list_find (λ i, addr_of i = a) (seq 0 (length code)).

Definition find_label (l : label) : option nat :=
  fst <$> list_find (λ x, is_label l x = true) code.

Definition label_addr (l : label) : outcome Z :=
  match find_label l with Some i => Ret (addr_of i) | None => UB end.

Definition next (st : xstate S) (r : regs) (m : mem) : xstate S + stop * xstate S :=
  inl (mk_x (pc st + 1) r m (xworld st)).

(** An indirect transfer of control. *)
Definition goto (a : Z) (r : regs) (m : mem) (s : S) : xstate S + stop * xstate S :=
  match at_addr a with
  | Some i => inl (mk_x i r m s)
  | None => inr (LeftTo a, mk_x 0 r m s)
  end.

Definition push (st : xstate S) (v : Z) : outcome (xstate S + stop * xstate S) :=
  let r := set_rsp (xregs st) (rsp (xregs st) ⊖ 8) in
  m ← store64 (xmem st) (rsp r) v;
  Ret (next st r m).

(** A call leaves the registers of the System V convention alone and the others
    at the values of [scratch]; the return address and the frame of the callee
    lie below the stack pointer, where nothing of the program does. *)
Definition exec (i : instr) (st : xstate S) : outcome (xstate S + stop * xstate S) :=
  let r := xregs st in
  let m := xmem st in
  match i with
  | Cld => Ret (next st r m)
  | PushqImm v => push st v
  | Pushq x => push st (get_reg r x)
  | Popq x =>
      v ← load64 m (rsp r);
      Ret (next st (set_reg (set_rsp r (rsp r ⊕ 8)) x v) m)
  | MovqReg src dst => Ret (next st (set_reg r dst (get_reg r src)) m)
  | MovqStore src disp base =>
      m ← store64 m (get_reg r base ⊕ disp) (get_reg r src);
      Ret (next st r m)
  | MovqStoreImm v disp base =>
      m ← store64 m (get_reg r base ⊕ disp) v;
      Ret (next st r m)
  | MovqLoad disp base dst =>
      v ← load64 m (get_reg r base ⊕ disp);
      Ret (next st (set_reg r dst v) m)
  | SubqImm v x => Ret (next st (set_reg r x (get_reg r x ⊖ v)) m)
  | AddqImm v x => Ret (next st (set_reg r x (get_reg r x ⊕ v)) m)
  | LeaqLabel l x =>
      a ← label_addr l;
      Ret (next st (set_reg r x a) m)
  | Jmp l =>
      match find_label l with
      | Some i => Ret (inl (mk_x i r m (xworld st)))
      | None => UB
      end
  | JmpMem disp base =>
      a ← load64 m (get_reg r base ⊕ disp);
      Ret (goto a r m (xworld st))
  | Call f =>
      ' (m', s) ← ccall f r m (xworld st);
      match m' with
      | Some m' => Ret (inl (mk_x (pc st + 1) (after_call scratch r) m' s))
      | None => Ret (inr (Halted, mk_x (pc st) r m s))
      end
  | Retq =>
      a ← load64 m (rsp r);
      Ret (goto a (set_rsp r (rsp r ⊕ 8)) m (xworld st))
  | Iretq => Ret (inr (AtIret, st))
  end.

Definition step (st : xstate S) : outcome (xstate S + stop * xstate S) :=
  match code !! pc st with
  | None => UB
  | Some (Label _) => Ret (next st (xregs st) (xmem st))
  | Some (Ins i) => exec i st
  end.

(** Run from a label. *)
Definition run (fuel : nat) (l : label) (r : regs) (m : mem) (s : S) : outcome (stop * xstate S) :=
  match find_label l with
  | Some i => loop fuel step (mk_x i r m s)
  | None => UB
  end.
End exec.

(** ** [context_switch.S] *)

Definition context_switch_S : list line :=
  [ Label (Sym "mcsos_context_switch");
    Ins (LeaqLabel (Local 1) RAX);
    Ins (MovqStore RSP 0 RDI);
    Ins (MovqStore RBP 8 RDI);
    Ins (MovqStore RBX 16 RDI);
    Ins (MovqStore R12 24 RDI);
    Ins (MovqStore R13 32 RDI);
    Ins (MovqStore R14 40 RDI);
    Ins (MovqStore R15 48 RDI);
    Ins (MovqStore RAX 56 RDI);
    Ins (MovqLoad 0 RSI RSP);
    Ins (MovqLoad 8 RSI RBP);
    Ins (MovqLoad 16 RSI RBX);
    Ins (MovqLoad 24 RSI R12);
    Ins (MovqLoad 32 RSI R13);
    Ins (MovqLoad 40 RSI R14);
    Ins (MovqLoad 48 RSI R15);
    Ins (JmpMem 56 RSI);
    Label (Local 1);
    Ins Retq ].

(** ** [syscall_entry.S] *)

Definition syscall_entry_S : list line :=
  [ Label (Sym "x86_64_syscall_int80_stub");
    Ins Cld;
    Ins (SubqImm 64 RSP);
    Ins (MovqStore RAX 0 RSP);
    Ins (MovqStore RDI 8 RSP);
    Ins (MovqStore RSI 16 RSP);
    Ins (MovqStore RDX 24 RSP);
    Ins (MovqStore R10 32 RSP);
    Ins (MovqStore R8 40 RSP);
    Ins (MovqStore R9 48 RSP);
    Ins (MovqStoreImm 0 56 RSP);
    Ins (MovqReg RSP RDI);
    Ins (Call "mcsos_syscall_dispatch_frame");
    Ins (MovqLoad 56 RSP RAX);
    Ins (AddqImm 64 RSP);
    Ins Iretq ].

(** ** [isr.S] *)

Definition ISR_NOERR (vector : Z) : list line :=
  [ Label (Stub vector);
    Ins (PushqImm 0);
    Ins (PushqImm vector);
    Ins (Jmp (Sym "isr_common")) ].

Definition ISR_ERR (vector : Z) : list line :=
  [ Label (Stub vector);
    Ins (PushqImm vector);
    Ins (Jmp (Sym "isr_common")) ].

Definition isr_common_S : list line :=
  [ Label (Sym "isr_common");
    Ins (Pushq RAX); Ins (Pushq RBX); Ins (Pushq RCX); Ins (Pushq RDX); Ins (Pushq RBP);
    Ins (Pushq RDI); Ins (Pushq RSI); Ins (Pushq R8); Ins (Pushq R9); Ins (Pushq R10);
    Ins (Pushq R11); Ins (Pushq R12); Ins (Pushq R13); Ins (Pushq R14); Ins (Pushq R15);
    Ins (MovqReg RSP RDI);
    Ins (Call "x86_64_trap_dispatch");
    Ins (Popq R15); Ins (Popq R14); Ins (Popq R13); Ins (Popq R12); Ins (Popq R11);
    Ins (Popq R10); Ins (Popq R9); Ins (Popq R8); Ins (Popq RSI); Ins (Popq RDI);
    Ins (Popq RBP); Ins (Popq RDX); Ins (Popq RCX); Ins (Popq RBX); Ins (Popq RAX);
    Ins (AddqImm 16 RSP);
    Ins Iretq ].

Definition isr_stubs_S : list line :=
  ISR_NOERR 0 ++ ISR_NOERR 1 ++ ISR_NOERR 2 ++ ISR_NOERR 3 ++ ISR_NOERR 4 ++ ISR_NOERR 5 ++
  ISR_NOERR 6 ++ ISR_NOERR 7 ++ ISR_ERR 8 ++ ISR_NOERR 9 ++ ISR_ERR 10 ++ ISR_ERR 11 ++
  ISR_ERR 12 ++ ISR_ERR 13 ++ ISR_ERR 14 ++ ISR_NOERR 15 ++ ISR_NOERR 16 ++ ISR_ERR 17 ++
  ISR_NOERR 18 ++ ISR_NOERR 19 ++ ISR_NOERR 20 ++ ISR_ERR 21 ++ ISR_NOERR 22 ++ ISR_NOERR 23 ++
  ISR_NOERR 24 ++ ISR_NOERR 25 ++ ISR_NOERR 26 ++ ISR_NOERR 27 ++ ISR_NOERR 28 ++ ISR_ERR 29 ++
  ISR_ERR 30 ++ ISR_NOERR 31.

Definition isr_S : list line := isr_common_S ++ isr_stubs_S.

(** The table [x86_64_exception_stubs]: the symbols, and their addresses. *)
Definition exception_stubs_S : list label :=
  [ Stub 0; Stub 1; Stub 2; Stub 3; Stub 4; Stub 5; Stub 6; Stub 7; Stub 8; Stub 9; Stub 10;
    Stub 11; Stub 12; Stub 13; Stub 14; Stub 15; Stub 16; Stub 17; Stub 18; Stub 19; Stub 20;
    Stub 21; Stub 22; Stub 23; Stub 24; Stub 25; Stub 26; Stub 27; Stub 28; Stub 29; Stub 30;
    Stub 31 ].

Definition x86_64_exception_stubs_S (lk : linked) : list Z :=
  map (λ l, match label_addr lk isr_S l with Ret a => a | _ => 0 end) exception_stubs_S.
