(* ===== verification/AsmProofs.v ===== *)
(** * The assembly files: symbolic execution

    The interrupt stubs of [isr.S] and [syscall_entry.S] run to the functions
    that stand for them in [Interrupts] and [Syscall]; the context switch of
    [context_switch.S] saves and loads contexts in memory. *)

From Stdlib Require Import (notations) String.
From S2P Require Import Prelude Mem Layout Machine Console Interrupts Syscall Asm.
#[local] Open Scope Z_scope.

(** ** Stepping *)

(** Consecutive words in memory. *)
Definition words_at (m : mem) (a : Z) (vs : list Z) : Prop :=
  ∀ i v, vs !! i = Some v → load64 m (a + 8 * Z.of_nat i) = Ret v.

Lemma words_nil m a : words_at m a [].
Proof. by intros i v. Qed.

Lemma words_cons m a v vs : words_at m a (v :: vs) ↔ load64 m a = Ret v ∧ words_at m (a + 8) vs.
Proof.
  split.
  - intros H. split; [by rewrite <- (H 0%nat v), Z.add_0_r|].
    intros i x Hx. rewrite <- (H (S i) x Hx). f_equal. lia.
  - intros [Hv H] [|i] x Hx; simpl in Hx.
    + injection Hx as <-. by rewrite Z.add_0_r.
    + rewrite <- (H i x Hx). f_equal. lia.
Qed.

Lemma words_ext m m' a vs :
  (∀ i, a ≤ i < a + 8 * Z.of_nat (length vs) → m' !! i = m !! i) → words_at m a vs → words_at m' a vs.
Proof.
  intros He H i v Hv. rewrite <- (H i v Hv). apply (load_le_ext 8). intros j Hj. apply He.
  apply lookup_lt_Some in Hv. lia.
Qed.

Lemma words_wrote b n m m' a vs :
  wrote b n m m' → a + 8 * Z.of_nat (length vs) ≤ b ∨ b + n ≤ a → words_at m a vs → words_at m' a vs.
Proof. intros HW Hd. apply words_ext. intros i Hi. apply HW. lia. Qed.

Lemma get_set_ne r x y v : y ≠ x → get_reg (set_reg r x v) y = get_reg r y.
Proof. by destruct x, y. Qed.

Section stepping.
Context {S : Type} (lk : linked) (code : list line) (ccall : callee S) (scratch : regs).

Lemma loop_ins i n st :
  code !! pc st = Some (Ins i) →
  loop (Datatypes.S n) (step lk code ccall scratch) st =
  (x ← exec lk code ccall scratch i st;
   match x with inl st => loop n (step lk code ccall scratch) st | inr e => Ret e end).
Proof. intros H. simpl. rewrite loop_unfold. unfold step at 1. by rewrite H. Qed.

Lemma loop_label l n st :
  code !! pc st = Some (Label l) →
  loop (Datatypes.S n) (step lk code ccall scratch) st =
  loop n (step lk code ccall scratch) (mk_x (pc st + 1) (xregs st) (xmem st) (xworld st)).
Proof. intros H. simpl. rewrite loop_unfold. unfold step at 1. by rewrite H. Qed.

(** The lines [ls] at [p]. *)
Definition block (p : nat) (ls : list line) : Prop := take (length ls) (drop p code) = ls.

Lemma block_cons p l ls : block p (l :: ls) → code !! p = Some l ∧ block (p + 1) ls.
Proof.
  unfold block. intros H. assert (Hl : code !! p = Some l).
  { rewrite <- (Nat.add_0_r p), <- lookup_drop, <- (lookup_take_lt _ (length (l :: ls))), H by (simpl; lia). done. }
  split; [exact Hl|]. rewrite (drop_S _ _ _ Hl) in H. simpl in H. injection H as H.
  by rewrite Nat.add_1_r.
Qed.

(** Runs of pushes and pops. *)
Lemma loop_pushes xs n k p r m s :
  k = (length xs + n)%nat →
  Forall (.≠ RSP) xs → block p (map (Ins ∘ Pushq) xs) →
  loop k (step lk code ccall scratch) (mk_x p r m s) =
  (' (r, m) ← push_all (map (get_reg r) xs) (r, m);
   loop n (step lk code ccall scratch) (mk_x (p + length xs) r m s)).
Proof.
  intros -> Hx. revert p r m. induction Hx as [|x xs Hx Hxs IH]; intros p r m HB.
  { simpl. by rewrite Nat.add_0_r. }
  apply block_cons in HB as [HI HB]. simpl length. rewrite Nat.add_succ_l.
  erewrite (loop_ins (Pushq x)) by exact HI. unfold exec, push, next. cbn [map push_all pushq xregs xmem xworld pc].
  destruct (store64 _ _ _) as [m'| |]; cbn [obind]; [|done..]. rewrite IH by done.
  replace (map (get_reg (set_rsp r (rsp r ⊖ 8))) xs) with (map (get_reg r) xs).
  { destruct (push_all _ _) as [[r' m'']| |]; cbn [obind]; [|done..]. do 2 f_equal. lia. }
  apply map_ext_Forall. eapply Forall_impl; [exact Hxs|]. by intros [].
Qed.

Lemma loop_pops xs n k p r m s :
  k = (length xs + n)%nat →
  block p (map (Ins ∘ Popq) xs) →
  loop k (step lk code ccall scratch) (mk_x p r m s) =
  (' (r, m) ← pop_all (map (λ x r v, set_reg r x v) xs) (r, m);
   loop n (step lk code ccall scratch) (mk_x (p + length xs) r m s)).
Proof.
  intros ->. revert p r. induction xs as [|x xs IH]; intros p r HB.
  { simpl. by rewrite Nat.add_0_r. }
  apply block_cons in HB as [HI HB]. simpl length. rewrite Nat.add_succ_l.
  erewrite (loop_ins (Popq x)) by exact HI. unfold exec, next. cbn [map pop_all popq xregs xmem xworld pc].
  destruct (load64 _ _) as [v| |]; cbn [obind]; [|done..]. rewrite IH by done.
  destruct (pop_all _ _) as [[r' m']| |]; cbn [obind]; [|done..]. do 2 f_equal. lia.
Qed.

(** Runs of stores and loads of consecutive words behind one register. *)
Fixpoint store_lines (base : reg) (d : Z) (xs : list reg) : list line :=
  match xs with [] => [] | x :: xs => Ins (MovqStore x d base) :: store_lines base (d + 8) xs end.

Fixpoint load_lines (base : reg) (d : Z) (xs : list reg) : list line :=
  match xs with [] => [] | x :: xs => Ins (MovqLoad d base x) :: load_lines base (d + 8) xs end.

Fixpoint set_regs (r : regs) (xs : list reg) (vs : list Z) : regs :=
  match xs, vs with x :: xs, v :: vs => set_regs (set_reg r x v) xs vs | _, _ => r end.

Lemma loop_stores base xs d n k p r m s :
  k = (length xs + n)%nat → block p (store_lines base d xs) → Forall in64 (map (get_reg r) xs) →
  mapped m (get_reg r base + d) (8 * Z.of_nat (length xs)) → 0 ≤ get_reg r base + d →
  get_reg r base + d + 8 * Z.of_nat (length xs) ≤ 2 ^ 64 →
  ∃ m', loop k (step lk code ccall scratch) (mk_x p r m s) =
          loop n (step lk code ccall scratch) (mk_x (p + length xs) r m' s) ∧
    wrote (get_reg r base + d) (8 * Z.of_nat (length xs)) m m' ∧
    words_at m' (get_reg r base + d) (map (get_reg r) xs).
Proof.
  intros ->. revert d p m. induction xs as [|x xs IH]; intros d p m HB Hin Hm H0 H1.
  { exists m. split; [by rewrite Nat.add_0_r|]. split; [apply wrote_refl|apply words_nil]. }
  apply block_cons in HB as [HI HB]. apply Forall_cons in Hin as [Hx Hin].
  cbn [length] in *. rewrite Nat2Z.inj_succ in *. rewrite Nat.add_succ_l.
  erewrite (loop_ins (MovqStore x d base)) by exact HI. unfold exec, next. cbn [xregs xmem xworld pc].
  rewrite add64_small by (unfold in64; lia).
  destruct (store64_wrote m (get_reg r base + d) (get_reg r x)) as (m1 & -> & W1 & L1);
    [eapply mapped_sub; [exact Hm|lia..]|done|]. cbn [obind].
  destruct (IH (d + 8) (p + 1)%nat m1) as (m2 & -> & W2 & L2); [done|done| |lia|lia|].
  { apply W1. eapply mapped_sub; [exact Hm|lia..]. }
  exists m2. split; [do 2 f_equal; lia|]. split.
  - eapply wrote_trans; eapply wrote_weaken; [exact W1|lia|lia|exact W2|lia|lia].
  - cbn [map]. apply words_cons. split; [by rewrite (load64_outside _ _ _ _ _ W2) by lia|].
    by rewrite <- Z.add_assoc.
Qed.

Lemma loop_loads base xs vs d n k p r m s :
  k = (length xs + n)%nat → block p (load_lines base d xs) → length vs = length xs → base ∉ xs →
  words_at m (get_reg r base + d) vs → 0 ≤ get_reg r base + d →
  get_reg r base + d + 8 * Z.of_nat (length xs) ≤ 2 ^ 64 →
  loop k (step lk code ccall scratch) (mk_x p r m s) =
  loop n (step lk code ccall scratch) (mk_x (p + length xs) (set_regs r xs vs) m s).
Proof.
  intros ->. revert d p r vs. induction xs as [|x xs IH]; intros d p r vs HB Hl Hb HW H0 H1.
  { by rewrite Nat.add_0_r. }
  destruct vs as [|v vs]; [done|]. apply block_cons in HB as [HI HB]. apply not_elem_of_cons in Hb as [Hbx Hb].
  apply words_cons in HW as [Hv HW]. cbn [length] in *. rewrite Nat2Z.inj_succ in *. rewrite Nat.add_succ_l.
  erewrite (loop_ins (MovqLoad d base x)) by exact HI. unfold exec, next. cbn [xregs xmem xworld pc].
  rewrite add64_small by (unfold in64; lia). rewrite Hv. cbn [obind set_regs].
  assert (Hg : get_reg (set_reg r x v) base = get_reg r base) by (by apply get_set_ne).
  rewrite (IH (d + 8) (p + 1)%nat (set_reg r x v) vs); rewrite ?Hg; [|done|lia|done|by rewrite Z.add_assoc|lia|lia].
  do 2 f_equal. lia.
Qed.
End stepping.

(** One line of a concrete program. *)
Ltac asm_label := cbn [Nat.add]; erewrite loop_label by reflexivity; cbn [pc xregs xmem xworld Nat.add].
Ltac asm_step :=
  cbn [Nat.add]; erewrite loop_ins by reflexivity; unfold exec, push, next;
  cbn [pc xregs xmem xworld get_reg set_reg Nat.add obind].

(** The outcome of an interrupt stub: back at the [iretq] with the registers
    and the memory, or in the halt loop. *)
Definition as_stub {S} (o : outcome (stop * xstate S)) : outcome (option (regs * mem) * S) :=
  ' (e, st) ← o;
  match e with
  | AtIret => Ret (Some (xregs st, xmem st), xworld st)
  | Halted => Ret (None, xworld st)
  | LeftTo _ => UB
  end.

(** The stack pointer after pushes, as far as its alignment goes. *)
Lemma sub64_align a b : (a ⊖ b) mod 16 = (a - b) mod 16.
Proof. unfold sub64, u64. mlia. Qed.

Lemma push_all_align vs r m r' m' :
  push_all vs (r, m) = Ret (r', m') → rsp r' mod 16 = (rsp r - 8 * Z.of_nat (length vs)) mod 16.
Proof.
  revert r m. induction vs as [|v vs IH]; intros r m; cbn [push_all pushq].
  { intros [= -> ->]. simpl. by rewrite Z.sub_0_r. }
  destruct (store64 _ _ _) as [m1| |]; cbn [obind]; [|done..]. intros H. rewrite (IH _ _ H).
  cbn [set_rsp rsp length]. rewrite Nat2Z.inj_succ. pose proof (sub64_align (rsp r) 8). mlia.
Qed.

(** ** [isr.S] *)
Section isr.
Context (dev : device) (garbage : list Z) (lk : linked) (c : regs).

Definition trap_callee : callee machine := λ f r m s,
  if decide (f = "x86_64_trap_dispatch"%string) then
    ' (a, s) ← x86_64_trap_dispatch dev garbage m (rdi r) s;
    Ret (match a with Some _ => Some m | None => None end, s)
  else UB.

(** A callee that does what the dispatcher does where the stubs call it. *)
Context (ccall : callee machine) (align : Z).
Hypothesis Hcall : ∀ r m s, rsp r mod 16 = align mod 16 →
  ccall "x86_64_trap_dispatch"%string r m s = trap_callee "x86_64_trap_dispatch"%string r m s.

Abbreviation isr_step := (step lk isr_S ccall c).

Lemma isr_common_runs n r ram s :
  (rsp r - 120) mod 16 = align mod 16 →
  as_stub (loop (35 + n) isr_step (mk_x 0 r ram s)) = isr_common dev garbage c r ram s.
Proof.
  intros Hal. unfold isr_common, mbind, mlift, mret.
  asm_label.
  rewrite (loop_pushes _ _ _ _ [RAX; RBX; RCX; RDX; RBP; RDI; RSI; R8; R9; R10; R11; R12; R13; R14; R15] (19 + n))
    by (done || by repeat constructor).
  change (map (get_reg r) _) with (pushed r).
  destruct (push_all _ _) as [[r1 m1]| |] eqn:E1; cbn [obind]; [|done..]. apply push_all_align in E1.
  asm_step. asm_step. rewrite Hcall by (cbn [set_rdi rsp]; rewrite E1; exact Hal).
  unfold trap_callee. rewrite decide_True by done. cbn [fst snd].
  destruct (x86_64_trap_dispatch _ _ _ _ _) as [[[[]|] s']| |]; cbn [obind]; [|done..].
  rewrite (loop_pops _ _ _ _ [R15; R14; R13; R12; R11; R10; R9; R8; RSI; RDI; RBP; RDX; RCX; RBX; RAX] (2 + n)) by done.
  change (map _ _) with popped.
  destruct (pop_all _ _) as [[r2 m2]| |]; cbn [obind fst snd]; [|done..].
  asm_step. asm_step. done.
Qed.

(** The lines of the stub of a vector, and where they are. *)
Definition stub_lines (v : Z) : list line := if isr_err v then ISR_ERR v else ISR_NOERR v.

Lemma vector_cases (P : Z → Prop) : Forall P (seqZ 0 32) → ∀ v, 0 ≤ v < 32 → P v.
Proof. intros HF v Hv. rewrite Forall_forall in HF. apply HF, elem_of_seqZ. lia. Qed.

Lemma stub_placed v :
  0 ≤ v < 32 → ∃ q x, find_label isr_S (Stub v) = Some (S q) ∧ block isr_S (S q) (stub_lines v) ∧
    isr_S !! q = Some (Ins x).
Proof.
  revert v. apply vector_cases. change (seqZ 0 32) with (map Z.of_nat (seq 0 32)). cbn [seq map].
  repeat (constructor; [do 2 eexists; split_and!; vm_compute; reflexivity|]). constructor.
Qed.

(** The words below the stub's stack pointer when it calls the dispatcher. *)
Definition stub_bytes (v : Z) : Z := if isr_err v then 128 else 136.

Lemma isr_stub_runs n v p r ram s :
  0 ≤ v < 32 → find_label isr_S (Stub v) = Some p → (rsp r - stub_bytes v) mod 16 = align mod 16 →
  as_stub (loop (39 + n) isr_step (mk_x p r ram s)) = isr_stub dev garbage v c r ram s.
Proof.
  intros Hv Hf Hal. destruct (stub_placed v Hv) as (q & x & Hp & HB & _). rewrite Hf in Hp. injection Hp as ->.
  assert (Hc : find_label isr_S (Sym "isr_common") = Some 0%nat) by reflexivity. unfold isr_stub.
  unfold stub_lines, stub_bytes, ISR_ERR, ISR_NOERR in *. destruct (isr_err v); unfold mbind, mlift, pushq;
    repeat match goal with H : block _ _ (_ :: _) |- _ => apply block_cons in H as [? H] end;
    cbn [Nat.add]; erewrite loop_label by eassumption; cbn [pc xregs xmem xworld].
  - erewrite loop_ins by eassumption. unfold exec, push, next. cbn [pc xregs xmem xworld].
    destruct (store64 _ _ _) as [m'| |]; cbn [obind]; [|done..].
    erewrite loop_ins by eassumption. unfold exec. cbn [pc xregs xmem xworld]. rewrite Hc. cbn [obind].
    apply (isr_common_runs (1 + n)). cbn [set_rsp rsp fst]. pose proof (sub64_align (rsp r) 8). mlia.
  - do 2 (erewrite loop_ins by eassumption; unfold exec, push, next; cbn [pc xregs xmem xworld];
      destruct (store64 _ _ _) as [?m'| |]; cbn [obind]; [|done..]).
    erewrite loop_ins by eassumption. unfold exec. cbn [pc xregs xmem xworld]. rewrite Hc. cbn [obind].
    apply (isr_common_runs n). cbn [set_rsp rsp fst]. pose proof (sub64_align (rsp r) 8).
    pose proof (sub64_align (rsp r ⊖ 8) 8). mlia.
Qed.
End isr.

(** ** [syscall_entry.S] *)
Section int80.
Context {W : Type} (lk : linked) (c : regs) (g : syscalls W).

Definition syscall_callee : callee W := λ f r m s,
  if decide (f = "mcsos_syscall_dispatch_frame"%string) then
    ' (m, s) ← mcsos_syscall_dispatch_frame g (rdi r) (m, s);
    Ret (Some m, s)
  else UB.

(** The frame lies below the stack pointer, inside the address space. *)
Lemma int80_runs n r m s :
  64 ≤ rsp r < 2 ^ 64 →
  as_stub (run lk syscall_entry_S syscall_callee c (16 + n) (Sym "x86_64_syscall_int80_stub") r m s) =
  (' (r, w) ← x86_64_syscall_int80_stub c g r (m, s); Ret (Some (r, w.1), w.2)).
Proof.
  intros Hr. unfold run, x86_64_syscall_int80_stub.
  change (find_label _ _) with (Some 0%nat). cbn iota beta.
  assert (Hsp : rsp r ⊖ 64 = rsp r - 64) by (apply sub64_small; unfold in64; lia).
  assert (Ha : ∀ d, 0 ≤ d < 64 → (rsp r - 64) ⊕ d = rsp r - 64 + d).
  { intros d Hd. apply add64_small. unfold in64. lia. }
  asm_label. asm_step. asm_step. rewrite Hsp.
  do 8 (asm_step; cbn [set_rsp rsp rax rdi rsi rdx r10 r8 r9]; rewrite Ha by lia; rewrite ?Z.add_0_r;
    destruct (store64 _ _ _) as [?m| |]; cbn [obind fst snd]; [|done..]).
  asm_step. asm_step. unfold syscall_callee at 1. rewrite decide_True by done. cbn [set_rdi set_rsp rdi rsp].
  destruct (mcsos_syscall_dispatch_frame _ _ _) as [[m' s']| |]; cbn [obind fst snd]; [|done..].
  asm_step. cbn [after_call set_rdi set_rsp rsp]. rewrite Ha by lia.
  destruct (load64 _ _) as [v| |]; cbn [obind]; [|done..].
  asm_step. asm_step. done.
Qed.
End int80.

(** A stub whose callee refuses the call does not come back. *)
Lemma int80_refused {S} lk (ccall : callee S) c fuel r m s :
  (∀ r1 m1 s1, rsp r1 mod 16 = rsp r mod 16 → ccall "mcsos_syscall_dispatch_frame"%string r1 m1 s1 = UB) →
  ∀ x, run lk syscall_entry_S ccall c fuel (Sym "x86_64_syscall_int80_stub") r m s ≠ Ret x.
Proof.
  intros Hc x. unfold run. change (find_label _ _) with (Some 0%nat). cbn iota.
  destruct fuel as [|fuel]; [done|]. asm_label.
  do 2 (destruct fuel as [|fuel]; [done|]; asm_step).
  do 8 (destruct fuel as [|fuel]; [done|]; asm_step; destruct (store64 _ _ _); cbn [obind]; [|done..]).
  do 2 (destruct fuel as [|fuel]; [done|]; asm_step).
  rewrite Hc; [done|]. cbn [set_rdi set_rsp rsp]. rewrite sub64_align. mlia.
Qed.
