(* ===== verification/ContextSwitch.v ===== *)
(** * The context switch in memory

    [context_switch.S] on byte memory, the thread objects of the scheduler as
    the compiler lays them out there, and the run of the switch: what it saves,
    what it loads, and where control goes. *)

From Stdlib Require Import (notations) String.
From S2P Require Import Prelude Mem Layout Sched Machine Asm AsmProofs.
#[local] Open Scope Z_scope.

(** ** Code addresses *)

(** Every instruction has an encoding. *)
Definition linked_ok (lk : linked) : Prop := ∀ i, 0 < ilen lk i.

Section addresses.
Context (lk : linked) (code : list line) (Hlk : linked_ok lk).

Lemma code_size_pos ls : 0 ≤ code_size lk ls.
Proof. induction ls as [|[l|i] ls IH]; simpl; [lia|done|]. pose proof (Hlk i). lia. Qed.

Lemma code_size_app l1 l2 : code_size lk (l1 ++ l2) = code_size lk l1 + code_size lk l2.
Proof. induction l1 as [|[l|i] l1 IH]; simpl; lia. Qed.

Lemma addr_of_le i j : (i ≤ j)%nat → addr_of lk code i ≤ addr_of lk code j.
Proof.
  intros Hij. unfold addr_of. replace j with (i + (j - i))%nat by lia.
  rewrite <- (take_take_drop _ i (j - i)), code_size_app. pose proof (code_size_pos (take (j - i) (drop i code))). lia.
Qed.

Lemma addr_of_ins i x : code !! i = Some (Ins x) → addr_of lk code (S i) = addr_of lk code i + ilen lk x.
Proof. intros H. unfold addr_of. rewrite (take_S_r _ _ _ H), code_size_app. simpl. lia. Qed.

(** A line that follows an instruction is found at its address. *)
Lemma at_addr_of i x :
  (S i < length code)%nat → code !! i = Some (Ins x) →
  at_addr lk code (addr_of lk code (S i)) = Some (S i).
Proof.
  intros Hl Hi. unfold at_addr.
  assert (H : list_find (λ j, addr_of lk code j = addr_of lk code (S i)) (seq 0 (length code)) = Some (S i, S i)).
  { apply list_find_Some. split; [by rewrite lookup_seq_lt|]. split; [done|].
    intros j y Hj Hji. apply lookup_seq in Hj as [-> _]. cbn [Nat.add].
    pose proof (addr_of_le j i ltac:(lia)). pose proof (addr_of_ins i x Hi). pose proof (Hlk x). lia. }
  by rewrite H.
Qed.
End addresses.

(** ** Contexts *)

(** The words of a [mcsos_context_t], in the order of its members. *)
Definition ctx_words (c : context) : list Z :=
  [Sched.rsp c; Sched.rbp c; Sched.rbx c; Sched.r12 c; Sched.r13 c; Sched.r14 c; Sched.r15 c; Sched.rip c].

(** What the switch saves of the registers, and what it makes of them. *)
Definition save_ctx (resume : Z) (r : Machine.regs) : context :=
  mk_context (rsp r) (rbp r) (rbx r) (r12 r) (r13 r) (r14 r) (r15 r) resume.

Definition load_ctx (resume : Z) (c : context) (r : Machine.regs) : Machine.regs :=
  mk_regs resume (Sched.rbx c) (rcx r) (rdx r) (rsi r) (rdi r) (Sched.rbp c) (Sched.rsp c)
    (r8 r) (r9 r) (r10 r) (r11 r) (Sched.r12 c) (Sched.r13 c) (Sched.r14 c) (Sched.r15 c).

(** A context at [p], inside the address space. *)
Definition ctx_ok (p : Z) : Prop := 0 ≤ p ∧ p + 64 ≤ 2 ^ 64.

Section switch.
Context {S : Type} (lk : linked) (ccall : callee S) (scratch : Machine.regs).
Hypothesis Hlk : linked_ok lk.

(** The address of the local label. *)
Definition resume : Z := addr_of lk context_switch_S 18.

Abbreviation cs_step := (step lk context_switch_S ccall scratch).

Lemma resume_at : at_addr lk context_switch_S resume = Some 18%nat.
Proof. by apply (at_addr_of lk context_switch_S Hlk 17 (JmpMem 56 RSI)); [simpl; lia|]. Qed.

(** Up to the jump. *)
Lemma switch_enters n r m c s :
  Forall in64 (ctx_words (save_ctx resume r)) → ctx_ok (rdi r) → ctx_ok (rsi r) → mapped m (rdi r) 64 →
  rdi r + 64 ≤ rsi r ∨ rsi r + 64 ≤ rdi r → words_at m (rsi r) (ctx_words c) →
  ∃ m', wrote (rdi r) 64 m m' ∧ words_at m' (rdi r) (ctx_words (save_ctx resume r)) ∧
    run lk context_switch_S ccall scratch (18 + n) (Sym "mcsos_context_switch") r m s =
    match goto lk context_switch_S (Sched.rip c) (load_ctx resume c r) m' s with
    | inl st => loop n cs_step st
    | inr e => Ret e
    end.
Proof.
  intros Hin [Hd0 Hd1] [Hs0 Hs1] Hm Hdis HW. unfold run. change (find_label _ _) with (Some 0%nat). cbn iota.
  asm_label. asm_step. unfold label_addr. change (find_label _ _) with (Some 18%nat). cbn [obind].
  fold resume.
  destruct (loop_stores lk context_switch_S ccall scratch RDI [RSP; RBP; RBX; R12; R13; R14; R15; RAX] 0 (8 + n)
    (16 + n) 2 (set_rax r resume) m s) as (m1 & E & W1 & L1); cbn [length get_reg set_rax rdi];
    rewrite ?Z.add_0_r; [done|done|exact Hin|done|done|lia|].
  cbn [Nat.add] in E |- *. rewrite E. cbn [length get_reg set_rax rdi] in W1, L1. rewrite Z.add_0_r in W1, L1.
  exists m1. split; [exact W1|]. split; [exact L1|].
  assert (HW1 : words_at m1 (rsi r) (ctx_words c)) by (eapply words_wrote; [exact W1|change (length (ctx_words c)) with 8%nat; lia|exact HW]).
  rewrite (loop_loads lk context_switch_S ccall scratch RSI [RSP; RBP; RBX; R12; R13; R14; R15]
    (take 7 (ctx_words c)) 0 (1 + n)); cbn [get_reg set_rax rsi]; rewrite ?Z.add_0_r;
    [|done|done|done|set_solver| |done|simpl; lia].
  2:{ intros i v Hv. apply HW1. rewrite lookup_take in Hv. by case_decide. }
  asm_step. change (rsi (set_regs _ _ _)) with (rsi r).
  rewrite add64_small by (unfold in64; lia). change (rsi r + 56) with (rsi r + 8 * Z.of_nat 7).
  by rewrite (HW1 7%nat (Sched.rip c)).
Qed.

(** The whole switch: to a context outside the program (a thread's first run),
    and to a context saved by an earlier switch, which returns to the caller. *)
Lemma switch_leaves n r m c s :
  Forall in64 (ctx_words (save_ctx resume r)) → ctx_ok (rdi r) → ctx_ok (rsi r) → mapped m (rdi r) 64 →
  rdi r + 64 ≤ rsi r ∨ rsi r + 64 ≤ rdi r → words_at m (rsi r) (ctx_words c) →
  ∃ m', wrote (rdi r) 64 m m' ∧ words_at m' (rdi r) (ctx_words (save_ctx resume r)) ∧
    (at_addr lk context_switch_S (Sched.rip c) = None →
     run lk context_switch_S ccall scratch (20 + n) (Sym "mcsos_context_switch") r m s =
       Ret (LeftTo (Sched.rip c), mk_x 0 (load_ctx resume c r) m' s)) ∧
    (∀ ra, Sched.rip c = resume → load64 m' (Sched.rsp c) = Ret ra → at_addr lk context_switch_S ra = None →
     run lk context_switch_S ccall scratch (20 + n) (Sym "mcsos_context_switch") r m s =
       Ret (LeftTo ra, mk_x 0 (set_rsp (load_ctx resume c r) (Sched.rsp c ⊕ 8)) m' s)).
Proof.
  intros. destruct (switch_enters (2 + n) r m c s) as (m' & HW & HL & E); [done..|].
  change (18 + (2 + n))%nat with (20 + n)%nat in E. exists m'. split; [exact HW|]. split; [exact HL|]. split.
  - intros Ha. rewrite E. unfold goto. by rewrite Ha.
  - intros ra Hrip Hra Ha. rewrite E. unfold goto. rewrite Hrip, resume_at.
    asm_label. asm_step. cbn [load_ctx Machine.rsp]. rewrite Hra. cbn [obind]. unfold goto. by rewrite Ha.
Qed.
End switch.

(** ** Thread objects *)

(** [mcsos_thread_trampoline]: [hlt] forever. *)
Definition mcsos_thread_trampoline {A} : M A := mhalt.

Definition state_code (s : thread_state) : Z :=
  match s with
  | THREAD_NEW => 0 | THREAD_READY => 1 | THREAD_RUNNING => 2 | THREAD_BLOCKED => 3 | THREAD_ZOMBIE => 4
  end.

Definition context_offset : Z := offsetof mcsos_thread_t "context".

(** The [mcsos_thread_t] at [p] holds the thread [t]. *)
Record thread_at (m : mem) (p : Z) (t : thread) : Prop := {
  ta_low : 0 ≤ p;
  ta_high : p + sizeof mcsos_thread_t ≤ 2 ^ 64;
  ta_mapped : mapped m p (sizeof mcsos_thread_t);
  ta_magic : load_member mcsos_thread_t "magic" m p = Ret (magic t);
  ta_id : load_member mcsos_thread_t "id" m p = Ret (id t);
  ta_name : load_member mcsos_thread_t "name" m p = Ret (name t);
  ta_state : load_member mcsos_thread_t "state" m p = Ret (state_code (state t));
  ta_context : words_at m (p + context_offset) (ctx_words (ctxt t));
  ta_entry : load_member mcsos_thread_t "entry" m p = Ret (entry t);
  ta_arg : load_member mcsos_thread_t "arg" m p = Ret (arg t);
  ta_stack_base : load_member mcsos_thread_t "stack_base" m p = Ret (stack_base t);
  ta_stack_size : load_member mcsos_thread_t "stack_size" m p = Ret (stack_size t);
  ta_next : load_member mcsos_thread_t "next" m p = Ret (Sched.next t);
  ta_switches : load_member mcsos_thread_t "switches" m p = Ret (switches t);
  ta_ticks : load_member mcsos_thread_t "ticks" m p = Ret (ticks t);
  ta_exit_code : load_member mcsos_thread_t "exit_code" m p = Ret (u32 (exit_code t));
}.

(** A thread object as twenty words: the two 32-bit members are followed by
    padding, zero here. *)
Definition thread_words (t : thread) : list Z :=
  [magic t; id t; name t; state_code (state t)] ++ ctx_words (ctxt t) ++
  [entry t; arg t; stack_base t; stack_size t; Sched.next t; switches t; ticks t; u32 (exit_code t)].

Lemma load_le_low n k m a v :
  mem_ok m → load_le (n + k) m a = Ret v → load_le n m a = Ret (v mod 256 ^ Z.of_nat n).
Proof.
  intros Hok. revert a v. induction n as [|n IH]; intros a v.
  { intros _. simpl. by rewrite Z.mod_1_r. }
  cbn [Nat.add load_le]. unfold load8. destruct (m !! a) as [b|] eqn:Hb; cbn [obind]; [|done].
  destruct (load_le (n + k) m (a + 1)) as [r| |] eqn:Hr; cbn [obind]; [|done..]. intros [= <-].
  rewrite (IH _ _ Hr). cbn [obind]. f_equal.
  pose proof (map_Forall_lookup_1 _ _ _ _ Hok Hb) as Hbyte. simpl in Hbyte.
  rewrite Nat2Z.inj_succ, Z.pow_succ_r, Z.rem_mul_r by lia.
  replace ((b + 256 * r) mod 256) with b by mlia. replace ((b + 256 * r) / 256) with r by mlia. done.
Qed.

Lemma load32_low m a v : mem_ok m → load64 m a = Ret v → load32 m a = Ret (v mod 2 ^ 32).
Proof. apply (load_le_low 4 4). Qed.

Lemma thread_at_words m p t :
  mem_ok m → 0 ≤ p → p + 160 ≤ 2 ^ 64 → mapped m p 160 → words_at m p (thread_words t) → thread_at m p t.
Proof.
  intros Hok H0 H1 Hm HW.
  assert (H32 : ∀ i v, thread_words t !! i = Some v → 0 ≤ v < 2 ^ 32 → load32 m (p + 8 * Z.of_nat i) = Ret v).
  { intros i v Hi Hv. rewrite (load32_low _ _ _ Hok (HW i v Hi)). f_equal. by apply Z.mod_small. }
  split; try done.
  1,2,3: first [apply (HW 0%nat) | apply (HW 1%nat) | apply (HW 2%nat)]; reflexivity.
  - apply (H32 3%nat); [done|]. by destruct (state t).
  - intros i v Hi. rewrite <- (HW (4 + i)%nat v); [change context_offset with 32; f_equal; lia|].
    do 8 (destruct i as [|i]; [exact Hi|]). done.
  - by apply (HW 12%nat).
  - by apply (HW 13%nat).
  - by apply (HW 14%nat).
  - by apply (HW 15%nat).
  - by apply (HW 16%nat).
  - by apply (HW 17%nat).
  - by apply (HW 18%nat).
  - apply (H32 19%nat); [done|]. unfold u32. mlia.
Qed.

(** The store of the scheduler, as bytes: every object is there, and no two
    objects overlap. *)
Record threads_at (m : mem) (ts : gmap Z thread) : Prop := {
  tsa_at : ∀ p t, ts !! p = Some t → thread_at m p t;
  tsa_disjoint : ∀ p q, is_Some (ts !! p) → is_Some (ts !! q) → p ≠ q →
    p + sizeof mcsos_thread_t ≤ q ∨ q + sizeof mcsos_thread_t ≤ p;
}.

(** The live registers the scheduler's model keeps. *)
Definition live_regs (r : Machine.regs) (c : context) : Prop :=
  rsp r = Sched.rsp c ∧ rbp r = Sched.rbp c ∧ rbx r = Sched.rbx c ∧ r12 r = Sched.r12 c ∧
  r13 r = Sched.r13 c ∧ r14 r = Sched.r14 c ∧ r15 r = Sched.r15 c.

(** A member access outside the written range. *)
Lemma load_member_wrote ty x u off a n m m' p :
  member ty x = Some (u, off) → wrote a n m m' → p + off + Z.max 0 (sizeof u) ≤ a ∨ a + n ≤ p + off →
  load_member ty x m' p = load_member ty x m p.
Proof.
  intros Hm HW Hd. unfold load_member. rewrite Hm. apply load_le_ext. intros i Hi. apply HW. lia.
Qed.

Ltac keep_member HW :=
  erewrite load_member_wrote; [eassumption|vm_compute; reflexivity|exact HW|cbn; lia].

(** Writing another object. *)
Lemma thread_at_other m m' p t a n :
  thread_at m p t → wrote a n m m' → p + sizeof mcsos_thread_t ≤ a ∨ a + n ≤ p → thread_at m' p t.
Proof.
  intros [] HW Hd. change (sizeof mcsos_thread_t) with 160 in *. change context_offset with 32 in *.
  split; try done; try keep_member HW.
  - by apply HW.
  - change context_offset with 32. eapply words_wrote; [exact HW|change (length (ctx_words _)) with 8%nat; lia|done].
Qed.

(** Writing the context of the object. *)
Lemma thread_at_saved m m' p t c :
  thread_at m p t → wrote (p + context_offset) 64 m m' → words_at m' (p + context_offset) (ctx_words c) →
  thread_at m' p (set_ctxt t c).
Proof.
  intros [] HW HL. change (sizeof mcsos_thread_t) with 160 in *. change context_offset with 32 in *.
  split; try done; try keep_member HW. by apply HW.
Qed.

(** The scheduler's context switch, in memory. *)
Lemma threads_at_saved m m' ts p t c :
  threads_at m ts → ts !! p = Some t → wrote (p + context_offset) 64 m m' →
  words_at m' (p + context_offset) (ctx_words c) → threads_at m' (<[p := set_ctxt t c]> ts).
Proof.
  intros [HA HD] Hp HW HL. split.
  - intros q u Hq. destruct (decide (p = q)) as [<-|Hne].
    + rewrite lookup_insert_eq in Hq. injection Hq as <-. eapply thread_at_saved; [by apply HA|done..].
    + rewrite lookup_insert_ne in Hq by done. eapply thread_at_other; [by apply HA|exact HW|].
      destruct (HD p q) as [H|H]; [eauto|eauto|done|..]; change (sizeof mcsos_thread_t) with 160 in *;
        change context_offset with 32; lia.
  - intros q q' Hq Hq'. apply HD.
    + destruct (decide (p = q)) as [<-|]; [eauto|]. by rewrite lookup_insert_ne in Hq.
    + destruct (decide (p = q')) as [<-|]; [eauto|]. by rewrite lookup_insert_ne in Hq'.
Qed.

(** ** The scheduler's switch *)

Lemma live_saved resume r live : live_regs r live →
  save_ctx resume r = mk_context (Sched.rsp live) (Sched.rbp live) (Sched.rbx live) (Sched.r12 live)
                        (Sched.r13 live) (Sched.r14 live) (Sched.r15 live) resume.
Proof. intros (H1 & H2 & H3 & H4 & H5 & H6 & H7). unfold save_ctx. by rewrite H1, H2, H3, H4, H5, H6, H7. Qed.

(** The saved context of a thread lies in the address space. *)
Lemma thread_ctx_ok m p t : thread_at m p t → ctx_ok (p + context_offset) ∧ mapped m (p + context_offset) 64.
Proof.
  intros []. change (sizeof mcsos_thread_t) with 160 in *. change context_offset with 32.
  split; [split; lia|]. eapply mapped_sub; [eassumption|lia..].
Qed.

Lemma switch_inv resume ts live old new ts' live' :
  Sched.context_switch resume ts live old new = Ret (ts', live') → old ≠ new →
  ∃ t u, ts !! old = Some t ∧ ts !! new = Some u ∧ live' = ctxt u ∧
    ts' = <[old := set_ctxt t (mk_context (Sched.rsp live) (Sched.rbp live) (Sched.rbx live) (Sched.r12 live)
             (Sched.r13 live) (Sched.r14 live) (Sched.r15 live) resume)]> ts.
Proof.
  unfold context_switch, modify, deref. intros E Hne. destruct (ts !! old) as [t|] eqn:Ho; [|done].
  cbn [obind] in E. rewrite lookup_insert_ne in E by done. destruct (ts !! new) as [u|] eqn:Hn; [|done].
  injection E as <- <-. by exists t, u.
Qed.

Section refine.
Context {S : Type} (lk : linked) (ccall : callee S) (scratch : Machine.regs).
Hypothesis Hlk : linked_ok lk.

Lemma context_switch_spec n m ts ts' live live' old new r s :
  threads_at m ts → old ≠ new → Sched.context_switch (resume lk) ts live old new = Ret (ts', live') →
  live_regs r live → Forall in64 (ctx_words (save_ctx (resume lk) r)) →
  rdi r = old + context_offset → rsi r = new + context_offset →
  ∃ m' r', threads_at m' ts' ∧ wrote (old + context_offset) 64 m m' ∧ live_regs r' live' ∧
    (at_addr lk context_switch_S (Sched.rip live') = None →
     run lk context_switch_S ccall scratch (20 + n) (Sym "mcsos_context_switch") r m s =
       Ret (LeftTo (Sched.rip live'), mk_x 0 r' m' s)) ∧
    (∀ ra, Sched.rip live' = resume lk → load64 m' (Sched.rsp live') = Ret ra →
     at_addr lk context_switch_S ra = None →
     run lk context_switch_S ccall scratch (20 + n) (Sym "mcsos_context_switch") r m s =
       Ret (LeftTo ra, mk_x 0 (set_rsp r' (Sched.rsp live' ⊕ 8)) m' s)).
Proof.
  intros HT Hne E HL Hin Hdi Hsi. destruct (switch_inv _ _ _ _ _ _ _ E Hne) as (t & u & Ho & Hn & -> & ->).
  rewrite <- (live_saved (resume lk) r live HL).
  destruct (thread_ctx_ok m old t) as [Co Mo]; [by apply HT|].
  destruct (thread_ctx_ok m new u) as [Cn _]; [by apply HT|].
  destruct (switch_leaves lk ccall scratch Hlk n r m (ctxt u) s) as (m' & HW & HS & H1 & H2);
    rewrite ?Hdi, ?Hsi; [done..| |by apply HT|].
  { destruct (tsa_disjoint _ _ HT old new) as [H|H]; [eauto..|done| |];
      change (sizeof mcsos_thread_t) with 160 in H; lia. }
  rewrite Hdi in HW, HS. exists m', (load_ctx (resume lk) (ctxt u) r). split_and!; try done.
  by eapply threads_at_saved.
Qed.
End refine.
