(* ===== verification/AsmTheorems.v ===== *)
(** * Theorems about the assembly files and the struct layouts *)

From Stdlib Require Import (notations) String.
From S2P Require Import Prelude Mem Kmem Layout Sched Machine Console ConsoleProofs Interrupts InterruptProofs.
From S2P Require Import InterruptSpecs Syscall Asm AsmProofs ContextSwitch SchedTheorems ConsoleTheorems InterruptTheorems.
#[local] Open Scope Z_scope.

(** ** The processor and the calling convention *)

(** The stack pointer with which a gate enters its handler from [sp]: aligned,
    below the five words the processor pushes, and the error code if any. *)
Definition gate_sp (err : bool) (sp : Z) : Z :=
  let a := Z.land sp (not64 15) ⊖ 40 in if err then a ⊖ 8 else a.

(** The System V convention at a call: the stack pointer is a multiple of 16.  A
    callee that relies on it is undefined otherwise. *)
Definition abi_callee {S} (f : callee S) : callee S := λ name r m s,
  if rsp r mod 16 =? 0 then f name r m s else UB.

Lemma aligned_down sp : Z.land sp (not64 15) mod 16 = 0.
Proof.
  unfold not64. change (Z.lnot 15) with (-16). change (u64 (-16)) with (Z.shiftl (Z.ones 60) 4).
  change 16 with (2 ^ 4). rewrite <- Z.land_ones by lia. apply Z.bits_inj'. intros n Hn.
  rewrite !Z.land_spec, Z.bits_0, Z.shiftl_spec by done. destruct (decide (n < 4)).
  - rewrite (Z.testbit_neg_r _ (n - 4)) by lia. by rewrite andb_false_r.
  - rewrite (Z.ones_spec_high 4 n) by lia. by rewrite andb_false_r.
Qed.

Lemma gate_sp_align err sp : gate_sp err sp mod 16 = if err then 0 else 8.
Proof.
  unfold gate_sp. pose proof (aligned_down sp). pose proof (sub64_align (Z.land sp (not64 15)) 40).
  pose proof (sub64_align (Z.land sp (not64 15) ⊖ 40) 8). destruct err; mlia.
Qed.

(** C19: The interrupt stubs and the calling convention.  Whatever the
    interrupted stack pointer, every exception stub calls the C dispatcher with
    a stack pointer that is a multiple of 16, as the System V convention
    requires, so it runs the same with a dispatcher that relies on it.  The
    [int 0x80] stub does not: entered through its gate it reserves 64 bytes
    below the five words the processor pushed and calls the C code with a stack
    pointer that is 8 modulo 16, so a callee that relies on the convention has
    no defined behaviour. *)
Theorem stub_call_alignment (dev : device) (garbage : list Z) (lk : linked) (c r : regs) (ram : mem)
    (s : machine) (v sp : Z) :
  (0 ≤ v < 32 → rsp r = gate_sp (isr_err v) sp →
   as_stub (run lk isr_S (abi_callee (trap_callee dev garbage)) c 39 (Stub v) r ram s) =
   isr_stub dev garbage v c r ram s) ∧
  (∀ W (g : syscalls W) m w fuel x, rsp r = gate_sp false sp →
   run lk syscall_entry_S (abi_callee (syscall_callee g)) c fuel (Sym "x86_64_syscall_int80_stub") r m w ≠ Ret x).
Proof.
  split.
  - intros Hv Hsp. destruct (stub_placed v Hv) as (q & x & Hp & _). unfold run. rewrite Hp.
    apply (isr_stub_runs dev garbage lk c _ 0) with (n := 0%nat); [|done|done|].
    + intros r1 m1 s1 Hr. unfold abi_callee. by rewrite Hr.
    + rewrite Hsp. pose proof (gate_sp_align (isr_err v) sp). unfold stub_bytes. destruct (isr_err v); mlia.
  - intros W g m w fuel x Hsp. apply int80_refused. intros r1 m1 s1 Hr. unfold abi_callee.
    by rewrite Hr, Hsp, gate_sp_align.
Qed.

(** ** Exceptions and system calls reach their stubs *)

Lemma addr_of_end lk code : addr_of lk code (length code) = origin lk + code_size lk code.
Proof. unfold addr_of. by rewrite firstn_all. Qed.

Lemma stub_table lk v p :
  0 ≤ v < 32 → find_label isr_S (Stub v) = Some p →
  x86_64_exception_stubs_S lk !! Z.to_nat v = Some (addr_of lk isr_S p).
Proof.
  intros Hv Hp. unfold x86_64_exception_stubs_S.
  replace exception_stubs_S with (map Stub (seqZ 0 32)) by reflexivity.
  rewrite !list_lookup_fmap, lookup_seqZ_lt by lia. cbn [fmap option_fmap option_map]. unfold label_addr.
  rewrite Z.add_0_l, Z2Nat.id, Hp by lia. done.
Qed.

Lemma gate_int80 stubs lk idt_addr t :
  idt_ready stubs (addr_of lk syscall_entry_S 0) idt_addr t → in64 (origin lk) →
  deliver t 0x80 = Some (addr_of lk syscall_entry_S 0) ∧
  at_addr lk syscall_entry_S (addr_of lk syscall_entry_S 0) = Some 0%nat.
Proof.
  intros Hr H80. assert (Hz : addr_of lk syscall_entry_S 0 = origin lk) by (unfold addr_of; simpl; lia). split.
  - rewrite (deliver_ready _ _ _ _ _ Hr) by lia. unfold idt_spec. simpl.
    rewrite Hz. f_equal. by apply gate_offset_gate.
  - unfold at_addr. cbn [length syscall_entry_S seq list_find]. by rewrite decide_True.
Qed.

Section gates.
Context (dev : device) (garbage : list Z) (lk lk80 : linked).
Hypothesis Hlk : linked_ok lk.
Hypothesis Hlow : 0 ≤ origin lk.
Hypothesis Hhigh : origin lk + code_size lk isr_S < 2 ^ 64.

Lemma stub_addr_in64 p : (p ≤ length isr_S)%nat → in64 (addr_of lk isr_S p).
Proof.
  intros Hp. pose proof (addr_of_le lk isr_S Hlk p _ Hp) as H1. rewrite addr_of_end in H1.
  pose proof (code_size_pos lk Hlk (take p isr_S)). unfold addr_of in *. unfold in64. lia.
Qed.

(** C15: From the descriptor table to the C code, with the assembly as written.
    After [x86_64_idt_init] with the table of [isr.S] and the entry of
    [syscall_entry.S], wherever the linker put them, the gate of each exception
    0..31 leads to the first line of its own stub, and running the file from
    there is the function that stands for the stub; the gate of vector 0x80
    leads to the system-call stub in the same way. *)
Theorem gates_run_stubs (idt_addr : Z) (t : idt_state) (m0 : machine) :
  in64 (origin lk80) → in64 idt_addr → length (idt t) = 256%nat → log_ok m0 →
  ∃ t' m1, x86_64_idt_init dev garbage (x86_64_exception_stubs_S lk) (addr_of lk80 syscall_entry_S 0)
             idt_addr t m0 = Ret (Some t', m1) ∧
    (∀ v, 0 ≤ v < 32 → ∃ a p, deliver t' v = Some a ∧ at_addr lk isr_S a = Some p ∧
       ∀ c r ram s, as_stub (loop 39 (step lk isr_S (trap_callee dev garbage) c) (mk_x p r ram s)) =
                    isr_stub dev garbage v c r ram s) ∧
    (∃ a p, deliver t' 0x80 = Some a ∧ at_addr lk80 syscall_entry_S a = Some p ∧
       ∀ W (g : syscalls W) c r m w, 64 ≤ rsp r < 2 ^ 64 →
         as_stub (loop 16 (step lk80 syscall_entry_S (syscall_callee g) c) (mk_x p r m w)) =
         (' (r, w) ← x86_64_syscall_int80_stub c g r (m, w); Ret (Some (r, w.1), w.2))).
Proof.
  intros H80 Ha Ht Hm.
  destruct (idt_init_spec dev garbage (x86_64_exception_stubs_S lk) (addr_of lk80 syscall_entry_S 0) idt_addr t)
    as (t' & Hr & HP); [done..|]. destruct (HP m0 Hm) as (m1 & E & _). exists t', m1. split; [exact E|]. split.
  - intros v Hv. destruct (stub_placed v Hv) as (q & x & Hp & HB & Hq).
    exists (addr_of lk isr_S (S q)), (S q).
    assert (Hl : (S q < length isr_S)%nat).
    { unfold stub_lines, ISR_ERR, ISR_NOERR in HB. destruct (isr_err v);
        apply block_cons in HB as [HB _]; by apply lookup_lt_Some in HB. }
    split; [|split; [by eapply at_addr_of|]].
    + eapply deliver_stub; [exact Hr|done|by apply stub_table|apply stub_addr_in64; lia].
    + intros c r ram s. by apply (isr_stub_runs dev garbage lk c _ (rsp r - stub_bytes v)) with (n := 0%nat).
  - destruct (gate_int80 _ _ _ _ Hr H80) as [HD HA]. exists (addr_of lk80 syscall_entry_S 0), 0%nat.
    split; [exact HD|]. split; [exact HA|]. intros W g c r m w Hsp. apply (int80_runs lk80 c g 0 r m w Hsp).
Qed.
End gates.

(** ** The context switch *)

Section switch.
Context {S : Type} (lk : linked) (ccall : callee S) (scratch : Machine.regs).
Hypothesis Hlk : linked_ok lk.

Abbreviation switch r m s :=
  (run lk context_switch_S ccall scratch 20 (Sym "mcsos_context_switch") r m s).
Abbreviation outside a := (at_addr lk context_switch_S a = None).

(** C4: [context_switch.S] implements the scheduler's context switch.  Where the
    thread objects lie in memory as the compiler lays out [mcsos_thread_t], the
    routine, called with the addresses of two threads' contexts, leaves memory
    that holds the thread objects after the switch of the scheduler's model, has
    changed nothing but the old thread's context, and hands over exactly the
    live registers of the model: it goes to the saved address when that is
    outside (a thread's first run), and through its own [ret] to the return
    address on the new stack when the context was saved by an earlier switch. *)
Theorem context_switch_refines (m : mem) (ts ts' : gmap Z thread) (live live' : context) (old new : Z)
    (r : Machine.regs) (s : S) :
  threads_at m ts → old ≠ new → Sched.context_switch (resume lk) ts live old new = Ret (ts', live') →
  live_regs r live → Forall in64 (ctx_words (save_ctx (resume lk) r)) →
  rdi r = old + context_offset → rsi r = new + context_offset →
  ∃ m' r', threads_at m' ts' ∧ wrote (old + context_offset) 64 m m' ∧ live_regs r' live' ∧
    (outside (Sched.rip live') → switch r m s = Ret (LeftTo (Sched.rip live'), mk_x 0 r' m' s)) ∧
    (∀ ra, Sched.rip live' = resume lk → load64 m' (Sched.rsp live') = Ret ra → outside ra →
       switch r m s = Ret (LeftTo ra, mk_x 0 (set_rsp r' (Sched.rsp live' ⊕ 8)) m' s)).
Proof. apply (context_switch_spec lk ccall scratch Hlk 0). Qed.

(** C18: Switching away and back is invisible to the thread.  A thread calls the
    switch with its return address on top of its stack; the routine leaves to
    the other context, be it fresh or saved by an earlier switch.  Whatever runs in between, as long as the thread's saved
    context and its return address are left alone, a later switch back, from any
    context and with any registers, returns to that address with the stack
    pointer just above it and [rbx], [rbp] and [r12 .. r15] as they were. *)
Theorem context_switch_roundtrip (m1 : mem) (r1 : Machine.regs) (s1 : S) (c : context) (ra : Z) :
  Forall in64 (ctx_words (save_ctx (resume lk) r1)) → ctx_ok (rdi r1) → ctx_ok (rsi r1) →
  mapped m1 (rdi r1) 64 → rdi r1 + 64 ≤ rsi r1 ∨ rsi r1 + 64 ≤ rdi r1 →
  words_at m1 (rsi r1) (ctx_words c) → outside ra →
  outside (Sched.rip c) ∨
    Sched.rip c = resume lk ∧ (∃ rb, load64 m1 (Sched.rsp c) = Ret rb ∧ outside rb) ∧
    (Sched.rsp c + 8 ≤ rdi r1 ∨ rdi r1 + 64 ≤ Sched.rsp c) →
  ∃ a st1, switch r1 m1 s1 = Ret (LeftTo a, st1) ∧
    ∀ m2 r2 s2, (∀ i, rdi r1 ≤ i < rdi r1 + 64 → m2 !! i = xmem st1 !! i) → load64 m2 (rsp r1) = Ret ra →
      Forall in64 (ctx_words (save_ctx (resume lk) r2)) → rsi r2 = rdi r1 → ctx_ok (rdi r2) → mapped m2 (rdi r2) 64 →
      rdi r2 + 64 ≤ rdi r1 ∨ rdi r1 + 64 ≤ rdi r2 → rdi r2 + 64 ≤ rsp r1 ∨ rsp r1 + 8 ≤ rdi r2 →
      ∃ st2, switch r2 m2 s2 = Ret (LeftTo ra, st2) ∧
        rsp (xregs st2) = rsp r1 ⊕ 8 ∧ rbp (xregs st2) = rbp r1 ∧ rbx (xregs st2) = rbx r1 ∧
        r12 (xregs st2) = r12 r1 ∧ r13 (xregs st2) = r13 r1 ∧ r14 (xregs st2) = r14 r1 ∧ r15 (xregs st2) = r15 r1.
Proof.
  intros Hin Hd Hs Hm Hdis HW Hra Hc.
  destruct (switch_leaves lk ccall scratch Hlk 0 r1 m1 c s1) as (m' & HW1 & HS & H1 & H1'); [done..|].
  assert (∃ a st1, switch r1 m1 s1 = Ret (LeftTo a, st1) ∧ xmem st1 = m') as (a & st1 & E1 & Hst).
  { destruct Hc as [Hc|(Hc & (rb & Hrb & Hob) & Hd1)]; [do 2 eexists; split; [by apply H1|done]|].
    do 2 eexists. split; [apply (H1' rb Hc); [|done]|done]. by rewrite (load64_outside _ _ _ _ _ HW1) by lia. }
  exists a, st1. split; [exact E1|]. rewrite Hst. intros m2 r2 s2 Hsame HL Hin2 Hsi Hd2 Hm2 Hdis2 Hstk.
  destruct (switch_leaves lk ccall scratch Hlk 0 r2 m2 (save_ctx (resume lk) r1) s2) as (m3 & HW3 & _ & _ & H2);
    rewrite ?Hsi; [done..| |].
  { eapply words_ext; [|exact HS]. exact Hsame. }
  eexists. split; [apply H2; [done| |exact Hra]|done].
  cbn [save_ctx Sched.rsp]. rewrite (load64_outside _ _ _ _ _ HW3) by lia. exact HL.
Qed.

(** C30: A prepared thread starts on its own stack.  When [mcsos_thread_prepare]
    has accepted a thread, memory holds the thread objects and the stack as it
    left them, and the caller's context is not on that stack, the first switch to
    the thread goes to the trampoline's address with a stack pointer inside the
    given stack that is 8 modulo 16, as at a function entry, with the zero return
    address on top of the stack in the memory the trampoline finds, and with the
    callee-saved registers zero; the caller's registers are saved in the caller's
    own context and the entry function is recorded in the thread object. *)
Theorem thread_first_run (trampoline : Z) (k k1 : kern) (t0 tc : thread) (thr nm ent ar base size tid cur : Z)
    (m : mem) (r : Machine.regs) (s : S) :
  0 ≤ base < 2 ^ 64 → 0 ≤ size < 2 ^ 64 → threads k !! thr = Some t0 → mapped (kmemory k) base size →
  mcsos_thread_prepare trampoline k thr nm ent ar base size tid = Ret (MCSOS_SCHED_OK, k1) →
  threads_at m (threads k1) → (∀ a, base ≤ a < base + size → m !! a = kmemory k1 !! a) →
  threads k1 !! cur = Some tc → cur ≠ thr →
  cur + context_offset + 64 ≤ base ∨ base + size ≤ cur + context_offset → outside trampoline →
  Forall in64 (ctx_words (save_ctx (resume lk) r)) →
  rdi r = cur + context_offset → rsi r = thr + context_offset →
  ∃ m' r', switch r m s = Ret (LeftTo trampoline, mk_x 0 r' m' s) ∧
    base < rsp r' ∧ rsp r' + 8 ≤ base + size ∧ rsp r' mod 16 = 8 ∧ load64 m' (rsp r') = Ret 0 ∧
    [rbp r'; rbx r'; r12 r'; r13 r'; r14 r'; r15 r'] = [0; 0; 0; 0; 0; 0] ∧
    thread_at m' cur (set_ctxt tc (save_ctx (resume lk) r)) ∧
    load_member mcsos_thread_t "entry" m' thr = Ret ent.
Proof.
  intros Hb Hsz Ht Hm E HT Hstk Hc Hne Hdis Hout Hin Hdi Hsi.
  pose proof (thread_prepare_spec trampoline k thr nm ent ar base size tid t0 Hb Hsz Ht Hm) as Hsp.
  rewrite E in Hsp. case_decide; [done|]. case_decide; [done|].
  destruct Hsp as (m1 & [= ->] & B1 & B2 & B3 & B4 & _). cbn [threads kmemory] in *.
  rewrite lookup_insert_ne in Hc by done.
  destruct (context_switch_spec lk ccall scratch Hlk 0 m _ _ (save_ctx 0 r) _ cur thr r s HT Hne
    ltac:(unfold context_switch, modify, deref; rewrite lookup_insert_ne, Hc by done; cbn [obind];
          rewrite lookup_insert_ne, lookup_insert_eq by done; reflexivity)) as (m' & r' & HT' & HW & HL & H1 & _);
    [by repeat split|done..|].
  exists m', r'. destruct HL as (L1 & L2 & L3 & L4 & L5 & L6 & L7). cbn in L1, L2, L3, L4, L5, L6, L7.
  split; [by apply H1|]. rewrite L1, L2, L3, L4, L5, L6, L7. split_and!; try done.
  - rewrite (load64_outside _ _ _ _ _ HW), <- B4 by lia. apply (load_le_ext 8). intros i Hi. apply Hstk. lia.
  - apply HT'. by rewrite lookup_insert_eq.
  - pose proof (tsa_at _ _ HT' thr _ (eq_trans (lookup_insert_ne _ _ _ _ Hne) (lookup_insert_eq _ _ _))) as Hthr.
    exact (ta_entry _ _ _ Hthr).
Qed.
End switch.

(** ** Struct layouts *)

(** Members inside the struct, aligned unless it is packed, one after the other. *)
Definition laid_out (t : ctype) : Prop :=
  ∃ packed ms, t = CStruct packed ms ∧
    ∀ i x u o, placed t !! i = Some (x, u, o) →
      0 ≤ o ∧ o + sizeof u ≤ sizeof t ∧ (packed = false → (alignof u | o)) ∧
      ∀ j y u' o', (i < j)%nat → placed t !! j = Some (y, u', o') → o + sizeof u ≤ o'.

(** [mcsos_syscall_dispatch_frame] with its accesses written as member accesses. *)
Definition dispatch_frame_members {W} (g : syscalls W) (frame : Z) (w : world W) : outcome (world W) :=
  let get x := load_member mcsos_syscall_frame_t x w.1 frame in
  if frame =? 0 then Ret w
  else
    nr ← get "nr"%string; a0 ← get "arg0"%string; a1 ← get "arg1"%string; a2 ← get "arg2"%string;
    a3 ← get "arg3"%string; a4 ← get "arg4"%string; a5 ← get "arg5"%string;
    ' (ret, w) ← mcsos_syscall_dispatch g nr a0 a1 a2 a3 a4 a5 w;
    m ← store_member mcsos_syscall_frame_t "ret" w.1 frame (u64 ret);
    Ret (m, w.2).

Lemma kernel_struct_laid_out t : t ∈ kernel_structs → laid_out t.
Proof.
  assert (H : ∀ packed ms, Forall (λ p, sized p.2) ms → laid_out (CStruct packed ms)).
  { intros packed ms HF. exists packed, ms. split; [done|]. intros i x u o. by apply struct_layout_sound. }
  unfold kernel_structs. rewrite !elem_of_cons, elem_of_nil. intros Ht. destruct_or!; subst; try done; apply H;
    repeat (constructor; [by vm_compute|]); constructor.
Qed.

(** The member at offset 0. *)
Lemma first_member (P : Z → Prop) a : P (a + 0) → P a.
Proof. by rewrite Z.add_0_r. Qed.

Lemma dispatch_frame_typed W (g : syscalls W) frame w :
  mcsos_syscall_dispatch_frame g frame w = dispatch_frame_members g frame w.
Proof.
  unfold mcsos_syscall_dispatch_frame, dispatch_frame_members. destruct (frame =? 0); [done|].
  pattern frame at 1. by apply first_member.
Qed.

(** The registers [isr_common] pushes, as members of the trap frame. *)
Definition frame_regs : list (string * reg) :=
  [("r15", R15); ("r14", R14); ("r13", R13); ("r12", R12); ("r11", R11); ("r10", R10); ("r9", R9); ("r8", R8);
   ("rsi", RSI); ("rdi", RDI); ("rbp", RBP); ("rdx", RDX); ("rcx", RCX); ("rbx", RBX); ("rax", RAX)]%string.

Lemma frame_reg_at x y r : (x, y) ∈ frame_regs →
  ∃ i, (i < 15)%nat ∧ member x86_64_trap_frame_t x = Some (uint64_t, 8 * (14 - Z.of_nat i)) ∧
    pushed r !! i = Some (get_reg r y).
Proof.
  intros H. apply list_elem_of_lookup in H as [i Hi].
  assert (Hlt : (i < 15)%nat) by (by apply lookup_lt_Some in Hi).
  exists (14 - i)%nat. split; [lia|].
  do 15 (destruct i as [|i]; [injection Hi as <- <-; split; vm_compute; reflexivity|]). lia.
Qed.

Lemma frame_reg_ne x y : (x, y) ∈ frame_regs → y ≠ RSP.
Proof.
  intros H ->. apply list_elem_of_lookup in H as [i Hi].
  do 15 (destruct i as [|i]; [discriminate Hi|]). done.
Qed.

(** Reading a member that is a 64-bit word. *)
Lemma load_word_member t x off m p :
  member t x = Some (uint64_t, off) → load_member t x m p = load64 m (p + off).
Proof. intros H. unfold load_member. by rewrite H. Qed.

(** The pushed words are the register members, from either side. *)
Lemma pushed_members r m sp :
  (∀ i v, pushed r !! i = Some v → load64 m (sp - 8 * Z.of_nat (S i)) = Ret v) →
  ∀ x y, (x, y) ∈ frame_regs → load_member x86_64_trap_frame_t x m (sp - 120) = Ret (get_reg r y).
Proof.
  intros HL x y Hxy. destruct (frame_reg_at x y r Hxy) as (i & Hi & Hmem & Hp).
  rewrite (load_word_member _ _ _ _ _ Hmem), <- (HL i _ Hp). f_equal. lia.
Qed.

Lemma pushed_words w m frame :
  (∀ x y, (x, y) ∈ frame_regs → load_member x86_64_trap_frame_t x m frame = Ret (get_reg w y)) →
  ∀ i v, reverse (pushed w) !! i = Some v → load64 m (frame + 8 * Z.of_nat i) = Ret v.
Proof.
  intros Hw i v Hv. destruct (frame_regs !! i) as [[x y]|] eqn:Hi.
  - rewrite <- (load_word_member x86_64_trap_frame_t x), (Hw x y) by
      first [by eapply list_elem_of_lookup_2
            |do 15 (destruct i as [|i]; [injection Hi as <- <-; vm_compute; reflexivity|]); done].
    do 15 (destruct i as [|i]; [injection Hi as <- <-; injection Hv as <-; reflexivity|]). done.
  - apply lookup_ge_None in Hi. apply lookup_lt_Some in Hv. rewrite length_reverse in Hv. cbn in Hi, Hv. lia.
Qed.

(** The system-call stub stores the call's registers in these members. *)
Definition call_regs : list (string * reg) :=
  [("nr", RAX); ("arg0", RDI); ("arg1", RSI); ("arg2", RDX); ("arg3", R10); ("arg4", R8); ("arg5", R9)]%string.

Lemma call_reg_at x y r : (x, y) ∈ call_regs →
  ∃ i, member mcsos_syscall_frame_t x = Some (uint64_t, 8 * Z.of_nat i) ∧
    map (get_reg r) [RAX; RDI; RSI; RDX; R10; R8; R9] !! i = Some (get_reg r y).
Proof.
  intros H. apply list_elem_of_lookup in H as [i Hi]. exists i.
  do 7 (destruct i as [|i]; [injection Hi as <- <-; split; vm_compute; reflexivity|]). done.
Qed.

Lemma call_members r m frame vs :
  words_at m frame (map (get_reg r) [RAX; RDI; RSI; RDX; R10; R8; R9] ++ vs) →
  ∀ x y, (x, y) ∈ call_regs → load_member mcsos_syscall_frame_t x m frame = Ret (get_reg r y).
Proof.
  intros HW x y Hxy. destruct (call_reg_at x y r Hxy) as (i & Hmem & Hi).
  rewrite (load_word_member _ _ _ _ _ Hmem). apply HW. by apply lookup_app_l_Some.
Qed.

(** The offsets the models of the C code use are those of the members. *)
Lemma c_offsets_agree :
  sizeof kmem_block_t = sizeof_block ∧
  (∀ m b, (get_magic m b, get_size m b, get_free m b, get_prev m b, get_next m b) =
    (load_member kmem_block_t "magic" m b, load_member kmem_block_t "size" m b,
     load_member kmem_block_t "free" m b, load_member kmem_block_t "prev" m b,
     load_member kmem_block_t "next" m b)) ∧
  (∀ m b v, (set_magic m b v, set_size m b v, set_free m b v, set_prev m b v, set_next m b v) =
    (store_member kmem_block_t "magic" m b v, store_member kmem_block_t "size" m b v,
     store_member kmem_block_t "free" m b v, store_member kmem_block_t "prev" m b v,
     store_member kmem_block_t "next" m b v)) ∧
  [frame_rdx; frame_rcx; frame_rbx; frame_rax; frame_vector; frame_error_code; frame_rip; frame_cs; frame_rflags] =
    map (offsetof x86_64_trap_frame_t)
      ["rdx"; "rcx"; "rbx"; "rax"; "vector"; "error_code"; "rip"; "cs"; "rflags"]%string ∧
  sizeof x86_64_idt_entry_t = sizeof_idt_entry ∧ sizeof x86_64_idtr_t = 10.
Proof.
  split_and!; try reflexivity.
  - intros m b. pattern b at 1. by apply first_member.
  - intros m b v. pattern b at 1. by apply first_member.
Qed.

Section frames.
Context {S : Type} (lk : linked) (ccall : callee S) (c : regs).

(** The frame [syscall_entry.S] builds, with any C function behind the call. *)
Lemma int80_frame n r m s :
  Forall in64 (map (get_reg r) [RAX; RDI; RSI; RDX; R10; R8; R9]) → 64 ≤ rsp r < 2 ^ 64 →
  mapped m (rsp r - 64) 64 →
  ∃ m1, wrote (rsp r - 64) 64 m m1 ∧
    words_at m1 (rsp r - 64) (map (get_reg r) [RAX; RDI; RSI; RDX; R10; R8; R9] ++ [0]) ∧
    as_stub (run lk syscall_entry_S ccall c (16 + n) (Sym "x86_64_syscall_int80_stub") r m s) =
    (' (o, s) ← ccall "mcsos_syscall_dispatch_frame"%string (set_rdi (set_rsp r (rsp r - 64)) (rsp r - 64)) m1 s;
     match o with
     | None => Ret (None, s)
     | Some m => v ← load64 m (rsp r - 64 + 56); Ret (Some (set_rax (after_call c r) v, m), s)
     end).
Proof.
  intros Hin Hr Hm. unfold run. change (find_label _ _) with (Some 0%nat). cbn iota beta.
  assert (Hsp : rsp r ⊖ 64 = rsp r - 64) by (apply sub64_small; unfold in64; lia).
  asm_label. asm_step. asm_step. rewrite Hsp. cbn [Nat.add]. set (r1 := set_rsp r (rsp r - 64)).
  assert (Hr1 : get_reg r1 RSP + 0 = rsp r - 64) by (cbn; lia).
  destruct (loop_stores lk syscall_entry_S ccall c RSP [RAX; RDI; RSI; RDX; R10; R8; R9] 0 (6 + n) _ 3 r1 m s eq_refl)
    as (m1 & EL & W1 & L1); rewrite ?Hr1; [exact eq_refl|exact Hin|eapply mapped_sub; [exact Hm|cbn; lia..]|lia|cbn; lia|].
  cbn [Nat.add length] in EL. rewrite EL. clear EL. rewrite Hr1 in *. cbn [length] in W1. change (8 * Z.of_nat 7) with 56 in W1. asm_step. cbn [r1 set_rsp rsp].
  rewrite (add64_small (rsp r - 64) 56) by (unfold in64; lia).
  destruct (store64_wrote m1 (rsp r - 64 + 56) 0) as (m2 & -> & W2 & L2);
    [apply W1; eapply mapped_sub; [exact Hm|lia..]|done|]. cbn [obind]. exists m2. split; [|split].
  - eapply wrote_trans; eapply wrote_weaken; [exact W1|lia|lia|exact W2|lia|lia].
  - intros i v Hv. apply lookup_app_Some in Hv as [Hv|[Hi Hv]].
    + rewrite (load64_outside _ _ _ _ _ W2); [by apply L1|]. apply lookup_lt_Some in Hv. cbn in Hv. lia.
    + cbn [length map] in Hi, Hv. destruct (i - 7)%nat as [|j] eqn:Ej; [|done]. injection Hv as <-.
      rewrite <- L2. f_equal. lia.
  - asm_step. asm_step. fold r1. destruct (ccall _ _ _ _) as [[[m3|] s3]| |]; cbn [obind]; [|done..].
    asm_step. cbn [after_call set_rdi set_rsp rsp r1]. rewrite (add64_small (rsp r - 64) 56) by (unfold in64; lia).
    destruct (load64 m3 _) as [v| |]; cbn [obind]; [|done..]. asm_step. asm_step. cbn.
    rewrite (add64_small (rsp r - 64) 64) by (unfold in64; lia). by replace (rsp r - 64 + 64) with (rsp r) by lia.
Qed.

(** The pops of [isr_common] take every register but the stack pointer from the frame. *)
Lemma pop_frame w r x :
  pop_result popped (reverse (pushed w)) (after_call c (set_rdi (set_rsp r x) x)) = set_rsp w (x + 120).
Proof. destruct r, w, c. cbv -[Z.add]. f_equal. lia. Qed.

(** What [isr_common] does from its entry to the call, and from the call on. *)
Lemma isr_common_frame n r m s :
  Forall in64 (pushed r) → 120 ≤ rsp r < 2 ^ 64 - 16 → mapped m (rsp r - 120) 120 →
  let frame := rsp r - 120 in
  ∃ m1, wrote frame 120 m m1 ∧
    (∀ x y, (x, y) ∈ frame_regs → load_member x86_64_trap_frame_t x m1 frame = Ret (get_reg r y)) ∧
    ∀ o s', ccall "x86_64_trap_dispatch"%string (set_rdi (set_rsp r frame) frame) m1 s = Ret (o, s') →
      match o with
      | None => as_stub (loop (35 + n) (step lk isr_S ccall c) (mk_x 0 r m s)) = Ret (None, s')
      | Some m2 => ∀ w,
          (∀ x y, (x, y) ∈ frame_regs → load_member x86_64_trap_frame_t x m2 frame = Ret (get_reg w y)) →
          as_stub (loop (35 + n) (step lk isr_S ccall c) (mk_x 0 r m s)) =
            Ret (Some (set_rsp w (rsp r + 16), m2), s')
      end.
Proof.
  intros Hin Hr Hm frame. destruct (push_all_spec (pushed r) r m 120) as (m1 & E & W & HL); [done|lia|done|done|].
  exists m1. split; [exact W|]. split; [by apply pushed_members|]. intros o s' Hcall.
  assert (HE : as_stub (loop (35 + n) (step lk isr_S ccall c) (mk_x 0 r m s)) =
    match o with
    | None => Ret (None, s')
    | Some m2 =>
        ' (r, m) ← pop_all popped (after_call c (set_rdi (set_rsp r frame) frame), m2);
        Ret (Some (set_rsp r (rsp r ⊕ 16), m), s')
    end).
  { asm_label.
    pose proof (loop_pushes lk isr_S ccall c [RAX; RBX; RCX; RDX; RBP; RDI; RSI; R8; R9; R10; R11; R12; R13; R14; R15]
      (19 + n) _ 1 r m s eq_refl ltac:(by repeat constructor) eq_refl) as HP.
    cbn [length Nat.add] in HP. rewrite HP. clear HP.
    change (map (get_reg r) _) with (pushed r). rewrite E. cbn [obind]. asm_step. asm_step. cbn [rsp set_rsp].
    fold frame. rewrite Hcall. cbn [obind]. destruct o as [m2|]; cbn [obind]; [|done].
    pose proof (loop_pops lk isr_S ccall c [R15; R14; R13; R12; R11; R10; R9; R8; RSI; RDI; RBP; RDX; RCX; RBX; RAX]
      (2 + n) _ 18 (after_call c (set_rdi (set_rsp r frame) frame)) m2 s' eq_refl eq_refl) as HP.
    cbn [length Nat.add] in HP. rewrite HP. clear HP.
    change (map _ _) with popped. destruct (pop_all _ _) as [[r2 m3]| |]; cbn [obind]; [|done..].
    asm_step. asm_step. done. }
  destruct o as [m2|]; [|exact HE]. intros w Hw. rewrite HE, (pop_all_spec popped (reverse (pushed w)));
    [|done|apply popped_rsp|cbn; lia|cbn; lia|by apply pushed_words].
  rewrite pop_frame. cbn [obind rsp set_rsp]. rewrite add64_small by (unfold in64; lia).
  by replace (frame + 120 + 16) with (rsp r + 16) by lia.
Qed.

(** The stub of a vector: its pushes, then [isr_common] below them. *)
Lemma isr_stub_pushes_frame v r m s :
  0 ≤ v < 32 → 16 < rsp r < 2 ^ 64 - 16 →
  let e := error_bytes v in
  mapped m (rsp r + e - 16) (16 - e) →
  ∃ m1 n, wrote (rsp r + e - 16) (16 - e) m m1 ∧ load64 m1 (rsp r + e - 16) = Ret v ∧
    (isr_err v = false → load64 m1 (rsp r - 8) = Ret 0) ∧
    run lk isr_S ccall c 39 (Stub v) r m s =
      loop (35 + n) (step lk isr_S ccall c) (mk_x 0 (set_rsp r (rsp r + e - 16)) m1 s).
Proof.
  intros Hv Hr e Hm. destruct (stub_words_spec v r m e) as (m1 & E & W & Lv & L0); [done..|].
  destruct (stub_placed v Hv) as (q & x & Hp & HB & _). unfold run. rewrite Hp.
  assert (Hc : find_label isr_S (Sym "isr_common") = Some 0%nat) by reflexivity.
  exists m1, (if isr_err v then 1%nat else 0%nat). split; [exact W|]. split; [exact Lv|]. split; [exact L0|].
  unfold stub_lines, stub_words, ISR_ERR, ISR_NOERR in *.
  destruct (isr_err v); repeat match goal with H : block _ _ (_ :: _) |- _ => apply block_cons in H as [? H] end;
    cbn [Nat.add]; erewrite loop_label by eassumption; cbn [pc xregs xmem xworld]; cbn [push_all pushq obind] in E.
  - erewrite loop_ins by eassumption. unfold exec, push, next. cbn [pc xregs xmem xworld].
    destruct (store64 _ _ _) as [m'| |]; cbn [obind] in E |- *; [|done..]. apply (inj Ret), pair_equal_spec in E as [-> ->].
    erewrite loop_ins by eassumption. unfold exec. cbn [pc xregs xmem xworld]. by rewrite Hc.
  - erewrite loop_ins by eassumption. unfold exec, push, next. cbn [pc xregs xmem xworld].
    destruct (store64 _ _ _) as [m'| |]; cbn [obind pushq] in E |- *; [|done..].
    erewrite loop_ins by eassumption. unfold exec, push, next. cbn [pc xregs xmem xworld].
    destruct (store64 _ _ _) as [m''| |]; cbn [obind] in E |- *; [|done..]. apply (inj Ret), pair_equal_spec in E as [-> ->].
    erewrite loop_ins by eassumption. unfold exec. cbn [pc xregs xmem xworld]. by rewrite Hc.
Qed.

Lemma isr_frame v r m s :
  let T := x86_64_trap_frame_t in let top := rsp r + error_bytes v in
  let frame := top - offsetof T "rip" in
  0 ≤ v < 32 → Forall in64 (pushed r) → sizeof T < rsp r < 2 ^ 64 - 32 → mapped m frame (sizeof T) →
  ∃ m1, wrote frame (rsp r - frame) m m1 ∧
    (∀ x y, (x, y) ∈ frame_regs → load_member T x m1 frame = Ret (get_reg r y)) ∧
    load_member T "vector" m1 frame = Ret v ∧
    load_member T "error_code" m1 frame = (if isr_err v then load64 m (rsp r) else Ret 0) ∧
    load_member T "rip" m1 frame = load64 m top ∧ load_member T "cs" m1 frame = load64 m (top + 8) ∧
    load_member T "rflags" m1 frame = load64 m (top + 16) ∧
    ∀ o s', ccall "x86_64_trap_dispatch"%string (set_rdi (set_rsp r frame) frame) m1 s = Ret (o, s') →
      match o with
      | None => as_stub (run lk isr_S ccall c 39 (Stub v) r m s) = Ret (None, s')
      | Some m2 => ∀ w, (∀ x y, (x, y) ∈ frame_regs → load_member T x m2 frame = Ret (get_reg w y)) →
          as_stub (run lk isr_S ccall c 39 (Stub v) r m s) = Ret (Some (set_rsp w top, m2), s')
      end.
Proof.
  intros T top frame Hv Hin Hr Hm. assert (Hf : frame = top - 136) by done. clearbody frame. subst frame T.
  change (sizeof x86_64_trap_frame_t) with 160 in Hr, Hm. unfold top in *.
  assert (He : error_bytes v = 0 ∨ error_bytes v = 8) by (unfold error_bytes; destruct (isr_err v); auto).
  assert (He' : error_bytes v = if isr_err v then 8 else 0) by done. set (e := error_bytes v) in *.
  destruct (isr_stub_pushes_frame v r m s Hv) as (m1 & n & W1 & Lv & L0 & E);
    [lia|eapply mapped_sub; [exact Hm|lia..]|]. fold e in W1, Lv, E. rewrite E.
  set (r1 := set_rsp r (rsp r + e - 16)) in *.
  destruct (isr_common_frame n r1 m1 s) as (m2 & W2 & HR & HC);
    [exact Hin|cbn; lia|cbn; apply W1; eapply mapped_sub; [exact Hm|lia..]|]. cbn [r1 rsp set_rsp] in W2, HR, HC.
  replace (rsp r + e - 16 - 120) with (rsp r + e - 136) in * by lia.
  replace (rsp r + e - 16 + 16) with (rsp r + e) in * by lia.
  assert (W : wrote (rsp r + e - 136) (136 - e) m m2)
    by (eapply wrote_trans; eapply wrote_weaken; [exact W1|lia|lia|exact W2|lia|lia]).
  assert (Habove : ∀ a, rsp r ≤ a → load64 m2 a = load64 m a)
    by (intros a Ha; rewrite (load64_outside _ _ _ _ _ W); [done|lia]).
  exists m2. split; [replace (rsp r - (rsp r + e - 136)) with (136 - e) by lia; exact W|].
  split; [intros x y Hxy; rewrite (HR x y Hxy); f_equal; exact (get_set_ne r RSP y _ (frame_reg_ne x y Hxy))|].
  rewrite (load_word_member _ "vector" 120), (load_word_member _ "error_code" 128), (load_word_member _ "rip" 136),
    (load_word_member _ "cs" 144), (load_word_member _ "rflags" 152) by reflexivity.
  split_and!.
  - rewrite (load64_outside _ _ _ _ _ W2) by lia. rewrite <- Lv. f_equal. lia.
  - destruct (isr_err v); [rewrite Habove by lia; f_equal; lia|].
    rewrite (load64_outside _ _ _ _ _ W2), <- L0 by (done || lia). f_equal. lia.
  - rewrite Habove by lia. f_equal. lia.
  - rewrite Habove by lia. f_equal. lia.
  - rewrite Habove by lia. f_equal. lia.
  - exact HC.
Qed.

(** C17: Structs between assembly and C.  The members of every struct that
    assembly code or pointer arithmetic addresses lie inside it, aligned unless
    it is packed, and do not overlap.  On a mapped stack, the system-call stub of
    [syscall_entry.S] reserves exactly one [mcsos_syscall_frame_t] below the
    interrupted stack pointer, writes nothing else, and calls the C function
    with its address and with [rax], [rdi], [rsi], [rdx], [r10], [r8], [r9] in
    the members [nr], [arg0] .. [arg5] and 0 in [ret]; whatever the C function
    does, the stub returns with [rax] taken from the member [ret] and the stack
    pointer back.  Each exception stub of [isr.S] calls its C function with the
    address of an [x86_64_trap_frame_t] whose member [rip] lies where the
    processor pushed [rip], with every register in the member of its name, the
    vector, and the error code of the processor or 0; on return every register
    is taken from the member of its name and the stack pointer is at [rip]. *)
Theorem struct_layouts_agree (r : regs) (m : mem) (s : S) :
  (∀ t, t ∈ kernel_structs → laid_out t) ∧
  (let F := mcsos_syscall_frame_t in let frame := rsp r - sizeof F in
   Forall in64 (map (get_reg r) [RAX; RDI; RSI; RDX; R10; R8; R9]) → sizeof F ≤ rsp r < 2 ^ 64 →
   mapped m frame (sizeof F) →
   ∃ m1, wrote frame (sizeof F) m m1 ∧
     (∀ x y, (x, y) ∈ call_regs → load_member F x m1 frame = Ret (get_reg r y)) ∧
     load_member F "ret" m1 frame = Ret 0 ∧
     ∀ o s', ccall "mcsos_syscall_dispatch_frame"%string (set_rdi (set_rsp r frame) frame) m1 s = Ret (o, s') →
       as_stub (run lk syscall_entry_S ccall c 16 (Sym "x86_64_syscall_int80_stub") r m s) =
       match o with
       | None => Ret (None, s')
       | Some m2 => v ← load_member F "ret" m2 frame; Ret (Some (set_rax (after_call c r) v, m2), s')
       end) ∧
  (∀ v, let T := x86_64_trap_frame_t in let top := rsp r + error_bytes v in
   let frame := top - offsetof T "rip" in
   0 ≤ v < 32 → Forall in64 (pushed r) → sizeof T < rsp r < 2 ^ 64 - 32 → mapped m frame (sizeof T) →
   ∃ m1, wrote frame (rsp r - frame) m m1 ∧
     (∀ x y, (x, y) ∈ frame_regs → load_member T x m1 frame = Ret (get_reg r y)) ∧
     load_member T "vector" m1 frame = Ret v ∧
     load_member T "error_code" m1 frame = (if isr_err v then load64 m (rsp r) else Ret 0) ∧
     load_member T "rip" m1 frame = load64 m top ∧ load_member T "cs" m1 frame = load64 m (top + 8) ∧
     load_member T "rflags" m1 frame = load64 m (top + 16) ∧
     ∀ o s', ccall "x86_64_trap_dispatch"%string (set_rdi (set_rsp r frame) frame) m1 s = Ret (o, s') →
       match o with
       | None => as_stub (run lk isr_S ccall c 39 (Stub v) r m s) = Ret (None, s')
       | Some m2 => ∀ w, (∀ x y, (x, y) ∈ frame_regs → load_member T x m2 frame = Ret (get_reg w y)) →
           as_stub (run lk isr_S ccall c 39 (Stub v) r m s) = Ret (Some (set_rsp w top, m2), s')
       end).
Proof.
  split; [exact kernel_struct_laid_out|]. split.
  - intros F frame Hin Hr Hm. destruct (int80_frame 0 r m s Hin Hr Hm) as (m1 & W & HL & E).
    exists m1. split; [exact W|]. split; [exact (call_members _ _ _ _ HL)|]. split; [exact (HL 7%nat 0 eq_refl)|].
    intros o s' Hc. refine (eq_trans E _). change (rsp r - 64) with frame. rewrite Hc. by destruct o.
  - intros v T top frame Hv Hin Hr Hm. by apply isr_frame.
Qed.
End frames.


(** ** A concrete system

    The programs at [0x100000] and [0x200000] with four bytes per instruction;
    the running thread at [0x1000] and a thread prepared with the stack
    [0x4000 .. 0x5fff] at [0x2000], in one memory. *)
Definition demo_link : linked := mk_linked 0x100000 (λ _, 4).
Definition demo_link80 : linked := mk_linked 0x200000 (λ _, 4).

Lemma demo_linked : linked_ok demo_link.
Proof. by intros i. Qed.

Fixpoint store_words (m : mem) (a : Z) (vs : list Z) : outcome mem :=
  match vs with [] => Ret m | v :: vs => m ← store64 m a v; store_words m (a + 8) vs end.

Lemma store_words_spec vs m a :
  Forall in64 vs → mapped m a (8 * Z.of_nat (length vs)) →
  ∃ m', store_words m a vs = Ret m' ∧ wrote a (8 * Z.of_nat (length vs)) m m' ∧ words_at m' a vs.
Proof.
  intros HF. revert m a. induction HF as [|v vs Hv HF IH]; intros m a Hm.
  { exists m. split; [done|]. split; [apply wrote_refl|apply words_nil]. }
  cbn [length] in *. rewrite Nat2Z.inj_succ in *. cbn [store_words].
  destruct (store64_wrote m a v) as (m1 & -> & W1 & L1); [eapply mapped_sub; [exact Hm|lia..]|done|]. cbn [obind].
  destruct (IH m1 (a + 8)) as (m2 & -> & W2 & L2); [apply W1; eapply mapped_sub; [exact Hm|lia..]|].
  exists m2. split; [done|]. split.
  - eapply wrote_trans; eapply wrote_weaken; [exact W1|lia|lia|exact W2|lia|lia].
  - apply words_cons. split; [by rewrite (load64_outside _ _ _ _ _ W2) by lia|done].
Qed.

Definition demo_boot : thread := mk_thread MCSOS_THREAD_MAGIC 0 0x8000 THREAD_RUNNING zero_context 0 0 0 0 0 0 0 0.
Definition demo_new : thread :=
  mk_thread MCSOS_THREAD_MAGIC 1 0x8008 THREAD_NEW (mk_context 0x5ff8 0 0 0 0 0 0 0x5000) 0x7000 0 0x4000 0x2000
    0 0 0 0.

Definition memory_of (o : outcome mem) : mem := match o with Ret m => m | _ => ∅ end.
Definition demo_objects : mem :=
  memory_of (m ← store_words (zero_mem 0x1000 0x5000) 0x1000 (thread_words demo_boot);
             store_words m 0x2000 (thread_words demo_new)).

Definition demo_kern1 : kern :=
  mk_kern (<[0x1000 := demo_boot]> (<[0x2000 := demo_boot]> ∅)) None zero_context demo_objects.

(** The switch is called from the running thread. *)
Definition demo_live : Machine.regs :=
  mk_regs 0 11 0 0 (0x2000 + context_offset) (0x1000 + context_offset) 12 0x3000 0 0 0 0 13 14 15 16.

Lemma demo_objects_at :
  mem_ok demo_objects ∧ mapped demo_objects 0x1000 0x5000 ∧
  words_at demo_objects 0x1000 (thread_words demo_boot) ∧ words_at demo_objects 0x2000 (thread_words demo_new).
Proof.
  unfold demo_objects.
  destruct (store_words_spec (thread_words demo_boot) (zero_mem 0x1000 0x5000) 0x1000) as (m1 & -> & W1 & L1);
    [repeat (constructor; [done|]); constructor|eapply mapped_sub; [apply zero_mem_mapped|done..]|].
  destruct (store_words_spec (thread_words demo_new) m1 0x2000) as (m2 & E & W2 & L2);
    [repeat (constructor; [done|]); constructor|apply W1; eapply mapped_sub; [apply zero_mem_mapped|done..]|].
  cbn [obind]. rewrite E. cbn [memory_of]. split_and!; [apply W2, W1, zero_mem_ok|apply W2, W1, zero_mem_mapped| |done].
  eapply words_wrote; [exact W2|by left|done].
Qed.

#[local] Opaque demo_objects.

(** A write to the top of the new stack leaves the objects alone. *)
Lemma demo_threads_in m :
  wrote 0x5ff8 8 demo_objects m → threads_at m (<[0x1000 := demo_boot]> (<[0x2000 := demo_new]> ∅)).
Proof.
  destruct demo_objects_at as (Hok & Hm & H1 & H2). intros W. apply (wrote_ok _ _ _ _ W) in Hok.
  apply (wrote_mapped _ _ _ _ W) in Hm.
  apply (words_wrote _ _ _ _ _ _ W) in H1, H2; [|by left..]. split.
  - intros p t H. rewrite !lookup_insert, lookup_empty in H.
    destruct (decide (0x1000 = p)) as [<-|]; [injection H as <-|destruct (decide (0x2000 = p)) as [<-|]; [injection H as <-|done]];
      (apply thread_at_words; [done|done|done| |done]; eapply mapped_sub; [exact Hm|done|done]).
  - intros p q [t Hp] [u Hq] Hne. rewrite !lookup_insert, lookup_empty in Hp, Hq.
    change (sizeof mcsos_thread_t) with 160. repeat case_decide; try done; lia.
Qed.

Lemma demo_threads_at : threads_at demo_objects (<[0x1000 := demo_boot]> (<[0x2000 := demo_new]> ∅)).
Proof. apply demo_threads_in, wrote_refl. Qed.

Lemma stub_call_alignment_witness :
  as_stub (run demo_link isr_S (abi_callee (trap_callee quiet_dev (repeat 0 11))) trap_regs 39 (Stub 3)
             trap_regs trap_ram reset_machine) =
  isr_stub quiet_dev (repeat 0 11) 3 trap_regs trap_regs trap_ram reset_machine.
Proof.
  refine (proj1 (stub_call_alignment quiet_dev (repeat 0 11) demo_link trap_regs trap_regs trap_ram
    reset_machine 3 8368) _ _); [lia|reflexivity].
Defined.

Lemma gates_run_stubs_witness :
  ∃ t' m1, x86_64_idt_init quiet_dev (repeat 0 11) (x86_64_exception_stubs_S demo_link)
             (addr_of demo_link80 syscall_entry_S 0) 0x10000 zero_idt reset_machine = Ret (Some t', m1) ∧
    deliver t' 14 ≠ None ∧ deliver t' 0x80 ≠ None.
Proof.
  destruct (gates_run_stubs quiet_dev (repeat 0 11) demo_link demo_link80 demo_linked ltac:(done) ltac:(done)
    0x10000 zero_idt reset_machine) as (t' & m1 & E & HV & (a & p & H80 & _)); [done..|apply reset_log_ok|].
  exists t', m1. split; [exact E|]. split; [|by rewrite H80].
  destruct (HV 14 ltac:(lia)) as (b & q & H & _). by rewrite H.
Defined.

Lemma demo_switch_words : Forall in64 (ctx_words (save_ctx (resume demo_link) demo_live)).
Proof. repeat (constructor; [done|]). constructor. Qed.

Definition no_calls : callee unit := λ _ _ _ _, UB.

Lemma context_switch_refines_witness :
  ∃ m' r', run demo_link context_switch_S no_calls demo_live 20 (Sym "mcsos_context_switch") demo_live demo_objects tt =
    Ret (LeftTo 0x5000, mk_x 0 r' m' tt) ∧ rsp r' = 0x5ff8.
Proof.
  destruct (context_switch_refines demo_link no_calls demo_live demo_linked demo_objects
    (<[0x1000 := demo_boot]> (<[0x2000 := demo_new]> ∅)) _ (save_ctx 0 demo_live) _ 0x1000 0x2000 demo_live tt
    demo_threads_at ltac:(done) ltac:(reflexivity)) as (m' & r' & _ & _ & (HL & _) & H & _);
    [by repeat split|apply demo_switch_words|done|done|].
  exists m', r'. split; [|exact HL]. apply H. reflexivity.
Defined.

(** The switch back, from a context at [0x4000], after the switched-to thread
    has used other memory. *)
Definition demo_back : Machine.regs :=
  mk_regs 0 21 0 0 (0x1000 + context_offset) 0x4000 22 0x5000 0 0 0 0 23 24 25 26.

Lemma demo_back_ok : Forall in64 (ctx_words (save_ctx (resume demo_link) demo_back)) ∧ ctx_ok (rdi demo_back).
Proof. split; [repeat (constructor; [done|]); constructor|by split]. Qed.

Definition demo_later (m : mem) : mem := zero_mem 0x3000 0x2000 ∪ m.

Lemma zero_mem_outside a n i : i < a ∨ a + n ≤ i → zero_mem a n !! i = None.
Proof. intros Hi. unfold zero_mem. rewrite lookup_zero_bytes, decide_False by lia. done. Qed.

Lemma demo_later_zero m i : 0x3000 ≤ i < 0x5000 → demo_later m !! i = zero_mem 0x3000 0x2000 !! i.
Proof.
  intros Hi. unfold demo_later. destruct (zero_mem_mapped 0x3000 0x2000 i) as [b Hb]; [lia|].
  rewrite Hb. by apply lookup_union_Some_l.
Qed.

Lemma context_switch_roundtrip_witness :
  ∃ a st1 st2,
    run demo_link context_switch_S no_calls demo_live 20 (Sym "mcsos_context_switch") demo_live demo_objects tt =
      Ret (LeftTo a, st1) ∧
    run demo_link context_switch_S no_calls demo_live 20 (Sym "mcsos_context_switch") demo_back
      (demo_later (xmem st1)) tt = Ret (LeftTo 0, st2) ∧
    rsp (xregs st2) = 0x3008 ∧ rbx (xregs st2) = 11.
Proof.
  destruct (context_switch_roundtrip demo_link no_calls demo_live demo_linked demo_objects demo_live tt
    (ctxt demo_new) 0) as (a & st1 & E & Hback).
  - apply demo_switch_words.
  - by split.
  - by split.
  - apply (thread_ctx_ok demo_objects 0x1000 demo_boot), demo_threads_at. reflexivity.
  - left. by vm_compute.
  - apply (ta_context demo_objects 0x2000 demo_new). apply demo_threads_at. reflexivity.
  - reflexivity.
  - left. reflexivity.
  - destruct (Hback (demo_later (xmem st1)) demo_back tt) as (st2 & E2 & H1 & _ & H2 & _).
    + intros i Hi. apply lookup_union_r. apply zero_mem_outside. change (rdi demo_live) with 0x1020 in Hi. lia.
    + rewrite <- (load_zero_mem 8 0x3000 0x2000 0x3000) by lia. apply (load_le_ext 8). intros i Hi.
      apply demo_later_zero. change (rsp demo_live) with 0x3000 in Hi. lia.
    + apply demo_back_ok.
    + reflexivity.
    + apply demo_back_ok.
    + intros i Hi. change (rdi demo_back) with 0x4000 in Hi. rewrite demo_later_zero by lia.
      apply zero_mem_mapped. lia.
    + right. apply Z.leb_le. reflexivity.
    + right. apply Z.leb_le. reflexivity.
    + exists a, st1, st2. exact (conj E (conj E2 (conj H1 H2))).
Defined.

Lemma demo_prepares : ∃ m1,
  mcsos_thread_prepare 0x5000 demo_kern1 0x2000 0x8008 0x7000 0 0x4000 0x2000 1 =
    Ret (MCSOS_SCHED_OK, mk_kern (<[0x2000 := demo_new]> (threads demo_kern1)) None zero_context m1) ∧
  wrote 0x5ff8 8 demo_objects m1.
Proof.
  destruct demo_objects_at as (_ & Hm & _).
  pose proof (thread_prepare_spec 0x5000 demo_kern1 0x2000 0x8008 0x7000 0 0x4000 0x2000 1 demo_boot
    ltac:(lia) ltac:(lia) eq_refl ltac:(eapply mapped_sub; [exact Hm|lia|lia])) as H.
  rewrite !decide_False in H by lia. 
  change (0x4000 + 0x2000 - (0x4000 + 0x2000) mod 16 - 8) with 0x5ff8 in H.
  destruct H as (m1 & E & _ & _ & _ & _ & W). exists m1. split; [exact E|exact W].
Qed.

Lemma thread_first_run_witness :
  ∃ k1 m' r', mcsos_thread_prepare 0x5000 demo_kern1 0x2000 0x8008 0x7000 0 0x4000 0x2000 1 =
      Ret (MCSOS_SCHED_OK, k1) ∧
    run demo_link context_switch_S no_calls demo_live 20 (Sym "mcsos_context_switch") demo_live (kmemory k1) tt =
      Ret (LeftTo 0x5000, mk_x 0 r' m' tt) ∧ load64 m' (rsp r') = Ret 0.
Proof.
  destruct demo_prepares as (m1 & E1 & W). destruct demo_objects_at as (_ & Hm & _).
  destruct (thread_first_run demo_link no_calls demo_live demo_linked 0x5000 demo_kern1 _ demo_boot
    demo_boot 0x2000 0x8008 0x7000 0 0x4000 0x2000 1 0x1000 m1 demo_live tt
    ltac:(lia) ltac:(lia) eq_refl ltac:(eapply mapped_sub; [exact Hm|lia|lia]) E1)
    as (m' & r' & E & _ & _ & _ & H & _).
  - exact (demo_threads_in m1 W).
  - done.
  - reflexivity.
  - lia.
  - left. by vm_compute.
  - reflexivity.
  - apply demo_switch_words.
  - reflexivity.
  - reflexivity.
  - eexists _, m', r'. split; [exact E1|]. exact (conj E H).
Defined.

(** A C function that does nothing, behind both kinds of stub. *)
Definition returns : callee unit := λ _ _ m s, Ret (Some m, s).

Lemma struct_layouts_agree_witness :
  ∃ m1 m2, as_stub (run demo_link80 syscall_entry_S returns trap_regs 16 (Sym "x86_64_syscall_int80_stub")
                      trap_regs trap_ram tt) = Ret (Some (set_rax (after_call trap_regs trap_regs) 0, m1), tt) ∧
    load_member mcsos_syscall_frame_t "arg3" m1 (8328 - 64) = Ret (r10 trap_regs) ∧
    as_stub (run demo_link80 isr_S returns trap_regs 39 (Stub 14) trap_regs trap_ram tt) =
      Ret (Some (set_rsp trap_regs (8328 + 8), m2), tt) ∧
    load_member x86_64_trap_frame_t "vector" m2 (8328 + 8 - 136) = Ret 14.
Proof.
  destruct (struct_layouts_agree demo_link80 returns trap_regs trap_regs trap_ram tt) as (_ & H80 & HT).
  destruct H80 as (m1 & _ & HL & H0 & HR).
  - repeat (constructor; [done|]). constructor.
  - done.
  - eapply mapped_sub; [apply zero_mem_mapped|by vm_compute|by vm_compute].
  - destruct (HT 14) as (m2 & _ & HL2 & HV & _ & _ & _ & _ & HR2).
    + lia.
    + exact trap_regs_in64.
    + done.
    + eapply mapped_sub; [apply zero_mem_mapped|by vm_compute|by vm_compute].
    + exists m1, m2. split; [rewrite (HR (Some m1) tt eq_refl), H0; reflexivity|].
      split; [apply (HL "arg3"%string R10), (list_elem_of_lookup_2 call_regs 4 _ eq_refl)|].
      split; [exact (HR2 (Some m2) tt eq_refl trap_regs HL2)|exact HV].
Defined.
