(* ===== verification/KernelCall.v ===== *)
(** * A system call from end to end

    The instruction [int $0x80] in kernel code, with the descriptor table, the
    assembly of [syscall_entry.S], the system-call layer and the kernel's own
    callbacks: from the interrupted instruction to the resumed one. *)

From Stdlib Require Import (notations) String.
From S2P Require Import Prelude Mem Layout Machine Console ConsoleProofs ConsoleTheorems Interrupts InterruptProofs.
From S2P Require Import InterruptSpecs InterruptTheorems Syscall SyscallTheorems Kmain KmainProofs KmainTheorems.
From S2P Require Import Asm AsmProofs ContextSwitch AsmTheorems.
#[local] Open Scope Z_scope.

(** ** The instruction *)

(** [int $0x80] with the code at the gate's address: the processor aligns the
    stack, pushes [ss], [rsp], [rflags], [cs] and [rip], clears the interrupt
    flag (the gate is an interrupt gate) and goes to the handler; the [iretq] of
    the stub takes the words back.  The result holds the registers, the address
    at which execution resumes, the memory and the machine. *)
Definition cpu_int80 (dev : device) (region : mcsos_user_region) (lk : linked) (t : idt_state) (c : regs)
    (ss cs rip : Z) (r : regs) (ram : mem) (m : machine) : outcome (regs * Z * mem * machine) :=
  h ← (match deliver t 0x80 with Some h => Ret h | None => UB end);
  p ← (match at_addr lk syscall_entry_S h with Some p => Ret p | None => UB end);
  ' (r1, ram) ← push_all [ss; rsp r; rflags m; cs; rip] (set_rsp r (Z.land (rsp r) (not64 15)), ram);
  let m1 := set_rflags m (Z.land (rflags m) (not64 (Z.shiftl 1 9))) in
  ' (e, st) ← loop 16 (step lk syscall_entry_S (syscall_callee (kernel_syscalls dev region)) c) (mk_x p r1 ram m1);
  match e with
  | AtIret =>
      rip ← load64 (xmem st) (rsp (xregs st));
      flags ← load64 (xmem st) (rsp (xregs st) + 16);
      sp ← load64 (xmem st) (rsp (xregs st) + 24);
      Ret (set_rsp (xregs st) sp, rip, xmem st, set_rflags (xworld st) flags)
  | _ => UB
  end.

(** ** The kernel's callbacks leave the memory alone *)

#[export] Instance kernel_backend_ram dev region sp ram :
  SyscallBackend (kernel_syscalls dev region) (λ w, w.1 = ram ∧ serving region sp w).
Proof.
  split.
  - intros f w [= <-] HI. unfold k_get_ticks, call. cbn. destruct w. by eexists _, _.
  - intros f w [= <-] HI. by exists w.
  - intros f w code [= <-] HI _. by exists w.
  - exists (k_write_serial dev). split; [done|]. intros [ram' m] buf len [Hw HI] Hb Hb64 Hlen Hr.
    destruct (k_write_serial_spec dev buf len ram' m) as (m' & E & HL & _); [done| |apply HI|lia|].
    { destruct Hr as [->|(_ & H1 & H2)]; [intros i Hi; lia|].
      eapply mapped_sub; [apply HI|done|cbn in H2 |- *; lia]. }
    exists len, (ram', m'). split; [exact E|]. split; [lia|]. split; [done|by eapply serving_machine].
Qed.

Lemma as_stub_inv {S} (o : outcome (stop * xstate S)) r m s :
  as_stub o = Ret (Some (r, m), s) → ∃ st, o = Ret (AtIret, st) ∧ xregs st = r ∧ xmem st = m ∧ xworld st = s.
Proof. destruct o as [[[| |] st]| |]; simpl; try done. intros [= <- <- <-]. by exists st. Qed.

(** The stub with the kernel's callbacks, for every content of the registers. *)
Lemma kernel_stub_runs dev region lk c r ram m :
  user_region_ok region → regs_ok r → 64 < rsp r < 2 ^ 64 → serving region (rsp r) (ram, m) →
  ∃ ram1 ram2 ret m1 st,
    wrote (rsp r - 64) 64 ram ram1 ∧
    mcsos_syscall_dispatch (kernel_syscalls dev region) (rax r) (rdi r) (rsi r) (rdx r) (r10 r) (r8 r) (r9 r) (ram1, m)
      = Ret (ret, (ram1, m1)) ∧
    loop 16 (step lk syscall_entry_S (syscall_callee (kernel_syscalls dev region)) c) (mk_x 0 r ram m) = Ret (AtIret, st) ∧
    xregs st = set_rax (after_call c r) (u64 ret) ∧ xmem st = ram2 ∧ xworld st = m1 ∧
    wrote (rsp r - 64) 64 ram ram2 ∧ - 2 ^ 63 ≤ ret < 2 ^ 63 ∧ latched m1.
Proof.
  intros Hreg Hr Hsp HS. destruct (int80_enters c (kernel_syscalls dev region) r (ram, m)) as (ram1 & HW & E);
    [apply HS|done|done|]. cbn [fst snd] in HW, E.
  pose proof (stack_frame (KernelStack := kernel_stack region (rsp r) Hsp) _ _ _ HS HW) as HS1.
  pose proof Hr as (H0 & H1 & H2 & _).
  destruct (dispatch_safe (kernel_syscalls dev region) (rdi r) (rsi r) (rdx r) (r10 r) (r8 r) (r9 r) (ram1, m)
    (λ w, w.1 = ram1 ∧ serving region (rsp r) w) (rax r)) as (ret & [ram1' m1] & ED & Hret & Hw & HS2);
    [done|apply H0|done|done|done|]. cbn [fst] in Hw. subst ram1'.
  rewrite ED in E. cbn [obind fst snd] in E.
  destruct (store64_wrote ram1 (rsp r - 64 + 56) (u64 ret)) as (ram2 & ES & HW2 & HL);
    [apply HW; eapply mapped_sub; [exact (serving_stack _ _ _ HS)|lia..]|apply u64_range|].
  rewrite ES in E. cbn [obind] in E. rewrite HL in E. cbn [obind] in E.
  pose proof (int80_runs lk c (kernel_syscalls dev region) 0 r ram m ltac:(lia)) as HRun. rewrite E in HRun.
  apply as_stub_inv in HRun as (st & HRun & R1 & R2 & R3).
  exists ram1, ram2, ret, m1, st. split_and!; try done; try lia.
  - eapply wrote_trans; [exact HW|]. eapply wrote_weaken; [exact HW2|lia..].
  - apply HS2.
Qed.

(** C6: A system call from end to end.  With the descriptor table of
    [x86_64_idt_init] and the kernel's own callbacks, the instruction
    [int $0x80] in kernel code comes back, for every content of the registers
    and whatever the C code leaves in its scratch registers: execution resumes
    at the next instruction with the stack pointer, the callee-saved registers
    and the flags as they were, [rax] holds the 64-bit result of the call, which
    ran with interrupts disabled on the number and arguments in the registers,
    and the only memory written are the 104 bytes below the aligned stack
    pointer.  The serial line is ready for the next call. *)
Theorem kernel_int80_resumes (dev : device) (region : mcsos_user_region) (lk : linked) (stubs : list Z)
    (idt_addr : Z) (t : idt_state) (c : regs) (ss cs rip : Z) (r : regs) (ram : mem) (m : machine) :
  idt_ready stubs (addr_of lk syscall_entry_S 0) idt_addr t → in64 (origin lk) →
  user_region_ok region → regs_ok r → Forall in64 [ss; rsp r; rflags m; cs; rip] → latched m → mem_ok ram →
  mapped ram (base region) (limit region - base region) →
  let sp := rsp r - rsp r mod 16 in
  let m0 := set_rflags m (Z.land (rflags m) (not64 (Z.shiftl 1 9))) in
  104 < sp → mapped ram (sp - 104) 104 →
  ∃ ram1 ret m1 r' ram',
    wrote (sp - 104) 104 ram ram1 ∧
    mcsos_syscall_dispatch (kernel_syscalls dev region) (rax r) (rdi r) (rsi r) (rdx r) (r10 r) (r8 r) (r9 r)
      (ram1, m0) = Ret (ret, (ram1, m1)) ∧
    cpu_int80 dev region lk t c ss cs rip r ram m = Ret (r', rip, ram', set_rflags m1 (rflags m)) ∧
    i64 (rax r') = ret ∧ rsp r' = rsp r ∧ rbx r' = rbx r ∧ rbp r' = rbp r ∧
    r12 r' = r12 r ∧ r13 r' = r13 r ∧ r14 r' = r14 r ∧ r15 r' = r15 r ∧
    wrote (sp - 104) 104 ram ram' ∧ latched m1.
Proof.
  intros Hrdy H80 Hreg Hr Hin Hlat Hok Hus sp m0 Hsp Hm. destruct (gate_int80 _ _ _ _ Hrdy H80) as [HD HA].
  assert (Hr64 : in64 (rsp r)) by (by apply (Forall_lookup_1 _ _ 1%nat _ Hin)).
  assert (Hsp64 : sp < 2 ^ 64) by (unfold in64, sp in *; pose proof (Z.mod_pos_bound (rsp r) 16); lia).
  destruct (push_all_spec [ss; rsp r; rflags m; cs; rip] (set_rsp r sp) ram 40) as (ram0 & E0 & W0 & L0);
    [done|cbn; lia|cbn; eapply mapped_sub; [exact Hm|lia..]|done|].
  change (set_rsp (set_rsp r sp) _) with (set_rsp r (sp - 40)) in E0. change (rsp (set_rsp r sp)) with sp in *.
  destruct (kernel_stub_runs dev region lk c (set_rsp r (sp - 40)) ram0 m0)
    as (ram1 & ram2 & ret & m1 & st & W1 & ED & ER & R1 & R2 & R3 & W2 & Hret & HL).
  - done.
  - exact Hr.
  - cbn. lia.
  - split; cbn [fst snd rsp set_rsp]; [by apply W0|by apply W0|apply W0; eapply mapped_sub; [exact Hm|lia..]|exact Hlat].
  - cbn [rsp set_rsp] in W1, W2.
    assert (Hkeep : ∀ i v, [ss; rsp r; rflags m; cs; rip] !! i = Some v →
      load64 ram2 (sp - 8 * Z.of_nat (S i)) = Ret v).
    { intros i v Hi. rewrite (load64_outside _ _ _ _ _ W2); [by apply L0|].
      apply lookup_lt_Some in Hi. simpl in Hi. lia. }
    exists ram1, ret, m1, (set_rsp (xregs st) (rsp r)), ram2. unfold cpu_int80.
    rewrite HD. cbn [obind]. rewrite HA. cbn [obind]. change (not64 15) with (not64 (Z.ones 4)).
    rewrite land_not64_ones by (done || lia). change (2 ^ 4) with 16. fold sp. rewrite E0. cbn [obind].
    fold m0. rewrite ER. cbn [obind]. rewrite R1, R2, R3. cbn [set_rax after_call set_rsp rsp].
    rewrite (Hkeep 4%nat rip eq_refl : load64 ram2 (sp - 40) = _).
    replace (sp - 40 + 16) with (sp - 24) by lia. replace (sp - 40 + 24) with (sp - 16) by lia.
    rewrite (Hkeep 2%nat (rflags m) eq_refl : load64 ram2 (sp - 24) = _).
    rewrite (Hkeep 1%nat (rsp r) eq_refl : load64 ram2 (sp - 16) = _).
    cbn [obind]. split_and!; try done; [|by apply i64_u64|].
    + eapply wrote_trans; eapply wrote_weaken; [exact W0|lia|lia|exact W1|lia|lia].
    + eapply wrote_trans; eapply wrote_weaken; [exact W0|lia|lia|exact W2|lia|lia].
Qed.

(** A write of three bytes from a 16-byte user region, on a stack that ends at
    4352. *)
Definition caller_regs : regs := mk_regs 2 11 0 0 3 4096 12 4352 0 0 0 0 13 14 15 16.

Lemma demo_ready : ∃ t,
  idt_ready (x86_64_exception_stubs_S demo_link) (addr_of demo_link80 syscall_entry_S 0) 0x10000 t.
Proof.
  destruct (idt_init_spec quiet_dev (repeat 0 11) (x86_64_exception_stubs_S demo_link)
    (addr_of demo_link80 syscall_entry_S 0) 0x10000 zero_idt) as (t & H & _); [done..|]. by exists t.
Qed.

Lemma kernel_int80_resumes_witness :
  ∃ t r' ram' m', cpu_int80 board small_region demo_link80 t caller_regs 16 8 0x7000 caller_regs
    (zero_mem 4096 256) ready_machine = Ret (r', 0x7000, ram', m') ∧ rsp r' = 4352 ∧ rbx r' = 11.
Proof.
  destruct demo_ready as [t Ht].
  destruct (kernel_int80_resumes board small_region demo_link80 _ _ t caller_regs 16 8 0x7000 caller_regs
    (zero_mem 4096 256) ready_machine Ht) as (ram1 & ret & m1 & r' & ram' & _ & _ & E & _ & H1 & H2 & _).
  - by split.
  - by repeat split.
  - by repeat split.
  - repeat (constructor; [by split|]). constructor.
  - reflexivity.
  - apply zero_mem_ok.
  - apply (mapped_sub _ 4096 256); [apply zero_mem_mapped|by cbn|by cbn].
  - reflexivity.
  - apply (mapped_sub _ 4096 256); [apply zero_mem_mapped|by vm_compute|by vm_compute].
  - eexists t, r', ram', _. split; [exact E|]. split; [exact H1|exact H2].
Defined.
