(* ===== verification/HostTests.v ===== *)
(** * The repository's host tests, run on the model

    Each of [src/tests/test_*.c] is transcribed as a program over the modelled
    functions, assertion by assertion, and evaluated: it returns, so every
    assertion of the test holds of the model, and no call of it runs into
    undefined behaviour or out of fuel.  This checks the definitions against
    what the repository itself expects of them; nothing depends on it.

    The objects a test declares (arena, stacks, buffers, threads) lie at fixed
    addresses here.  The physical memory manager's test passes a bitmap of
    2 MiB of which [pmm_init_from_map] uses 2048 bytes; those are passed. *)

From S2P Require Import Prelude Mem Pmm Vmm Kmem Sched Machine Syscall.
Open Scope Z_scope.
Open Scope mcsos_scope.

(** [assert] of the C library: a failing one does not return. *)
Definition check (b : bool) : outcome unit := if b then Ret tt else UB.

(** A call whose result the test compares with the expected value. *)
Definition expect {S} (r : outcome (Z * S)) (v : Z) : outcome S :=
  ' (x, s) ← r; _ ← check (x =? v); Ret s.

Definition passes {A} (t : outcome A) : Prop := is_Some (match t with Ret a => Some a | _ => None end).

Ltac run_test := by vm_compute; eexists.

(** ** [test_pmm_host.c] *)
Definition pmm_test_regions : list boot_mem_region :=
  [ Pmm.mk_region 0x00000000 0x0009f000 BOOT_MEM_USABLE;
    Pmm.mk_region 0x0009f000 0x00001000 BOOT_MEM_RESERVED;
    Pmm.mk_region 0x00100000 0x00300000 BOOT_MEM_USABLE;
    Pmm.mk_region 0x00400000 0x00100000 BOOT_MEM_KERNEL_AND_MODULES;
    Pmm.mk_region 0x00500000 0x00400000 BOOT_MEM_USABLE ].

Definition check_free (p : option pmm_state) (a : Z) (want : bool) : outcome unit :=
  b ← pmm_is_frame_free p a; check (Bool.eqb b want).

Definition test_pmm_host : outcome unit :=
  ' (ok, p) ← pmm_init_from_map (Some zeroed_pmm) (Some pmm_test_regions) 5
                (Some (repeat 0 2048)) 2048 (64 * 1024 * 1024);
  _ ← check ok;
  _ ← check (pmm_frame_count p =? 64 * 1024 * 1024 / PMM_PAGE_SIZE);
  _ ← check_free p 0 false;
  _ ← check_free p 0x00100000 true;
  _ ← check_free p 0x00400000 false;
  let before := pmm_free_count p in
  ' (frame, p) ← pmm_alloc_frame p;
  _ ← check (negb (frame =? PMM_INVALID_FRAME));
  _ ← check (Z.land frame (PMM_PAGE_SIZE - 1) =? 0);
  _ ← check_free p frame false;
  _ ← check (pmm_free_count p =? before - 1);
  ' (ok, p) ← pmm_free_frame p frame;
  _ ← check ok;
  _ ← check (pmm_free_count p =? before);
  ' (ok, p) ← pmm_free_frame p frame;
  _ ← check (negb ok);
  ' (ok, p) ← pmm_reserve_range p 0x00500000 0x2000;
  _ ← check ok;
  _ ← check_free p 0x00500000 false;
  check_free p 0x00501000 false.

Example test_pmm_host_passes : passes test_pmm_host.
Proof. run_test. Qed.

(** ** [test_vmm_host.c]

    The test's 64 frames start at [phys]; the allocator's state is the array
    [used].  Only the first eight frames are mapped, which is stronger: an access
    to another frame would be undefined, so the test touches no other. *)
Definition TEST_FRAMES : Z := 64.
Definition phys : Z := 0x100000.

Definition host_phys_to_virt : vmm_phys_to_virt_fn (list bool) := λ _ _ paddr,
  if negb (vmm_is_aligned_4k paddr) then Ret 0
  else
    let frame := paddr / VMM_PAGE_SIZE in
    if TEST_FRAMES <=? frame then Ret 0 else Ret (phys + frame * VMM_PAGE_SIZE).

Definition host_alloc_step (s : list bool * mem * Z)
    : outcome (list bool * mem * Z + Z * list bool * mem) :=
  let '(used, m, i) := s in
  if i <? TEST_FRAMES then
    b ← rd used i;
    if b then Ret (inl (used, m, i + 1))
    else
      used ← wr used i true;
      m ← kmem_memset m (phys + i * VMM_PAGE_SIZE) 0xA5 VMM_PAGE_SIZE;
      Ret (inr (i * VMM_PAGE_SIZE, used, m))
  else Ret (inr (VMM_INVALID_PHYS, used, m)).

Definition host_alloc : vmm_alloc_frame_fn (list bool) := λ _ used m,
  loop 64 host_alloc_step (used, m, 2).

Definition host_free : vmm_free_frame_fn (list bool) := λ _ used m paddr,
  _ ← check (vmm_is_aligned_4k paddr);
  let frame := paddr / VMM_PAGE_SIZE in
  _ ← check (frame <? TEST_FRAMES);
  used ← wr used frame false;
  Ret (used, m).

Definition vmm_test_world : vm (list bool) :=
  mk_vm (<[1%nat := true]> (repeat false 64)) (zero_mem phys (8 * VMM_PAGE_SIZE))
    (mk_cpu 0 0 []).

Definition query (sp : option (vmm_space (list bool))) (w : vm (list bool)) (va : Z)
    : outcome (Z * option vmm_mapping) :=
  vmm_query_page sp w va (Some (mk_mapping 0 0 0)).

Definition test_vmm_host : outcome unit :=
  let '(rc, sp) := vmm_space_init (Some (mk_space 0 0 None None None)) VMM_PAGE_SIZE 0
                     (Some host_alloc) (Some host_free) (Some host_phys_to_virt) in
  _ ← check (rc =? VMM_MAP_OK);
  let w := vmm_test_world in
  _ ← check (vmm_is_canonical 0xFFFF800000200000);
  _ ← check (negb (vmm_is_canonical 0x0000800000000000));
  w ← expect (vmm_map_page sp w 0xFFFF800000200000 0x300000
                (Z.lor (Z.lor VMM_PTE_WRITABLE VMM_PTE_GLOBAL) VMM_PTE_NO_EXECUTE)) VMM_MAP_OK;
  m ← expect (query sp w 0xFFFF800000200000) VMM_MAP_OK;
  _ ← match m with
      | None => UB
      | Some m =>
          check ((map_vaddr m =? 0xFFFF800000200000) && (map_paddr m =? 0x300000)
            && negb (Z.land (map_flags m) VMM_PTE_PRESENT =? 0)
            && negb (Z.land (map_flags m) VMM_PTE_WRITABLE =? 0)
            && negb (Z.land (map_flags m) VMM_PTE_NO_EXECUTE =? 0))
      end;
  w ← expect (vmm_map_page sp w 0xFFFF800000200000 0x400000 0) VMM_ERR_EXISTS;
  w ← expect (vmm_map_page sp w 0xFFFF800000201000 0x400001 0) VMM_ERR_INVAL;
  w ← expect (vmm_map_page sp w 0x0000800000000000 0x400000 0) VMM_ERR_INVAL;
  w ← expect (vmm_unmap_page sp w 0xFFFF800000200000) VMM_MAP_OK;
  _ ← expect (query sp w 0xFFFF800000200000) VMM_ERR_NOT_FOUND;
  w ← expect (vmm_unmap_page sp w 0xFFFF800000200000) VMM_ERR_NOT_FOUND;
  w ← expect (vmm_map_page sp w 0x400000 0x500000 VMM_PTE_WRITABLE) VMM_MAP_OK;
  m ← expect (query sp w 0x400000) VMM_MAP_OK;
  match m with None => UB | Some m => check (map_paddr m =? 0x500000) end.

Example test_vmm_host_passes : passes test_vmm_host.
Proof. run_test. Qed.

(** ** [test_kmem.c] *)
Definition arena : Z := 0x10000.
Definition arena_bytes : Z := 4096 * 8.

(** [kmem_init] on the test's arena; the tests share it, so each takes the
    allocator and the memory the one before left. *)
Definition test_init (g : kmem) (m : mem) : outcome (kmem * mem) :=
  ' (rc, g, m) ← kmem_init g m arena arena_bytes;
  _ ← check (rc =? 0);
  Ret (g, m).

Definition alloc_ok (g : kmem) (m : mem) (n : Z) : outcome (Z * mem) :=
  ' (p, m) ← kmem_alloc g m n;
  _ ← check (negb (p =? 0));
  Ret (p, m).

Definition free_ok (g : kmem) (m : mem) (p : Z) : outcome mem :=
  expect (kmem_free_checked g m p) 0.

Definition validate_ok (g : kmem) (m : mem) : outcome unit :=
  rc ← kmem_validate g m; check (rc =? 0).

Definition test_basic_alloc_free (g : kmem) (m : mem) : outcome (kmem * mem) :=
  ' (g, m) ← test_init g m;
  ' (a, m) ← alloc_ok g m 24;
  ' (b, m) ← alloc_ok g m 128;
  ' (c, m) ← alloc_ok g m 4096;
  _ ← check (forallb (λ p, Z.land p (KMEM_ALIGN - 1) =? 0) [a; b; c]);
  m ← kmem_memset m a 0x11 24;
  m ← kmem_memset m b 0x22 128;
  m ← kmem_memset m c 0x33 4096;
  _ ← validate_ok g m;
  m ← free_ok g m b;
  m ← free_ok g m a;
  m ← free_ok g m c;
  _ ← validate_ok g m;
  Ret (g, m).

Definition test_calloc_and_overflow (g : kmem) (m : mem) : outcome (kmem * mem) :=
  ' (g, m) ← test_init g m;
  ' (z, m) ← kmem_calloc g m 64 4;
  _ ← check (negb (z =? 0));
  _ ← check (forallb (λ i, bool_decide (m !! (z + Z.of_nat i) = Some 0)) (seq 0 256));
  m ← expect (kmem_calloc g m (u64 (-1)) 2) 0;
  m ← free_ok g m z;
  Ret (g, m).

Definition test_double_free_rejected (g : kmem) (m : mem) : outcome (kmem * mem) :=
  ' (g, m) ← test_init g m;
  ' (p, m) ← alloc_ok g m 512;
  m ← free_ok g m p;
  ' (rc, m) ← kmem_free_checked g m p;
  _ ← check (rc <? 0);
  Ret (g, m).

(** The test's loops over [p[0 .. 15]]. *)
Fixpoint alloc_all (g : kmem) (m : mem) (sizes : list Z) : outcome (list Z * mem) :=
  match sizes with
  | [] => Ret ([], m)
  | n :: sizes =>
      ' (p, m) ← alloc_ok g m n;
      ' (ps, m) ← alloc_all g m sizes;
      Ret (p :: ps, m)
  end.

Fixpoint free_all (g : kmem) (m : mem) (ps : list Z) : outcome mem :=
  match ps with
  | [] => Ret m
  | p :: ps => m ← free_ok g m p; free_all g m ps
  end.

Definition pick (odd : bool) (ps : list Z) : list Z :=
  omap (λ i, if Bool.eqb (Nat.odd i) odd then ps !! i else None) (seq 0 16).

Definition test_fragmentation_and_coalesce (g : kmem) (m : mem) : outcome (kmem * mem) :=
  ' (g, m) ← test_init g m;
  ' (ps, m) ← alloc_all g m (map (λ i, 256 + Z.of_nat i) (seq 0 16));
  _ ← check (bool_decide (length ps = 16%nat));
  m ← free_all g m (pick false ps);
  m ← free_all g m (pick true ps);
  st ← kmem_get_stats g m (Some (mk_stats 0 0 0 0 0 0));
  match st with
  | None => UB
  | Some st =>
      _ ← check ((free_count st =? 1) && (block_count st =? 1) && (4096 <? largest_free st));
      Ret (g, m)
  end.

Definition test_kmem : outcome (kmem * mem) :=
  ' (g, m) ← test_basic_alloc_free kmem_boot (zero_mem arena arena_bytes);
  ' (g, m) ← test_calloc_and_overflow g m;
  ' (g, m) ← test_double_free_rejected g m;
  test_fragmentation_and_coalesce g m.

Example test_kmem_passes : passes (' (g, m) ← test_kmem; Ret (g_head g)).
Proof. run_test. Qed.

(** ** [test_scheduler.c]

    The threads [boot], [a] and [b] are the objects at 100, 200 and 300; the two
    stacks of 8192 bytes are the memory at [stack_a] and [stack_b]. *)
Definition thread_boot : Z := 100.
Definition thread_a : Z := 200.
Definition thread_b : Z := 300.
Definition stack_a : Z := 0x20000.
Definition stack_b : Z := 0x22000.

(** Addresses of [noop], the trampoline, the resume label and the names. *)
Definition noop : Z := 0x7000.
Definition trampoline : Z := 0x5000.
Definition resume_label : Z := 0x6000.
Definition name_boot : Z := 0x8000.
Definition name_a : Z := 0x8008.
Definition name_b : Z := 0x8010.

(** The objects before the test writes them. *)
Definition sched_test_kern : kern :=
  let raw := mk_thread 0 0 0 THREAD_NEW zero_context 0 0 0 0 0 0 0 0 in
  mk_kern (<[thread_boot := raw]> (<[thread_a := raw]> (<[thread_b := raw]> ∅)))
    (Some (mk_sched 0 0 0 0 0 0 0 0 0)) zero_context (zero_mem stack_a 16384).

(** [sched.next_id++] *)
Definition take_id (k : kern) : outcome (Z * kern) :=
  match sched k with
  | None => UB
  | Some s =>
      Ret (next_id s, with_sched k
             (mk_sched (current s) (idle s) (ready_head s) (ready_tail s) (next_id s ⊕ 1)
                (runnable_count s) (context_switches s) (sched_ticks s) (initialized s)))
  end.

Definition prepare_ok (k : kern) (t name stack : Z) : outcome kern :=
  ' (i, k) ← take_id k;
  expect (mcsos_thread_prepare trampoline k t name noop 0 stack 8192 i) MCSOS_SCHED_OK.

Definition check_sched (k : kern) (p : scheduler → bool) : outcome unit :=
  match sched k with None => UB | Some s => check (p s) end.

Definition check_thread (k : kern) (t : Z) (p : thread → bool) : outcome unit :=
  t ← deref (threads k) t; check (p t).

Definition sched_valid (k : kern) : outcome unit :=
  rc ← mcsos_sched_validate k; check (rc =? MCSOS_SCHED_OK).

Definition ready (k : kern) (n : Z) : outcome unit :=
  c ← mcsos_sched_ready_count 8 k; check (c =? n).

Definition test_scheduler : outcome unit :=
  k ← expect (mcsos_scheduler_init name_boot sched_test_kern thread_boot) MCSOS_SCHED_OK;
  _ ← sched_valid k;
  k ← prepare_ok k thread_a name_a stack_a;
  k ← prepare_ok k thread_b name_b stack_b;
  _ ← check_thread k thread_a (λ t, Z.land (Sched.rsp (ctxt t)) 0xf =? 8);
  k ← expect (mcsos_sched_enqueue k thread_a) MCSOS_SCHED_OK;
  k ← expect (mcsos_sched_enqueue k thread_b) MCSOS_SCHED_OK;
  _ ← ready k 2;
  _ ← sched_valid k;
  k ← expect (mcsos_sched_yield resume_label k) MCSOS_SCHED_OK;
  _ ← check_sched k (λ s, current s =? thread_a);
  _ ← check_thread k thread_a (λ t, match state t with THREAD_RUNNING => true | _ => false end);
  _ ← ready k 1;
  k ← expect (mcsos_sched_tick k) MCSOS_SCHED_OK;
  _ ← check_thread k thread_a (λ t, ticks t =? 1);
  k ← expect (mcsos_sched_yield resume_label k) MCSOS_SCHED_OK;
  _ ← check_sched k (λ s, current s =? thread_b);
  k ← expect (mcsos_sched_yield resume_label k) MCSOS_SCHED_OK;
  _ ← check_sched k (λ s, current s =? thread_a);
  _ ← check_sched k (λ s, context_switches s =? 3);
  sched_valid k.

Example test_scheduler_passes : passes test_scheduler.
Proof. run_test. Qed.

(** ** [test_syscall_host.c]

    The world of the callbacks is the pair [(g_yield_count, g_exit_code)];
    [user_buf], [kernel_buf] and [frame] are the memory at the addresses below. *)
Definition user_buf : Z := 0x1000.
Definition kernel_buf : Z := 0x2000.
Definition frame : Z := 0x3000.

Fixpoint write_bytes (m : mem) (a : Z) (bs : list Z) : outcome mem :=
  match bs with
  | [] => Ret m
  | b :: bs => m ← store8 m a b; write_bytes m (a + 1) bs
  end.

Fixpoint holds_bytes (m : mem) (a : Z) (bs : list Z) : outcome bool :=
  match bs with
  | [] => Ret true
  | b :: bs => x ← load8 m a; r ← holds_bytes m (a + 1) bs; Ret ((x =? b) && r)
  end.

Definition hello : list Z := [0x68; 0x65; 0x6c; 0x6c; 0x6f].

Definition fake_ops : mcsos_syscall_ops (Z * Z) :=
  mk_ops (Some (λ w, Ret (12345, w)))
    (Some (λ w, Ret (w.1, (w.2.1 + 1, w.2.2))))
    (Some (λ code w, Ret (w.1, (w.2.1, code))))
    (Some (λ buf len w,
       _ ← check (negb (buf =? 0));
       _ ← check (len =? 5);
       same ← holds_bytes w.1 buf hello;
       _ ← check same;
       Ret (len, w))).

Definition test_syscall_host : outcome unit :=
  let g := mcsos_syscall_set_user_region (mcsos_syscall_init syscalls_boot (Some fake_ops))
             (Syscall.mk_region user_buf (user_buf + 16)) in
  m ← write_bytes (zero_mem user_buf 16 ∪ zero_mem kernel_buf 16 ∪ zero_mem frame 64)
        user_buf hello;
  w ← expect (mcsos_syscall_dispatch g MCSOS_SYS_PING 0 0 0 0 0 0 (m, (0, 0))) 0x2605020A;
  w ← expect (mcsos_syscall_dispatch g MCSOS_SYS_GET_TICKS 0 0 0 0 0 0 w) 12345;
  w ← expect (mcsos_syscall_dispatch g MCSOS_SYS_WRITE_SERIAL user_buf 5 0 0 0 0 w) 5;
  m ← expect (mcsos_copy_from_user g w.1 kernel_buf user_buf 5) MCSOS_OK;
  same ← holds_bytes m kernel_buf hello;
  _ ← check same;
  m ← expect (mcsos_copy_from_user g m kernel_buf 1 5) MCSOS_EFAULT;
  w ← expect (mcsos_syscall_dispatch g 999 0 0 0 0 0 0 (m, w.2)) MCSOS_ENOSYS;
  w ← expect (mcsos_syscall_dispatch g MCSOS_SYS_YIELD 0 0 0 0 0 0 w) MCSOS_OK;
  _ ← check (w.2.1 =? 1);
  w ← expect (mcsos_syscall_dispatch g MCSOS_SYS_EXIT_THREAD 7 0 0 0 0 0 w) MCSOS_OK;
  _ ← check (w.2.2 =? 7);
  m ← store64 w.1 frame MCSOS_SYS_GET_TICKS;
  w ← mcsos_syscall_dispatch_frame g frame (m, w.2);
  ret ← load64 w.1 (frame + 56);
  check (ret =? 12345).

Example test_syscall_host_passes : passes test_syscall_host.
Proof. run_test. Qed.
